(* ===== verification/_CoqProject ===== *)
-Q . S2P
Prelude.v
BinHeap.v
Proto.v
TaskChannel.v
CoordState.v
Coordinator.v
AssignSpec.v
CoordInv.v
PolicyQueue.v
DefaultPolicy.v
BalancedPolicy.v
Capacity.v
CoordSteps.v
CoordLifecycle.v
HandlerFacts.v
Reach.v
Demo.v
CoordProps.v
PolicyProps.v
ReportProps.v
HandlerProps.v
Server.v
ServerProps.v
ApiStore.v
ClusterSync.v
SyncProps.v
Bidder.v
BidderProps.v
Manifest.v
ManifestProps.v
Fulfillment.v
Mainnet.v
FulfillProps.v
Redis.v
RedisFacts.v
RedisProps.v
ProgramStore.v
ProgramStoreProps.v
GatewayIds.v
GatewayFacts.v
Gateway.v
GatewayInv.v
GatewayProps.v
GatewayWitness.v
Node.v
NodeInv.v
NodeProps.v
NodeSync.v
NodeWitness.v
WorkerClient.v
WorkerClientProps.v
Auth.v
WorkerUtil.v
WorkerUtilProps.v
Pool.v
S3.v
S3Facts.v
S3Props.v
Requests.v
RequestsProps.v
RequestsWitness.v
BidderRun.v
BidderRunProps.v
RedisPermits.v
RedisPermitsProps.v
Servers.v
Daemon.v
DaemonProps.v
Bench.v
FulfillRun.v
GatewayServe.v
ApiServe.v
TestOracle.v
