(* ===== verification/Prelude.v ===== *)
(** * A verification library for sp1-cluster

    sp1-cluster proves programs on a fleet of machines. Requests enter a table behind
    the API service; the coordinator claims them, cuts each proof into tasks and hands
    the tasks to workers; results and artifacts travel through an artifact store; a
    bidder and a fulfiller connect the cluster to the prover network, and a gateway lets
    the SDK use the cluster as if it were that network. This library models the parts
    that decide, and proves what each of them promises.

    ** Parts, files and correspondence

    Prelude.v is shared: machine integers as [Z] with their width, the outcome of a
    handler, [slice::chunks], sums over sets and maps, the iteration order of a hash map
    as an interface.

    _Coordinator_ ([bin/coordinator/src/lib.rs], [policy/]). Proto.v and CoordState.v hold
    the messages and the [CoordinatorState], [Proof], [Task], [Worker], [Subscriber]
    records; Coordinator.v has one definition per handler ([create_task], [complete_task],
    [fail_task], [fail_proof], [handle_heartbeat], [remove_worker], ...) and periodic job.
    A handler that holds the state lock throughout is one step; where the source drops
    the lock between a scan and an update, the halves are separate. TaskChannel.v is the
    buffered message stream of a task. BinHeap.v is std's binary heap; PolicyQueue.v,
    DefaultPolicy.v and BalancedPolicy.v are the two assignment policies, behind the class
    [AssignmentPolicy] that the coordinator is written against; AssignSpec.v is the
    abstract assignment step both refine, with the laws ([PolicyLaws]) the coordinator's
    proofs use. CoordInv.v states the invariant; CoordSteps.v, CoordLifecycle.v and
    HandlerFacts.v show that each operation keeps it; Reach.v closes it over all runs.
    Capacity.v has the GPU accounting and the cluster snapshot. Server.v is the tonic
    service in front ([server.rs]): every RPC on the state lock, the spawned registration
    of a worker, and the tasks that feed a subscriber's stream. Daemon.v is the process
    around it ([config.rs], [util.rs], [latency.rs], the start of [server.rs]): settings, the
    middleware, and the two loops, lock by lock, interleaved with requests and shutdown.

    _Worker node_ ([bin/node/src/lib.rs], [heartbeat.rs], [config.rs]). Node.v is
    [run_worker_inner] as an event machine: the main loop with its three arms, the work
    and the reporter of every task, the batches that report wedged tasks and the
    heartbeat thread, each advancing between its await points; the RPCs sent are kept in
    a log. NodeInv.v has its invariant; NodeSync.v puts a node and the coordinator of
    Coordinator.v together.

    _Worker library_ ([crates/worker/src]). WorkerClient.v: the client of the coordinator
    with its retries, the task-message stream with its reconnects run against the
    channel of TaskChannel.v, the subscriber with its two tasks. WorkerUtil.v: the weight
    limiter, locations, configuration, the outcome of a task, execute-only reports.

    _Authentication_ ([crates/common/src/auth.rs]). Auth.v: tokens from the environment, the
    server's layer, the client's interceptor; the gRPC-web layer as a class.

    _API service and its client_ ([bin/api/src/service.rs], [crates/common/src/client.rs]).
    ApiStore.v: each handler over a table of rows, its SQL written out, with failures
    before and after the commit; the client's timeouts, retries and paged listing.
    Servers.v: the pair of servers, gRPC in a task and HTTP in place, that the API and the
    gateway end in. ApiServe.v ([lib.rs], [main.rs]): the API's configuration, its start,
    and the handlers behind authentication.

    _Coordinator and API together_ ([bin/coordinator/src/cluster.rs]). ClusterSync.v: the
    status task, the claimer and the re-issued writes, interleaved with the coordinator
    and with other API clients; a step ends at each await point of the source.

    _Manifest_ (cluster.rs, service.rs, [crates/fulfillment/src/lib.rs], [prover_info.rs]).
    Manifest.v: the component manifest from the coordinator's snapshot to the report
    the fulfiller sends.

    _Bidder_ ([bin/bidder/src/lib.rs], [requirements.rs], [config.rs], [main.rs]). Bidder.v:
    start-up checks, synchronisation of price and policy, admission, the bid pass as one
    function. BidderRun.v: the process, in which the pass waits for answers while the
    tasks that refresh its caches write them and the bids it spawned run side by side.

    _Fulfiller_ ([crates/fulfillment/src/lib.rs], [network.rs]; [bin/fulfiller/src/mainnet.rs]).
    Fulfillment.v is the loop over the class [FulfillmentNetwork]; Mainnet.v implements the
    class over a ledger. FulfillRun.v ([config.rs], [run.rs], [bin/fulfiller/src/main.rs]):
    settings, the choice of the store, the loop with the reports it spawns, the shutdown.

    _Artifact store_ ([crates/artifact/src/redis.rs]). Redis.v: the client's operations over
    the class [RedisServer], whose laws give the documented effect of each command; its
    last part interleaves uploads and downloads command by command. RedisFacts.v has the
    store's invariant. RedisPermits.v: the reply to the memory query, and the semaphore of
    shard permits with its queue and lazy initialisation. S3 ([s3.rs], [s3_sdk.rs], [s3_rest.rs]): S3.v over the class
    [S3Server]; Pool.v is the pool of transfer tasks with its semaphore and bounded
    channel that uploads and downloads share; S3Facts.v has the chunks and retries.

    _Gateway_ ([bin/network-gateway/src]). ProgramStore.v: the program registry, in memory and
    on a filesystem modelled down to inodes. GatewayIds.v: ids, statuses and signatures.
    Gateway.v: the handlers of the prover-network and artifact services over the classes
    [ProgramStore] and [ArtifactStore] and the table of ApiStore.v. GatewayFacts.v and
    GatewayInv.v hold their lemmas and invariant. GatewayServe.v ([lib.rs], [config.rs],
    [main.rs]): configuration, backends, routing, and the servers of Servers.v.

    _Requesting proofs_ ([crates/utils/src/lib.rs]). Requests.v: what the command line does to
    have a batch of proofs made: create, poll, cancel. Bench.v ([bin/cli/src]): the
    benchmarks and the key-generation command on top of it.

    _Test cluster_ ([bin/test-cluster/src/assert.rs], [suite.rs], [main.rs]). TestOracle.v: the
    bounded poll and the checks the end-to-end tests judge a cluster by.

    ** What the theorems show

    CoordProps.v: in every reachable state no live task is lost or held twice, weights and
    counters are exact, and no operation panics. ServerProps.v: runs of the service refine
    runs of the coordinator, and a tick of a subscriber's task re-sends exactly what is
    due. DaemonProps.v: so do runs of the whole process, its loops never panic, and with
    authentication on it serves token holders and health probes only; and the window in
    which a worker that has just reported is reaped. HandlerProps.v: the outcome of each
    handler on each branch. TaskChannel.v: a subscriber gets exactly the messages, in
    order. PolicyProps.v: both policies refine the abstract assignment and stop only when
    nothing fits; the balanced policy serves the least-served proof. Capacity.v and
    ReportProps.v: the reports are exact. SyncProps.v: a completion is never forgotten, a
    live row is never failed, terminal states are final, a lost write is recovered, the
    paged listing is exact; and the window in which an early result is lost.
    ManifestProps.v: a pushed manifest is what gets reported, and nothing unsound is.
    BidderProps.v: every bid of a pass is allowed, priced and within capacity; the fetch
    ends. BidderRunProps.v: an interleaved pass bids what the pass as one function bids on
    the values it read, and every bid a run sends is allowed. FulfillProps.v: a row is
    handled only after the network has it; named fulfillers do not touch each other's
    rows; scheduling only adds; the nonce lock serialises. FulfillRun.v: reports are
    paced, and a dry run neither submits nor cancels. RedisProps.v: uploads never mix,
    only whole artifacts are served, an upload that gets through is read back through any
    failed attempts, admission never over-commits. RedisPermitsProps.v: the permits out
    never exceed a node's, nor its memory budget, a waiting caller gets a free one, and
    the memory query reads what the server wrote. NodeProps.v: the node's state stays well
    formed, a drained node has lost no outcome, a task is never worked on twice at a time,
    the watchdog treats every stuck task, and wedged work is failed only after the worker
    is closed. NodeSync.v: one heartbeat makes node and coordinator agree.
    WorkerClientProps.v: a task's messages arrive once each and in order over any
    reconnects; a subscriber forgets no task; a retried call has been served at least once
    when it succeeds. Auth.v: the layer is exact, and a client with the server's token
    passes it. WorkerUtilProps.v: the advertised weight fits the memory, messages are cut
    on character boundaries, chunks and tree layers are right. S3Props.v: what was
    uploaded is what is downloaded, an upload is all or nothing, and no transfer gets
    stuck. GatewayProps.v: an accepted request is tracked to its proof, only registered
    programs run, the status filter is exact. GatewayServe.v: the running process
    records only requesters its configuration permits. Servers.v: a clean return leaves nothing running,
    and what a failed bind leaves. ApiServe.v: a running API keeps settled rows and turns
    strangers away. ProgramStoreProps.v: concurrent puts are atomic. RequestsProps.v: a
    batch is settled however it ends; RequestsWitness.v shows the request that is left
    behind when the reply to its creation is lost. Bench.v: results are verified and
    counted, the rows of the file are those appended, and where the iterations wrap.
    TestOracle.v: polls end, a status waited for was there and stays if it is terminal,
    and a settled row passes the check that it holds. Demo.v, NodeWitness.v,
    GatewayWitness.v and RequestsWitness.v have concrete states at which theorems apply;
    the other files carry their own.

    ** Bounds and fuel

    The assignment loop runs on the number of queued tasks plus one: every round removes
    a task or stops. Paging runs on the source's own page cap ([MAX_PAGES]); the bidder's
    fetch on the number of pages the server's answers can fill. [slice::chunks] runs on the
    length of the slice. Machines of events take the steps a run names and need no fuel;
    a pool of transfer tasks is shown to take at most five steps per chunk. The polling loop
    of Requests.v has fuel, and needs no more than the calls until the clock has passed the
    deadline; that of TestOracle.v is the polls that fit into the time plus two.
    [CHUNK_SIZE] of S3.v is an argument of its definitions, so that theorems hold
    for every size and witnesses can use a small one. The coordinator's invariants assume
    what [operations_never_panic] names: weights and counts small enough for their [u32] and
    [u64] fields, which the gRPC layer does not check.

    ** Parameters

    Whatever is not in the repository is an argument: clocks, unique ids, hash-map order,
    the network's answers, signatures, JSON and zstd codecs, floating-point estimates of the
    bidder, the Redis server, S3, the rest of the cluster between two calls of a client, the
    way calls fail, the gRPC-web layer, the aws command and the prover client of the
    benchmarks. Each class of such parameters has a class of laws where a
    theorem needs them, and a concrete instance in the witnesses.

    ** Simplifications

    Metrics, logs and tracing are left out. [DashMap] scans are atomic; the work a batch
    spawns runs one item after the other, in an order that is a parameter.
    [add_subscriptions] is one step. In the node, the watchdog and the shutdown token may
    fire at any poll that finds no message, which allows more runs than tokio does, and the
    counter of reporters is a [Z] that is shown to count them. The model of a task-message
    session does not let the coordinator clean the channel up under the reader. A byte range
    of S3 is the pair of its bounds; the retries the SDK does by itself are part of a call.
    The permits free for an S3 transfer are fixed when it starts: other transfers of the
    process neither take nor return any. The elapsed times in the messages of Requests.v
    and Bench.v are left out. The tasks that refresh the bidder's caches may run at any
    time, not only at their intervals. The coordinator's process serves requests until
    its future resolves.

    ** Not modelled

    Metrics, tracing, logging and the handlers of process signals; the bodies of the
    workers' tasks, which are calls of the SP1 prover; the construction of clients and
    pools, which configures third-party code; the start of a node's process, which loads a
    configuration and starts [run_worker_inner]; the containers and processes of the test
    cluster. The manifest says for each why. *)

From Stdlib Require String.
From stdpp Require Import base gmap sets list strings numbers fin_maps sorting.
From Stdlib Require Import ZArith Lia.

#[global] Open Scope Z_scope.

(** ** Machine integers

    Rust's unsigned integers are kept as [Z] with their width written out.
    Plain [+], [-] and [*] wrap in the release profile (the workspace's
    [profile.release] does not switch overflow checks on); the saturating
    operations are the ones the source names. *)
Module Int.

Definition modulus (w : Z) : Z := 2 ^ w.
Definition umax (w : Z) : Z := modulus w - 1.
Definition in_range (w x : Z) : Prop := 0 <= x < modulus w.
Definition wrap (w x : Z) : Z := x `mod` modulus w.
Definition wadd (w a b : Z) : Z := wrap w (a + b).
Definition wsub (w a b : Z) : Z := wrap w (a - b).
Definition sat_add (w a b : Z) : Z := Z.min (umax w) (a + b).
Definition sat_mul (w a b : Z) : Z := Z.min (umax w) (a * b).
Definition sat_sub (a b : Z) : Z := Z.max 0 (a - b).

Lemma wadd_small w a b : in_range w (a + b) -> wadd w a b = a + b.
Proof. apply Z.mod_small. Qed.

Lemma wsub_small w a b : in_range w (a - b) -> wsub w a b = a - b.
Proof. apply Z.mod_small. Qed.

Lemma wrap_range w x : 0 <= w -> in_range w (wrap w x).
Proof. intros Hw. apply Z.mod_pos_bound. unfold modulus. apply Z.pow_pos_nonneg; lia. Qed.

Lemma sat_sub_exact a b : b <= a -> sat_sub a b = a - b.
Proof. unfold sat_sub. lia. Qed.

Lemma sat_add_le w a b : in_range w a -> 0 <= b -> a <= sat_add w a b <= umax w.
Proof. unfold in_range, sat_add, umax. lia. Qed.

End Int.

Abbreviation u8 := 8 (only parsing).
Abbreviation u32 := 32 (only parsing).
Abbreviation u64 := 64 (only parsing).
Abbreviation u128 := 128 (only parsing).

(** ** Results of a handler

    A handler returns [Ok], returns an error [Status], panics (an [unwrap]
    on [None]), or, for a loop run with too little fuel, [Fuel]. *)
Inductive Code :=
  | NotFound | FailedPrecondition | AlreadyExists | InvalidArgument | Unauthenticated
  | PermissionDenied | ResourceExhausted | Aborted | Unavailable | Internal | Unknown
  | Cancelled | DeadlineExceeded | DataLoss | OutOfRange | Unimplemented.

#[export] Instance Code_eq_dec : EqDecision Code.
Proof. solve_decision. Defined.

Record Status := mkStatus { code : Code; message : string }.

Inductive outcome (A : Type) : Type :=
  | Ok (a : A)
  | Err (e : Status)
  | Panic
  | Fuel.
Arguments Ok {A} _.
Arguments Err {A} _.
Arguments Panic {A}.
Arguments Fuel {A}.

Definition is_ok {A} (o : outcome A) : bool := match o with Ok _ => true | _ => false end.

(** The state-and-outcome sequencing of the handlers: [x <-- m ;; k] runs
    [m], and only an [Ok] goes on to [k]; every other outcome ends the
    handler with the state [m] left (Rust's [?]). *)
Declare Scope handler_scope.
Delimit Scope handler_scope with handler.

Definition bind {S A B} (m : outcome A * S) (k : A -> S -> outcome B * S) : outcome B * S :=
  match m with
  | (Ok a, s) => k a s
  | (Err e, s) => (Err e, s)
  | (Panic, s) => (Panic, s)
  | (Fuel, s) => (Fuel, s)
  end.

Notation "'let?' ( x , s ) := m 'in' k" := (bind m (fun x s => k))
  (at level 10, x name, s name, m at level 100, k at level 200) : handler_scope.

(** [anyhow::Error]: an RPC status that can be looked at again
    ([downcast_ref]), or a message. Results in sequence, as [?] does. *)
Inductive Error := Rpc (s : Status) | Msg (m : string).
Abbreviation result A := (Error + A)%type.

Definition bind_result {E A B} (r : E + A) (k : A -> E + B) : E + B :=
  match r with inl e => inl e | inr a => k a end.
Notation "'let^' x := m 'in' k" := (bind_result m (fun x => k))
  (at level 10, x name, m at level 100, k at level 200) : handler_scope.

(** [str::contains]. *)
Fixpoint contains (sub s : string) : bool :=
  String.prefix sub s || match s with EmptyString => false | String _ s => contains sub s end.

(** [slice::chunks]: pieces of [n] elements, the last one possibly shorter. *)
Fixpoint chunks_fuel {A} (fuel n : nat) (l : list A) : list (list A) :=
  match fuel, l with
  | _, [] => []
  | O, _ => []
  | S fuel, _ => take n l :: chunks_fuel fuel n (drop n l)
  end.
Definition chunks {A} (n : nat) (l : list A) : list (list A) := chunks_fuel (length l) n l.

Lemma concat_chunks {A} n (l : list A) : (0 < n)%nat -> concat (chunks n l) = l.
Proof.
  intros Hn. unfold chunks. cut (forall fuel, (length l <= fuel)%nat -> concat (chunks_fuel fuel n l) = l); [auto|].
  intros fuel. revert l. induction fuel as [|fuel IH]; intros [|x l] Hl; cbn [chunks_fuel concat]; try done; [cbn in Hl; lia|].
  rewrite IH; [by rewrite take_drop|]. rewrite length_drop. cbn in *. lia.
Qed.

Definition div_ceil (a b : nat) : nat := ((a + (b - 1)) / b)%nat.

Lemma div_ceil_step a b : (0 < b)%nat -> (0 < a)%nat -> div_ceil a b = S (div_ceil (a - b) b).
Proof.
  intros Hb Ha. unfold div_ceil. destruct (decide (b <= a)%nat).
  - replace (a + (b - 1))%nat with ((a - b + (b - 1)) + 1 * b)%nat by lia. rewrite Nat.div_add by lia. lia.
  - replace (a - b)%nat with 0%nat by lia. rewrite (Nat.div_small (0 + (b - 1))) by lia.
    symmetry. apply Nat.div_unique with (a - 1)%nat; lia.
Qed.

Lemma length_chunks_fuel {A} fuel n (l : list A) :
  (0 < n)%nat -> (length l <= fuel)%nat -> length (chunks_fuel fuel n l) = div_ceil (length l) n.
Proof.
  intros Hn. revert l. induction fuel as [|fuel IH]; intros [|x l] Hl; cbn [chunks_fuel length]; try (cbn in Hl; lia);
    try (unfold div_ceil; by rewrite Nat.div_small by lia).
  rewrite IH by (rewrite length_drop; cbn in *; lia). rewrite length_drop. rewrite (div_ceil_step (S (length l))) by lia. done.
Qed.

Lemma length_chunks {A} n (l : list A) : (0 < n)%nat -> length (chunks n l) = div_ceil (length l) n.
Proof. intros Hn. by apply length_chunks_fuel. Qed.

(** ** Sums over finite sets and maps *)
Definition list_Zsum {A} (f : A -> Z) (l : list A) : Z := foldr (fun x acc => f x + acc) 0 l.

Lemma list_Zsum_perm {A} (f : A -> Z) l1 l2 : l1 ≡ₚ l2 -> list_Zsum f l1 = list_Zsum f l2.
Proof. induction 1; simpl; lia. Qed.

Lemma list_Zsum_ext {A} (f g : A -> Z) l :
  (forall x, x ∈ l -> f x = g x) -> list_Zsum f l = list_Zsum g l.
Proof.
  induction l as [|x l IH]; intros H; simpl; [done|].
  rewrite H, IH; [done| |by left]. intros y Hy. apply H. by right.
Qed.

Lemma list_Zsum_app {A} (f : A -> Z) l1 l2 : list_Zsum f (l1 ++ l2) = list_Zsum f l1 + list_Zsum f l2.
Proof. induction l1; simpl; lia. Qed.

Lemma list_Zsum_insert {A} (f : A -> Z) l w x y :
  l !! w = Some x -> list_Zsum f (<[w := y]> l) = list_Zsum f l - f x + f y.
Proof.
  revert w. induction l as [|z l IH]; intros [|w] Hw; simplify_eq/=; [lia|].
  change (<[S w := y]> (z :: l)) with (z :: <[w := y]> l). cbn [list_Zsum foldr].
  fold (list_Zsum f (<[w := y]> l)) (list_Zsum f l). rewrite (IH _ Hw). lia.
Qed.

Lemma list_Zsum_nonneg {A} (f : A -> Z) l : (forall x, x ∈ l -> 0 <= f x) -> 0 <= list_Zsum f l.
Proof.
  induction l as [|x l IH]; intros H; simpl; [lia|].
  pose proof (H x ltac:(by left)). assert (0 <= list_Zsum f l); [|lia].
  apply IH. intros y Hy. apply H. by right.
Qed.

Lemma foldl_ext {A B} (f g : A -> B -> A) l :
  (forall a x, f a x = g a x) -> forall a, foldl f a l = foldl g a l.
Proof. intros Hfg. induction l as [|x l IH]; intros a; simpl; [done|]. by rewrite Hfg. Qed.

Section set_sum.
Context `{Countable K}.

Definition set_Zsum (f : K -> Z) (X : gset K) : Z := list_Zsum f (elements X).

Lemma set_Zsum_empty f : set_Zsum f ∅ = 0.
Proof. unfold set_Zsum. by rewrite elements_empty. Qed.

Lemma set_Zsum_insert f x X : x ∉ X -> set_Zsum f ({[x]} ∪ X) = f x + set_Zsum f X.
Proof.
  intros Hx. unfold set_Zsum.
  by rewrite (list_Zsum_perm _ _ _ (elements_union_singleton _ _ Hx)).
Qed.

Lemma set_Zsum_remove f x X : x ∈ X -> set_Zsum f X = f x + set_Zsum f (X ∖ {[x]}).
Proof.
  intros Hx. rewrite <- set_Zsum_insert by set_solver.
  f_equal. apply set_eq. intros y. destruct (decide (y = x)); set_solver.
Qed.

Lemma set_Zsum_ext f g X : (forall x, x ∈ X -> f x = g x) -> set_Zsum f X = set_Zsum g X.
Proof. intros Hfg. apply list_Zsum_ext. intros x Hx%elem_of_elements. auto. Qed.

Lemma set_Zsum_nonneg f X : (forall x, x ∈ X -> 0 <= f x) -> 0 <= set_Zsum f X.
Proof. intros Hf. apply list_Zsum_nonneg. intros x Hx%elem_of_elements. auto. Qed.

End set_sum.

Section map_sum.
Context `{Countable K} {A : Type}.

Definition map_Zsum (f : A -> Z) (m : gmap K A) : Z := list_Zsum (fun ka : K * A => f ka.2) (map_to_list m).

Lemma map_Zsum_empty f : map_Zsum f ∅ = 0.
Proof. unfold map_Zsum. by rewrite map_to_list_empty. Qed.

Lemma map_Zsum_insert_new f m k x : m !! k = None -> map_Zsum f (<[k := x]> m) = f x + map_Zsum f m.
Proof.
  intros Hk. unfold map_Zsum.
  by rewrite (list_Zsum_perm _ _ _ (map_to_list_insert m k x Hk)).
Qed.

Lemma map_Zsum_lookup f m k x : m !! k = Some x -> map_Zsum f m = f x + map_Zsum f (delete k m).
Proof.
  intros Hk. rewrite <- (map_Zsum_insert_new f (delete k m) k x) by apply lookup_delete_eq.
  by rewrite insert_delete_id.
Qed.

Lemma map_Zsum_insert f m k x y :
  m !! k = Some x -> map_Zsum f (<[k := y]> m) = map_Zsum f m - f x + f y.
Proof.
  intros Hk. rewrite (map_Zsum_lookup f m k x) by done.
  rewrite (map_Zsum_lookup f (<[k:=y]> m) k y) by apply lookup_insert_eq.
  rewrite delete_insert_eq. lia.
Qed.

Lemma map_Zsum_bounds f m :
  (forall k x, m !! k = Some x -> 0 <= f x <= 1) -> 0 <= map_Zsum f m <= Z.of_nat (size m).
Proof.
  induction m as [|k x m Hk IH] using map_ind; intros Hf.
  - rewrite map_Zsum_empty, map_size_empty. lia.
  - rewrite map_Zsum_insert_new, map_size_insert_None by done.
    pose proof (Hf k x (lookup_insert_eq _ _ _)).
    assert (0 <= map_Zsum f m <= Z.of_nat (size m)); [|lia].
    apply IH. intros k' x' Hx'. apply (Hf k'). rewrite lookup_insert_ne; [done|congruence].
Qed.

End map_sum.

(** ** Iteration order

    A Rust [HashMap] or [HashSet] iterates in an unspecified order. [HashIter]
    is any such order: the theorems hold whatever it is. *)
Class HashIter := {
  iter_map : forall {A : Type}, gmap string A -> list (string * A);
  iter_keys : gset (string * string) -> list (string * string);
  iter_ids : gset string -> list string;
  iter_counts : gmap (string * Z) Z -> list ((string * Z) * Z);
}.

Class HashIterOk (H : HashIter) : Prop := {
  iter_map_perm : forall {A : Type} (m : gmap string A), iter_map m ≡ₚ map_to_list m;
  iter_keys_perm : forall X, iter_keys X ≡ₚ elements X;
  iter_ids_perm : forall X, iter_ids X ≡ₚ elements X;
  iter_counts_perm : forall m, iter_counts m ≡ₚ map_to_list m;
}.

Definition canonical_iter : HashIter :=
  {| iter_map := fun A m => map_to_list m; iter_keys := elements; iter_ids := elements;
     iter_counts := map_to_list |}.

#[export] Instance canonical_iter_ok : HashIterOk canonical_iter.
Proof. by constructor. Qed.

Section hash_iter.
Context `{HI : HashIterOk}.

Lemma elem_of_iter_map {A} (m : gmap string A) k v : (k, v) ∈ iter_map m <-> m !! k = Some v.
Proof. rewrite iter_map_perm. apply elem_of_map_to_list. Qed.

Lemma NoDup_iter_map {A} (m : gmap string A) : NoDup (iter_map m).*1.
Proof. rewrite iter_map_perm. apply NoDup_fst_map_to_list. Qed.

Lemma elem_of_iter_keys X k : k ∈ iter_keys X <-> k ∈ X.
Proof. rewrite iter_keys_perm. apply elem_of_elements. Qed.

Lemma NoDup_iter_keys X : NoDup (iter_keys X).
Proof. rewrite iter_keys_perm. apply NoDup_elements. Qed.

Lemma elem_of_iter_ids X k : k ∈ iter_ids X <-> k ∈ X.
Proof. rewrite iter_ids_perm. apply elem_of_elements. Qed.

End hash_iter.

(** Case analysis on the scrutinee of every [match] in the goal, keeping the
    equations, then substitution. *)
Ltac case_all := repeat (case_match; simplify_eq/=).
