(* ===== verification/BinHeap.v ===== *)
(** * [std::collections::BinaryHeap]

    The array heap the policies keep their queues in: [push] with its
    [sift_up], [pop] with its [sift_down_to_bottom], and [peek], over any
    total preorder. The heap order is preserved, the elements are those
    pushed and not yet popped, and [peek]/[pop] give a greatest one. *)
From stdpp Require Import base list.
From Stdlib Require Import ZifyNat.
From S2P Require Import Prelude.
Local Open Scope nat_scope.
#[local] Ltac Zify.zify_post_hook ::= Z.div_mod_to_equations.

(** The [Ord] instance of the elements. *)
Class OrdB (A : Type) := ord_le : A -> A -> bool.

Class OrdBLaws (A : Type) `{OrdB A} : Prop := {
  ord_total : forall x y : A, ord_le x y = true \/ ord_le y x = true;
  ord_trans : forall x y z : A, ord_le x y = true -> ord_le y z = true -> ord_le x z = true;
}.

Section heap.
Context {A : Type} `{O : OrdB A}.
Implicit Types (l : list A) (x y elt : A).

Definition parent (i : nat) : nat := (i - 1) / 2.

(** [Hole::move_to]: the element at [i] moves into the hole at [pos]. *)
Definition move_to l (pos i : nat) : list A :=
  match l !! i with Some x => <[pos := x]> l | None => l end.

(** [sift_up(0, pos)]: at most [pos] moves. [elt] is the element of the hole. *)
Fixpoint sift_up_loop (fuel : nat) (elt : A) l (pos : nat) : list A * nat :=
  match fuel with
  | 0 => (l, pos)
  | S fuel =>
      if pos =? 0 then (l, pos)
      else
        match l !! parent pos with
        | None => (l, pos)
        | Some p =>
            if ord_le elt p then (l, pos)
            else sift_up_loop fuel elt (move_to l pos (parent pos)) (parent pos)
        end
  end.

Definition sift_up (elt : A) l (pos : nat) : list A :=
  let (l, pos) := sift_up_loop pos elt l pos in <[pos := elt]> l.

(** The descent of [sift_down_to_bottom(0)]: the hole follows the greater child. *)
Definition greater_child l (child : nat) : nat :=
  match l !! child, l !! (child + 1) with
  | Some a, Some b => if ord_le a b then child + 1 else child
  | _, _ => child
  end.

Fixpoint sift_down_loop (fuel : nat) l (pos : nat) : list A * nat :=
  match fuel with
  | 0 => (l, pos)
  | S fuel =>
      let child := 2 * pos + 1 in
      if child <=? length l - 2
      then sift_down_loop fuel (move_to l pos (greater_child l child)) (greater_child l child)
      else if child =? length l - 1 then (move_to l pos child, child)
      else (l, pos)
  end.

Definition sift_down_to_bottom (elt : A) l : list A :=
  let (l, pos) := sift_down_loop (length l) l 0 in sift_up elt l pos.

Definition push x l : list A := sift_up x (l ++ [x]) (length l).

Definition peek l : option A := l !! 0.

Definition pop l : option A * list A :=
  match last l with
  | None => (None, l)
  | Some item =>
      let rest := take (length l - 1) l in
      match rest with
      | [] => (Some item, [])
      | top :: _ => (Some top, sift_down_to_bottom item rest)
      end
  end.

(** ** Permutations *)
Lemma move_to_length l pos i : length (move_to l pos i) = length l.
Proof. unfold move_to. case_match; [apply length_insert|done]. Qed.

Lemma move_to_perm l pos i elt :
  pos < length l -> i < length l -> pos <> i ->
  <[i := elt]> (move_to l pos i) ≡ₚ <[pos := elt]> l.
Proof.
  intros Hp Hi Hne. destruct (lookup_lt_is_Some_2 l i Hi) as [x Hx]. unfold move_to. rewrite Hx.
  destruct (lookup_lt_is_Some_2 l pos Hp) as [y Hy].
  assert (Hl : <[pos := elt]> l !! i = Some x) by by rewrite list_lookup_insert_ne.
  rewrite (Permutation_inj _ _). split; [by rewrite !length_insert|].
  exists (fun j => if decide (j = i) then pos else if decide (j = pos) then i else j). split.
  - intros j k. repeat case_decide; congruence.
  - intros j. repeat case_decide; subst.
    + rewrite !list_lookup_insert_eq; rewrite ?length_insert; done.
    + rewrite list_lookup_insert_ne, list_lookup_insert_eq by done. by rewrite Hl.
    + rewrite !list_lookup_insert_ne by done. done.
Qed.

Lemma sift_up_loop_perm elt fuel : forall l pos,
  pos < length l ->
  let r := sift_up_loop fuel elt l pos in
  length r.1 = length l /\ r.2 < length l /\ <[r.2 := elt]> r.1 ≡ₚ <[pos := elt]> l.
Proof.
  induction fuel as [|fuel IH]; intros l pos Hp; simpl; [done|].
  destruct (Nat.eqb_spec pos 0); [done|].
  destruct (l !! parent pos) as [p|] eqn:Hpar; [|done]. destruct (ord_le elt p); [done|].
  assert (Hlt : parent pos < length l) by (unfold parent; lia).
  destruct (IH (move_to l pos (parent pos)) (parent pos)) as (H1 & H2 & H3); [by rewrite move_to_length|].
  rewrite move_to_length in *. split_and!; [done..|]. rewrite H3. apply move_to_perm; unfold parent; lia.
Qed.

Lemma sift_up_perm elt l pos : pos < length l -> sift_up elt l pos ≡ₚ <[pos := elt]> l.
Proof.
  intros Hp. unfold sift_up. pose proof (sift_up_loop_perm elt pos l pos Hp) as (_ & _ & H).
  by destruct (sift_up_loop pos elt l pos).
Qed.

Lemma greater_child_cases l child : greater_child l child = child \/
  (greater_child l child = child + 1 /\ is_Some (l !! (child + 1))).
Proof. unfold greater_child. repeat case_match; eauto. Qed.

Lemma sift_down_loop_perm elt fuel : forall l pos,
  pos < length l ->
  let r := sift_down_loop fuel l pos in
  length r.1 = length l /\ r.2 < length l /\ <[r.2 := elt]> r.1 ≡ₚ <[pos := elt]> l.
Proof.
  induction fuel as [|fuel IH]; intros l pos Hp; [done|]. cbn [sift_down_loop].
  set (child := 2 * pos + 1).
  destruct (Nat.leb_spec child (length l - 2)) as [Hle|Hgt].
  - set (g := greater_child l child).
    assert (Hg : pos < g < length l).
    { unfold g. destruct (greater_child_cases l child) as [->|[-> Hs]]; unfold child in *; [lia|].
      apply lookup_lt_is_Some_1 in Hs. lia. }
    destruct (IH (move_to l pos g) g) as (H1 & H2 & H3); [rewrite move_to_length; lia|].
    rewrite move_to_length in *. split_and!; [done..|]. rewrite H3. apply move_to_perm; lia.
  - destruct (Nat.eqb_spec child (length l - 1)); [|done]. unfold child in *. simpl.
    rewrite move_to_length. split_and!; [done|lia|]. apply move_to_perm; lia.
Qed.

Lemma sift_down_perm elt l : l <> [] -> sift_down_to_bottom elt l ≡ₚ <[0 := elt]> l.
Proof.
  intros Hl. assert (0 < length l) by (destruct l; [done|simpl; lia]).
  unfold sift_down_to_bottom. destruct (sift_down_loop_perm elt (length l) l 0) as (H1 & H2 & H3); [done|].
  destruct (sift_down_loop (length l) l 0) as [l' pos]. simpl in *. rewrite sift_up_perm by lia. done.
Qed.

Lemma push_perm x l : push x l ≡ₚ x :: l.
Proof.
  unfold push. rewrite sift_up_perm by (rewrite length_app; simpl; lia).
  rewrite insert_app_r_alt, Nat.sub_diag by lia. simpl. symmetry. apply Permutation_cons_append.
Qed.

Lemma pop_cons l x l' : pop l = (Some x, l') -> peek l = Some x /\ l ≡ₚ x :: l'.
Proof.
  unfold pop, peek. destruct (last l) as [item|] eqn:Hlast; [|done].
  apply last_Some in Hlast as [init ->].
  rewrite length_app, Nat.add_sub, take_app_length. destruct init as [|top init]; intros Heq; simplify_eq/=; [done|].
  split; [done|]. rewrite sift_down_perm by done. simpl. f_equiv. symmetry. apply Permutation_cons_append.
Qed.

Lemma pop_peek l x : peek l = Some x -> exists l', pop l = (Some x, l').
Proof.
  unfold pop, peek. destruct l as [|y l _] using rev_ind; [done|].
  rewrite last_snoc, length_app, Nat.add_sub, take_app_length. destruct l; simpl; intros ?; simplify_eq; eauto.
Qed.

(** ** Heap order *)
Context {OL : OrdBLaws A}.

Definition ordered_at l (i : nat) : Prop :=
  forall x y, l !! i = Some x -> l !! parent i = Some y -> ord_le x y = true.

Definition heap l : Prop := forall i, 0 < i -> ordered_at l i.

(** The children of [pos] are below the parent of [pos]. *)
Definition bridged l (pos : nat) : Prop :=
  forall i x y, 0 < i -> 0 < pos -> parent i = pos -> l !! i = Some x -> l !! parent pos = Some y ->
  ord_le x y = true.

Definition up_ok l (pos : nat) : Prop := (forall i, 0 < i -> i <> pos -> ordered_at l i) /\ bridged l pos.

Definition down_ok l (pos : nat) : Prop :=
  (forall i, 0 < i -> i <> pos -> parent i <> pos -> ordered_at l i) /\ bridged l pos.

Lemma ord_le_false x y : ord_le x y = false -> ord_le y x = true.
Proof. intros H. destruct (ord_total x y); congruence. Qed.

(** The filled array after a move, position by position. *)
Lemma move_to_lookup l pos i elt j :
  pos < length l -> i < length l -> pos <> i ->
  <[i := elt]> (move_to l pos i) !! j
  = if decide (j = i) then Some elt
    else if decide (j = pos) then <[pos := elt]> l !! i else <[pos := elt]> l !! j.
Proof.
  intros Hp Hi Hne. destruct (lookup_lt_is_Some_2 l i Hi) as [x Hx]. unfold move_to. rewrite Hx.
  repeat case_decide; subst.
  - rewrite list_lookup_insert_eq; [done|by rewrite length_insert].
  - rewrite list_lookup_insert_ne, list_lookup_insert_eq by done. by rewrite list_lookup_insert_ne.
  - by rewrite !list_lookup_insert_ne by done.
Qed.

Lemma up_ok_step l pos elt p :
  0 < pos < length l -> up_ok (<[pos := elt]> l) pos -> l !! parent pos = Some p -> ord_le elt p = false ->
  up_ok (<[parent pos := elt]> (move_to l pos (parent pos))) (parent pos).
Proof.
  intros Hpos [Ha Hb] Hp Hgt%ord_le_false.
  assert (Hpp : parent pos < pos) by (unfold parent; lia).
  assert (HFp : <[pos := elt]> l !! parent pos = Some p) by (rewrite list_lookup_insert_ne; [done|lia]).
  assert (Hsib : forall i x, 0 < i -> i <> pos -> parent i = parent pos -> <[pos := elt]> l !! i = Some x -> ord_le x p = true).
  { intros i x Hi Hne He Hx. apply (Ha i Hi Hne); [done|]. by rewrite He. }
  split.
  - intros i Hi Hne x y. rewrite !move_to_lookup by lia.
    rewrite decide_False by done. destruct (decide (i = pos)) as [->|Hip].
    + rewrite decide_True by done. intros. by simplify_eq.
    + intros Hx. destruct (decide (parent i = parent pos)) as [He|He].
      { intros [= <-]. apply (ord_trans _ p); [by apply (Hsib i)|done]. }
      destruct (decide (parent i = pos)) as [He2|He2]; intros Hy; [|by eapply (Ha i)].
      eapply (Hb i); [done|lia|done..].
  - intros i x y Hi Hpp0 He. rewrite !move_to_lookup by lia.
    assert (parent (parent pos) < parent pos) by (unfold parent in *; lia).
    rewrite (decide_False (P := parent (parent pos) = parent pos)) by lia.
    rewrite (decide_False (P := parent (parent pos) = pos)) by lia.
    destruct (decide (i = parent pos)) as [->|_]; [lia|].
    assert (Hpy : <[pos := elt]> l !! parent (parent pos) = Some y -> ord_le p y = true)
      by (intros Hy; eapply (Ha (parent pos)); [lia|lia|done..]).
    destruct (decide (i = pos)) as [->|Hne]; intros Hx Hy%Hpy; [by simplify_eq|].
    apply (ord_trans _ p); [by apply (Hsib i)|done].
Qed.

Lemma sift_up_loop_heap elt fuel : forall l pos,
  pos <= fuel -> pos < length l -> up_ok (<[pos := elt]> l) pos ->
  heap (let (l, pos) := sift_up_loop fuel elt l pos in <[pos := elt]> l).
Proof.
  induction fuel as [|fuel IH]; intros l pos Hf Hpos Hok; cbn [sift_up_loop].
  { assert (pos = 0) as -> by lia. intros i Hi. apply Hok; lia. }
  destruct (Nat.eqb_spec pos 0) as [->|Hne]; [intros i Hi; apply Hok; lia|].
  assert (Hpp : parent pos < pos) by (unfold parent; lia).
  destruct (lookup_lt_is_Some_2 l (parent pos)) as [p Hp]; [lia|]. rewrite Hp.
  destruct (ord_le elt p) eqn:Hle.
  - intros i Hi. destruct (decide (i = pos)) as [->|]; [|by apply Hok]. intros x y.
    rewrite list_lookup_insert_eq, list_lookup_insert_ne by lia. congruence.
  - apply IH; [lia|rewrite move_to_length; lia|]. eapply up_ok_step; [lia|done..].
Qed.

Lemma sift_up_heap elt l pos :
  pos < length l -> up_ok (<[pos := elt]> l) pos -> heap (sift_up elt l pos).
Proof. by apply sift_up_loop_heap. Qed.

Lemma greater_child_max l pos :
  2 * pos + 1 <= length l - 2 ->
  forall i x y, 0 < i -> parent i = pos -> l !! i = Some x -> l !! greater_child l (2 * pos + 1) = Some y ->
  ord_le x y = true.
Proof.
  intros Hlen i x y Hi Hpar Hx. unfold greater_child.
  destruct (lookup_lt_is_Some_2 l (2 * pos + 1)) as [a Ha]; [lia|].
  destruct (lookup_lt_is_Some_2 l (2 * pos + 1 + 1)) as [b Hb]; [lia|]. rewrite Ha, Hb.
  assert (i = 2 * pos + 1 \/ i = 2 * pos + 1 + 1) as Hcase by (unfold parent in *; lia).
  assert (Hrefl : forall z : A, ord_le z z = true) by (intros z; by destruct (ord_total z z)).
  destruct (ord_le a b) eqn:Hab; intros Hy; destruct Hcase; subst i; simplify_eq; auto using ord_le_false.
Qed.

Lemma down_ok_step l pos elt c :
  pos < length l -> c < length l -> 0 < c -> parent c = pos -> pos <> c ->
  (forall i x y, 0 < i -> parent i = pos -> l !! i = Some x -> l !! c = Some y -> ord_le x y = true) ->
  down_ok (<[pos := elt]> l) pos -> down_ok (<[c := elt]> (move_to l pos c)) c.
Proof.
  intros Hpos Hc Hc0 Hpar Hne Hmax [Ha Hb].
  assert (HFc : <[pos := elt]> l !! c = l !! c) by by rewrite list_lookup_insert_ne.
  assert (Hpc : forall i, parent i = c -> 0 < i -> i <> pos /\ i <> c) by (unfold parent in *; lia).
  split.
  - intros i Hi Hic Hpi x y. rewrite !move_to_lookup by done. rewrite !(decide_False (P := _ = c)) by done.
    destruct (decide (i = pos)) as [->|Hip].
    + rewrite decide_False by (unfold parent in *; lia). intros Hx Hy. by eapply (Hb c); [done|lia|..].
    + destruct (decide (parent i = pos)) as [He|He]; intros Hx Hy; [|by eapply (Ha i)].
      rewrite list_lookup_insert_ne in Hx by done. rewrite HFc in Hy. by eapply Hmax.
  - intros i x y Hi _ Hpi. rewrite !move_to_lookup by done. destruct (Hpc i Hpi Hi) as [? ?].
    rewrite Hpar. rewrite (decide_True (P := pos = pos)), !decide_False by done.
    intros Hx Hy. eapply (Ha i); [done|done|congruence|done|by rewrite Hpi].
Qed.

Lemma sift_down_loop_ok elt fuel : forall l pos,
  length l - pos <= fuel -> pos < length l -> down_ok (<[pos := elt]> l) pos ->
  let r := sift_down_loop fuel l pos in up_ok (<[r.2 := elt]> r.1) r.2.
Proof.
  induction fuel as [|fuel IH]; intros l pos Hf Hpos Hok; [lia|]. cbn [sift_down_loop].
  set (child := 2 * pos + 1).
  destruct (Nat.leb_spec child (length l - 2)) as [Hle|Hgt].
  - set (g := greater_child l child).
    assert (Hg : pos < g < length l /\ parent g = pos).
    { unfold g, parent. destruct (greater_child_cases l child) as [->|[-> Hs]]; unfold child in *; lia. }
    apply IH; [rewrite move_to_length; lia..|].
    apply (down_ok_step l pos elt g); [lia..|by apply greater_child_max|done].
  - assert (Hleaf : forall (l' : list A) p, length l' = length l -> 2 * p + 1 >= length l -> down_ok l' p -> up_ok l' p).
    { intros l' p Hlen Hp [Ha Hb]. split; [|done]. intros i Hi Hip x y Hx Hy.
      apply lookup_lt_Some in Hx as ?. apply (Ha i); [done|done|unfold parent; lia|done..]. }
    destruct (Nat.eqb_spec child (length l - 1)) as [He|Hne]; simpl; apply Hleaf; unfold child in *;
      rewrite ?length_insert, ?move_to_length; try done; try lia.
    apply (down_ok_step l pos elt); try (unfold parent; lia); [|done].
    intros i x y Hi Hpar Hx Hy. apply lookup_lt_Some in Hx as ?.
    assert (i = 2 * pos + 1) as -> by (unfold parent in *; lia). simplify_eq. by destruct (ord_total x x).
Qed.

Lemma heap_nil : heap [].
Proof. by intros i Hi x y. Qed.

Lemma push_heap x l : heap l -> heap (push x l).
Proof.
  intros Hl. apply sift_up_heap; [rewrite length_app; simpl; lia|].
  rewrite insert_app_r_alt, Nat.sub_diag by lia. simpl. split.
  - intros i Hi Hne a b Ha Hb. apply lookup_lt_Some in Ha as Hlt. rewrite length_app in Hlt. simpl in Hlt.
    rewrite lookup_app_l in Ha, Hb by (unfold parent; lia). by eapply Hl.
  - intros i a b Hi Hp He Ha. apply lookup_lt_Some in Ha. rewrite length_app in Ha. simpl in Ha.
    unfold parent in He. lia.
Qed.

Lemma pop_heap l x l' : heap l -> pop l = (Some x, l') -> heap l'.
Proof.
  unfold pop. destruct l as [|item l _] using rev_ind; [done|].
  rewrite last_snoc, length_app, Nat.add_sub, take_app_length. intros Hl.
  destruct l as [|top l]; intros ?; simplify_eq; [apply heap_nil|].
  set (l2 := x :: l) in *. unfold sift_down_to_bottom.
  assert (0 < length l2) as Hlen by (simpl; lia).
  assert (Hok : down_ok (<[0 := item]> l2) 0).
  { split; [|intros i a b _ Hp; lia]. intros i Hi _ Hpi a b Ha Hb. apply lookup_lt_Some in Ha as Hlt.
    rewrite length_insert in Hlt. rewrite !list_lookup_insert_ne in Ha, Hb by lia.
    apply (Hl i); [done|rewrite lookup_app_l by done; done|rewrite lookup_app_l; [done|unfold parent; lia]]. }
  pose proof (sift_down_loop_ok item (length l2) l2 0 ltac:(lia) Hlen Hok) as Hup.
  destruct (sift_down_loop_perm item (length l2) l2 0 Hlen) as (H1 & H2 & _).
  destruct (sift_down_loop (length l2) l2 0) as [l3 pos]. simpl in *. apply sift_up_heap; [lia|done].
Qed.

(** The top is a greatest element. *)
Lemma peek_greatest l x y : heap l -> peek l = Some x -> y ∈ l -> ord_le y x = true.
Proof.
  intros Hl Hx [i Hi]%list_elem_of_lookup. revert y Hi. induction i as [i IH] using lt_wf_ind. intros y Hi.
  destruct (decide (i = 0)) as [->|Hne]; [unfold peek in Hx; simplify_eq; by destruct (ord_total x x)|].
  apply lookup_lt_Some in Hi as ?.
  destruct (lookup_lt_is_Some_2 l (parent i)) as [z Hz]; [unfold parent; lia|].
  eapply ord_trans; [by eapply (Hl i); [lia|..]|]. apply (IH (parent i)); [unfold parent; lia|done].
Qed.
End heap.
