(* ===== verification/Proto.v ===== *)
(** * Messages and enumerations

    The types of the [proto] module as the source uses them
    (crates/common/src/proto.rs re-exports generated code): the enumerations
    with the constructors the sources match on, the records with the fields
    they read and write. Also the per-task-type tables of
    crates/common/src/consts.rs and bin/coordinator/src/lib.rs. *)
From stdpp Require Import base gmap strings countable.
From S2P Require Import Prelude.

Inductive TaskType :=
  | UnspecifiedTaskType | Controller | ProveShard | RecursionReduce | RecursionDeferred
  | ShrinkWrap | SetupVkey | MarkerDeferredRecord | PlonkWrap | Groth16Wrap | ExecuteOnly
  | UtilVkeyMapChunk | UtilVkeyMapController | CoreExecute.

Inductive WorkerType := UnspecifiedWorkerType | NoneWorker | Cpu | Gpu | All.

Inductive TaskStatus :=
  | UnspecifiedStatus | Pending | Running | Succeeded | FailedRetryable | FailedFatal.

#[export] Instance TaskType_eq_dec : EqDecision TaskType.
Proof. solve_decision. Defined.
#[export] Instance WorkerType_eq_dec : EqDecision WorkerType.
Proof. solve_decision. Defined.
#[export] Instance TaskStatus_eq_dec : EqDecision TaskStatus.
Proof. solve_decision. Defined.

(** [Succeeded] and [FailedFatal] are the statuses no task leaves except
    [FailedFatal], which a late completion turns into [Succeeded]. *)
Definition is_final (st : TaskStatus) : bool :=
  match st with Succeeded | FailedFatal => true | _ => false end.

Record TaskData := mkTaskData {
  task_type : TaskType;
  inputs : list string;
  outputs : list string;
  metadata : string;
  proof_id : string;
  parent_id : option string;
  weight : Z;
  requester : string;
}.

(** Messages of the coordinator to a worker. *)
Inductive ServerMessage :=
  | NewTask (task_id : string) (data : TaskData) (metadata : string)
  | CancelTask (proof_id task_id : string)
  | ServerHeartbeat.

(** Messages of the coordinator to a subscriber, each with a [msg_id]. *)
Inductive SubMessage :=
  | TaskResult (task_id : string) (task_status : TaskStatus)
  | UnknownTask (proof_id task_id : string)
  | SubHeartbeat
  | SubEndOfStream.

Record ServerSubMessage := mkSubMsg { msg_id : string; sub_message : SubMessage }.

(** Messages of a task's stream. *)
Inductive StreamMessage :=
  | Payload (bytes : list Z)
  | EndOfStream.

Record CreateProofRequest := mkCreateProof {
  cp_proof_id : string;
  cp_inputs : list string;
  cp_outputs : list string;
  cp_requester : string;
  cp_expires_at : Z;
}.

(** ** Tables *)

(** [estimate_duration]: milliseconds. *)
Definition estimate_duration (t : TaskType) : Z :=
  match t with
  | Controller => 200
  | PlonkWrap => 8000
  | Groth16Wrap => 2000
  | ProveShard => 2000
  | RecursionDeferred => 400
  | RecursionReduce => 400
  | ShrinkWrap => 4000
  | SetupVkey => 4000
  | MarkerDeferredRecord => 0
  | UnspecifiedTaskType => 0
  | UtilVkeyMapChunk | UtilVkeyMapController => 0
  | ExecuteOnly => 200
  | CoreExecute => 200
  end.

(** [enable_proof_fail]: a fatal failure of such a task fails the proof. *)
Definition enable_proof_fail (t : TaskType) : bool :=
  match t with
  | Controller | Groth16Wrap | PlonkWrap | ExecuteOnly | CoreExecute => true
  | _ => false
  end.

Definition MAX_TASK_RETRIES : Z := 3.

(** The environment-configured weights of consts.rs ([lazy_static]s read from
    [WORKER_*_WEIGHT]). *)
Record Weights := mkWeights {
  CONTROLLER_WEIGHT : Z;
  GROTH16_WRAP_WEIGHT : Z;
  PLONK_WRAP_WEIGHT : Z;
  EXECUTE_ONLY_WEIGHT : Z;
  CORE_EXECUTE_WEIGHT : Z;
}.

Definition default_weights : Weights := mkWeights 1 14 60 4 8.

Definition task_weight (ws : Weights) (t : TaskType) : Z :=
  match t with
  | UnspecifiedTaskType => 0
  | Controller => CONTROLLER_WEIGHT ws
  | ProveShard => 4
  | RecursionDeferred => 3
  | RecursionReduce => 3
  | ShrinkWrap => 4
  | SetupVkey => 1
  | MarkerDeferredRecord => 0
  | PlonkWrap => PLONK_WRAP_WEIGHT ws
  | Groth16Wrap => GROTH16_WRAP_WEIGHT ws
  | UtilVkeyMapChunk | UtilVkeyMapController => 2
  | ExecuteOnly => EXECUTE_ONLY_WEIGHT ws
  | CoreExecute => CORE_EXECUTE_WEIGHT ws
  end.

(** [worker_component_name]. *)
Definition worker_component_name (t : WorkerType) : option string :=
  match t with
  | Cpu => Some "cpu-node"%string
  | Gpu => Some "gpu-node"%string
  | All => Some "gpu-node"%string
  | UnspecifiedWorkerType | NoneWorker => None
  end.
