(* ===== verification/TaskChannel.v ===== *)
(** * Task message channels

    [tokio::sync::mpsc]'s unbounded channels as a store of mailboxes, and the
    per-task message channel of the coordinator ([MessageChannelState] and
    [MessageChannelInner] of bin/coordinator/src/lib.rs): buffering, replay to
    late subscribers and end-of-stream. *)
From stdpp Require Import base gmap list.
From S2P Require Import Prelude Proto.

(** ** Unbounded channels

    A sender is an index into the store, so that clones of it (and the same
    sender kept in several structures) share one mailbox. [send] fails exactly
    when the receiver was dropped. *)
Record mailbox (M : Type) := mkMailbox { sent : list M; rx_open : bool }.
Arguments mkMailbox {M} _ _.
Arguments sent {M} _.
Arguments rx_open {M} _.

Record Mpsc (M : Type) := mkMpsc { next_chan : nat; boxes : gmap nat (mailbox M) }.
Arguments mkMpsc {M} _ _.
Arguments next_chan {M} _.
Arguments boxes {M} _.

Definition mpsc_empty {M} : Mpsc M := mkMpsc 0%nat ∅.

Definition unbounded_channel {M} (n : Mpsc M) : nat * Mpsc M :=
  (next_chan n, mkMpsc (S (next_chan n)) (<[next_chan n := mkMailbox [] true]> (boxes n))).

Definition send {M} (ch : nat) (m : M) (n : Mpsc M) : bool * Mpsc M :=
  match boxes n !! ch with
  | Some mb =>
      if rx_open mb
      then (true, mkMpsc (next_chan n) (<[ch := mkMailbox (sent mb ++ [m]) true]> (boxes n)))
      else (false, n)
  | None => (false, n)
  end.

(** Sending with the result ignored ([let _ = tx.send(..)], or an error that is
    only logged). *)
Definition send_ {M} (ch : nat) (m : M) (n : Mpsc M) : Mpsc M := snd (send ch m n).

Definition drop_rx {M} (ch : nat) (n : Mpsc M) : Mpsc M :=
  mkMpsc (next_chan n) (alter (fun mb => mkMailbox (sent mb) false) ch (boxes n)).

Definition mpsc_wf {M} (n : Mpsc M) : Prop :=
  forall ch, is_Some (boxes n !! ch) -> (ch < next_chan n)%nat.

(** ** The task channel *)
Record MessageChannelInner := mkInner {
  subscribers : list nat;
  buffer : list (list Z);
  closed : bool;
  closed_at : option Z;
}.

Definition MessageChannelState_default : MessageChannelInner := mkInner [] [] false None.

(** [Vec::retain(|tx| tx.send(msg.clone()).is_ok())] *)
Fixpoint retain_send (subs : list nat) (m : StreamMessage) (n : Mpsc StreamMessage)
  : list nat * Mpsc StreamMessage :=
  match subs with
  | [] => ([], n)
  | tx :: rest =>
      let (ok, n1) := send tx m n in
      let (kept, n2) := retain_send rest m n1 in
      (if ok then tx :: kept else kept, n2)
  end.

Definition push (payload : list Z) (inner : MessageChannelInner) (n : Mpsc StreamMessage)
  : MessageChannelInner * Mpsc StreamMessage :=
  if closed inner then (inner, n)
  else
    let (subs, n') := retain_send (subscribers inner) (Payload payload) n in
    (mkInner subs (buffer inner ++ [payload]) (closed inner) (closed_at inner), n').

Definition replay (ch : nat) (payloads : list (list Z)) (n : Mpsc StreamMessage) : Mpsc StreamMessage :=
  foldl (fun n p => send_ ch (Payload p) n) n payloads.

Definition attach_subscriber (start_offset : nat) (inner : MessageChannelInner)
    (n : Mpsc StreamMessage) : nat * MessageChannelInner * Mpsc StreamMessage :=
  let (tx, n1) := unbounded_channel n in
  let n2 := replay tx (drop start_offset (buffer inner)) n1 in
  if closed inner then (tx, inner, send_ tx EndOfStream n2)
  else (tx, mkInner (subscribers inner ++ [tx]) (buffer inner) (closed inner) (closed_at inner), n2).

(** The body of [close_task_channel] on an existing entry. *)
Definition close_inner (now : Z) (inner : MessageChannelInner) (n : Mpsc StreamMessage)
  : MessageChannelInner * Mpsc StreamMessage :=
  if closed inner then (inner, n)
  else (mkInner [] (buffer inner) true (Some now),
        foldl (fun n tx => send_ tx EndOfStream n) n (subscribers inner)).

(** ** Lemmas on sends *)
Lemma send_other {M} ch ch' (m : M) n :
  ch <> ch' -> boxes (send_ ch m n) !! ch' = boxes n !! ch'.
Proof. intros Hne. unfold send_, send. case_all; by rewrite ?lookup_insert_ne. Qed.

Lemma send_same {M} ch (m : M) n mb :
  boxes n !! ch = Some mb ->
  boxes (send_ ch m n) !! ch
  = Some (if rx_open mb then mkMailbox (sent mb ++ [m]) true else mb).
Proof. intros H. unfold send_, send. rewrite H. case_all; by simplify_map_eq. Qed.

Lemma send_next {M} ch (m : M) n : next_chan (send_ ch m n) = next_chan n.
Proof. unfold send_, send. destruct (boxes n !! ch) as [[? []]|]; done. Qed.

Lemma send_is_Some {M} ch ch' (m : M) n :
  is_Some (boxes (send_ ch m n) !! ch') <-> is_Some (boxes n !! ch').
Proof.
  destruct (decide (ch = ch')) as [->|Hne]; [|by rewrite send_other].
  destruct (boxes n !! ch') as [mb|] eqn:E.
  - rewrite (send_same _ _ _ _ E). split; eauto.
  - unfold send_, send. rewrite E. simpl. by rewrite E.
Qed.

Lemma send_wf {M} ch (m : M) n : mpsc_wf n -> mpsc_wf (send_ ch m n).
Proof. intros Hwf ch' H. rewrite send_next. apply Hwf. by apply send_is_Some in H. Qed.

Lemma retain_send_net subs m n :
  (retain_send subs m n).2 = foldl (fun n tx => send_ tx m n) n subs.
Proof.
  revert n. induction subs as [|tx subs IH]; intros n; simpl; [done|].
  destruct (send tx m n) as [ok n1] eqn:E.
  assert (send_ tx m n = n1) as -> by (unfold send_; by rewrite E).
  rewrite <- IH. destruct (retain_send subs m n1). by destruct ok.
Qed.

(** Broadcasting to distinct senders appends [m] once to each open mailbox and
    leaves the others. *)
Section broadcast.
Context {M : Type} (m : M).

Definition broadcast (subs : list nat) (n : Mpsc M) : Mpsc M :=
  foldl (fun n tx => send_ tx m n) n subs.

Lemma broadcast_wf subs n : mpsc_wf n -> mpsc_wf (broadcast subs n).
Proof. revert n. induction subs; simpl; auto using send_wf. Qed.

Lemma broadcast_next subs n : next_chan (broadcast subs n) = next_chan n.
Proof. revert n. induction subs as [|tx subs IH]; intros n; simpl; [done|]. by rewrite IH, send_next. Qed.

Lemma broadcast_other subs n ch : ch ∉ subs -> boxes (broadcast subs n) !! ch = boxes n !! ch.
Proof.
  revert n. induction subs as [|tx subs IH]; intros n Hch; simpl; [done|].
  rewrite not_elem_of_cons in Hch. destruct Hch as [? ?].
  rewrite IH by done. by apply send_other.
Qed.

Lemma broadcast_same subs n ch mb :
  NoDup subs -> ch ∈ subs -> boxes n !! ch = Some mb ->
  boxes (broadcast subs n) !! ch = Some (if rx_open mb then mkMailbox (sent mb ++ [m]) true else mb).
Proof.
  revert n. induction subs as [|tx subs IH]; intros n Hnd Hin Hmb; [by inv Hin|].
  inv Hnd. simpl. apply elem_of_cons in Hin as [->|Hin].
  - rewrite broadcast_other by done. by apply send_same.
  - apply IH; [done..|]. rewrite send_other; [done|]. intros ->. done.
Qed.
End broadcast.

Lemma replay_same ch ps n mb :
  boxes n !! ch = Some mb -> rx_open mb = true ->
  boxes (replay ch ps n) !! ch = Some (mkMailbox (sent mb ++ (Payload <$> ps)) true).
Proof.
  revert n mb. induction ps as [|p ps IH]; intros n mb Hmb Ho; simpl.
  - rewrite app_nil_r. destruct mb; simplify_eq/=. done.
  - erewrite IH; [|by erewrite send_same, Ho|done]. simpl. by rewrite <- app_assoc.
Qed.

Lemma replay_other ch ch' ps n : ch <> ch' -> boxes (replay ch ps n) !! ch' = boxes n !! ch'.
Proof. intros Hne. revert n. induction ps as [|p ps IH]; intros n; simpl; [done|]. rewrite IH. by apply send_other. Qed.

Lemma replay_next ch ps n : next_chan (replay ch ps n) = next_chan n.
Proof. revert n. induction ps as [|p ps IH]; intros n; simpl; [done|]. by rewrite IH, send_next. Qed.

Lemma replay_wf ch ps n : mpsc_wf n -> mpsc_wf (replay ch ps n).
Proof. revert n. induction ps; simpl; auto using send_wf. Qed.

(** ** What a subscriber sees

    A channel's life as a sequence of operations: messages pushed, subscribers
    attached at an offset, the close, and receivers dropped by their clients.
    [attached] records each subscriber with the first buffer index it is owed
    (an offset beyond the buffer is owed everything from the attach on). *)
Inductive chan_op :=
  | OpPush (payload : list Z)
  | OpAttach (start_offset : nat)
  | OpClose (now : Z)
  | OpDrop (ch : nat).

Record chan_run := mkRun {
  run_inner : MessageChannelInner;
  run_net : Mpsc StreamMessage;
  attached : list (nat * nat);
}.

Definition chan_init : chan_run := mkRun MessageChannelState_default mpsc_empty [].

Definition chan_exec (r : chan_run) (o : chan_op) : chan_run :=
  match o with
  | OpPush p =>
      let (i, n) := push p (run_inner r) (run_net r) in mkRun i n (attached r)
  | OpAttach k =>
      let '(tx, i, n) := attach_subscriber k (run_inner r) (run_net r) in
      mkRun i n ((tx, Nat.min k (length (buffer (run_inner r)))) :: attached r)
  | OpClose now =>
      let (i, n) := close_inner now (run_inner r) (run_net r) in mkRun i n (attached r)
  | OpDrop ch => mkRun (run_inner r) (drop_rx ch (run_net r)) (attached r)
  end.

Definition chan_execs (r : chan_run) (os : list chan_op) : chan_run := foldl chan_exec r os.

Definition expected_stream (inner : MessageChannelInner) (k0 : nat) : list StreamMessage :=
  (Payload <$> drop k0 (buffer inner)) ++ (if closed inner then [EndOfStream] else []).

Record chan_inv (r : chan_run) : Prop := {
  ci_wf : mpsc_wf (run_net r);
  ci_nodup : NoDup (subscribers (run_inner r));
  ci_closed : closed (run_inner r) = true -> subscribers (run_inner r) = [];
  ci_subs : forall ch, ch ∈ subscribers (run_inner r) -> is_Some (boxes (run_net r) !! ch);
  ci_view : forall ch k0, (ch, k0) ∈ attached r ->
    (k0 <= length (buffer (run_inner r)))%nat /\
    exists mb, boxes (run_net r) !! ch = Some mb /\
      (rx_open mb = true ->
       sent mb = expected_stream (run_inner r) k0 /\
       (closed (run_inner r) = false -> ch ∈ subscribers (run_inner r)));
}.

Lemma retain_send_kept subs m n ch :
  ch ∈ (retain_send subs m n).1 -> ch ∈ subs.
Proof.
  revert n. induction subs as [|tx subs IH]; intros n; simpl; [done|].
  destruct (send tx m n) as [ok n1]. specialize (IH n1).
  destruct (retain_send subs m n1) as [kept n2]. destruct ok; simpl in *; set_solver.
Qed.

Lemma retain_send_nodup subs m n : NoDup subs -> NoDup (retain_send subs m n).1.
Proof.
  revert n. induction subs as [|tx subs IH]; intros n Hnd; simpl; [constructor|].
  inv Hnd. destruct (send tx m n) as [ok n1]. specialize (IH n1).
  pose proof (retain_send_kept subs m n1 tx).
  destruct (retain_send subs m n1) as [kept n2]. destruct ok; simpl in *; [constructor|]; auto.
Qed.

Lemma retain_send_open subs m n ch mb :
  NoDup subs -> ch ∈ subs -> boxes n !! ch = Some mb -> rx_open mb = true ->
  ch ∈ (retain_send subs m n).1.
Proof.
  revert n. induction subs as [|tx subs IH]; intros n Hnd Hin Hmb Ho; [by inv Hin|].
  inv Hnd. simpl. destruct (send tx m n) as [ok n1] eqn:E.
  destruct (decide (tx = ch)) as [->|Hne].
  - unfold send in E. rewrite Hmb, Ho in E. simplify_eq.
    destruct (retain_send subs m _). simpl. set_solver.
  - apply elem_of_cons in Hin as [->|Hin]; [done|].
    assert (boxes n1 !! ch = Some mb) as Hn1.
    { rewrite <- Hmb, <- (send_other tx ch m n Hne). unfold send_. by rewrite E. }
    specialize (IH n1 ltac:(done) Hin Hn1 Ho).
    destruct (retain_send subs m n1). destruct ok; simpl in *; set_solver.
Qed.

Lemma expected_push p inner subs k0 :
  closed inner = false -> (k0 <= length (buffer inner))%nat ->
  expected_stream (mkInner subs (buffer inner ++ [p]) false (closed_at inner)) k0
  = expected_stream inner k0 ++ [Payload p].
Proof.
  intros Hc Hk. unfold expected_stream. simpl. rewrite Hc, !app_nil_r, drop_app_le by done.
  by rewrite fmap_app.
Qed.

Lemma push_inv p r : chan_inv r -> chan_inv (chan_exec r (OpPush p)).
Proof.
  intros Hinv. simpl. unfold push.
  destruct (closed (run_inner r)) eqn:Hc; [by destruct r|].
  destruct Hinv as [Hwf Hnd Hcl Hsub Hview].
  pose proof (retain_send_net (subscribers (run_inner r)) (Payload p) (run_net r)) as Hnet.
  pose proof (retain_send_nodup _ (Payload p) (run_net r) Hnd) as Hnd'.
  pose proof (retain_send_kept (subscribers (run_inner r)) (Payload p) (run_net r)) as Hkept.
  pose proof (fun ch mb => retain_send_open _ (Payload p) (run_net r) ch mb Hnd) as Hopen.
  destruct (retain_send _ _ _) as [subs n]. simpl in *.
  fold (broadcast (Payload p) (subscribers (run_inner r)) (run_net r)) in Hnet. subst n.
  constructor; simpl.
  - by apply broadcast_wf.
  - done.
  - congruence.
  - intros ch Hch. destruct (Hsub ch (Hkept ch Hch)) as [mb Hmb].
    erewrite broadcast_same; eauto.
  - intros ch k0 Hin. destruct (Hview ch k0 Hin) as [Hk (mb & Hmb & Hv)].
    rewrite length_app. split; [lia|].
    rewrite expected_push by done.
    destruct (decide (ch ∈ subscribers (run_inner r))) as [Hs|Hs].
    + erewrite broadcast_same by eauto. eexists; split; [done|].
      destruct (rx_open mb) eqn:Ho; [|congruence].
      destruct (Hv eq_refl) as [-> _]. simpl. split; [done|]. eauto.
    + rewrite broadcast_other by done. exists mb. split; [done|].
      intros Ho. destruct (Hv Ho) as [_ Hin']. destruct Hs. auto.
Qed.

Lemma drop_min_length {A} k (l : list A) : drop k l = drop (Nat.min k (length l)) l.
Proof.
  destruct (Nat.min_spec k (length l)) as [[? ->]|[? ->]]; [done|].
  rewrite !drop_ge by lia. done.
Qed.

(** Attaching creates one new mailbox, filled with what the subscriber is owed
    so far, and touches no other. *)
Lemma attach_spec k inner n tx inner' n' :
  mpsc_wf n -> attach_subscriber k inner n = (tx, inner', n') ->
  boxes n !! tx = None /\ mpsc_wf n' /\
  boxes n' !! tx
  = Some (mkMailbox (expected_stream inner (Nat.min k (length (buffer inner)))) true) /\
  (forall ch, ch <> tx -> boxes n' !! ch = boxes n !! ch) /\
  inner' = (if closed inner then inner
            else mkInner (subscribers inner ++ [tx]) (buffer inner) false (closed_at inner)).
Proof.
  intros Hwf. unfold attach_subscriber, unbounded_channel.
  set (n1 := mkMpsc _ _). set (n2 := replay _ _ n1). intros Hat.
  assert (Hfresh : boxes n !! next_chan n = None).
  { apply eq_None_not_Some. intros H%Hwf. lia. }
  assert (Hwf1 : mpsc_wf n1).
  { intros ch [mb Hmb]. unfold n1 in *; simpl in *.
    apply lookup_insert_Some in Hmb as [[<- _]|[_ Hmb]]; [lia|].
    pose proof (Hwf ch ltac:(eauto)). lia. }
  assert (Htx : boxes n2 !! next_chan n = Some (mkMailbox (Payload <$> drop k (buffer inner)) true)).
  { unfold n2. erewrite replay_same; [|unfold n1; simpl; by rewrite lookup_insert_eq|done]. done. }
  assert (Hoth : forall ch, ch <> next_chan n -> boxes n2 !! ch = boxes n !! ch).
  { intros ch Hne. unfold n2, n1. rewrite replay_other by done. simpl. by rewrite lookup_insert_ne. }
  assert (Hwf2 : mpsc_wf n2) by by apply replay_wf.
  unfold expected_stream. rewrite <- drop_min_length.
  destruct (closed inner) eqn:Hc; simplify_eq; (split_and!; [done|auto using send_wf, replay_wf| | |done]).
  - erewrite send_same by done. done.
  - intros ch Hne. rewrite send_other by done. auto.
  - by rewrite app_nil_r.
  - done.
Qed.

Lemma attach_inv k r : chan_inv r -> chan_inv (chan_exec r (OpAttach k)).
Proof.
  intros [Hwf Hnd Hcl Hsub Hview]. simpl.
  destruct (attach_subscriber k (run_inner r) (run_net r)) as [[tx i] n] eqn:Hat.
  destruct (attach_spec _ _ _ _ _ _ Hwf Hat) as (Hfresh & Hwf' & Htx & Hoth & ->).
  assert (Hold : forall ch, is_Some (boxes (run_net r) !! ch) -> ch <> tx) by (intros ch [mb ?] ->; congruence).
  assert (Hview' : forall ch k0, (ch, k0) ∈ attached r ->
    ch <> tx /\ boxes n !! ch = boxes (run_net r) !! ch).
  { intros ch k0 Hin. destruct (Hview _ _ Hin) as [_ (mb & Hmb & _)].
    split; [|apply Hoth]; apply Hold; eauto. }
  destruct (closed (run_inner r)) eqn:Hc; constructor; simpl; rewrite ?Hc; try done.
  - intros ch Hch. rewrite Hcl in Hch by done. by inv Hch.
  - intros ch k0 [[= -> ->]|Hin]%elem_of_cons.
    + split; [lia|]. rewrite Htx. eexists; split; [done|]. done.
    + destruct (Hview' _ _ Hin) as [_ ->]. by apply Hview.
  - apply NoDup_app. split_and!; [done| |apply NoDup_singleton].
    intros x Hx Hx2%list_elem_of_singleton. subst. by destruct (Hold tx (Hsub _ Hx)).
  - intros ch [Hch|Hch%list_elem_of_singleton]%elem_of_app; [|subst; rewrite Htx; eauto].
    rewrite Hoth by (apply Hold; eauto). eauto.
  - unfold expected_stream in *. rewrite Hc in *. simpl in *.
    intros ch k0 [[= -> ->]|Hin]%elem_of_cons.
    + split; [lia|]. rewrite Htx. eexists; split; [done|]. set_solver.
    + destruct (Hview' _ _ Hin) as [_ ->]. destruct (Hview _ _ Hin) as [? (mb & ? & ?)].
      set_solver.
Qed.

Lemma close_inv now r : chan_inv r -> chan_inv (chan_exec r (OpClose now)).
Proof.
  intros Hinv. simpl. unfold close_inner.
  destruct (closed (run_inner r)) eqn:Hc; [by destruct r|].
  destruct Hinv as [Hwf Hnd Hcl Hsub Hview]. constructor; simpl; try done.
  - by apply broadcast_wf.
  - constructor.
  - intros ch Hch. by inv Hch.
  - fold (broadcast EndOfStream (subscribers (run_inner r)) (run_net r)).
    intros ch k0 Hin. destruct (Hview ch k0 Hin) as [Hk (mb & Hmb & Hv)]. split; [done|].
    unfold expected_stream in *. simpl. rewrite Hc, app_nil_r in Hv.
    destruct (decide (ch ∈ subscribers (run_inner r))) as [Hs|Hs].
    + erewrite broadcast_same by eauto. eexists; split; [done|].
      destruct (rx_open mb) eqn:Ho; [|congruence]. destruct (Hv eq_refl) as [-> _]. done.
    + rewrite broadcast_other by done. exists mb. split; [done|].
      intros Ho. destruct (Hv Ho) as [_ Hin']. destruct Hs. auto.
Qed.

Lemma drop_inv ch r : chan_inv r -> chan_inv (chan_exec r (OpDrop ch)).
Proof.
  intros [Hwf Hnd Hcl Hsub Hview].
  assert (Hl : forall ch', boxes (drop_rx ch (run_net r)) !! ch'
    = (fun mb => if decide (ch = ch') then mkMailbox (sent mb) false else mb) <$> boxes (run_net r) !! ch').
  { intros ch'. simpl. rewrite lookup_alter. case_decide; subst; [done|].
    by destruct (boxes (run_net r) !! ch'). }
  constructor; simpl; try done.
  - intros ch' Hs. apply Hwf. fold (drop_rx ch (run_net r)) in Hs. rewrite Hl in Hs. by apply fmap_is_Some in Hs.
  - intros ch' Hs. fold (drop_rx ch (run_net r)). setoid_rewrite Hl. apply fmap_is_Some. auto.
  - intros ch' k0 Hin. destruct (Hview _ _ Hin) as [? (mb & Hmb & Hv)]. split; [done|].
    setoid_rewrite Hl. rewrite Hmb. simpl. eexists; split; [done|]. case_decide; [done|auto].
Qed.

Lemma chan_init_inv : chan_inv chan_init.
Proof.
  constructor; simpl; try done.
  - intros ch [mb H]. simpl in H. by rewrite lookup_empty in H.
  - constructor.
  - intros ch Hch. by inv Hch.
  - intros ch k0 Hch. by inv Hch.
Qed.

Lemma chan_execs_inv r os : chan_inv r -> chan_inv (chan_execs r os).
Proof.
  revert r. induction os as [|o os IH]; intros r Hr; [done|]. simpl. apply IH.
  destruct o; auto using push_inv, attach_inv, close_inv, drop_inv.
Qed.

(** whatever sequence of pushes, attaches, closes and disconnects a task
    channel goes through, a subscriber whose receiver is still open has been
    sent exactly the messages of the buffer from its start offset on, in order
    and once each, followed by one end-of-stream exactly when the channel is
    closed. *)
Theorem subscriber_stream_exact os ch k0 mb :
  (ch, k0) ∈ attached (chan_execs chan_init os) ->
  boxes (run_net (chan_execs chan_init os)) !! ch = Some mb ->
  rx_open mb = true ->
  sent mb = (Payload <$> drop k0 (buffer (run_inner (chan_execs chan_init os))))
            ++ (if closed (run_inner (chan_execs chan_init os)) then [EndOfStream] else []).
Proof.
  intros Hin Hmb Ho. destruct (chan_execs_inv _ os chan_init_inv) as [_ _ _ _ Hview].
  destruct (Hview _ _ Hin) as [_ (mb' & Hmb' & Hv)]. simplify_eq. by apply Hv.
Qed.

Lemma subscriber_stream_exact_witness :
  let os := [OpPush [1]; OpAttach 0; OpPush [2]; OpAttach 1; OpAttach 9; OpPush [3]; OpClose 7; OpPush [4]] in
  sent (default (mkMailbox [] false) (boxes (run_net (chan_execs chan_init os)) !! 1%nat))
  = [Payload [2]; Payload [3]; EndOfStream].
Proof.
  intros os.
  exact (subscriber_stream_exact os 1%nat 1%nat _ ltac:(set_solver) eq_refl eq_refl).
Defined.
