(* ===== verification/CoordState.v ===== *)
(** * The coordinator's data

    The structures of bin/coordinator/src/lib.rs, parameterised like the source
    by an assignment policy, and the environment the coordinator runs in:
    clocks, the id generator, the hash iteration order and the code the
    repository only imports. *)
From stdpp Require Import base gmap strings list.
From S2P Require Import Prelude Proto TaskChannel.

(** ** Environment

    - [from_task_type] is [WorkerType::from_task_type] of the imported proto crate;
    - [cpu_only] is [option_env!("SP1_CLUSTER_CPU_ONLY").is_some()];
    - [create_type_id prefix n] is the id made by the [n]th reading of the
      TypeID generator ([prefix.create_type_id::<V7>()]);
    - [json_string s] is [serde_json::to_string] of a string;
    - [clock n] is the [n]th reading of [SystemTime::now()], in nanoseconds since
      the epoch, and [instant n] that of [Instant::now()]. *)
Class ClusterEnv := {
  env_iter :: HashIter;
  env_weights : Weights;
  from_task_type : TaskType -> WorkerType;
  cpu_only : bool;
  create_type_id : string -> nat -> string;
  json_string : string -> string;
  clock : nat -> Z;
  instant : nat -> Z;
}.

(** What the coordinator relies on: maps iterate over their entries, generated
    ids do not repeat, the system clock is after the epoch and the monotonic
    clock does not go back. *)
Class ClusterEnvOk (E : ClusterEnv) : Prop := {
  env_iter_ok :: HashIterOk env_iter;
  create_type_id_inj : forall p n m, create_type_id p n = create_type_id p m -> n = m;
  clock_nonneg : forall n, 0 <= clock n;
  instant_mono : forall n m, (n <= m)%nat -> instant n <= instant m;
}.

Definition as_secs (ns : Z) : Z := ns / 1000000000.
Definition as_millis (ns : Z) : Z := ns / 1000000.

(** [worker_type_from_task_type]. *)
Definition worker_type_from_task_type `{ClusterEnv} (t : TaskType) : WorkerType :=
  match from_task_type t with
  | Gpu => if cpu_only then Cpu else Gpu
  | wt => wt
  end.

(** ** The associated types of the [AssignmentPolicy] trait *)
Class PolicyTypes := {
  Policy : Type;
  ProofState : Type;
  TaskState : Type;
  WorkerState : Type;
  ProofResultMetadata : Type;
  policy_default : Policy;
  proof_state_default : ProofState;
  task_state_default : TaskState;
  worker_state_default : WorkerState;
}.

(** [TaskMetadata]. *)
Record TaskMetadata := mkTaskMetadata { gpu_ms : Z }.

(** [GpuAttempt]: one assignment of a task to one worker. *)
Record GpuAttempt := mkGpuAttempt {
  on_gpu : bool;
  credited : bool;
}.

(** [WorkerIdentity]: what a worker reports in its [OpenRequest]. *)
Record WorkerIdentity := mkIdentity {
  id_version : string;
  id_git_sha : string;
  id_image_tag : string;
  id_gpu_name : string;
  id_gpu_memory_total_bytes : Z;
  id_location : string;
}.

Section state.
Context {PT : PolicyTypes}.

(** [Task]. *)
Record Task := mkTask {
  t_id : string;
  t_data : TaskData;
  t_created_at : Z;
  t_status : TaskStatus;
  t_retries : Z;
  t_subscribers : gset string;
  t_worker : option string;
  t_gpu_attempts : gmap string GpuAttempt;
  t_dead_worker_requeue_count : Z;
  t_extra : TaskState;
}.

Definition set_t_status (y : TaskStatus) (x : Task) : Task :=
  mkTask (t_id x) (t_data x) (t_created_at x) y (t_retries x) (t_subscribers x) (t_worker x) (t_gpu_attempts x) (t_dead_worker_requeue_count x) (t_extra x).

Definition set_t_retries (y : Z) (x : Task) : Task :=
  mkTask (t_id x) (t_data x) (t_created_at x) (t_status x) y (t_subscribers x) (t_worker x) (t_gpu_attempts x) (t_dead_worker_requeue_count x) (t_extra x).

Definition set_t_subscribers (y : gset string) (x : Task) : Task :=
  mkTask (t_id x) (t_data x) (t_created_at x) (t_status x) (t_retries x) y (t_worker x) (t_gpu_attempts x) (t_dead_worker_requeue_count x) (t_extra x).

Definition set_t_worker (y : option string) (x : Task) : Task :=
  mkTask (t_id x) (t_data x) (t_created_at x) (t_status x) (t_retries x) (t_subscribers x) y (t_gpu_attempts x) (t_dead_worker_requeue_count x) (t_extra x).

Definition set_t_gpu_attempts (y : gmap string GpuAttempt) (x : Task) : Task :=
  mkTask (t_id x) (t_data x) (t_created_at x) (t_status x) (t_retries x) (t_subscribers x) (t_worker x) y (t_dead_worker_requeue_count x) (t_extra x).

Definition set_t_dead_worker_requeue_count (y : Z) (x : Task) : Task :=
  mkTask (t_id x) (t_data x) (t_created_at x) (t_status x) (t_retries x) (t_subscribers x) (t_worker x) (t_gpu_attempts x) y (t_extra x).

(** [Proof]. *)
Record Proof := mkProof {
  p_id : string;
  p_tasks : gmap string Task;
  p_created_at : Z;
  p_expires_at : option Z;
  p_active_tasks : Z;
  p_extra : ProofState;
}.

Definition set_p_tasks (y : gmap string Task) (x : Proof) : Proof :=
  mkProof (p_id x) y (p_created_at x) (p_expires_at x) (p_active_tasks x) (p_extra x).

Definition set_p_active_tasks (y : Z) (x : Proof) : Proof :=
  mkProof (p_id x) (p_tasks x) (p_created_at x) (p_expires_at x) y (p_extra x).

Definition set_p_extra (y : ProofState) (x : Proof) : Proof :=
  mkProof (p_id x) (p_tasks x) (p_created_at x) (p_expires_at x) (p_active_tasks x) y.

(** [ProofResult]: what is sent on [proofs_tx]. *)
Record ProofResult := mkProofResult {
  pr_id : string;
  pr_success : bool;
  pr_metadata : option ProofResultMetadata;
  pr_extra_data : option string;
}.

(** [Worker]. [w_channel] is the sender of its [ServerMessage] stream. *)
Record Worker := mkWorker {
  w_id : string;
  w_worker_type : WorkerType;
  w_max_weight : Z;
  w_next_free_time : Z;
  w_weight : Z;
  w_active_tasks : gset (string * string);
  w_channel : nat;
  w_last_heartbeat : Z;
  w_closed : bool;
  w_identity : WorkerIdentity;
  w_extra : WorkerState;
}.

Definition set_w_next_free_time (y : Z) (x : Worker) : Worker :=
  mkWorker (w_id x) (w_worker_type x) (w_max_weight x) y (w_weight x) (w_active_tasks x) (w_channel x) (w_last_heartbeat x) (w_closed x) (w_identity x) (w_extra x).

Definition set_w_weight (y : Z) (x : Worker) : Worker :=
  mkWorker (w_id x) (w_worker_type x) (w_max_weight x) (w_next_free_time x) y (w_active_tasks x) (w_channel x) (w_last_heartbeat x) (w_closed x) (w_identity x) (w_extra x).

Definition set_w_active_tasks (y : gset (string * string)) (x : Worker) : Worker :=
  mkWorker (w_id x) (w_worker_type x) (w_max_weight x) (w_next_free_time x) (w_weight x) y (w_channel x) (w_last_heartbeat x) (w_closed x) (w_identity x) (w_extra x).

Definition set_w_channel (y : nat) (x : Worker) : Worker :=
  mkWorker (w_id x) (w_worker_type x) (w_max_weight x) (w_next_free_time x) (w_weight x) (w_active_tasks x) y (w_last_heartbeat x) (w_closed x) (w_identity x) (w_extra x).

Definition set_w_last_heartbeat (y : Z) (x : Worker) : Worker :=
  mkWorker (w_id x) (w_worker_type x) (w_max_weight x) (w_next_free_time x) (w_weight x) (w_active_tasks x) (w_channel x) y (w_closed x) (w_identity x) (w_extra x).

Definition set_w_closed (y : bool) (x : Worker) : Worker :=
  mkWorker (w_id x) (w_worker_type x) (w_max_weight x) (w_next_free_time x) (w_weight x) (w_active_tasks x) (w_channel x) (w_last_heartbeat x) y (w_identity x) (w_extra x).

Definition set_w_identity (y : WorkerIdentity) (x : Worker) : Worker :=
  mkWorker (w_id x) (w_worker_type x) (w_max_weight x) (w_next_free_time x) (w_weight x) (w_active_tasks x) (w_channel x) (w_last_heartbeat x) (w_closed x) y (w_extra x).

(** [CoordinatorState]. *)
Record CoordinatorState := mkState {
  s_total_tasks : Z;
  s_workers : gmap string Worker;
  s_proofs : gmap string Proof;
  s_proofs_tx : option nat;
  s_shutting_down : bool;
  s_policy : Policy;
  s_execute_only_mode : bool;
  s_worker_heartbeat_timeout_secs : Z;
  s_gpu_busy_ms_total : Z;
  s_gpu_available_ms_total : Z;
  s_gpu_available_last_tick : Z;
  s_counters_since : Z;
}.

Definition set_s_total_tasks (y : Z) (x : CoordinatorState) : CoordinatorState :=
  mkState y (s_workers x) (s_proofs x) (s_proofs_tx x) (s_shutting_down x) (s_policy x) (s_execute_only_mode x) (s_worker_heartbeat_timeout_secs x) (s_gpu_busy_ms_total x) (s_gpu_available_ms_total x) (s_gpu_available_last_tick x) (s_counters_since x).

Definition set_s_workers (y : gmap string Worker) (x : CoordinatorState) : CoordinatorState :=
  mkState (s_total_tasks x) y (s_proofs x) (s_proofs_tx x) (s_shutting_down x) (s_policy x) (s_execute_only_mode x) (s_worker_heartbeat_timeout_secs x) (s_gpu_busy_ms_total x) (s_gpu_available_ms_total x) (s_gpu_available_last_tick x) (s_counters_since x).

Definition set_s_proofs (y : gmap string Proof) (x : CoordinatorState) : CoordinatorState :=
  mkState (s_total_tasks x) (s_workers x) y (s_proofs_tx x) (s_shutting_down x) (s_policy x) (s_execute_only_mode x) (s_worker_heartbeat_timeout_secs x) (s_gpu_busy_ms_total x) (s_gpu_available_ms_total x) (s_gpu_available_last_tick x) (s_counters_since x).

Definition set_s_proofs_tx (y : option nat) (x : CoordinatorState) : CoordinatorState :=
  mkState (s_total_tasks x) (s_workers x) (s_proofs x) y (s_shutting_down x) (s_policy x) (s_execute_only_mode x) (s_worker_heartbeat_timeout_secs x) (s_gpu_busy_ms_total x) (s_gpu_available_ms_total x) (s_gpu_available_last_tick x) (s_counters_since x).

Definition set_s_shutting_down (y : bool) (x : CoordinatorState) : CoordinatorState :=
  mkState (s_total_tasks x) (s_workers x) (s_proofs x) (s_proofs_tx x) y (s_policy x) (s_execute_only_mode x) (s_worker_heartbeat_timeout_secs x) (s_gpu_busy_ms_total x) (s_gpu_available_ms_total x) (s_gpu_available_last_tick x) (s_counters_since x).

Definition set_s_policy (y : Policy) (x : CoordinatorState) : CoordinatorState :=
  mkState (s_total_tasks x) (s_workers x) (s_proofs x) (s_proofs_tx x) (s_shutting_down x) y (s_execute_only_mode x) (s_worker_heartbeat_timeout_secs x) (s_gpu_busy_ms_total x) (s_gpu_available_ms_total x) (s_gpu_available_last_tick x) (s_counters_since x).

Definition set_s_execute_only_mode (y : bool) (x : CoordinatorState) : CoordinatorState :=
  mkState (s_total_tasks x) (s_workers x) (s_proofs x) (s_proofs_tx x) (s_shutting_down x) (s_policy x) y (s_worker_heartbeat_timeout_secs x) (s_gpu_busy_ms_total x) (s_gpu_available_ms_total x) (s_gpu_available_last_tick x) (s_counters_since x).

Definition set_s_worker_heartbeat_timeout_secs (y : Z) (x : CoordinatorState) : CoordinatorState :=
  mkState (s_total_tasks x) (s_workers x) (s_proofs x) (s_proofs_tx x) (s_shutting_down x) (s_policy x) (s_execute_only_mode x) y (s_gpu_busy_ms_total x) (s_gpu_available_ms_total x) (s_gpu_available_last_tick x) (s_counters_since x).

Definition set_s_gpu_busy_ms_total (y : Z) (x : CoordinatorState) : CoordinatorState :=
  mkState (s_total_tasks x) (s_workers x) (s_proofs x) (s_proofs_tx x) (s_shutting_down x) (s_policy x) (s_execute_only_mode x) (s_worker_heartbeat_timeout_secs x) y (s_gpu_available_ms_total x) (s_gpu_available_last_tick x) (s_counters_since x).

Definition set_s_gpu_available_ms_total (y : Z) (x : CoordinatorState) : CoordinatorState :=
  mkState (s_total_tasks x) (s_workers x) (s_proofs x) (s_proofs_tx x) (s_shutting_down x) (s_policy x) (s_execute_only_mode x) (s_worker_heartbeat_timeout_secs x) (s_gpu_busy_ms_total x) y (s_gpu_available_last_tick x) (s_counters_since x).

Definition set_s_gpu_available_last_tick (y : Z) (x : CoordinatorState) : CoordinatorState :=
  mkState (s_total_tasks x) (s_workers x) (s_proofs x) (s_proofs_tx x) (s_shutting_down x) (s_policy x) (s_execute_only_mode x) (s_worker_heartbeat_timeout_secs x) (s_gpu_busy_ms_total x) (s_gpu_available_ms_total x) y (s_counters_since x).

(** [Subscriber]: a client waiting for tasks to complete. *)
Record Subscriber := mkSubscriber {
  sub_tx : nat;
  sub_active_subscriptions : gset string;
  sub_proof_id : string;
  sub_last_update : Z;
}.

Definition set_sub_tx (y : nat) (x : Subscriber) : Subscriber :=
  mkSubscriber y (sub_active_subscriptions x) (sub_proof_id x) (sub_last_update x).

Definition set_sub_active_subscriptions (y : gset string) (x : Subscriber) : Subscriber :=
  mkSubscriber (sub_tx x) y (sub_proof_id x) (sub_last_update x).

Definition set_sub_last_update (y : Z) (x : Subscriber) : Subscriber :=
  mkSubscriber (sub_tx x) (sub_active_subscriptions x) (sub_proof_id x) y.

(** [Coordinator]: the shared state, the two [DashMap]s, the mailboxes behind the
    senders the structures hold, and [c_tick], the number of readings taken so far of
    the clocks and the id generator. *)
Record Coordinator := mkCoordinator {
  c_state : CoordinatorState;
  c_subscribers : gmap string Subscriber;
  c_task_channels : gmap string MessageChannelInner;
  c_worker_net : Mpsc ServerMessage;
  c_sub_net : Mpsc ServerSubMessage;
  c_stream_net : Mpsc StreamMessage;
  c_proofs_net : Mpsc ProofResult;
  c_tick : nat;
}.

Definition set_c_state (y : CoordinatorState) (x : Coordinator) : Coordinator :=
  mkCoordinator y (c_subscribers x) (c_task_channels x) (c_worker_net x) (c_sub_net x) (c_stream_net x) (c_proofs_net x) (c_tick x).

Definition set_c_subscribers (y : gmap string Subscriber) (x : Coordinator) : Coordinator :=
  mkCoordinator (c_state x) y (c_task_channels x) (c_worker_net x) (c_sub_net x) (c_stream_net x) (c_proofs_net x) (c_tick x).

Definition set_c_task_channels (y : gmap string MessageChannelInner) (x : Coordinator) : Coordinator :=
  mkCoordinator (c_state x) (c_subscribers x) y (c_worker_net x) (c_sub_net x) (c_stream_net x) (c_proofs_net x) (c_tick x).

Definition set_c_worker_net (y : Mpsc ServerMessage) (x : Coordinator) : Coordinator :=
  mkCoordinator (c_state x) (c_subscribers x) (c_task_channels x) y (c_sub_net x) (c_stream_net x) (c_proofs_net x) (c_tick x).

Definition set_c_sub_net (y : Mpsc ServerSubMessage) (x : Coordinator) : Coordinator :=
  mkCoordinator (c_state x) (c_subscribers x) (c_task_channels x) (c_worker_net x) y (c_stream_net x) (c_proofs_net x) (c_tick x).

Definition set_c_stream_net (y : Mpsc StreamMessage) (x : Coordinator) : Coordinator :=
  mkCoordinator (c_state x) (c_subscribers x) (c_task_channels x) (c_worker_net x) (c_sub_net x) y (c_proofs_net x) (c_tick x).

Definition set_c_proofs_net (y : Mpsc ProofResult) (x : Coordinator) : Coordinator :=
  mkCoordinator (c_state x) (c_subscribers x) (c_task_channels x) (c_worker_net x) (c_sub_net x) (c_stream_net x) y (c_tick x).

Definition set_c_tick (y : nat) (x : Coordinator) : Coordinator :=
  mkCoordinator (c_state x) (c_subscribers x) (c_task_channels x) (c_worker_net x) (c_sub_net x) (c_stream_net x) (c_proofs_net x) y.

End state.

