(* ===== verification/Coordinator.v ===== *)
(** * The coordinator's operations

    Every operation of [impl Coordinator] in bin/coordinator/src/lib.rs as a
    function on [Coordinator], generic in the policy. An operation runs under
    the state's write (or read) lock, so it is one step; where the source drops
    the lock between a scan and the update it triggers, the two halves are
    separate definitions. *)
From stdpp Require Import base gmap strings list.
From S2P Require Import Prelude Proto TaskChannel CoordState.
Local Open Scope string_scope.
Local Open Scope list_scope.
Local Open Scope Z_scope.

(** The [AssignmentPolicy] trait. [enqueue_task] returns [None] where the
    implementation panics. *)
Class AssignmentPolicy {PT : PolicyTypes} := {
  create_proof_state : CoordinatorState -> CreateProofRequest -> ProofState;
  enqueue_task : CoordinatorState -> Task -> option CoordinatorState;
  post_task_success_update_proof : Proof -> TaskState -> TaskMetadata -> Proof;
  post_task_success_update_state : CoordinatorState -> TaskType -> CoordinatorState;
  post_task_update_state :
    CoordinatorState -> ProofState -> string -> TaskState -> Z -> string -> TaskType -> CoordinatorState;
  post_worker_empty : CoordinatorState -> Worker -> CoordinatorState * Worker;
  get_task_input_metadata : CoordinatorState -> Task -> string;
  assign_tasks : Coordinator -> outcome unit * Coordinator;
  get_proof_result_metadata : Proof -> ProofResultMetadata;
  cpu_queue_len : CoordinatorState -> Z;
  gpu_queue_len : CoordinatorState -> Z;
  on_proof_deleted : CoordinatorState -> string -> CoordinatorState;
}.

(** ** Access to the shared state *)
Section access.
Context `{E : ClusterEnv} {PT : PolicyTypes}.

Definition with_state (f : CoordinatorState -> CoordinatorState) (c : Coordinator) : Coordinator :=
  set_c_state (f (c_state c)) c.

Definition tick (c : Coordinator) : Coordinator := set_c_tick (S (c_tick c)) c.

(** [SystemTime::now()], [SystemTime::now().duration_since(UNIX_EPOCH).unwrap()],
    [Instant::now()] and the id generator. *)
Definition system_now (c : Coordinator) : Z * Coordinator := (clock (c_tick c), tick c).
Definition since_epoch (c : Coordinator) : outcome Z * Coordinator :=
  (if clock (c_tick c) <? 0 then Panic else Ok (clock (c_tick c)), tick c).
Definition instant_now (c : Coordinator) : Z * Coordinator := (instant (c_tick c), tick c).
Definition new_id (prefix : string) (c : Coordinator) : string * Coordinator :=
  (create_type_id prefix (c_tick c), tick c).

Definition send_worker (ch : nat) (m : ServerMessage) (c : Coordinator) : Coordinator :=
  set_c_worker_net (send_ ch m (c_worker_net c)) c.
Definition send_sub (ch : nat) (m : ServerSubMessage) (c : Coordinator) : Coordinator :=
  set_c_sub_net (send_ ch m (c_sub_net c)) c.

Definition insert_worker (k : string) (w : Worker) (s : CoordinatorState) : CoordinatorState :=
  set_s_workers (<[k := w]> (s_workers s)) s.
Definition insert_proof (k : string) (p : Proof) (s : CoordinatorState) : CoordinatorState :=
  set_s_proofs (<[k := p]> (s_proofs s)) s.
Definition delete_proof (k : string) (s : CoordinatorState) : CoordinatorState :=
  set_s_proofs (delete k (s_proofs s)) s.

(** [get_task_internal]. *)
Definition get_task_internal (s : CoordinatorState) (pid tid : string) : option Task :=
  match s_proofs s !! pid with Some p => p_tasks p !! tid | None => None end.

Definition update_task (pid tid : string) (f : Task -> Task) (s : CoordinatorState) : CoordinatorState :=
  set_s_proofs (alter (fun p => set_p_tasks (alter f tid (p_tasks p)) p) pid (s_proofs s)) s.

Definition not_found (m : string) : Status := mkStatus NotFound m.

(** [Coordinator::new]. *)
Definition DEFAULT_WORKER_HEARTBEAT_TIMEOUT : Z := 30.
Definition SERVER_HEARTBEAT_INTERVAL_SECS : Z := 5.
Definition MIN_WORKER_HEARTBEAT_TIMEOUT : Z := 4 * SERVER_HEARTBEAT_INTERVAL_SECS.
Definition COORDINATOR_PERIODIC_INTERVAL_SECS : Z := 10.

Definition new_coordinator : Coordinator :=
  mkCoordinator
    (mkState 0 ∅ ∅ None false policy_default false DEFAULT_WORKER_HEARTBEAT_TIMEOUT 0 0
             (instant 0%nat) (as_secs (Z.max 0 (clock 1%nat))))
    ∅ ∅ mpsc_empty mpsc_empty mpsc_empty mpsc_empty 2%nat.

(** [Proof::new] and [Worker::new]. *)
Definition new_proof (id : string) (expires_at : option Z) (extra : ProofState) (c : Coordinator)
  : Proof * Coordinator :=
  let (now, c) := system_now c in (mkProof id ∅ now expires_at 0 extra, c).

Definition new_worker (id : string) (worker_type : WorkerType) (max_weight : Z) (channel : nat)
    (identity : WorkerIdentity) (c : Coordinator) : outcome Worker * Coordinator :=
  (let? (now, c) := since_epoch c in
   (Ok (mkWorker id worker_type max_weight 0 0 ∅ channel (as_secs now) false identity
                 worker_state_default), c))%handler.

(** [request.expires_at.try_into().ok().filter(|&secs| secs > 0).map(..)]: an
    [i64] to a point in time. *)
Definition parse_expires_at (e : Z) : option Z := if 0 <? e then Some (e * 1000000000) else None.

(** ** Task channels *)

(** [close_task_channel]. *)
Definition close_task_channel (tid : string) (c : Coordinator) : Coordinator :=
  match c_task_channels c !! tid with
  | Some inner =>
      if closed inner then c
      else
        let (now, c) := instant_now c in
        let (inner', n) := close_inner now inner (c_stream_net c) in
        set_c_task_channels (<[tid := inner']> (c_task_channels c)) (set_c_stream_net n c)
  | None => c
  end.

(** [task_can_still_send]. *)
Definition task_can_still_send (s : CoordinatorState) (tid : string) : bool :=
  existsb (fun kp : string * Proof =>
             match p_tasks kp.2 !! tid with
             | Some t => negb (is_final (t_status t))
             | None => false
             end)
          (iter_map (s_proofs s)).

(** [open_channel]: create or get the entry. *)
Definition open_channel (tid : string) (c : Coordinator) : MessageChannelInner * Coordinator :=
  match c_task_channels c !! tid with
  | Some inner => (inner, c)
  | None =>
      (MessageChannelState_default,
       set_c_task_channels (<[tid := MessageChannelState_default]> (c_task_channels c)) c)
  end.

Definition push_channel (tid : string) (payload : list Z) (inner : MessageChannelInner) (c : Coordinator)
  : Coordinator :=
  let (inner', n) := push payload inner (c_stream_net c) in
  set_c_task_channels (<[tid := inner']> (c_task_channels c)) (set_c_stream_net n c).

Definition attach_channel (tid : string) (start_offset : nat) (inner : MessageChannelInner) (c : Coordinator)
  : nat * Coordinator :=
  let '(rx, inner', n) := attach_subscriber start_offset inner (c_stream_net c) in
  (rx, set_c_task_channels (<[tid := inner']> (c_task_channels c)) (set_c_stream_net n c)).

(** [send_task_message]. *)
Definition send_task_message (tid : string) (payload : list Z) (c : Coordinator) : Coordinator :=
  match c_task_channels c !! tid with
  | Some inner => push_channel tid payload inner c
  | None =>
      if task_can_still_send (c_state c) tid
      then let (inner, c) := open_channel tid c in push_channel tid payload inner c
      else c
  end.

(** [subscribe_task_channel]. *)
Definition subscribe_task_channel (tid : string) (start_offset : nat) (c : Coordinator) : nat * Coordinator :=
  match c_task_channels c !! tid with
  | Some inner => attach_channel tid start_offset inner c
  | None =>
      if task_can_still_send (c_state c) tid
      then let (inner, c) := open_channel tid c in attach_channel tid start_offset inner c
      else
        let (rx, n) := unbounded_channel (c_stream_net c) in
        (rx, set_c_stream_net (send_ rx EndOfStream n) c)
  end.

(** [cleanup_stale_task_channels]: entries closed for more than 60 seconds. *)
Definition STALE_THRESHOLD_NS : Z := 60 * 1000000000.

Definition cleanup_stale_task_channels (c : Coordinator) : Coordinator :=
  foldl (fun c (ki : string * MessageChannelInner) =>
           match closed_at ki.2 with
           | Some at_ =>
               let (now, c) := instant_now c in
               if STALE_THRESHOLD_NS <? now - at_
               then set_c_task_channels (delete ki.1 (c_task_channels c)) c
               else c
           | None => c
           end)
        c (iter_map (c_task_channels c)).

(** ** Subscribers *)

(** [notify_subscribers]. *)
Definition notify_one (tid : string) (status : TaskStatus) (c : Coordinator) (sub_id : string)
  : Coordinator :=
  match c_subscribers c !! sub_id with
  | None => c
  | Some sub =>
      let c := set_c_subscribers
                 (<[sub_id := set_sub_active_subscriptions (sub_active_subscriptions sub ∖ {[tid]}) sub]>
                    (c_subscribers c)) c in
      let (mid, c) := new_id "msg" c in
      send_sub (sub_tx sub) (mkSubMsg mid (TaskResult tid status)) c
  end.

Definition notify_subscribers (subs : gset string) (tid : string) (status : TaskStatus) (c : Coordinator)
  : Coordinator :=
  foldl (notify_one tid status) c (iter_ids subs).

End access.

(** ** Operations on proofs, tasks and workers *)
Section operations.
Context `{E : ClusterEnv} {PT : PolicyTypes} {AP : AssignmentPolicy}.
Local Open Scope handler_scope.

(** [create_task_internal]. *)
Definition create_task_internal (data : TaskData) (c : Coordinator) : outcome string * Coordinator :=
  let (id, c) := new_id "task" c in
  let (now, c) := system_now c in
  let task := mkTask id data now Pending 0 ∅ None ∅ 0 task_state_default in
  let c := with_state (fun s => set_s_total_tasks (Int.wadd u64 (s_total_tasks s) 1) s) c in
  match s_proofs (c_state c) !! proof_id data with
  | None => (Err (not_found ("proof " +:+ proof_id data +:+ " not found")), c)
  | Some proof =>
      let proof := set_p_active_tasks (Int.wadd u32 (p_active_tasks proof) 1) proof in
      let proof := set_p_tasks (<[id := task]> (p_tasks proof)) proof in
      let c := with_state (insert_proof (proof_id data) proof) c in
      match enqueue_task (c_state c) task with
      | None => (Panic, c)
      | Some s =>
          let? (_, c) := assign_tasks (set_c_state s c) in
          (Ok id, c)
      end
  end.

(** [create_task]. *)
Definition create_task (data : TaskData) (c : Coordinator) : outcome string * Coordinator :=
  create_task_internal data c.

(** [create_proof]. *)
Definition create_proof (req : CreateProofRequest) (c : Coordinator) : outcome string * Coordinator :=
  if s_shutting_down (c_state c)
  then (Err (mkStatus FailedPrecondition "Server shutting down"), c)
  else
    let extra := create_proof_state (c_state c) req in
    let expires_at := parse_expires_at (cp_expires_at req) in
    match s_proofs (c_state c) !! cp_proof_id req with
    | Some _ => (Err (mkStatus AlreadyExists ("proof " +:+ cp_proof_id req +:+ " already exists")), c)
    | None =>
        let (proof, c) := new_proof (cp_proof_id req) expires_at extra c in
        let c := with_state (insert_proof (cp_proof_id req) proof) c in
        let ty := if s_execute_only_mode (c_state c) then ExecuteOnly else Controller in
        create_task_internal
          (mkTaskData ty (cp_inputs req) (cp_outputs req) "{}" (cp_proof_id req) None
                      (Int.wrap u32 (CONTROLLER_WEIGHT env_weights)) (cp_requester req)) c
    end.

(** [create_dummy_proof]. *)
Definition create_dummy_proof (pid : string) (expires : Z) (c : Coordinator) : outcome string * Coordinator :=
  if s_shutting_down (c_state c)
  then (Err (mkStatus FailedPrecondition "Server shutting down"), c)
  else
    match s_proofs (c_state c) !! pid with
    | Some _ => (Err (mkStatus AlreadyExists ("proof " +:+ pid +:+ " already exists")), c)
    | None =>
        let (proof, c) := new_proof pid (parse_expires_at expires) proof_state_default c in
        (Ok "", with_state (insert_proof pid proof) c)
    end.

(** [set_proofs_tx], [set_execute_only_mode], [set_worker_heartbeat_timeout]. *)
Definition set_proofs_tx (tx : nat) (c : Coordinator) : Coordinator :=
  with_state (set_s_proofs_tx (Some tx)) c.
Definition set_execute_only_mode (b : bool) (c : Coordinator) : Coordinator :=
  with_state (set_s_execute_only_mode b) c.
Definition set_worker_heartbeat_timeout (secs : Z) (c : Coordinator) : Coordinator :=
  let secs := if secs <? MIN_WORKER_HEARTBEAT_TIMEOUT then MIN_WORKER_HEARTBEAT_TIMEOUT else secs in
  with_state (set_s_worker_heartbeat_timeout_secs secs) c.

(** Storing a worker whose last task was taken off it: [post_worker_empty] and
    the insertion of what it returns. *)
Definition settle_empty (k : string) (w : Worker) (s : CoordinatorState) : CoordinatorState :=
  if decide (w_active_tasks w = ∅)
  then let (s, w) := post_worker_empty s w in insert_worker k w s
  else s.

(** Take [key] off a worker: remove it from [active_tasks] and give its weight
    back. *)
Definition unassign (key : string * string) (weight : Z) (w : Worker) : Worker :=
  set_w_weight (Int.sat_sub (w_weight w) weight)
    (set_w_active_tasks (w_active_tasks w ∖ {[key]}) w).

(** [release_remaining_assignments]: the body of its loop, and the loop. *)
Definition release_one (proof : Proof) (pid : string) (skip : option (string * string))
    (rc : bool * Coordinator) (kt : string * Task) : bool * Coordinator :=
  let (released, c) := rc in
  let task := kt.2 in
  match t_worker task with
  | None => (released, c)
  | Some owner =>
      if decide (Some (owner, t_id task) = skip) then (released, c)
      else
        match s_workers (c_state c) !! owner with
        | None => (released, c)
        | Some w =>
            if decide ((pid, t_id task) ∈ w_active_tasks w)
            then
              let c := send_worker (w_channel w) (CancelTask pid (t_id task)) c in
              let w' := unassign (pid, t_id task) (weight (t_data task)) w in
              let s := insert_worker owner w' (c_state c) in
              let s := settle_empty (w_id w') w' s in
              let s := post_task_update_state s (p_extra proof) (t_id task) (t_extra task)
                         (weight (t_data task)) pid (task_type (t_data task)) in
              (true, set_c_state s c)
            else (released, c)
        end
  end.

Definition release_remaining_assignments (proof : Proof) (pid : string)
    (skip : option (string * string)) (c : Coordinator) : bool * Coordinator :=
  foldl (release_one proof pid skip) (false, c) (iter_map (p_tasks proof)).

(** Deleting a proof with no active task left ([on_proof_deleted], the removal
    and the release of what other workers still hold of it), shared by
    [complete_task] and [fail_task]. *)
Definition remove_finished_proof (pid : string) (skip : option (string * string)) (c : Coordinator)
  : bool * Coordinator :=
  let c := with_state (fun s => on_proof_deleted s pid) c in
  let removed := s_proofs (c_state c) !! pid in
  let c := with_state (delete_proof pid) c in
  match removed with
  | Some proof => release_remaining_assignments proof pid skip c
  | None => (false, c)
  end.

(** The worker update at the end of [complete_task]: whether capacity was freed,
    and the state. *)
Definition settle_completion (worker_id : string) (key : string * string) (task_weight : Z)
    (s : CoordinatorState) : bool * CoordinatorState :=
  match s_workers s !! worker_id with
  | Some w =>
      if decide (key ∈ w_active_tasks w)
      then
        let w' := unassign key task_weight w in
        (true, settle_empty worker_id w' (insert_worker worker_id w' s))
      else (false, s)
  | None => (false, s)
  end.

(** The first report of an attempt credits its GPU time ([credit_gpu_time]). *)
Definition credit_attempt (worker_id : string) (attempts : gmap string GpuAttempt)
  : bool * gmap string GpuAttempt :=
  match attempts !! worker_id with
  | Some a =>
      if credited a then (false, attempts)
      else (on_gpu a, <[worker_id := mkGpuAttempt (on_gpu a) true]> attempts)
  | None => (false, attempts)
  end.

Definition holds (s : CoordinatorState) (worker_id : string) (key : string * string) : bool :=
  match s_workers s !! worker_id with
  | Some w => bool_decide (key ∈ w_active_tasks w)
  | None => false
  end.

(** [complete_task]. *)
Definition complete_task (worker_id pid tid : string) (md : TaskMetadata) (c : Coordinator)
  : outcome unit * Coordinator :=
  match s_proofs (c_state c) !! pid with
  | None => (Err (not_found ("proof " +:+ pid +:+ " not found")), c)
  | Some proof =>
  match p_tasks proof !! tid with
  | None => (Err (not_found ("task " +:+ tid +:+ " not found")), c)
  | Some task =>
      let (credit_gpu_time, attempts) := credit_attempt worker_id (t_gpu_attempts task) in
      let already_succeeded := bool_decide (t_status task = Succeeded) in
      let active :=
        if already_succeeded then p_active_tasks proof
        else if bool_decide (t_status task = FailedFatal) then p_active_tasks proof
        else Int.wsub u32 (p_active_tasks proof) 1 in
      let subs := if already_succeeded then None else Some (t_subscribers task) in
      let task' := set_t_status Succeeded (set_t_gpu_attempts attempts
                     (set_t_subscribers (if already_succeeded then t_subscribers task else ∅) task)) in
      let proof' := set_p_active_tasks active (set_p_tasks (<[tid := task']> (p_tasks proof)) proof) in
      let c := with_state (insert_proof pid proof') c in
      let c := close_task_channel tid c in
      let ty := task_type (t_data task) in
      let c :=
        if already_succeeded then c
        else
          let c := with_state (insert_proof pid
                     (post_task_success_update_proof proof' (t_extra task) md)) c in
          with_state (fun s => post_task_success_update_state s ty) c in
      let (released, c) :=
        if active =? 0 then remove_finished_proof pid (Some (worker_id, tid)) c else (false, c) in
      let c :=
        if credit_gpu_time
        then with_state (fun s => set_s_gpu_busy_ms_total
                                    (Int.sat_add u64 (s_gpu_busy_ms_total s) (gpu_ms md)) s) c
        else c in
      let c :=
        if holds (c_state c) worker_id (pid, tid)
        then with_state (fun s => post_task_update_state s (p_extra proof) tid (t_extra task)
                                    (weight (t_data task)) pid ty) c
        else c in
      let (freed, s) := settle_completion worker_id (pid, tid) (weight (t_data task)) (c_state c) in
      let c := set_c_state s c in
      let? (_, c) := if released || freed then assign_tasks c else (Ok tt, c) in
      (Ok tt, match subs with
              | Some subs => notify_subscribers subs tid Succeeded c
              | None => c
              end)
  end
  end.

(** [assigned_weight]: a [u32] sum over the assigned tasks that still exist. *)
Definition assigned_weight (s : CoordinatorState) (active : gset (string * string)) : Z :=
  foldl (fun acc (k : string * string) =>
           match get_task_internal s k.1 k.2 with
           | Some t => Int.wadd u32 acc (weight (t_data t))
           | None => acc
           end) 0 (iter_keys active).

(** [send_task]. *)
Definition send_task (task : Task) (w : Worker) (md : string) (c : Coordinator) : Coordinator :=
  send_worker (w_channel w) (NewTask (t_id task) (t_data task) md) c.

(** The two loops of [handle_heartbeat]: cancel what the worker runs without
    being assigned it, and resend what it was assigned but does not run,
    collecting the assignments whose task is gone. *)
Definition cancel_unexpected (w : Worker) (reported : list (string * string)) (c : Coordinator)
  : Coordinator :=
  foldl (fun c (k : string * string) =>
           if decide (k ∈ w_active_tasks w) then c
           else send_worker (w_channel w) (CancelTask k.1 k.2) c)
        c reported.

Definition resend_missing (w : Worker) (reported : gset (string * string)) (c : Coordinator)
  : list (string * string) * Coordinator :=
  foldl (fun (rc : list (string * string) * Coordinator) k =>
           let (gone, c) := rc in
           if decide (k ∈ reported) then (gone, c)
           else
             match get_task_internal (c_state c) k.1 k.2 with
             | Some t => (gone, send_task t w (json_string (get_task_input_metadata (c_state c) t)) c)
             | None => (gone ++ [k], c)
             end)
        ([], c) (iter_keys (w_active_tasks w)).

(** [handle_heartbeat]. [current_weight] is only logged by the source. *)
Definition handle_heartbeat (worker_id : string) (active_task_proof_ids active_task_ids : list string)
    (current_weight : Z) (c : Coordinator) : outcome unit * Coordinator :=
  match s_workers (c_state c) !! worker_id with
  | None => (Err (not_found ("worker " +:+ worker_id +:+ " not found")), c)
  | Some w0 =>
      let? (now, c) := since_epoch c in
      let w := set_w_last_heartbeat (as_secs now) w0 in
      let c := with_state (insert_worker worker_id w) c in
      let reported := zip active_task_proof_ids active_task_ids in
      let c := cancel_unexpected w reported c in
      let (gone, c) := resend_missing w (list_to_set reported) c in
      let w := set_w_weight (assigned_weight (c_state c) (w_active_tasks w)) w in
      let w := set_w_active_tasks (w_active_tasks w ∖ list_to_set gone) w in
      let c := with_state (insert_worker worker_id w) c in
      let c := with_state (settle_empty (w_id w) w) c in
      if negb (bool_decide (gone = [])) || bool_decide (w_active_tasks w = ∅)
      then match assign_tasks c with
           | (Ok _, c) => (Ok tt, c)
           | (Fuel, c) => (Fuel, c)
           | (_, c) => (Panic, c)
           end
      else (Ok tt, c)
  end.

(** [remove_worker_internal]: the requeue of one of the removed worker's tasks,
    and the whole. *)
Definition requeue_one (oc : outcome unit * Coordinator) (k : string * string) : outcome unit * Coordinator :=
  let? (_, c) := oc in
  match s_proofs (c_state c) !! k.1 with
  | None => (Ok tt, c)
  | Some proof =>
      match p_tasks proof !! k.2 with
      | None => (Ok tt, c)
      | Some stored =>
          let task := set_t_dead_worker_requeue_count
                        (Int.sat_add u32 (t_dead_worker_requeue_count stored) 1) stored in
          let s := insert_proof k.1 (set_p_tasks (<[k.2 := task]> (p_tasks proof)) proof) (c_state c) in
          let s := post_task_update_state s (p_extra proof) (t_id task) (t_extra task)
                     (weight (t_data task)) k.1 (task_type (t_data task)) in
          match enqueue_task s task with
          | Some s => (Ok tt, set_c_state s c)
          | None => (Panic, set_c_state s c)
          end
      end
  end.

Definition remove_worker_internal (worker_id : string) (c : Coordinator) : outcome unit * Coordinator :=
  match s_workers (c_state c) !! worker_id with
  | None => (Ok tt, c)
  | Some w =>
      let c := with_state (fun s => set_s_workers (delete worker_id (s_workers s)) s) c in
      let? (_, c) := foldl requeue_one (Ok tt, c) (iter_keys (w_active_tasks w)) in
      (Ok tt, with_state (fun s => (post_worker_empty s w).1) c)
  end.

(** [remove_worker]; an error of [assign_tasks] is only logged. *)
Definition remove_worker (worker_id : string) (c : Coordinator) : outcome unit * Coordinator :=
  let? (_, c) := remove_worker_internal worker_id c in
  match assign_tasks c with
  | (Err _, c) => (Ok tt, c)
  | r => r
  end.

(** [cleanup_dead_workers]: the scan under the read lock, then the removals
    under the write lock (the lock is released in between). *)
Definition is_dead (s : CoordinatorState) (now : Z) (w : Worker) : bool :=
  Int.wadd u64 (w_last_heartbeat w) (s_worker_heartbeat_timeout_secs s) <? now.

Definition scan_dead_workers (s : CoordinatorState) (now : Z) : list string :=
  (filter (fun kw : string * Worker => is_dead s now kw.2) (iter_map (s_workers s))).*1.

Definition reap_workers (dead : list string) (c : Coordinator) : outcome unit * Coordinator :=
  let? (_, c) := foldl (fun oc id => let? (_, c) := oc in remove_worker_internal id c) (Ok tt, c) dead in
  match assign_tasks c with
  | (Err _, c) => (Panic, c)
  | r => r
  end.

Definition cleanup_dead_workers (c : Coordinator) : outcome unit * Coordinator :=
  let? (now, c) := since_epoch c in
  let dead := scan_dead_workers (c_state c) (as_secs now) in
  if decide (dead = []) then (Ok tt, c) else reap_workers dead c.

(** [send_heartbeats]. *)
Definition send_heartbeats (c : Coordinator) : Coordinator :=
  foldl (fun c (kw : string * Worker) => send_worker (w_channel kw.2) ServerHeartbeat c)
        c (iter_map (s_workers (c_state c))).

(** [add_worker]: whether the worker already existed. *)
Definition add_worker (worker_id : string) (worker_type : WorkerType) (max_weight : Z) (channel : nat)
    (identity : WorkerIdentity) (c : Coordinator) : outcome bool * Coordinator :=
  match s_workers (c_state c) !! worker_id with
  | Some w =>
      (Ok true, with_state (insert_worker worker_id (set_w_identity identity (set_w_channel channel w))) c)
  | None =>
      let? (w, c) := new_worker worker_id worker_type max_weight channel identity c in
      let c := with_state (insert_worker worker_id w) c in
      let? (_, c) := assign_tasks c in
      (Ok false, c)
  end.

(** [close_worker]. *)
Definition close_worker (worker_id : string) (c : Coordinator) : outcome unit * Coordinator :=
  match s_workers (c_state c) !! worker_id with
  | None => (Err (not_found ("worker " +:+ worker_id +:+ " not found")), c)
  | Some w => (Ok tt, with_state (insert_worker worker_id (set_w_closed true w)) c)
  end.

(** [fail_proof_internal]. *)
Definition send_proof_result (tx : option nat) (r : ProofResult) (c : Coordinator) : Coordinator :=
  match tx with
  | Some ch => set_c_proofs_net (send_ ch r (c_proofs_net c)) c
  | None => c
  end.

(** The check of the blamed task: [None] lets the failure through. *)
Definition vet_blamed (s : CoordinatorState) (pid : string) (blamed : option string)
  : option (outcome unit) :=
  match blamed, s_proofs s !! pid with
  | Some tid, Some proof =>
      match p_tasks proof !! tid with
      | None => Some (Err (not_found ("task " +:+ tid +:+ " not found in proof " +:+ pid)))
      | Some task => if decide (t_status task = Succeeded) then Some (Ok tt) else None
      end
  | _, _ => None
  end.

(** The removal of a failing proof: its subscribers told, its assignments
    released, its channels closed and, with [notify_sender], its result sent. *)
Definition tear_down (pid : string) (proof : Proof) (notify_sender : bool) (extra_data : option string)
    (skip : option (string * string)) (tx : option nat) (c : Coordinator) : Coordinator :=
  let c := foldl (fun c (kt : string * Task) =>
                    if decide (t_subscribers kt.2 = ∅) then c
                    else notify_subscribers (t_subscribers kt.2) (t_id kt.2) FailedFatal c)
                 c (iter_map (p_tasks proof)) in
  let (_, c) := release_remaining_assignments proof pid skip c in
  let c := foldl (fun c (kt : string * Task) => close_task_channel (t_id kt.2) c)
                 c (iter_map (p_tasks proof)) in
  if notify_sender then send_proof_result tx (mkProofResult pid false None extra_data) c else c.

Definition fail_proof_internal (pid : string) (blamed : option string) (notify_sender : bool)
    (extra_data : option string) (skip : option (string * string)) (c : Coordinator)
  : outcome unit * Coordinator :=
  if s_shutting_down (c_state c) then (Ok tt, c)
  else
    match vet_blamed (c_state c) pid blamed with
    | Some r => (r, c)
    | None =>
        let tx := s_proofs_tx (c_state c) in
        let c := with_state (fun s => on_proof_deleted s pid) c in
        let removed := s_proofs (c_state c) !! pid in
        let c := with_state (delete_proof pid) c in
        match removed with
        | None => (Ok tt, c)
        | Some proof => (Ok tt, tear_down pid proof notify_sender extra_data skip tx c)
        end
    end.

(** [fail_proof]. *)
Definition fail_proof (pid : string) (blamed : option string) (notify_sender : bool)
    (extra_data : option string) (c : Coordinator) : outcome unit * Coordinator :=
  fail_proof_internal pid blamed notify_sender extra_data None c.

(** [fail_task]. A worker's report on a task it holds. *)
Definition fail_status (retryable : bool) (task : Task) : TaskStatus :=
  if retryable
  then if t_retries task =? MAX_TASK_RETRIES then FailedFatal else FailedRetryable
  else FailedFatal.

Definition manual_proof_fail (retryable : bool) (task : Task) : bool :=
  enable_proof_fail (task_type (t_data task))
  && (negb retryable || (t_retries task =? MAX_TASK_RETRIES)).

(** The branch for a task that already succeeded: only the slot is released. *)
Definition fail_succeeded_task (worker_id pid tid : string) (proof : Proof) (task : Task) (c : Coordinator)
  : outcome unit * Coordinator :=
  let w := weight (t_data task) in
  let c := with_state (fun s => post_task_update_state s (p_extra proof) tid (t_extra task) w pid
                                  (task_type (t_data task))) c in
  let c :=
    match s_workers (c_state c) !! worker_id with
    | Some wk =>
        let wk' := unassign (pid, tid) w wk in
        with_state (fun s => settle_empty worker_id wk' (insert_worker worker_id wk' s)) c
    | None => c
    end in
  assign_tasks c.

Definition fail_task (worker_id pid tid : string) (retryable : bool) (c : Coordinator)
  : outcome unit * Coordinator :=
  match s_workers (c_state c) !! worker_id with
  | None => (Err (not_found ("worker " +:+ worker_id +:+ " not found")), c)
  | Some w =>
  if decide ((pid, tid) ∈ w_active_tasks w) then
  match s_proofs (c_state c) !! pid with
  | None => (Err (not_found ("proof " +:+ pid +:+ " not found")), c)
  | Some proof =>
  match p_tasks proof !! tid with
  | None => (Err (not_found ("task " +:+ tid +:+ " not found")), c)
  | Some task =>
      if decide (t_status task = Succeeded) then fail_succeeded_task worker_id pid tid proof task c
      else
        let manual := manual_proof_fail retryable task in
        let status := fail_status retryable task in
        let active :=
          if decide (status = FailedFatal)
          then if decide (t_status task = FailedFatal) then p_active_tasks proof
               else Int.wsub u32 (p_active_tasks proof) 1
          else p_active_tasks proof in
        let retries := if decide (status = FailedRetryable) then Int.wadd u8 (t_retries task) 1
                       else t_retries task in
        let task := set_t_status status (set_t_retries retries task) in
        let proof := set_p_active_tasks active (set_p_tasks (<[tid := task]> (p_tasks proof)) proof) in
        let c := with_state (insert_proof pid proof) c in
        let c := close_task_channel tid c in
        let c := if negb manual && (active =? 0)
                 then (remove_finished_proof pid (Some (worker_id, tid)) c).2 else c in
        let? (_, c) := if manual
                       then fail_proof_internal pid None true None (Some (worker_id, tid)) c
                       else (Ok tt, c) in
        let c := with_state (fun s => post_task_update_state s (p_extra proof) tid (t_extra task)
                                        (weight (t_data task)) pid (task_type (t_data task))) c in
        let c := match s_workers (c_state c) !! worker_id with
                 | Some w => with_state (insert_worker worker_id
                                           (unassign (pid, tid) (weight (t_data task)) w)) c
                 | None => c
                 end in
        let? (_, c) := if decide (status = FailedRetryable)
                       then match enqueue_task (c_state c) task with
                            | Some s => (Ok tt, set_c_state s c)
                            | None => (Panic, c)
                            end
                       else (Ok tt, c) in
        let? (_, c) := assign_tasks c in
        (Ok tt, if decide (status = FailedFatal)
                then notify_subscribers (t_subscribers task) tid status c else c)
  end
  end
  else (Err (mkStatus FailedPrecondition ("worker " +:+ worker_id +:+ " is not working on task " +:+ tid)), c)
  end.

(** [get_task_status], [get_task] and [get_task_statuses]. *)
Definition get_task (pid tid : string) (c : Coordinator) : outcome Task :=
  match s_proofs (c_state c) !! pid with
  | None => Err (not_found ("proof " +:+ pid +:+ " not found"))
  | Some proof =>
      match p_tasks proof !! tid with
      | None => Err (not_found ("task " +:+ tid +:+ " not found"))
      | Some task => Ok task
      end
  end.

Definition get_task_status (pid tid : string) (c : Coordinator) : outcome TaskStatus :=
  match s_proofs (c_state c) !! pid with
  | None => Err (not_found ("proof " +:+ pid +:+ " not found"))
  | Some proof =>
      match p_tasks proof !! tid with
      | None => Err (not_found ("task " +:+ tid +:+ " not found"))
      | Some task => Ok (t_status task)
      end
  end.

(** [HashMap<TaskStatus, Vec<String>>] as the list each status maps to; a status
    with no entry maps to the empty list. *)
Definition get_task_statuses (pid : string) (tids : list string) (c : Coordinator)
  : outcome (TaskStatus -> list string) :=
  match s_proofs (c_state c) !! pid with
  | None => Err (not_found ("proof " +:+ pid +:+ " not found"))
  | Some proof =>
      foldl (fun acc tid =>
               match acc with
               | Ok m =>
                   match p_tasks proof !! tid with
                   | None => Err (not_found ("task " +:+ tid +:+ " not found"))
                   | Some task =>
                       Ok (fun st => if decide (st = t_status task) then m st ++ [tid] else m st)
                   end
               | r => r
               end) (Ok (fun _ => [])) tids
  end.

(** [complete_proof]: reports success on [proofs_tx]; the proof itself goes away
    with its last task. *)
Definition complete_proof (pid : string) (extra_data : option string) (c : Coordinator)
  : outcome unit * Coordinator :=
  match s_proofs (c_state c) !! pid with
  | None => (Err (not_found ("Proof " +:+ pid +:+ " not found")), c)
  | Some proof =>
      (Ok tt, send_proof_result (s_proofs_tx (c_state c))
                (mkProofResult pid true (Some (get_proof_result_metadata proof)) extra_data) c)
  end.

(** [get_proofs]. *)
Definition get_proofs (c : Coordinator) : list string := (iter_map (s_proofs (c_state c))).*1.

(** [create_subscriber] and [add_subscriptions]. *)
Definition reply_sub (tx : nat) (m : SubMessage) (c : Coordinator) : Coordinator :=
  let (mid, c) := new_id "msg" c in send_sub tx (mkSubMsg mid m) c.

Definition subscribe_one (sub_id pid : string) (tx : nat) (c : Coordinator) (tid : string) : Coordinator :=
  match get_task_internal (c_state c) pid tid with
  | None => reply_sub tx (UnknownTask pid tid) c
  | Some task =>
      if is_final (t_status task) then reply_sub tx (TaskResult tid (t_status task)) c
      else with_state (update_task pid tid
                         (fun t => set_t_subscribers ({[sub_id]} ∪ t_subscribers t) t)) c
  end.

Definition add_subscriptions (sub_id : string) (tids : list string) (c : Coordinator)
  : outcome unit * Coordinator :=
  match c_subscribers c !! sub_id with
  | None => (Err (not_found ("subscriber " +:+ sub_id +:+ " not found")), c)
  | Some sub =>
      let (now, c) := system_now c in
      let sub := set_sub_last_update now
                   (set_sub_active_subscriptions (list_to_set tids ∪ sub_active_subscriptions sub) sub) in
      let c := set_c_subscribers (<[sub_id := sub]> (c_subscribers c)) c in
      let pid := sub_proof_id sub in
      match s_proofs (c_state c) !! pid with
      | None => (Ok tt, foldl (fun c tid => reply_sub (sub_tx sub) (UnknownTask pid tid) c) c tids)
      | Some _ => (Ok tt, foldl (subscribe_one sub_id pid (sub_tx sub)) c tids)
      end
  end.

Definition create_subscriber (sub_id pid : string) (tids : list string) (tx : nat) (c : Coordinator)
  : outcome unit * Coordinator :=
  let (now, c) := system_now c in
  let sub := match c_subscribers c !! sub_id with
             | Some sub => set_sub_last_update now (set_sub_tx tx sub)
             | None => mkSubscriber tx ∅ pid now
             end in
  let c := set_c_subscribers (<[sub_id := sub]> (c_subscribers c)) c in
  if decide (tids = []) then (Ok tt, c) else add_subscriptions sub_id tids c.

(** [cleanup_dead_subscribers]: a subscriber silent for more than two periods is
    dropped, the others get a heartbeat. *)
Definition cleanup_dead_subscribers (c : Coordinator) : Coordinator :=
  foldl (fun c (ks : string * Subscriber) =>
           let (now, c) := system_now c in
           let elapsed := Z.max 0 (now - sub_last_update ks.2) in
           if 2 * COORDINATOR_PERIODIC_INTERVAL_SECS * 1000000000 <? elapsed
           then set_c_subscribers (delete ks.1 (c_subscribers c)) c
           else reply_sub (sub_tx ks.2) SubHeartbeat c)
        c (iter_map (c_subscribers c)).

(** [get_worker]. *)
Definition get_worker (worker_id : string) (c : Coordinator) : option Worker :=
  s_workers (c_state c) !! worker_id.

(** [cleanup_cancel_expired_proofs]: the scan under the read lock and the
    removals under the write lock. *)
Definition is_expired (now : Z) (p : Proof) : bool :=
  match p_expires_at p with Some e => e <? now | None => false end.

Definition scan_expired_proofs (s : CoordinatorState) (now : Z) : list string :=
  (filter (fun kp : string * Proof => is_expired now kp.2) (iter_map (s_proofs s))).*1.

Definition cancel_proofs (pids : list string) (c : Coordinator) : outcome unit * Coordinator :=
  let c := foldl (fun c id => (fail_proof_internal id None false None None c).2) c pids in
  match assign_tasks c with
  | (Err _, c) => (Panic, c)
  | r => r
  end.

Definition cleanup_cancel_expired_proofs (c : Coordinator) : outcome unit * Coordinator :=
  let (now, c) := system_now c in
  let expired := scan_expired_proofs (c_state c) now in
  if decide (expired = []) then (Ok tt, c) else cancel_proofs expired c.

(** [shutdown]. *)
Definition shutdown (c : Coordinator) : Coordinator :=
  let ws := iter_map (s_workers (c_state c)) in
  let c := with_state (set_s_shutting_down true) c in
  let c := foldl (fun c (kw : string * Worker) =>
                    foldl (fun c (k : string * string) =>
                             send_worker (w_channel kw.2) (CancelTask k.1 k.2) c)
                          c (iter_keys (w_active_tasks kw.2))) c ws in
  let c := with_state (fun s => set_s_workers (set_w_active_tasks ∅ <$> s_workers s) s) c in
  let c := foldl (fun c (ki : string * MessageChannelInner) => close_task_channel ki.1 c)
                 c (iter_map (c_task_channels c)) in
  foldl (fun c (ks : string * Subscriber) => reply_sub (sub_tx ks.2) SubEndOfStream c)
        c (iter_map (c_subscribers c)).
End operations.
