(* ===== verification/AssignSpec.v ===== *)
(** * The contract between the coordinator and its assignment policy

    What [assign_tasks] may do to the coordinator, as a step relation
    ([assign_step]): drop a queue entry whose task is gone or final, or give a
    queued task to a worker with room for it. [PolicyLaws] is what the
    coordinator's proofs rely on; the policies of bin/coordinator/src/policy/
    are instances of it. *)
From stdpp Require Import base gmap strings list relations.
From S2P Require Import Prelude Proto TaskChannel CoordState Coordinator.
Local Open Scope string_scope.
Local Open Scope list_scope.
Local Open Scope Z_scope.

Section assignment.
Context `{E : ClusterEnv} {PT : PolicyTypes}.

Definition schedulable (ty : TaskType) : bool :=
  match worker_type_from_task_type ty with Cpu | Gpu => true | _ => false end.

(** The worker filter of [assign_task], apart from the search for the lowest
    [next_free_time]. *)
Definition eligible (wt : WorkerType) (task_weight : Z) (w : Worker) : bool :=
  negb (w_closed w)
  && (bool_decide (w_worker_type w = All) || bool_decide (w_worker_type w = wt))
  && (Int.wadd u32 (w_weight w) task_weight <=? w_max_weight w).

(** The search loop of [assign_task]: the first worker met with the lowest
    [next_free_time]. *)
Definition consider_worker (wt : WorkerType) (task_weight : Z)
    (best : option (string * Worker) * Z) (kw : string * Worker) : option (string * Worker) * Z :=
  if negb (w_closed kw.2)
     && (bool_decide (w_worker_type kw.2 = All) || bool_decide (w_worker_type kw.2 = wt))
     && (w_next_free_time kw.2 <? best.2)
     && (Int.wadd u32 (w_weight kw.2) task_weight <=? w_max_weight kw.2)
  then (Some kw, w_next_free_time kw.2)
  else best.

Definition find_best_worker (wt : WorkerType) (task_weight : Z) (s : CoordinatorState)
  : option (string * Worker) :=
  (foldl (consider_worker wt task_weight) (None, Int.umax u128) (iter_map (s_workers s))).1.

(** The state updates of [assign_task] for the chosen worker: its weight, its
    next free time and its set of tasks, then the task's owner, status and
    attempt record. *)
Definition charge_worker (now_ms : Z) (t : Task) (w : Worker) : Worker :=
  set_w_active_tasks ({[(proof_id (t_data t), t_id t)]} ∪ w_active_tasks w)
    (set_w_next_free_time
       (Int.wadd u128 (Z.max now_ms (w_next_free_time w)) (estimate_duration (task_type (t_data t))))
       (set_w_weight (Int.wadd u32 (w_weight w) (weight (t_data t))) w)).

Definition start_task (w : Worker) (t : Task) : Task :=
  set_t_gpu_attempts
    (<[w_id w := mkGpuAttempt (match w_worker_type w with Gpu | All => true | _ => false end) false]>
       (t_gpu_attempts t))
    (set_t_status Running (set_t_worker (Some (w_id w)) t)).

Definition record_assignment (now_ms : Z) (t : Task) (wid : string) (w : Worker) (s : CoordinatorState)
  : CoordinatorState :=
  update_task (proof_id (t_data t)) (t_id t) (start_task w)
    (insert_worker wid (charge_worker now_ms t w) s).

(** ** The step relation *)
Section steps.
Context (queued : Policy -> list ((string * string) * TaskType)) (policy_wf : Policy -> Prop).

Inductive assign_step : Coordinator -> Coordinator -> Prop :=
  | assign_drop c k ty p' :
      s_shutting_down (c_state c) = false ->
      queued (s_policy (c_state c)) ≡ₚ (k, ty) :: queued p' -> policy_wf p' ->
      (forall t, get_task_internal (c_state c) k.1 k.2 = Some t -> is_final (t_status t) = true) ->
      assign_step c (with_state (set_s_policy p') c)
  | assign_take c k ty p' t wid w now_ms :
      s_shutting_down (c_state c) = false ->
      queued (s_policy (c_state c)) ≡ₚ (k, ty) :: queued p' -> policy_wf p' ->
      get_task_internal (c_state c) k.1 k.2 = Some t -> is_final (t_status t) = false ->
      s_workers (c_state c) !! wid = Some w ->
      eligible (worker_type_from_task_type (task_type (t_data t))) (weight (t_data t)) w = true ->
      assign_step c
        (send_task t (charge_worker now_ms t w) "null"
           (tick (with_state (fun s => set_s_policy p' (record_assignment now_ms t wid w s)) c))).

Definition keys_ok (s : CoordinatorState) : Prop :=
  (forall wid w, s_workers s !! wid = Some w -> w_id w = wid) /\
  (forall pid p, s_proofs s !! pid = Some p -> p_id p = pid) /\
  (forall pid tid t, get_task_internal s pid tid = Some t -> t_id t = tid /\ proof_id (t_data t) = pid).

(** A queue entry carries the type of its task, as long as the task exists. *)
Definition queue_typed (s : CoordinatorState) : Prop :=
  forall k ty t, (k, ty) ∈ queued (s_policy s) -> get_task_internal s k.1 k.2 = Some t ->
  task_type (t_data t) = ty.

Definition assign_pre (s : CoordinatorState) : Prop :=
  keys_ok s /\ queue_typed s /\ policy_wf (s_policy s).

(** A hook that only moves policy state, and not the queue. *)
Definition policy_only (s s' : CoordinatorState) : Prop :=
  exists p', s' = set_s_policy p' s /\ (policy_wf (s_policy s) -> policy_wf p') /\
             queued p' ≡ₚ queued (s_policy s).
End steps.
End assignment.

Class PolicyLaws `{E : ClusterEnv} {PT : PolicyTypes} (AP : AssignmentPolicy) := {
  queued : Policy -> list ((string * string) * TaskType);
  policy_wf : Policy -> Prop;
  policy_default_wf : policy_wf policy_default;
  queued_default : queued policy_default = [];
  enqueue_law : forall s t,
    is_Some (s_proofs s !! proof_id (t_data t)) -> policy_wf (s_policy s) ->
    exists p', enqueue_task s t = Some (set_s_policy p' s) /\ policy_wf p' /\
      queued p' ≡ₚ (if schedulable (task_type (t_data t))
                    then [((proof_id (t_data t), t_id t), task_type (t_data t))] else [])
                   ++ queued (s_policy s);
  success_proof_law : forall p te md, exists x, post_task_success_update_proof p te md = set_p_extra x p;
  success_state_law : forall s ty, policy_only queued policy_wf s (post_task_success_update_state s ty);
  task_update_law : forall s pe tid te w pid ty,
    policy_only queued policy_wf s (post_task_update_state s pe tid te w pid ty);
  proof_deleted_law : forall s pid, policy_only queued policy_wf s (on_proof_deleted s pid);
  worker_empty_law : forall s w,
    policy_only queued policy_wf s (post_worker_empty s w).1 /\
    exists nft x, (post_worker_empty s w).2
    = mkWorker (w_id w) (w_worker_type w) (w_max_weight w) nft 0 (w_active_tasks w) (w_channel w)
               (w_last_heartbeat w) (w_closed w) (w_identity w) x;
  assign_law : forall c, assign_pre queued policy_wf (c_state c) ->
    exists c', assign_tasks c = (Ok tt, c') /\ rtc (assign_step queued policy_wf) c c';
}.
