(* ===== verification/CoordInv.v ===== *)
(** * The invariant of the coordinator's state

    Which worker holds which task, what its weight is, how many tasks of a
    proof are live and that no live task is lost, for any policy that obeys
    [PolicyLaws]. *)
From stdpp Require Import base gmap strings list relations.
From S2P Require Import Prelude Proto TaskChannel CoordState Coordinator AssignSpec.
Local Open Scope string_scope.
Local Open Scope list_scope.
Local Open Scope Z_scope.

Abbreviation key := (string * string)%type.

(** The sum of the live (not final) tasks of a proof. *)
Definition live_count {PT : PolicyTypes} (m : gmap string Task) : Z :=
  map_Zsum (fun t => if is_final (t_status t) then 0 else 1) m.

Section invariant.
Context `{EO : ClusterEnvOk} {PT : PolicyTypes} {AP : AssignmentPolicy} {L : PolicyLaws AP}.

(** [W] bounds the weight of every task, and leaves room below [u32::MAX] in
    every worker's capacity. *)
Context (W : Z).

Implicit Types (G : gmap string Proof) (s : CoordinatorState) (X : gset key) (k : key).

Definition lookup_task G k : option Task :=
  match G !! k.1 with Some p => p_tasks p !! k.2 | None => None end.

Definition key_weight G k : Z :=
  match lookup_task G k with Some t => weight (t_data t) | None => 0 end.

Definition held s k : Prop := exists wid w, s_workers s !! wid = Some w /\ k ∈ w_active_tasks w.

Definition queued_keys s : list key := (queued (s_policy s)).*1.

Record task_ok (pid tid : string) (t : Task) : Prop := {
  to_id : t_id t = tid;
  to_proof : proof_id (t_data t) = pid;
  to_weight : 0 <= weight (t_data t) <= W;
  to_retries : 0 <= t_retries t <= MAX_TASK_RETRIES;
}.

Record proof_ok (pid : string) (p : Proof) : Prop := {
  po_id : p_id p = pid;
  po_tasks : forall tid t, p_tasks p !! tid = Some t -> task_ok pid tid t;
  po_size : Z.of_nat (size (p_tasks p)) < Int.modulus u32;
  po_active : p_active_tasks p = live_count (p_tasks p);
}.

(** A held task exists, names its holder, and is running or already succeeded;
    keys in [X] are in the middle of a status change. *)
Record worker_ok G X (down : bool) (wid : string) (w : Worker) : Prop := {
  wo_id : w_id w = wid;
  wo_max : 0 <= w_max_weight w <= Int.umax u32 - W;
  wo_held : forall k, k ∈ w_active_tasks w ->
    exists t, lookup_task G k = Some t /\ t_worker t = Some wid /\
              (k ∈ X \/ t_status t = Running \/ t_status t = Succeeded);
  wo_weight : down = false ->
    w_weight w = set_Zsum (key_weight G) (w_active_tasks w) /\ w_weight w <= w_max_weight w;
  wo_down : down = true -> w_active_tasks w = ∅;
}.

(** [G] is the map of proofs the assignments refer to: the coordinator's own,
    or, while a proof is being removed, the one before its removal. *)
Record InvX G X (s : CoordinatorState) (n : nat) : Prop := {
  ix_proofs : forall pid p, G !! pid = Some p -> proof_ok pid p;
  ix_sub : s_proofs s ⊆ G;
  ix_workers : forall wid w, s_workers s !! wid = Some w -> worker_ok G X (s_shutting_down s) wid w;
  ix_queue_nodup : NoDup (queued_keys s);
  ix_queue_free : forall k, k ∈ queued_keys s -> ~ held s k;
  ix_queue_typed : queue_typed queued s;
  ix_policy : policy_wf (s_policy s);
  ix_covered : forall k t, s_shutting_down s = false ->
    lookup_task (s_proofs s) k = Some t -> is_final (t_status t) = false ->
    schedulable (task_type (t_data t)) = true -> k ∉ X -> held s k \/ k ∈ queued_keys s;
  ix_fresh : forall k, k ∈ queued_keys s \/ is_Some (lookup_task (s_proofs s) k) ->
    exists m, (m < n)%nat /\ k.2 = create_type_id "task" m;
}.

Arguments wo_id {_ _ _ _ _} _.
Arguments wo_max {_ _ _ _ _} _.
Arguments wo_held {_ _ _ _ _} _.
Arguments wo_weight {_ _ _ _ _} _.
Arguments wo_down {_ _ _ _ _} _.
Arguments ix_proofs {_ _ _ _} _.
Arguments ix_sub {_ _ _ _} _.
Arguments ix_workers {_ _ _ _} _.
Arguments ix_queue_nodup {_ _ _ _} _.
Arguments ix_queue_free {_ _ _ _} _.
Arguments ix_queue_typed {_ _ _ _} _.
Arguments ix_policy {_ _ _ _} _.
Arguments ix_covered {_ _ _ _} _.
Arguments ix_fresh {_ _ _ _} _.

Definition Inv (c : Coordinator) : Prop := InvX (s_proofs (c_state c)) ∅ (c_state c) (c_tick c).

(** ** Consequences *)
Lemma held_unique G X s n k wid1 w1 wid2 w2 :
  InvX G X s n ->
  s_workers s !! wid1 = Some w1 -> k ∈ w_active_tasks w1 ->
  s_workers s !! wid2 = Some w2 -> k ∈ w_active_tasks w2 -> wid1 = wid2.
Proof.
  intros HI H1 Hk1 H2 Hk2.
  destruct (wo_held (ix_workers HI _ _ H1) _ Hk1) as (t1 & ? & ? & _).
  destruct (wo_held (ix_workers HI _ _ H2) _ Hk2) as (t2 & ? & ? & _).
  congruence.
Qed.

Lemma lookup_task_sub G s k t : s_proofs s ⊆ G -> lookup_task (s_proofs s) k = Some t -> lookup_task G k = Some t.
Proof.
  unfold lookup_task. intros Hsub. destruct (s_proofs s !! k.1) as [p|] eqn:Hp; [|done].
  by rewrite (lookup_weaken _ _ _ _ Hp Hsub).
Qed.

Lemma lookup_task_ok G X s n k t : InvX G X s n -> lookup_task G k = Some t -> task_ok k.1 k.2 t.
Proof.
  intros HI. unfold lookup_task. destruct (G !! k.1) as [p|] eqn:Hp; [|done].
  intros Ht. by apply (po_tasks _ _ (ix_proofs HI _ _ Hp)).
Qed.

Lemma inv_keys_ok G X s n : InvX G X s n -> keys_ok s.
Proof.
  intros HI. split_and!.
  - intros wid w Hw. apply (wo_id (ix_workers HI _ _ Hw)).
  - intros pid p Hp. apply (po_id pid p). apply (ix_proofs HI).
    by apply (lookup_weaken _ _ _ _ Hp), (ix_sub HI).
  - intros pid tid t Ht.
    pose proof (lookup_task_ok _ _ _ _ (pid, tid) t HI (lookup_task_sub _ _ (pid, tid) _ (ix_sub HI) Ht)) as [].
    done.
Qed.

Lemma inv_assign_pre G X s n : InvX G X s n -> assign_pre queued policy_wf s.
Proof. intros HI. split_and!; [by eapply inv_keys_ok|apply (ix_queue_typed HI)|apply (ix_policy HI)]. Qed.

Lemma key_weight_nonneg G X s n k : InvX G X s n -> 0 <= key_weight G k.
Proof.
  intros HI. unfold key_weight. destruct (lookup_task G k) as [t|] eqn:Ht; [|lia].
  by destruct (to_weight _ _ _ (lookup_task_ok _ _ _ _ _ _ HI Ht)).
Qed.

Lemma live_count_bounds (m : gmap string Task) : 0 <= live_count m <= Z.of_nat (size m).
Proof. apply map_Zsum_bounds. intros ?? _. case_match; lia. Qed.

Lemma live_count_insert (m : gmap string Task) tid t t' :
  m !! tid = Some t ->
  live_count (<[tid := t']> m)
  = live_count m - (if is_final (t_status t) then 0 else 1) + (if is_final (t_status t') then 0 else 1).
Proof. apply map_Zsum_insert. Qed.

Lemma live_count_lookup (m : gmap string Task) tid t :
  m !! tid = Some t -> is_final (t_status t) = false -> 1 <= live_count m.
Proof.
  intros Ht Hf. unfold live_count. rewrite (map_Zsum_lookup _ _ _ _ Ht), Hf.
  pose proof (map_Zsum_bounds (fun t => if is_final (t_status t) then 0 else 1) (delete tid m)) as H.
  destruct H as [H _]; [intros ?? _; case_match; lia|lia].
Qed.

(** ** Steps that preserve it *)
Lemma InvX_tick G X s n m : InvX G X s n -> (n <= m)%nat -> InvX G X s m.
Proof.
  intros [] Hle. constructor; try done. intros k Hk.
  destruct (ix_fresh0 k Hk) as (i & Hi & ->). exists i. split; [lia|done].
Qed.

Lemma InvX_exempt G X X' s n : InvX G X s n -> X ⊆ X' -> InvX G X' s n.
Proof.
  intros [] Hsub. constructor; try done.
  - intros wid w Hw. destruct (ix_workers0 _ _ Hw). constructor; try done.
    intros k Hk. destruct (wo_held0 k Hk) as (t & ? & ? & Hs). exists t. set_solver.
  - intros k t Hd Ht Hf Hs Hk. apply (ix_covered0 k t); set_solver.
Qed.

(** A key leaves [X] once nobody holds it and its task needs no holder. *)
Lemma InvX_settled G X s n k :
  InvX G ({[k]} ∪ X) s n -> ~ held s k ->
  (forall t, lookup_task (s_proofs s) k = Some t ->
     is_final (t_status t) = true \/ schedulable (task_type (t_data t)) = false \/ k ∈ queued_keys s) ->
  InvX G X s n.
Proof.
  intros [] Hh Hk. constructor; try done.
  - intros wid w Hw. destruct (ix_workers0 _ _ Hw). constructor; try done.
    intros k' Hk'. destruct (wo_held0 k' Hk') as (t & ? & ? & Hs). exists t. split_and!; [done..|].
    assert (k' <> k) by (intros ->; apply Hh; by exists wid, w). set_solver.
  - intros k' t Hd Ht Hf Hs Hx. destruct (decide (k' = k)) as [->|Hne].
    + destruct (Hk t Ht) as [?|[?|?]]; [congruence..|by right].
    + apply (ix_covered0 k' t); set_solver.
Qed.

Lemma InvX_policy G X s s' n :
  policy_only queued policy_wf s s' -> InvX G X s n -> InvX G X s' n.
Proof.
  intros (p' & -> & Hwf & Hq) HI. destruct HI.
  assert (Hk : forall k, k ∈ queued_keys (set_s_policy p' s) <-> k ∈ queued_keys s).
  { intros k. unfold queued_keys. simpl. by rewrite Hq. }
  constructor; simpl; try done.
  - unfold queued_keys. simpl. by rewrite Hq.
  - intros k Hin Hh. by apply (ix_queue_free0 k); [apply Hk|].
  - intros k ty t Hin. apply ix_queue_typed0. by rewrite Hq in Hin.
  - auto.
  - intros k t Hd Ht Hf Hs Hx. rewrite Hk. by apply (ix_covered0 k t).
  - intros k. rewrite Hk. apply ix_fresh0.
Qed.

(** States that differ in policy state and in workers having lost assignments. *)
Record shrinks (s s' : CoordinatorState) : Prop := {
  sh_proofs : s_proofs s' = s_proofs s;
  sh_down : s_shutting_down s' = s_shutting_down s;
  sh_workers : forall wid w', s_workers s' !! wid = Some w' ->
    exists w, s_workers s !! wid = Some w /\ w_active_tasks w' ⊆ w_active_tasks w;
}.

#[global] Instance shrinks_preorder : PreOrder shrinks.
Proof.
  split.
  - intros s. constructor; [done..|]. intros wid w H. exists w. done.
  - intros s1 s2 s3 [P1 D1 W1] [P2 D2 W2]. constructor; [congruence..|].
    intros wid w3 H3. destruct (W2 _ _ H3) as (w2 & H2 & ?). destruct (W1 _ _ H2) as (w1 & ? & ?).
    exists w1. split; [done|]. set_solver.
Qed.

Lemma shrinks_held s s' k : shrinks s s' -> held s' k -> held s k.
Proof. intros [_ _ Hw] (wid & w' & H & Hk). destruct (Hw _ _ H) as (w & ? & ?). exists wid, w. set_solver. Qed.

Lemma policy_only_shrinks s s' : policy_only queued policy_wf s s' -> shrinks s s'.
Proof. intros (p' & -> & _). constructor; simpl; [done..|]. intros wid w H. by exists w. Qed.

Lemma insert_worker_shrinks s wid w w' :
  s_workers s !! wid = Some w -> w_active_tasks w' ⊆ w_active_tasks w ->
  shrinks s (insert_worker wid w' s).
Proof.
  intros Hw Hsub. constructor; simpl; [done..|]. intros wid2 w2 H2.
  apply lookup_insert_Some in H2 as [[<- <-]|[? H2]]; eauto.
Qed.

(** Replacing a worker by one that lost assignments, all of them in [X]. *)
Lemma InvX_worker G X s n wid w w' :
  InvX G X s n -> s_workers s !! wid = Some w ->
  worker_ok G X (s_shutting_down s) wid w' -> w_active_tasks w' ⊆ w_active_tasks w ->
  (forall k, k ∈ w_active_tasks w -> k ∉ w_active_tasks w' -> k ∈ X) ->
  InvX G X (insert_worker wid w' s) n.
Proof.
  intros HI Hw Hok Hsub Hlost.
  pose proof (insert_worker_shrinks s wid w w' Hw Hsub) as Hsh.
  constructor; simpl; try apply HI.
  - intros wid2 w2 H2. apply lookup_insert_Some in H2 as [[<- <-]|[? H2]]; [done|]. by apply HI.
  - intros k Hk Hh. apply (ix_queue_free HI k Hk). by eapply shrinks_held.
  - intros k t Hd Ht Hf Hs Hx. destruct (ix_covered HI k t Hd Ht Hf Hs Hx) as [(wid2 & w2 & H2 & Hk)|]; [left|by right].
    destruct (decide (wid2 = wid)) as [->|Hne].
    + exists wid, w'. simpl. rewrite lookup_insert_eq. split; [done|]. simplify_eq.
      destruct (decide (k ∈ w_active_tasks w')); [done|]. destruct Hx. eauto.
    + exists wid2, w2. simpl. by rewrite lookup_insert_ne.
Qed.

Lemma InvX_new_worker G X s n wid w :
  InvX G X s n -> s_workers s !! wid = None ->
  worker_ok G X (s_shutting_down s) wid w -> w_active_tasks w = ∅ ->
  InvX G X (insert_worker wid w s) n.
Proof.
  intros HI Hw Hok He.
  constructor; simpl; try apply HI.
  - intros wid2 w2 H2. apply lookup_insert_Some in H2 as [[<- <-]|[? H2]]; [done|]. by apply HI.
  - intros k Hk (wid2 & w2 & H2 & Hin). apply (ix_queue_free HI k Hk). simpl in H2.
    apply lookup_insert_Some in H2 as [[<- <-]|[? H2]]; [set_solver|]. by exists wid2, w2.
  - intros k t Hd Ht Hf Hs Hx. destruct (ix_covered HI k t Hd Ht Hf Hs Hx) as [(wid2 & w2 & H2 & Hk)|]; [left|by right].
    exists wid2, w2. simpl. rewrite lookup_insert_ne; [done|congruence].
Qed.

Lemma worker_ok_unassign G X s n wid w k wt :
  InvX G X s n -> s_workers s !! wid = Some w -> k ∈ w_active_tasks w -> key_weight G k = wt ->
  worker_ok G X (s_shutting_down s) wid (unassign k wt w).
Proof.
  intros HI Hw Hk Hwt. destruct (ix_workers HI _ _ Hw) as [Hid Hmax Hheld Hweight Hdown].
  constructor; simpl; try done.
  - intros k' Hk'. apply Hheld. set_solver.
  - intros Hd. destruct (Hweight Hd) as [Hsum Hle].
    rewrite (set_Zsum_remove _ k) in Hsum by done.
    assert (0 <= set_Zsum (key_weight G) (w_active_tasks w ∖ {[k]})).
    { apply set_Zsum_nonneg. intros k' _. by eapply key_weight_nonneg. }
    pose proof (key_weight_nonneg _ _ _ _ k HI).
    rewrite Int.sat_sub_exact by lia. lia.
  - intros Hd. rewrite Hdown in Hk by done. set_solver.
Qed.

(** Taking an assignment off a worker. *)
Lemma InvX_unassign G X s n wid w k wt :
  InvX G X s n -> s_workers s !! wid = Some w -> k ∈ w_active_tasks w -> key_weight G k = wt -> k ∈ X ->
  InvX G X (insert_worker wid (unassign k wt w) s) n.
Proof.
  intros HI Hw Hk Hwt Hx. eapply InvX_worker; [done..| | |].
  - by eapply worker_ok_unassign.
  - simpl. set_solver.
  - intros k' Hk' Hn. simpl in Hn. set_solver.
Qed.

Lemma unassigned_not_held G X s n wid w k wt :
  InvX G X s n -> s_workers s !! wid = Some w -> k ∈ w_active_tasks w ->
  ~ held (insert_worker wid (unassign k wt w) s) k.
Proof.
  intros HI Hw Hk (wid2 & w2 & H2 & Hk2). simpl in H2.
  apply lookup_insert_Some in H2 as [[<- <-]|[Hne H2]]; [simpl in Hk2; set_solver|].
  by destruct Hne; eapply held_unique.
Qed.

Lemma post_worker_empty_shape s w :
  let r := post_worker_empty s w in
  policy_only queued policy_wf s r.1 /\
  w_id r.2 = w_id w /\ w_max_weight r.2 = w_max_weight w /\ w_weight r.2 = 0 /\
  w_active_tasks r.2 = w_active_tasks w.
Proof. intros r. destruct (worker_empty_law s w) as [? (nft & x & Hr)]. unfold r. by rewrite Hr. Qed.

Lemma settle_empty_inv G X s n wid w :
  InvX G X s n -> s_workers s !! wid = Some w ->
  InvX G X (settle_empty wid w s) n /\ shrinks s (settle_empty wid w s).
Proof.
  intros HI Hw. unfold settle_empty. case_decide as He; [|done].
  destruct (post_worker_empty_shape s w) as (Hp & Hid & Hm & Hwt & Ha). simpl in *.
  destruct (post_worker_empty s w) as [s' w']. simpl in *.
  pose proof (InvX_policy _ _ _ _ _ Hp HI) as HI'.
  destruct Hp as (p' & -> & Hwf & Hq).
  destruct (ix_workers HI _ _ Hw) as [Hid0 Hmax0 Hheld Hweight Hdown].
  split.
  - eapply InvX_worker; [done|done| |by rewrite Ha|by rewrite Ha].
    constructor; simpl; try done; rewrite ?Ha, ?He; try done; try congruence.
    intros Hd. rewrite set_Zsum_empty. lia.
  - etrans; [by apply policy_only_shrinks; exists p'|]. eapply insert_worker_shrinks; [done|]. by rewrite Ha.
Qed.
(** *** Removing a proof *)
Lemma InvX_delete_proof G X s n pid : InvX G X s n -> InvX G X (delete_proof pid s) n.
Proof.
  intros HI. destruct HI.
  assert (Hl : forall k t, lookup_task (delete pid (s_proofs s)) k = Some t -> lookup_task (s_proofs s) k = Some t).
  { intros k t. unfold lookup_task. rewrite lookup_delete. case_decide; done. }
  constructor; simpl; try done.
  - etrans; [apply delete_subseteq|done].
  - intros k ty t Hk Ht. apply (ix_queue_typed0 k ty t Hk). destruct k. by apply (Hl (_, _)).
  - intros k t Hd Ht. apply ix_covered0; auto.
  - intros k [Hk|[t Ht]]; apply ix_fresh0; [by left|right]. eauto.
Qed.

(** Once nobody holds a task of [pid], the assignments no longer refer to it. *)
Lemma InvX_shrink G X s n pid :
  InvX G X s n -> s_proofs s !! pid = None -> (forall k, held s k -> k.1 <> pid) ->
  InvX (delete pid G) X s n.
Proof.
  intros HI Hp Hh.
  assert (Hl : forall wid w k, s_workers s !! wid = Some w -> k ∈ w_active_tasks w ->
    lookup_task (delete pid G) k = lookup_task G k).
  { intros wid w k Hw Hk. unfold lookup_task. rewrite lookup_delete_ne; [done|].
    intros ->. by apply (Hh k); [exists wid, w|]. }
  constructor; try apply HI.
  - intros pid' p H. apply lookup_delete_Some in H as [_ H]. by apply HI.
  - apply map_subseteq_spec. intros pid' p H. rewrite lookup_delete_ne by congruence.
    by apply (lookup_weaken _ _ _ _ H), HI.
  - intros wid w Hw. destruct (ix_workers HI _ _ Hw) as [Hid Hmax Hheld Hweight Hdown].
    constructor; try done.
    + intros k Hk. rewrite (Hl _ _ _ Hw Hk). auto.
    + intros Hd. destruct (Hweight Hd) as [-> ?]. split; [|done].
      apply set_Zsum_ext. intros k Hk. unfold key_weight. by rewrite (Hl _ _ _ Hw Hk).
Qed.

(** *** Changing a task in place *)
Lemma lookup_task_insert G pid p tid t k :
  lookup_task (<[pid := set_p_tasks (<[tid := t]> (p_tasks p)) p]> (G : gmap string Proof)) k
  = if decide (k.1 = pid) then (if decide (k.2 = tid) then Some t else p_tasks p !! k.2)
    else lookup_task G k.
Proof.
  unfold lookup_task. rewrite lookup_insert. repeat case_decide; simplify_eq/=; try done.
  - by rewrite lookup_insert_eq.
  - by rewrite lookup_insert_ne.
Qed.

Definition same_task (t t' : Task) : Prop := t_id t' = t_id t /\ t_data t' = t_data t.

(** [p'] is [p] with task [tid] changed from [t] to [t'], and the count of live
    tasks adjusted. *)
Record proof_update (tid : string) (t t' : Task) (p p' : Proof) : Prop := {
  pu_id : p_id p' = p_id p;
  pu_tasks : p_tasks p' = <[tid := t']> (p_tasks p);
  pu_active : p_active_tasks p' = p_active_tasks p
    - (if is_final (t_status t) then 0 else 1) + (if is_final (t_status t') then 0 else 1);
}.

Lemma proof_ok_update pid tid t t' p p' :
  proof_ok pid p -> p_tasks p !! tid = Some t -> proof_update tid t t' p p' ->
  same_task t t' -> 0 <= t_retries t' <= MAX_TASK_RETRIES -> proof_ok pid p'.
Proof.
  intros [Hid Htasks Hsize Hact] Ht [Hpid Hpt Hpa] (Hs1 & Hs2) Hret.
  constructor.
  - congruence.
  - intros tid' t2. rewrite Hpt, lookup_insert_Some. intros [[<- <-]|[_ H2]]; [|auto].
    destruct (Htasks _ _ Ht). constructor; congruence.
  - rewrite Hpt, map_size_insert_Some by done. done.
  - rewrite Hpt, Hpa, Hact. symmetry. by apply live_count_insert.
Qed.

Lemma InvX_update X s n pid p tid t t' p' :
  InvX (s_proofs s) X s n -> s_proofs s !! pid = Some p -> p_tasks p !! tid = Some t ->
  proof_update tid t t' p p' -> same_task t t' -> 0 <= t_retries t' <= MAX_TASK_RETRIES ->
  (held s (pid, tid) -> t_worker t' = t_worker t /\
     ((pid, tid) ∈ X \/ t_status t' = Running \/ t_status t' = Succeeded)) ->
  (is_final (t_status t') = false -> is_final (t_status t) = false) ->
  InvX (s_proofs (insert_proof pid p' s)) X (insert_proof pid p' s) n.
Proof.
  intros HI Hp Ht Hup Hsame Hret Hst Hfin. destruct Hsame as (Hid & Hdata).
  assert (Hl : forall k, lookup_task (<[pid := p']> (s_proofs s)) k
    = if decide (k = (pid, tid)) then Some t' else lookup_task (s_proofs s) k).
  { intros [pid2 tid2]. unfold lookup_task. simpl. rewrite lookup_insert. case_decide; simplify_eq/=.
    - rewrite (pu_tasks _ _ _ _ _ Hup), Hp, lookup_insert. repeat case_decide; congruence.
    - case_decide; [congruence|done]. }
  assert (Hkw : forall k, key_weight (<[pid := p']> (s_proofs s)) k = key_weight (s_proofs s) k).
  { intros k. unfold key_weight. rewrite Hl. case_decide; [|done]. subst.
    unfold lookup_task. simpl. by rewrite Hp, Ht, Hdata. }
  assert (Hlt : lookup_task (s_proofs s) (pid, tid) = Some t) by (unfold lookup_task; simpl; by rewrite Hp).
  constructor; simpl; try apply HI.
  - intros pid2 p2. rewrite lookup_insert_Some. intros [[<- <-]|[_ H2]]; [|by apply HI].
    eapply proof_ok_update; [by apply HI|done..|]. done.
  - done.
  - intros wid w Hw. destruct (ix_workers HI _ _ Hw) as [Hwid Hmax Hheld Hweight Hdown].
    constructor; try done.
    + intros k Hk. rewrite Hl. destruct (Hheld k Hk) as (t2 & Ht2 & Hw2 & Hs2).
      case_decide; [|by eauto]. subst k. exists t'. split; [done|].
      destruct Hst as [-> ?]; [by exists wid, w|]. split; [congruence|done].
    + intros Hd. destruct (Hweight Hd) as [-> ?]. split; [|done]. apply set_Zsum_ext. done.
  - intros [pid2 tid2] ty t2 Hk.
    change (lookup_task (<[pid := p']> (s_proofs s)) (pid2, tid2) = Some t2 -> task_type (t_data t2) = ty).
    rewrite Hl. case_decide; intros H2; simplify_eq.
    + rewrite Hdata. by apply (ix_queue_typed HI (pid, tid) ty t).
    + by apply (ix_queue_typed HI (pid2, tid2) ty t2).
  - intros k t2 Hd. rewrite Hl. case_decide; [|by apply HI]. intros [= <-] Hf Hs Hx. subst.
    apply (ix_covered HI _ t); [done..|auto| |done]. by rewrite <- Hdata.
  - intros k [Hk|[t2 H2]]; [apply HI; by left|]. rewrite Hl in H2. apply (ix_fresh HI). right.
    case_decide; subst; eauto.
Qed.
(** *** The queue *)
Lemma InvX_enqueue G X s n k t t' :
  InvX G X s n -> lookup_task (s_proofs s) k = Some t -> same_task t t' ->
  ~ held s k -> k ∉ queued_keys s ->
  exists p', enqueue_task s t' = Some (set_s_policy p' s) /\ InvX G (X ∖ {[k]}) (set_s_policy p' s) n.
Proof.
  intros HI Ht [Hid Hdata] Hh Hq.
  destruct (lookup_task_ok _ _ _ _ _ _ HI (lookup_task_sub _ _ _ _ (ix_sub HI) Ht)) as [Htid Htp _ _].
  assert (Hp : is_Some (s_proofs s !! proof_id (t_data t'))).
  { rewrite Hdata, Htp. unfold lookup_task in Ht. destruct (s_proofs s !! k.1); [eauto|done]. }
  destruct (enqueue_law s t' Hp (ix_policy HI)) as (p' & Henq & Hwf & Hqp).
  exists p'. split; [done|].
  rewrite Hid, Hdata, Htid, Htp, <- surjective_pairing in Hqp.
  assert (Hk : forall k', k' ∈ queued_keys (set_s_policy p' s) <->
    (k' = k /\ schedulable (task_type (t_data t)) = true) \/ k' ∈ queued_keys s).
  { intros k'. unfold queued_keys. simpl. rewrite Hqp, fmap_app, elem_of_app. case_match; set_solver. }
  constructor; simpl; try apply HI; try done.
  - intros wid w Hw. destruct (ix_workers HI _ _ Hw) as [? ? Hheld ? ?]. constructor; try done.
    intros k' Hk'. destruct (Hheld k' Hk') as (t2 & ? & ? & Hs). exists t2. split_and!; [done..|].
    assert (k' <> k) by (intros ->; apply Hh; by exists wid, w). set_solver.
  - unfold queued_keys. simpl. rewrite Hqp, fmap_app. case_match; [|apply HI]. simpl.
    constructor; [done|apply HI].
  - intros k' Hk'. apply Hk in Hk' as [[-> _]|?]; [done|]. by apply HI.
  - intros k' ty t2 Hin Ht2. simpl in Hin. rewrite Hqp in Hin. apply elem_of_app in Hin as [Hin|Hin].
    + case_match; [|by inv Hin]. apply list_elem_of_singleton in Hin. simplify_eq.
      change (lookup_task (s_proofs s) k = Some t2) in Ht2. congruence.
    + by apply (ix_queue_typed HI k' ty t2).
  - intros k' t2 Hd Ht2 Hf Hs Hx. rewrite Hk. destruct (decide (k' = k)) as [->|].
    + right. left. split; [done|]. simpl in *. congruence.
    + destruct (ix_covered HI k' t2); [done..|set_solver|by left|by right; right].
  - intros k' Hk'. apply (ix_fresh HI). rewrite Hk in Hk'. destruct Hk' as [[[-> _]|?]|?]; eauto.
Qed.

Lemma InvX_dequeue G X s n k ty p' :
  InvX G X s n -> queued (s_policy s) ≡ₚ (k, ty) :: queued p' -> policy_wf p' ->
  InvX G ({[k]} ∪ X) (set_s_policy p' s) n /\ k ∉ queued_keys (set_s_policy p' s) /\ ~ held s k.
Proof.
  intros HI Hq Hwf.
  assert (Hqk : queued_keys s ≡ₚ k :: queued_keys (set_s_policy p' s)).
  { unfold queued_keys. simpl. by rewrite Hq. }
  pose proof (ix_queue_nodup HI) as Hnd. rewrite Hqk in Hnd. apply NoDup_cons in Hnd as [Hnk Hnd].
  pose proof (InvX_exempt G X ({[k]} ∪ X) s n HI ltac:(set_solver)) as HI'.
  assert (Hin : forall k', k' ∈ queued_keys (set_s_policy p' s) -> k' ∈ queued_keys s).
  { intros k' ?. rewrite Hqk. by right. }
  split_and!; [|done|apply (ix_queue_free HI); rewrite Hqk; by left].
  constructor; simpl; try apply HI'; try done.
  - intros k' Hk'. apply HI'. auto.
  - intros k' ty' t2 Hk'. apply (ix_queue_typed HI'). rewrite Hq. by right.
  - intros k' t2 Hd Ht2 Hf Hs Hx. destruct (ix_covered HI' k' t2 Hd Ht2 Hf Hs Hx) as [?|Hk']; [by left|right].
    rewrite Hqk in Hk'. apply elem_of_cons in Hk' as [->|?]; [set_solver|done].
  - intros k' [?|?]; apply (ix_fresh HI'); auto.
Qed.

(** Giving [k] to worker [w], which has room for it. *)
Lemma InvX_hold G X s n wid w w' k t :
  InvX G ({[k]} ∪ X) s n -> s_shutting_down s = false ->
  k ∉ queued_keys s -> ~ held s k -> s_workers s !! wid = Some w ->
  lookup_task G k = Some t -> t_worker t = Some wid -> t_status t = Running ->
  w_id w' = w_id w -> w_max_weight w' = w_max_weight w ->
  w_active_tasks w' = {[k]} ∪ w_active_tasks w ->
  w_weight w' = w_weight w + weight (t_data t) -> w_weight w' <= w_max_weight w' ->
  InvX G X (insert_worker wid w' s) n.
Proof.
  intros HI Hdn Hq Hh Hw Ht Htw Hts Hid Hmax Hact Hwt Hfit.
  assert (Hheld' : forall k', held (insert_worker wid w' s) k' <-> k' = k \/ held s k').
  { intros k'. split.
    - intros (wid2 & w2 & H2 & Hk2). simpl in H2. apply lookup_insert_Some in H2 as [[<- <-]|[? H2]].
      + rewrite Hact in Hk2. destruct (decide (k' = k)); [by left|right]. exists wid, w. set_solver.
      + right. by exists wid2, w2.
    - intros [->|(wid2 & w2 & H2 & Hk2)].
      + exists wid, w'. simpl. rewrite lookup_insert_eq, Hact. set_solver.
      + destruct (decide (wid2 = wid)) as [->|].
        * exists wid, w'. simpl. rewrite lookup_insert_eq, Hact. set_solver.
        * exists wid2, w2. simpl. by rewrite lookup_insert_ne. }
  constructor; simpl; try apply HI.
  - intros wid2 w2 H2. apply lookup_insert_Some in H2 as [[<- <-]|[Hne H2]].
    + destruct (ix_workers HI _ _ Hw) as [Hid0 Hmax0 Hheld Hweight Hdown].
      constructor; [congruence|by rewrite Hmax| | |congruence].
      * rewrite Hact. intros k' [->%elem_of_singleton|Hk']%elem_of_union; [exists t; auto|].
        destruct (Hheld k' Hk') as (t2 & ? & ? & Hs). exists t2. split_and!; [done..|].
        assert (k' <> k) by (intros ->; apply Hh; by exists wid, w). set_solver.
      * intros _. split; [|done]. rewrite Hact, set_Zsum_insert by (intros ?; apply Hh; by exists wid, w).
        destruct (Hweight Hdn) as [<- _]. rewrite Hwt. unfold key_weight. rewrite Ht. lia.
    + destruct (ix_workers HI _ _ H2) as [? ? Hheld ? ?]. constructor; try done.
      intros k' Hk'. destruct (Hheld k' Hk') as (t2 & ? & ? & Hs). exists t2. split_and!; [done..|].
      assert (k' <> k) by (intros ->; apply Hh; by exists wid2, w2). set_solver.
  - intros k' Hk' [->|?]%Hheld'; [done|]. by eapply (ix_queue_free HI).
  - intros k' t2 _ Ht2 Hf Hs Hx. rewrite Hheld'. destruct (decide (k' = k)); [by left; left|].
    destruct (ix_covered HI k' t2); [done..|set_solver|by left; right|by right].
Qed.
(** *** Assignment *)
Lemma update_task_insert s pid p tid t f :
  s_proofs s !! pid = Some p -> p_tasks p !! tid = Some t ->
  update_task pid tid f s = insert_proof pid (set_p_tasks (<[tid := f t]> (p_tasks p)) p) s.
Proof.
  intros Hp Ht. unfold update_task, insert_proof. f_equal. apply map_eq. intros i.
  rewrite lookup_alter, lookup_insert. case_decide; [|done]. subst i. rewrite Hp. simpl. do 2 f_equal.
  apply map_eq. intros j. rewrite lookup_alter, lookup_insert. case_decide; [|done]. subst j. by rewrite Ht.
Qed.

Lemma lookup_task_Some G k t :
  lookup_task G k = Some t -> exists p, G !! k.1 = Some p /\ p_tasks p !! k.2 = Some t.
Proof. unfold lookup_task. destruct (G !! k.1) as [p|]; [eauto|done]. Qed.

Lemma eligible_fits s X n wid w t k wt :
  0 <= W -> InvX (s_proofs s) X s n -> s_shutting_down s = false ->
  s_workers s !! wid = Some w -> lookup_task (s_proofs s) k = Some t ->
  eligible wt (weight (t_data t)) w = true ->
  Int.wadd u32 (w_weight w) (weight (t_data t)) = w_weight w + weight (t_data t) /\
  w_weight w + weight (t_data t) <= w_max_weight w.
Proof.
  intros HW HI Hdn Hw Ht Hel. destruct (ix_workers HI _ _ Hw) as [_ Hmax _ Hweight _].
  destruct (Hweight Hdn) as [Hsum Hle].
  destruct (to_weight _ _ _ (lookup_task_ok _ _ _ _ _ _ HI Ht)) as [? ?].
  assert (0 <= w_weight w).
  { rewrite Hsum. apply set_Zsum_nonneg. intros ? _. by eapply key_weight_nonneg. }
  unfold eligible in Hel. rewrite !andb_true_iff, Z.leb_le in Hel. destruct Hel as [_ Hel].
  unfold Int.umax in *. rewrite Int.wadd_small in * by (unfold Int.in_range; lia). lia.
Qed.

Lemma record_assignment_inv X s n k t wid w now_ms p' ty :
  0 <= W -> InvX (s_proofs s) X s n -> s_shutting_down s = false ->
  queued (s_policy s) ≡ₚ (k, ty) :: queued p' -> policy_wf p' ->
  lookup_task (s_proofs s) k = Some t -> is_final (t_status t) = false ->
  s_workers s !! wid = Some w ->
  eligible (worker_type_from_task_type (task_type (t_data t))) (weight (t_data t)) w = true ->
  InvX (s_proofs (set_s_policy p' (record_assignment now_ms t wid w s))) X
       (set_s_policy p' (record_assignment now_ms t wid w s)) n.
Proof.
  intros HW HI Hdn Hq Hwf Ht Hf Hw Hel.
  destruct (eligible_fits _ _ _ _ _ _ _ _ HW HI Hdn Hw Ht Hel) as [Hadd Hfit].
  destruct (lookup_task_ok _ _ _ _ _ _ HI Ht) as [Hid Hpid Htw Hret].
  pose proof (wo_id (ix_workers HI _ _ Hw)) as Hwid.
  destruct (lookup_task_Some _ _ _ Ht) as (p & Hp & Hpt).
  destruct (InvX_dequeue _ _ _ _ _ _ _ HI Hq Hwf) as (HI1 & Hnq & Hnh).
  set (p2 := set_p_tasks (<[k.2 := start_task w t]> (p_tasks p)) p).
  assert (HI2 : InvX (s_proofs (insert_proof k.1 p2 (set_s_policy p' s))) ({[k]} ∪ X)
                     (insert_proof k.1 p2 (set_s_policy p' s)) n).
  { destruct k as [pid tid]. eapply (InvX_update _ _ _ pid p tid t (start_task w t)); try done.
    constructor; unfold p2; simpl; [done..|]. rewrite Hf. lia. }
  replace (set_s_policy p' (record_assignment now_ms t wid w s))
    with (insert_worker wid (charge_worker now_ms t w) (insert_proof k.1 p2 (set_s_policy p' s))).
  2:{ unfold record_assignment. rewrite Hid, Hpid.
      by erewrite update_task_insert by (simpl; done). }
  eapply (InvX_hold _ _ _ _ wid w); [done..| | | | | | | |].
  - simpl. unfold p2. rewrite lookup_task_insert. rewrite !decide_True by done. done.
  - simpl. by rewrite Hwid.
  - done.
  - done.
  - done.
  - simpl. by rewrite Hid, Hpid, <- surjective_pairing.
  - simpl. done.
  - simpl. lia.
Qed.

Lemma assign_step_inv c c' : 0 <= W -> assign_step queued policy_wf c c' -> Inv c -> Inv c'.
Proof.
  intros HW Hst HI. destruct Hst as [c k ty p' Hdn Hq Hwf Hfin|c k ty p' t wid w now_ms Hdn Hq Hwf Ht Hf Hw Hel].
  - unfold Inv in *. simpl. destruct (InvX_dequeue _ _ _ _ _ _ _ HI Hq Hwf) as (HI1 & Hnq & Hnh).
    eapply InvX_settled; [done|done|]. intros t Ht. left. by apply Hfin.
  - unfold Inv in *. simpl. eapply InvX_tick; [|apply Nat.le_succ_diag_r].
    by eapply (record_assignment_inv ∅ _ _ k t wid w now_ms).
Qed.

Lemma assign_steps_inv c c' : 0 <= W -> rtc (assign_step queued policy_wf) c c' -> Inv c -> Inv c'.
Proof. intros HW. induction 1; eauto using assign_step_inv. Qed.

Lemma assign_tasks_inv c :
  0 <= W -> Inv c -> exists c', assign_tasks c = (Ok tt, c') /\ Inv c' /\ rtc (assign_step queued policy_wf) c c'.
Proof.
  intros HW HI. destruct (assign_law c (inv_assign_pre _ _ _ _ HI)) as (c' & Ha & Hs).
  exists c'. eauto using assign_steps_inv.
Qed.
End invariant.

Arguments ix_proofs {E PT AP L W G X s n} _.
Arguments ix_sub {E PT AP L W G X s n} _.
Arguments ix_workers {E PT AP L W G X s n} _.
Arguments ix_queue_nodup {E PT AP L W G X s n} _.
Arguments ix_queue_free {E PT AP L W G X s n} _.
Arguments ix_queue_typed {E PT AP L W G X s n} _.
Arguments ix_policy {E PT AP L W G X s n} _.
Arguments ix_covered {E PT AP L W G X s n} _.
Arguments ix_fresh {E PT AP L W G X s n} _.
Arguments wo_id {PT W G X down wid w} _.
Arguments wo_max {PT W G X down wid w} _.
Arguments wo_held {PT W G X down wid w} _.
Arguments wo_weight {PT W G X down wid w} _.
Arguments wo_down {PT W G X down wid w} _.
Arguments to_id {PT W pid tid t} _.
Arguments to_proof {PT W pid tid t} _.
Arguments to_weight {PT W pid tid t} _.
Arguments to_retries {PT W pid tid t} _.
Arguments po_id {PT W pid p} _.
Arguments po_tasks {PT W pid p} _.
Arguments po_size {PT W pid p} _.
Arguments po_active {PT W pid p} _.
