(* ===== verification/PolicyQueue.v ===== *)
(** * What the two policies share

    [QueuedTask] and its priority order, the search for a worker, the updates
    of [assign_task] and the assignment loop, generic in the policy's own
    queues; with the proof that the loop refines [assign_step], ends, and
    stops only when the task at the head cannot be placed. *)
From stdpp Require Import base gmap strings list relations.
From S2P Require Import Prelude Proto TaskChannel BinHeap CoordState Coordinator AssignSpec CoordInv.
Local Open Scope string_scope.
Local Open Scope list_scope.
Local Open Scope Z_scope.
Local Open Scope handler_scope.

(** ** [QueuedTask] *)
Record QueuedTask := mkQueuedTask {
  q_id : string;
  q_task_type : TaskType;
  q_proof_created_at : Z;
  q_created_at : Z;
  q_proof_id : string;
}.

Definition then_cmp (a b : comparison) : comparison := match a with Eq => b | _ => a end.

Definition is_cpu_task (t : TaskType) : bool :=
  match t with Controller | PlonkWrap | Groth16Wrap | ExecuteOnly => true | _ => false end.

(** [impl Ord for QueuedTask]. *)
Definition queued_cmp (a b : QueuedTask) : comparison :=
  let by_proof := q_proof_created_at a ?= q_proof_created_at b in
  let by_task := q_created_at a ?= q_created_at b in
  if is_cpu_task (q_task_type a) && is_cpu_task (q_task_type b) then then_cmp by_proof by_task
  else
    match q_task_type a, q_task_type b with
    | SetupVkey, SetupVkey => then_cmp by_proof by_task
    | SetupVkey, _ => Lt
    | _, SetupVkey => Gt
    | ta, tb =>
        then_cmp by_proof
          match ta, tb with
          | ProveShard, ProveShard => by_task
          | ProveShard, _ => Lt
          | _, ProveShard => Gt
          | _, _ => by_task
          end
    end.

(** The order of [Reverse<QueuedTask>]: the heap's greatest is the least task. *)
#[export] Instance reverse_queued : OrdB QueuedTask :=
  fun a b => match queued_cmp b a with Gt => false | _ => true end.

(** The order is lexicographic: [SetupVkey] first, then the proof's age, then
    [ProveShard] before the rest, then the task's age. *)
Definition queue_key (a : QueuedTask) : Z * Z * Z * Z :=
  (if decide (q_task_type a = SetupVkey) then 0 else 1, q_proof_created_at a,
   if decide (q_task_type a = ProveShard) then 0 else 1, q_created_at a).

Definition lex_cmp (x y : Z * Z * Z * Z) : comparison :=
  let '(a1, b1, c1, d1) := x in let '(a2, b2, c2, d2) := y in
  then_cmp (a1 ?= a2) (then_cmp (b1 ?= b2) (then_cmp (c1 ?= c2) (d1 ?= d2))).

Lemma queued_cmp_lex a b : queued_cmp a b = lex_cmp (queue_key a) (queue_key b).
Proof.
  destruct a as [i1 t1 p1 c1 r1], b as [i2 t2 p2 c2 r2]. unfold queued_cmp, queue_key. simpl.
  destruct t1, t2; simpl; try done; by destruct (p1 ?= p2).
Qed.

Lemma lex_cmp_not_gt x y :
  match lex_cmp x y with Gt => false | _ => true end = true <->
  let '(a1, b1, c1, d1) := x in let '(a2, b2, c2, d2) := y in
  a1 < a2 \/ (a1 = a2 /\ (b1 < b2 \/ (b1 = b2 /\ (c1 < c2 \/ (c1 = c2 /\ d1 <= d2))))).
Proof.
  destruct x as [[[a1 b1] c1] d1], y as [[[a2 b2] c2] d2]. unfold lex_cmp.
  destruct (Z.compare_spec a1 a2), (Z.compare_spec b1 b2), (Z.compare_spec c1 c2), (Z.compare_spec d1 d2);
    simpl; split; try done; lia.
Qed.

#[export] Instance reverse_queued_laws : OrdBLaws QueuedTask.
Proof.
  split; unfold ord_le, reverse_queued; intros *; rewrite !queued_cmp_lex, !lex_cmp_not_gt;
    unfold queue_key; simpl; lia.
Qed.

(** Popping the head of a heap, with everything it keeps. *)
Lemma pop_head l q (P : QueuedTask -> Prop) :
  heap l -> Forall P l -> peek l = Some q ->
  l ≡ₚ q :: (pop l).2 /\ heap (pop l).2 /\ Forall P (pop l).2 /\ P q.
Proof.
  intros Hh HP Hp. destruct (pop_peek l q Hp) as [l' Hpop]. rewrite Hpop. simpl.
  destruct (pop_cons _ _ _ Hpop) as [_ Hperm]. rewrite Hperm in HP. inv HP.
  split_and!; [done|by eapply pop_heap|done..].
Qed.

Section assign.
Context `{E : ClusterEnv} {PT : PolicyTypes}.

(** [get_queued_task]: [None] where the proof is missing, a panic. *)
Definition get_queued_task (s : CoordinatorState) (task : Task) : option QueuedTask :=
  match s_proofs s !! proof_id (t_data task) with
  | None => None
  | Some proof =>
      Some (mkQueuedTask (t_id task) (task_type (t_data task)) (p_created_at proof)
                         (t_created_at task) (proof_id (t_data task)))
  end.

(** [SystemTime::now().duration_since(UNIX_EPOCH).map_err(Status::internal)?]. *)
Definition checked_since_epoch (c : Coordinator) : outcome Z * Coordinator :=
  (if clock (c_tick c) <? 0
   then Err (mkStatus Internal "second time provided was later than self")
   else Ok (clock (c_tick c)), tick c).

(** [assign_task], with the policy's own bookkeeping as [settle]: the
    worker search, the updates of the worker and the task, the message to the
    worker and the removal of the task from its queue. *)
Definition assign_task (settle : Task -> Policy -> Policy) (task : Task) (c : Coordinator)
  : outcome (option string) * Coordinator :=
  let worker_type := worker_type_from_task_type (task_type (t_data task)) in
  if decide (worker_type = NoneWorker) then (Ok None, c)
  else
    match find_best_worker worker_type (weight (t_data task)) (c_state c) with
    | None => (Ok None, c)
    | Some (wid, w) =>
        let? (now, c) := checked_since_epoch c in
        let w' := charge_worker (as_millis now) task w in
        let c := with_state (insert_worker wid w') c in
        match get_task_internal (c_state c) (proof_id (t_data task)) (t_id task) with
        | None => (Panic, c)
        | Some _ =>
            let c := with_state (update_task (proof_id (t_data task)) (t_id task) (start_task w)) c in
            let c := send_task task w' "null" c in
            let c := with_state (fun s => set_s_policy (settle task (s_policy s)) s) c in
            (Ok (Some (w_id w)), c)
        end
    end.

(** One [while] loop of [assign_tasks]: [pick] is the task at the head of the
    queue, [drop] takes the head of proof [proof_id]'s queue away. *)
Fixpoint assign_loop (pick : Policy -> option QueuedTask) (drop : string -> Policy -> Policy)
    (settle : Task -> Policy -> Policy) (fuel : nat) (c : Coordinator) : outcome unit * Coordinator :=
  match fuel with
  | O => (Fuel, c)
  | S fuel =>
      match pick (s_policy (c_state c)) with
      | None => (Ok tt, c)
      | Some q =>
          let skip := with_state (fun s => set_s_policy (drop (q_proof_id q) (s_policy s)) s) c in
          match get_task_internal (c_state c) (q_proof_id q) (q_id q) with
          | None => assign_loop pick drop settle fuel skip
          | Some task =>
              if is_final (t_status task) then assign_loop pick drop settle fuel skip
              else
                let? (worker, c) := assign_task settle task c in
                match worker with
                | None => (Ok tt, c)
                | Some _ => assign_loop pick drop settle fuel c
                end
          end
      end
  end.
End assign.

(** ** The search for a worker *)
Section search.
Context `{EO : ClusterEnvOk} {PT : PolicyTypes}.

Lemma consider_split wt tw best kw :
  consider_worker wt tw best kw
  = if eligible wt tw kw.2 && (w_next_free_time kw.2 <? best.2) then (Some kw, w_next_free_time kw.2) else best.
Proof.
  unfold consider_worker, eligible. destruct (w_closed kw.2); simpl; [done|].
  destruct (_ || _); simpl; [|done]. destruct (_ <? best.2); simpl; [by rewrite andb_true_r|by rewrite andb_false_r].
Qed.

(** What the loop knows after the workers [l]: the best of them, or no
    eligible one below the bound. *)
Definition best_of wt tw (l : list (string * Worker)) (r : option (string * Worker) * Z) : Prop :=
  match r.1 with
  | Some kw => kw ∈ l /\ eligible wt tw kw.2 = true /\ r.2 = w_next_free_time kw.2 /\ r.2 < Int.umax u128
  | None => r.2 = Int.umax u128
  end /\ forall kw, kw ∈ l -> eligible wt tw kw.2 = true -> r.2 <= w_next_free_time kw.2.

Lemma best_of_step wt tw l kw r :
  best_of wt tw l r -> best_of wt tw (l ++ [kw]) (consider_worker wt tw r kw).
Proof.
  intros [Hr Hmin]. rewrite consider_split.
  destruct (eligible wt tw kw.2 && (w_next_free_time kw.2 <? r.2)) eqn:Hc.
  - apply andb_true_iff in Hc as [He Hlt%Z.ltb_lt]. split; simpl.
    + split_and!; [set_solver|done|done|]. destruct r.1; lia.
    + intros kw' [Hin| ->%list_elem_of_singleton]%elem_of_app Hel; [|lia]. specialize (Hmin _ Hin Hel). lia.
  - split; [destruct r.1; [set_solver|done]|].
    intros kw' [Hin| ->%list_elem_of_singleton]%elem_of_app Hel; [by apply Hmin|].
    rewrite Hel in Hc. simpl in Hc. apply Z.ltb_ge in Hc. lia.
Qed.

Lemma best_of_fold wt tw l2 : forall l1 r,
  best_of wt tw l1 r -> best_of wt tw (l1 ++ l2) (foldl (consider_worker wt tw) r l2).
Proof.
  induction l2 as [|kw l2 IH]; intros l1 r Hr; simpl; [by rewrite app_nil_r|].
  rewrite cons_middle, (assoc_L (++)). apply IH. by apply best_of_step.
Qed.

Lemma find_best_worker_best wt tw s :
  exists t, best_of wt tw (iter_map (s_workers s)) (find_best_worker wt tw s, t).
Proof.
  unfold find_best_worker. eexists.
  pose proof (best_of_fold wt tw (iter_map (s_workers s)) [] (None, Int.umax u128)) as H.
  rewrite <- surjective_pairing. apply H. split; [done|]. intros kw Hin. by apply not_elem_of_nil in Hin.
Qed.

Lemma find_best_worker_some wt tw s wid w :
  find_best_worker wt tw s = Some (wid, w) ->
  s_workers s !! wid = Some w /\ eligible wt tw w = true /\ w_next_free_time w < Int.umax u128 /\
  forall wid' w', s_workers s !! wid' = Some w' -> eligible wt tw w' = true ->
    w_next_free_time w <= w_next_free_time w'.
Proof.
  intros Hf. destruct (find_best_worker_best wt tw s) as (t & Hb & Hmin). rewrite Hf in Hb. simpl in *.
  destruct Hb as (Hin%elem_of_iter_map & He & -> & Hlt). split_and!; try done.
  intros wid' w' Hw' He'. apply (Hmin (wid', w')); [by apply elem_of_iter_map|done].
Qed.

Lemma find_best_worker_none wt tw s :
  find_best_worker wt tw s = None ->
  forall wid w, s_workers s !! wid = Some w -> eligible wt tw w = true -> Int.umax u128 <= w_next_free_time w.
Proof.
  intros Hf wid w Hw He. destruct (find_best_worker_best wt tw s) as (t & Hb & Hmin). rewrite Hf in Hb.
  simpl in *. subst t. apply (Hmin (wid, w)); [by apply elem_of_iter_map|done].
Qed.
End search.

(** ** The loop refines [assign_step] *)
Section refinement.
Context `{EO : ClusterEnvOk} {PT : PolicyTypes}.
Context (queued : Policy -> list ((string * string) * TaskType)) (wf : Policy -> Prop).
Context (pick : Policy -> option QueuedTask) (drop : string -> Policy -> Policy).
Context (settle : Task -> Policy -> Policy).

Definition entry (q : QueuedTask) : (string * string) * TaskType := ((q_proof_id q, q_id q), q_task_type q).

(** What a queue promises the loop: the head is an entry, and both ways of
    taking it away remove exactly that entry. *)
Record lane_laws : Prop := {
  lane_drop : forall p q, wf p -> pick p = Some q ->
    queued p ≡ₚ entry q :: queued (drop (q_proof_id q) p) /\ wf (drop (q_proof_id q) p);
  lane_settle : forall p q t, wf p -> pick p = Some q ->
    proof_id (t_data t) = q_proof_id q -> task_type (t_data t) = q_task_type q ->
    queued p ≡ₚ entry q :: queued (settle t p) /\ wf (settle t p);
}.

Abbreviation astep := (assign_step queued wf).
Abbreviation apre := (assign_pre queued wf).

Lemma policy_only_refl s : policy_only queued wf s s.
Proof. exists (s_policy s). split; [by destruct s|done]. Qed.

Lemma get_task_record now t wid w s pid tid :
  get_task_internal (record_assignment now t wid w s) pid tid
  = if decide (pid = proof_id (t_data t) /\ tid = t_id t)
    then start_task w <$> get_task_internal s pid tid else get_task_internal s pid tid.
Proof.
  unfold get_task_internal, record_assignment, update_task. simpl.
  destruct (decide (pid = proof_id (t_data t))) as [->|Hne].
  - rewrite lookup_alter_eq. destruct (s_proofs s !! proof_id (t_data t)) as [p|]; simpl; [|by case_decide].
    destruct (decide (tid = t_id t)) as [->|Hne].
    + rewrite lookup_alter_eq, decide_True by done. done.
    + rewrite lookup_alter_ne, decide_False by naive_solver. done.
  - rewrite lookup_alter_ne, decide_False by naive_solver. done.
Qed.

Lemma keys_ok_record now t wid w s :
  keys_ok s -> s_workers s !! wid = Some w -> keys_ok (record_assignment now t wid w s).
Proof.
  intros (Hw & Hp & Ht) Hwid. split_and!.
  - intros wid' w'. simpl. rewrite lookup_insert_Some. intros [[<- <-]|[_ ?]]; [exact (Hw wid w Hwid)|by apply Hw].
  - intros pid p. simpl. rewrite lookup_alter_Some. intros [(<- & p0 & Hp0 & ->)|[_ ?]]; [exact (Hp _ p0 Hp0)|by apply Hp].
  - intros pid tid t'. rewrite get_task_record. case_decide as Hd; [|apply Ht].
    destruct (get_task_internal s pid tid) as [t0|] eqn:Ht0; simpl; [|done]. intros [= <-]. exact (Ht pid tid t0 Ht0).
Qed.

Lemma assign_step_pre c c' :
  astep c c' -> apre (c_state c) ->
  apre (c_state c') /\ s_shutting_down (c_state c') = s_shutting_down (c_state c).
Proof.
  intros Hs (Hk & Hty & Hwf). destruct Hs as [c k ty p' Hd Hq Hwf' Hg|c k ty p' t wid w now Hd Hq Hwf' Ht Hf Hw He].
  - split; [|done]. split_and!; [done| |done]. intros k' ty' t' Hin. apply Hty. simpl in Hin. rewrite Hq. by right.
  - split; [|done]. split_and!; [by apply keys_ok_record| |done]. intros k' ty' t' Hin.
    simpl in Hin. change (get_task_internal (record_assignment now t wid w (c_state c)) k'.1 k'.2 = Some t' ->
      task_type (t_data t') = ty').
    assert (Hin' : (k', ty') ∈ queued (s_policy (c_state c))) by (rewrite Hq; by right).
    rewrite get_task_record. case_decide; [|by apply Hty].
    rewrite fmap_Some. intros (t0 & Ht0 & ->). exact (Hty k' ty' t0 Hin' Ht0).
Qed.

Context (LL : lane_laws).

Lemma assign_task_refines c q t :
  apre (c_state c) -> s_shutting_down (c_state c) = false ->
  pick (s_policy (c_state c)) = Some q -> get_task_internal (c_state c) (q_proof_id q) (q_id q) = Some t ->
  is_final (t_status t) = false ->
  (assign_task settle t c = (Ok None, c) /\
   (worker_type_from_task_type (task_type (t_data t)) = NoneWorker \/
    find_best_worker (worker_type_from_task_type (task_type (t_data t))) (weight (t_data t)) (c_state c) = None)) \/
  exists wid c', assign_task settle t c = (Ok (Some wid), c') /\ astep c c' /\
    s_policy (c_state c') = settle t (s_policy (c_state c)).
Proof.
  intros (Hk & Hty & Hwf) Hd Hpick Ht Hf. unfold assign_task.
  case_decide as Hnone; [left; by auto|].
  destruct (find_best_worker _ _ _) as [[wid w]|] eqn:Hfb; [right|left; by auto].
  apply find_best_worker_some in Hfb as (Hw & He & _ & _).
  pose proof (clock_nonneg (c_tick c)) as Hclk. unfold checked_since_epoch.
  rewrite (proj2 (Z.ltb_ge _ _)) by done. cbn [bind].
  destruct (proj2 (proj2 Hk) _ _ _ Ht) as [Hid Hpid].
  destruct (lane_drop LL _ q Hwf Hpick) as [Hq _].
  assert (Htype : task_type (t_data t) = q_task_type q).
  { apply (Hty (q_proof_id q, q_id q)); [|done]. rewrite Hq. by left. }
  change (get_task_internal _ _ _) with (get_task_internal (c_state c) (proof_id (t_data t)) (t_id t)).
  rewrite Hid, Hpid, Ht. rewrite <- Hid, <- Hpid.
  destruct (lane_settle LL _ q t Hwf Hpick Hpid Htype) as [Hq' Hwf'].
  eexists _, _. split; [done|]. split; [|done].
  eapply (assign_take _ _ c (q_proof_id q, q_id q)); [done|exact Hq'|done..].
Qed.

(** The loop's end: what it did is a sequence of steps, and the task left at the
    head has no worker to go to. *)
Definition head_blocked (c : Coordinator) : Prop :=
  forall q, pick (s_policy (c_state c)) = Some q ->
  exists t, get_task_internal (c_state c) (q_proof_id q) (q_id q) = Some t /\ is_final (t_status t) = false /\
    (worker_type_from_task_type (task_type (t_data t)) = NoneWorker \/
     find_best_worker (worker_type_from_task_type (task_type (t_data t))) (weight (t_data t)) (c_state c) = None).

Definition loop_post (c c' : Coordinator) : Prop :=
  rtc astep c c' /\ apre (c_state c') /\ s_shutting_down (c_state c') = false /\
  (length (queued (s_policy (c_state c'))) <= length (queued (s_policy (c_state c))))%nat /\ head_blocked c'.

Lemma assign_loop_refines fuel : forall c,
  apre (c_state c) -> s_shutting_down (c_state c) = false ->
  (length (queued (s_policy (c_state c))) < fuel)%nat ->
  exists c', assign_loop pick drop settle fuel c = (Ok tt, c') /\ loop_post c c'.
Proof.
  induction fuel as [|fuel IH]; intros c Hpre Hd Hlen; [lia|]. cbn [assign_loop].
  destruct (pick (s_policy (c_state c))) as [q|] eqn:Hpick.
  2:{ exists c. split; [done|]. unfold loop_post. split_and!; [done|done|done|lia|]. intros q Hq. congruence. }
  destruct (lane_drop LL _ q (proj2 (proj2 Hpre)) Hpick) as [Hq Hwf'].
  assert (Hstep : forall c1, astep c c1 -> length (queued (s_policy (c_state c))) = S (length (queued (s_policy (c_state c1)))) ->
    exists c', assign_loop pick drop settle fuel c1 = (Ok tt, c') /\ loop_post c c').
  { intros c1 Hs1 Hl1. destruct (assign_step_pre _ _ Hs1 Hpre) as [Hpre1 Hd1].
    destruct (IH c1 Hpre1) as (c' & ? & ? & ? & ? & ? & Hb); [congruence|lia|].
    exists c'. split; [done|]. split_and!; try done; [by eapply rtc_l|lia]. }
  assert (Hskip : (forall t, get_task_internal (c_state c) (q_proof_id q) (q_id q) = Some t -> is_final (t_status t) = true) ->
    astep c (with_state (fun s => set_s_policy (drop (q_proof_id q) (s_policy s)) s) c)).
  { intros Hg. by apply (assign_drop _ _ c (q_proof_id q, q_id q) (q_task_type q)). }
  destruct (get_task_internal (c_state c) (q_proof_id q) (q_id q)) as [t|] eqn:Ht.
  2:{ apply Hstep; [apply Hskip; by intros t|]. simpl. rewrite Hq. done. }
  destruct (is_final (t_status t)) eqn:Hf.
  { apply Hstep; [apply Hskip; intros t' ?; by simplify_eq|]. simpl. rewrite Hq. done. }
  destruct (assign_task_refines c q t Hpre Hd Hpick Ht Hf) as [[-> Hno]|(wid & c1 & -> & Hs1 & Hp1)]; cbn [bind].
  - exists c. split; [done|]. unfold loop_post. split_and!; [done|done|done|lia|]. intros q' Hq'. simplify_eq. eauto.
  - apply Hstep; [done|]. rewrite Hp1.
    assert (Htype : task_type (t_data t) = q_task_type q).
    { destruct Hpre as (_ & Hty & _). apply (Hty (q_proof_id q, q_id q)); [|done]. rewrite Hq. by left. }
    destruct (proj2 (proj2 (proj1 Hpre)) _ _ _ Ht) as [_ Hpid].
    destruct (lane_settle LL _ q t (proj2 (proj2 Hpre)) Hpick Hpid Htype) as [Hq' _]. by rewrite Hq'.
Qed.
End refinement.
