(* ===== verification/DefaultPolicy.v ===== *)
(** * The default policy (bin/coordinator/src/policy/default.rs)

    One CPU queue and one GPU queue, each a binary heap of [Reverse<QueuedTask>].
    The policy is an instance of [PolicyLaws]. *)
From stdpp Require Import base gmap strings list relations.
From S2P Require Import Prelude Proto TaskChannel BinHeap CoordState Coordinator AssignSpec CoordInv PolicyQueue.
Local Open Scope string_scope.
Local Open Scope list_scope.
Local Open Scope Z_scope.
Local Open Scope handler_scope.

Module Default.

Record DefaultPolicy := mkDefaultPolicy {
  cpu_queue : list QueuedTask;
  gpu_queue : list QueuedTask;
}.

Definition types : PolicyTypes := {|
  Policy := DefaultPolicy;
  ProofState := unit;
  TaskState := unit;
  WorkerState := unit;
  ProofResultMetadata := unit;
  policy_default := mkDefaultPolicy [] [];
  proof_state_default := tt;
  task_state_default := tt;
  worker_state_default := tt;
|}.
#[local] Existing Instance types.

Section policy.
Context `{E : ClusterEnv}.

Definition pop_cpu (p : DefaultPolicy) : DefaultPolicy := mkDefaultPolicy (pop (cpu_queue p)).2 (gpu_queue p).
Definition pop_gpu (p : DefaultPolicy) : DefaultPolicy := mkDefaultPolicy (cpu_queue p) (pop (gpu_queue p)).2.

(** The end of [assign_task]: the placed task leaves its queue. *)
Definition pop_task (t : Task) (p : DefaultPolicy) : DefaultPolicy :=
  match worker_type_from_task_type (task_type (t_data t)) with
  | Cpu => pop_cpu p
  | Gpu => pop_gpu p
  | _ => p
  end.

Definition push_cpu (q : QueuedTask) (p : DefaultPolicy) := mkDefaultPolicy (push q (cpu_queue p)) (gpu_queue p).
Definition push_gpu (q : QueuedTask) (p : DefaultPolicy) := mkDefaultPolicy (cpu_queue p) (push q (gpu_queue p)).

(** [enqueue_task]. *)
Definition enqueue_task (s : CoordinatorState) (task : Task) : option CoordinatorState :=
  match get_queued_task s task with
  | None => None
  | Some q =>
      Some match worker_type_from_task_type (task_type (t_data task)) with
           | Cpu => set_s_policy (push_cpu q (s_policy s)) s
           | Gpu => set_s_policy (push_gpu q (s_policy s)) s
           | _ => s
           end
  end.

(** [post_worker_empty]. *)
Definition post_worker_empty (s : CoordinatorState) (w : Worker) : CoordinatorState * Worker :=
  (s, set_w_weight 0 (set_w_next_free_time 0 w)).

Definition queue_total (p : DefaultPolicy) : nat := length (gpu_queue p) + length (cpu_queue p).

(** [assign_tasks]. Every round of a loop takes an entry off its queue, so one
    more round than there are entries is enough. *)
Definition assign_gpu_tasks (c : Coordinator) : outcome unit * Coordinator :=
  assign_loop (fun p => peek (gpu_queue p)) (fun _ => pop_gpu) pop_task (S (queue_total (s_policy (c_state c)))) c.
Definition assign_cpu_tasks (c : Coordinator) : outcome unit * Coordinator :=
  assign_loop (fun p => peek (cpu_queue p)) (fun _ => pop_cpu) pop_task (S (queue_total (s_policy (c_state c)))) c.

Definition assign_tasks (c : Coordinator) : outcome unit * Coordinator :=
  let p := s_policy (c_state c) in
  if s_shutting_down (c_state c) || (bool_decide (gpu_queue p = []) && bool_decide (cpu_queue p = []))
  then (Ok tt, c)
  else
    let? (_, c) := assign_gpu_tasks c in
    assign_cpu_tasks c.

Definition cpu_queue_len (s : CoordinatorState) : Z := Int.wrap u32 (Z.of_nat (length (cpu_queue (s_policy s)))).
Definition gpu_queue_len (s : CoordinatorState) : Z := Int.wrap u32 (Z.of_nat (length (gpu_queue (s_policy s)))).

Definition policy : AssignmentPolicy := {|
  create_proof_state := fun _ _ => tt;
  Coordinator.enqueue_task := enqueue_task;
  post_task_success_update_proof := fun p _ _ => p;
  post_task_success_update_state := fun s _ => s;
  post_task_update_state := fun s _ _ _ _ _ _ => s;
  Coordinator.post_worker_empty := post_worker_empty;
  get_task_input_metadata := fun _ _ => "";
  Coordinator.assign_tasks := assign_tasks;
  get_proof_result_metadata := fun _ => tt;
  Coordinator.cpu_queue_len := cpu_queue_len;
  Coordinator.gpu_queue_len := gpu_queue_len;
  on_proof_deleted := fun s _ => s;
|}.

(** The queues are heaps, of tasks of their own kind. *)
Definition queued (p : DefaultPolicy) : list ((string * string) * TaskType) :=
  entry <$> gpu_queue p ++ cpu_queue p.

Definition kind_is (wt : WorkerType) (q : QueuedTask) : Prop :=
  worker_type_from_task_type (q_task_type q) = wt.

Record wf (p : DefaultPolicy) : Prop := {
  wf_gpu_heap : heap (gpu_queue p);
  wf_cpu_heap : heap (cpu_queue p);
  wf_gpu_kind : Forall (kind_is Gpu) (gpu_queue p);
  wf_cpu_kind : Forall (kind_is Cpu) (cpu_queue p);
}.
End policy.

Section laws.
Context `{EO : ClusterEnvOk}.

Lemma default_pop_gpu_spec p q : wf p -> peek (gpu_queue p) = Some q ->
  queued p ≡ₚ entry q :: queued (pop_gpu p) /\ wf (pop_gpu p) /\ kind_is Gpu q.
Proof.
  intros [] Hp. destruct (pop_head _ _ _ wf_gpu_heap0 wf_gpu_kind0 Hp) as (Hl & ? & ? & ?).
  split_and!; [|by constructor|done]. unfold queued. simpl.
  generalize dependent (pop (gpu_queue p)).2. intros l' -> _ _. done.
Qed.

Lemma default_pop_cpu_spec p q : wf p -> peek (cpu_queue p) = Some q ->
  queued p ≡ₚ entry q :: queued (pop_cpu p) /\ wf (pop_cpu p) /\ kind_is Cpu q.
Proof.
  intros [] Hp. destruct (pop_head _ _ _ wf_cpu_heap0 wf_cpu_kind0 Hp) as (Hl & ? & ? & ?).
  split_and!; [|by constructor|done]. unfold queued. simpl.
  generalize dependent (pop (cpu_queue p)).2. intros l' -> _ _. rewrite !fmap_app, fmap_cons. symmetry. apply Permutation_middle.
Qed.

Lemma default_gpu_lane : lane_laws queued wf (fun p => peek (gpu_queue p)) (fun _ => pop_gpu) pop_task.
Proof.
  split; intros p q; [|intros t]; intros Hwf Hp; destruct (default_pop_gpu_spec p q Hwf Hp) as (? & ? & Hk); [done|].
  intros _ Hty. unfold pop_task. rewrite Hty, Hk. done.
Qed.

Lemma default_cpu_lane : lane_laws queued wf (fun p => peek (cpu_queue p)) (fun _ => pop_cpu) pop_task.
Proof.
  split; intros p q; [|intros t]; intros Hwf Hp; destruct (default_pop_cpu_spec p q Hwf Hp) as (? & ? & Hk); [done|].
  intros _ Hty. unfold pop_task. rewrite Hty, Hk. done.
Qed.

Lemma default_queue_total_queued p : queue_total p = length (queued p).
Proof. unfold queue_total, queued. by rewrite length_fmap, length_app. Qed.

Lemma default_enqueue_task_spec s t :
  is_Some (s_proofs s !! proof_id (t_data t)) -> wf (s_policy s) ->
  exists p', enqueue_task s t = Some (set_s_policy p' s) /\ wf p' /\
    queued p' ≡ₚ (if schedulable (task_type (t_data t))
                  then [((proof_id (t_data t), t_id t), task_type (t_data t))] else [])
                 ++ queued (s_policy s).
Proof.
  intros [pr Hpr] Hwf. unfold enqueue_task, get_queued_task, schedulable. rewrite Hpr.
  assert (Hid : set_s_policy (s_policy s) s = s) by by destruct s.
  destruct (worker_type_from_task_type _) eqn:Hk; try (exists (s_policy s); by rewrite Hid);
    eexists; (split; [done|]); destruct Hwf; (split; [constructor; simpl; try done|]);
    try apply push_heap; try done; try (rewrite push_perm; by constructor).
  - unfold queued. simpl. by rewrite push_perm, !fmap_app, fmap_cons, Permutation_middle.
  - unfold queued. simpl. by rewrite push_perm.
Qed.

Lemma default_assign_tasks_spec c : assign_pre queued wf (c_state c) ->
  exists c', assign_tasks c = (Ok tt, c') /\ rtc (assign_step queued wf) c c' /\
    (s_shutting_down (c_state c) = false -> head_blocked (fun p => peek (cpu_queue p)) c').
Proof.
  intros Hpre. unfold assign_tasks.
  destruct (s_shutting_down (c_state c)) eqn:Hd; [by exists c|]. cbn [orb].
  destruct (bool_decide (gpu_queue _ = [])) eqn:Hg; [destruct (bool_decide (cpu_queue _ = [])) eqn:Hc|]; cbn [andb].
  { exists c. split_and!; [done..|]. intros _ q Hq. apply bool_decide_eq_true in Hc. by rewrite Hc in Hq. }
  all: destruct (assign_loop_refines _ _ _ _ _ default_gpu_lane (S (queue_total (s_policy (c_state c)))) c Hpre Hd)
         as (c1 & H1 & Hs1 & Hpre1 & Hd1 & _ & _); [rewrite default_queue_total_queued; lia|];
    unfold assign_gpu_tasks; rewrite H1; cbn [bind];
    destruct (assign_loop_refines _ _ _ _ _ default_cpu_lane (S (queue_total (s_policy (c_state c1)))) c1 Hpre1 Hd1)
         as (c2 & H2 & Hs2 & _ & _ & _ & Hb); [rewrite default_queue_total_queued; lia|];
    exists c2; (split; [done|]); (split; [by etrans|done]).
Qed.

#[global] Instance laws : @PolicyLaws E types policy.
Proof.
  refine {| AssignSpec.queued := queued : @Policy types -> _; policy_wf := wf : @Policy types -> Prop |}; try (intros; apply policy_only_refl).
  - constructor; simpl; [apply heap_nil..|constructor|constructor].
  - done.
  - intros s t. apply default_enqueue_task_spec.
  - intros p te md. exists (p_extra p). by destruct p.
  - intros s w. split; [apply policy_only_refl|]. eexists _, _. done.
  - intros c Hpre. destruct (default_assign_tasks_spec c Hpre) as (c' & ? & ? & _). by exists c'.
Defined.
End laws.
End Default.
