(* ===== verification/BalancedPolicy.v ===== *)
(** * The balanced policy (bin/coordinator/src/policy/balanced.rs)

    One CPU queue and one GPU queue per proof; the next GPU task comes from
    the proof that has the least GPU weight assigned. The policy is an instance
    of [PolicyLaws]. *)
From stdpp Require Import base gmap strings list relations.
From S2P Require Import Prelude Proto TaskChannel BinHeap CoordState Coordinator AssignSpec CoordInv PolicyQueue.
Local Open Scope string_scope.
Local Open Scope list_scope.
Local Open Scope Z_scope.
Local Open Scope handler_scope.

Module Balanced.

Record BalancedPolicy := mkBalancedPolicy {
  cpu_queue : list QueuedTask;
  gpu_queues : gmap string (list QueuedTask);
  proof_gpu_weights : gmap string Z;
}.

Definition types : PolicyTypes := {|
  Policy := BalancedPolicy;
  ProofState := unit;
  TaskState := unit;
  WorkerState := unit;
  ProofResultMetadata := unit;
  policy_default := mkBalancedPolicy [] ∅ ∅;
  proof_state_default := tt;
  task_state_default := tt;
  worker_state_default := tt;
|}.
#[local] Existing Instance types.

Section policy.
Context `{E : ClusterEnv}.

(** [find_next_balanced_task]: the body of its loop over [gpu_queues], and the
    search. *)
Definition gpu_weight (p : BalancedPolicy) (pid : string) : Z := default 0 (proof_gpu_weights p !! pid).

Definition consider_queue (p : BalancedPolicy) (acc : option QueuedTask * Z * Z)
    (kq : string * list QueuedTask) : option QueuedTask * Z * Z :=
  let '(best, lowest_weight, oldest_time) := acc in
  match peek kq.2 with
  | None => acc
  | Some q =>
      let current_weight := gpu_weight p kq.1 in
      if (current_weight <? lowest_weight)
         || ((current_weight =? lowest_weight) && (q_proof_created_at q <? oldest_time))
      then (Some q, current_weight, q_proof_created_at q)
      else acc
  end.

Definition find_next_balanced_task (p : BalancedPolicy) : option QueuedTask :=
  (foldl (consider_queue p) (None, Int.umax u32, 0) (iter_map (gpu_queues p))).1.1.

Definition pop_cpu (p : BalancedPolicy) : BalancedPolicy :=
  mkBalancedPolicy (pop (cpu_queue p)).2 (gpu_queues p) (proof_gpu_weights p).

(** Popping a proof's GPU queue, which goes away when it becomes empty. *)
Definition pop_gpu (pid : string) (p : BalancedPolicy) : BalancedPolicy :=
  match gpu_queues p !! pid with
  | None => p
  | Some queue =>
      let queue := (pop queue).2 in
      mkBalancedPolicy (cpu_queue p)
        (if decide (queue = []) then delete pid (gpu_queues p) else <[pid := queue]> (gpu_queues p))
        (proof_gpu_weights p)
  end.

(** The bookkeeping of [assign_task]: the proof's GPU weight grows and the task
    leaves its queue. *)
Definition add_gpu_weight (pid : string) (w : Z) (p : BalancedPolicy) : BalancedPolicy :=
  mkBalancedPolicy (cpu_queue p) (gpu_queues p)
    (<[pid := Int.wadd u32 (gpu_weight p pid) w]> (proof_gpu_weights p)).

Definition settle_task (t : Task) (p : BalancedPolicy) : BalancedPolicy :=
  match worker_type_from_task_type (task_type (t_data t)) with
  | Cpu => pop_cpu p
  | Gpu => pop_gpu (proof_id (t_data t)) (add_gpu_weight (proof_id (t_data t)) (weight (t_data t)) p)
  | _ => p
  end.

Definition push_cpu (q : QueuedTask) (p : BalancedPolicy) : BalancedPolicy :=
  mkBalancedPolicy (push q (cpu_queue p)) (gpu_queues p) (proof_gpu_weights p).
Definition push_gpu (pid : string) (q : QueuedTask) (p : BalancedPolicy) : BalancedPolicy :=
  mkBalancedPolicy (cpu_queue p) (<[pid := push q (default [] (gpu_queues p !! pid))]> (gpu_queues p))
    (proof_gpu_weights p).

(** [enqueue_task]. *)
Definition enqueue_task (s : CoordinatorState) (task : Task) : option CoordinatorState :=
  match get_queued_task s task with
  | None => None
  | Some q =>
      Some match worker_type_from_task_type (task_type (t_data task)) with
           | Cpu => set_s_policy (push_cpu q (s_policy s)) s
           | Gpu => set_s_policy (push_gpu (proof_id (t_data task)) q (s_policy s)) s
           | _ => s
           end
  end.

(** [post_task_update_state]. *)
Definition release_gpu_weight (pid : string) (task_weight : Z) (p : BalancedPolicy) : BalancedPolicy :=
  match proof_gpu_weights p !! pid with
  | None => p
  | Some w =>
      let w := Int.sat_sub w task_weight in
      mkBalancedPolicy (cpu_queue p) (gpu_queues p)
        (if w =? 0 then delete pid (proof_gpu_weights p) else <[pid := w]> (proof_gpu_weights p))
  end.

Definition post_task_update_state (s : CoordinatorState) (pe : ProofState) (tid : string) (te : TaskState)
    (task_weight : Z) (pid : string) (ty : TaskType) : CoordinatorState :=
  if decide (worker_type_from_task_type ty = Gpu)
  then set_s_policy (release_gpu_weight pid task_weight (s_policy s)) s
  else s.

(** [post_worker_empty] and [on_proof_deleted]. *)
Definition post_worker_empty (s : CoordinatorState) (w : Worker) : CoordinatorState * Worker :=
  (s, set_w_weight 0 (set_w_next_free_time 0 w)).

Definition on_proof_deleted (s : CoordinatorState) (pid : string) : CoordinatorState :=
  set_s_policy (mkBalancedPolicy (cpu_queue (s_policy s)) (gpu_queues (s_policy s))
                  (delete pid (proof_gpu_weights (s_policy s)))) s.

Definition gpu_all (m : gmap string (list QueuedTask)) : list QueuedTask := concat (map_to_list m).*2.

Definition queue_total (p : BalancedPolicy) : nat := length (gpu_all (gpu_queues p)) + length (cpu_queue p).

(** [assign_tasks]. *)
Definition assign_gpu_tasks (c : Coordinator) : outcome unit * Coordinator :=
  assign_loop find_next_balanced_task pop_gpu settle_task (S (queue_total (s_policy (c_state c)))) c.
Definition assign_cpu_tasks (c : Coordinator) : outcome unit * Coordinator :=
  assign_loop (fun p => peek (cpu_queue p)) (fun _ => pop_cpu) settle_task
    (S (queue_total (s_policy (c_state c)))) c.

Definition assign_tasks (c : Coordinator) : outcome unit * Coordinator :=
  let p := s_policy (c_state c) in
  if s_shutting_down (c_state c) || (bool_decide (gpu_queues p = ∅) && bool_decide (cpu_queue p = []))
  then (Ok tt, c)
  else
    let? (_, c) := assign_gpu_tasks c in
    assign_cpu_tasks c.

Definition cpu_queue_len (s : CoordinatorState) : Z := Int.wrap u32 (Z.of_nat (length (cpu_queue (s_policy s)))).
Definition gpu_queue_len (s : CoordinatorState) : Z :=
  foldl (fun acc (kq : string * list QueuedTask) =>
           Int.wadd u32 acc (Int.wrap u32 (Z.of_nat (length kq.2)))) 0 (iter_map (gpu_queues (s_policy s))).

Definition policy : AssignmentPolicy := {|
  create_proof_state := fun _ _ => tt;
  Coordinator.enqueue_task := enqueue_task;
  post_task_success_update_proof := fun p _ _ => p;
  post_task_success_update_state := fun s _ => s;
  Coordinator.post_task_update_state := post_task_update_state;
  Coordinator.post_worker_empty := post_worker_empty;
  get_task_input_metadata := fun _ _ => "";
  Coordinator.assign_tasks := assign_tasks;
  get_proof_result_metadata := fun _ => tt;
  Coordinator.cpu_queue_len := cpu_queue_len;
  Coordinator.gpu_queue_len := gpu_queue_len;
  Coordinator.on_proof_deleted := on_proof_deleted;
|}.

Definition queued (p : BalancedPolicy) : list ((string * string) * TaskType) :=
  entry <$> gpu_all (gpu_queues p) ++ cpu_queue p.

Definition kind_is (wt : WorkerType) (q : QueuedTask) : Prop :=
  worker_type_from_task_type (q_task_type q) = wt.

Definition gpu_entry (pid : string) (q : QueuedTask) : Prop := kind_is Gpu q /\ q_proof_id q = pid.

Record wf (p : BalancedPolicy) : Prop := {
  wf_gpu_heap : forall pid l, gpu_queues p !! pid = Some l -> heap l /\ Forall (gpu_entry pid) l;
  wf_cpu_heap : heap (cpu_queue p);
  wf_cpu_kind : Forall (kind_is Cpu) (cpu_queue p);
}.
End policy.

Section laws.
Context `{EO : ClusterEnvOk}.

(** ** Concatenating the per-proof queues *)
Lemma gpu_all_lookup m pid l : m !! pid = Some l -> gpu_all m ≡ₚ l ++ gpu_all (delete pid m).
Proof.
  intros Hl. unfold gpu_all. by rewrite <- (map_to_list_delete m pid l Hl).
Qed.

Lemma gpu_all_insert m pid l l' : m !! pid = Some l -> gpu_all (<[pid := l']> m) ≡ₚ l' ++ gpu_all (delete pid m).
Proof.
  intros Hl. rewrite (gpu_all_lookup (<[pid := l']> m) pid l') by apply lookup_insert_eq. by rewrite delete_insert_eq.
Qed.

Lemma gpu_all_insert_default m pid l' :
  gpu_all (<[pid := l']> m) ++ default [] (m !! pid) ≡ₚ l' ++ gpu_all m.
Proof.
  rewrite (gpu_all_lookup (<[pid := l']> m) pid l'), delete_insert_eq by apply lookup_insert_eq.
  destruct (m !! pid) as [l|] eqn:Hl; simpl.
  - rewrite (gpu_all_lookup m pid l Hl), <- (assoc_L (++)). f_equiv. apply Permutation_app_comm.
  - by rewrite app_nil_r, delete_id.
Qed.

(** ** The search *)
Definition gpu_head (p : BalancedPolicy) (pid : string) (q : QueuedTask) : Prop :=
  exists l, gpu_queues p !! pid = Some l /\ peek l = Some q.

(** What the loop knows after the queues [l]: the best head so far, and that no
    head seen comes before it. *)
Definition best_head (p : BalancedPolicy) (l : list (string * list QueuedTask))
    (r : option QueuedTask * Z * Z) : Prop :=
  match r.1.1 with
  | Some q => exists pid queue, (pid, queue) ∈ l /\ peek queue = Some q /\
                r.1.2 = gpu_weight p pid /\ r.2 = q_proof_created_at q
  | None => r.1.2 = Int.umax u32 /\ r.2 = 0
  end /\
  forall pid queue q, (pid, queue) ∈ l -> peek queue = Some q ->
    r.1.2 < gpu_weight p pid \/ (r.1.2 = gpu_weight p pid /\ r.2 <= q_proof_created_at q).

Lemma best_head_step p l kq r : best_head p l r -> best_head p (l ++ [kq]) (consider_queue p r kq).
Proof.
  destruct r as [[best low] old], kq as [pid queue]. intros [Hr Hmin]. unfold consider_queue. simpl in *.
  assert (Hmono : match best with
    | Some q => exists pid0 queue0, (pid0, queue0) ∈ l ++ [(pid, queue)] /\ peek queue0 = Some q /\
                  low = gpu_weight p pid0 /\ old = q_proof_created_at q
    | None => low = Int.umax u32 /\ old = 0 end).
  { destruct best; [|done]. destruct Hr as (pid0 & queue0 & Hin & ?). exists pid0, queue0. split; [set_solver|done]. }
  destruct (peek queue) as [q|] eqn:Hpk.
  - destruct (_ || _) eqn:Hc; split; simpl; try done.
    + exists pid, queue. split_and!; [set_solver|done..].
    + intros pid' queue' q' [Hin|Heq%list_elem_of_singleton]%elem_of_app Hpk'; simplify_eq; [|lia].
      specialize (Hmin _ _ _ Hin Hpk'). lia.
    + intros pid' queue' q' [Hin|Heq%list_elem_of_singleton]%elem_of_app Hpk'; simplify_eq; [by eapply Hmin|]. lia.
  - split; [done|]. simpl. intros pid' queue' q' [Hin|Heq%list_elem_of_singleton]%elem_of_app Hpk'; simplify_eq.
    by eapply Hmin.
Qed.

Lemma best_head_fold p l2 : forall l1 r,
  best_head p l1 r -> best_head p (l1 ++ l2) (foldl (consider_queue p) r l2).
Proof.
  induction l2 as [|kq l2 IH]; intros l1 r Hr; simpl; [by rewrite app_nil_r|].
  rewrite cons_middle, (assoc_L (++)). apply IH. by apply best_head_step.
Qed.

Lemma find_next_best p : exists low old, best_head p (iter_map (gpu_queues p)) (find_next_balanced_task p, low, old).
Proof.
  pose proof (best_head_fold p (iter_map (gpu_queues p)) [] (None, Int.umax u32, 0)) as H.
  unfold find_next_balanced_task. destruct (foldl _ _ _) as [[best low] old]. exists low, old. apply H.
  split; [done|]. intros pid queue q Hin. by apply not_elem_of_nil in Hin.
Qed.

Lemma find_next_some p q :
  find_next_balanced_task p = Some q ->
  exists pid, gpu_head p pid q /\
    forall pid' q', gpu_head p pid' q' ->
      gpu_weight p pid < gpu_weight p pid' \/
      (gpu_weight p pid = gpu_weight p pid' /\ q_proof_created_at q <= q_proof_created_at q').
Proof.
  intros Hf. destruct (find_next_best p) as (low & old & Hb & Hmin). rewrite Hf in Hb. simpl in *.
  destruct Hb as (pid & queue & Hin%elem_of_iter_map & Hpk & -> & ->). exists pid. split; [by exists queue|].
  intros pid' q' (l & Hl%elem_of_iter_map & Hpk'). by eapply Hmin.
Qed.

(** ** The queues as lanes *)
Lemma balanced_pop_gpu_spec p q :
  wf p -> find_next_balanced_task p = Some q ->
  queued p ≡ₚ entry q :: queued (pop_gpu (q_proof_id q) p) /\ wf (pop_gpu (q_proof_id q) p) /\ kind_is Gpu q.
Proof.
  intros Hwf (pid & (l & Hl & Hpk) & _)%find_next_some. destruct (wf_gpu_heap p Hwf pid l Hl) as [Hh Hk].
  destruct (pop_head l q _ Hh Hk Hpk) as (Hperm & Hh' & Hk' & Hkind & Hpid). rewrite Hpid.
  unfold pop_gpu. rewrite Hl. generalize dependent (pop l).2. intros l' Hperm Hh' Hk'. split_and!; [| |done].
  - unfold queued. simpl. rewrite (gpu_all_lookup _ _ _ Hl), Hperm. simpl. f_equiv. rewrite !fmap_app. f_equiv.
    case_decide as Hnil; [by subst l'|]. rewrite (gpu_all_insert _ _ _ _ Hl). by rewrite fmap_app.
  - destruct Hwf. constructor; simpl; [|done..]. intros pid' l0. case_decide.
    + rewrite lookup_delete_Some. intros [_ ?]. auto.
    + rewrite lookup_insert_Some. intros [[<- <-]|[_ ?]]; auto.
Qed.

Lemma balanced_pop_cpu_spec p q : wf p -> peek (cpu_queue p) = Some q ->
  queued p ≡ₚ entry q :: queued (pop_cpu p) /\ wf (pop_cpu p) /\ kind_is Cpu q.
Proof.
  intros [] Hp. destruct (pop_head _ _ _ wf_cpu_heap0 wf_cpu_kind0 Hp) as (Hl & ? & ? & ?).
  split_and!; [|by constructor|done]. unfold queued. simpl.
  generalize dependent (pop (cpu_queue p)).2. intros l' -> _ _.
  rewrite !fmap_app, fmap_cons. symmetry. apply Permutation_middle.
Qed.

Lemma add_gpu_weight_pop pid w p :
  queued (pop_gpu pid (add_gpu_weight pid w p)) = queued (pop_gpu pid p) /\
  (wf (pop_gpu pid p) -> wf (pop_gpu pid (add_gpu_weight pid w p))).
Proof.
  unfold pop_gpu. simpl. destruct (gpu_queues p !! pid); split; try done; intros []; by constructor.
Qed.

Lemma balanced_gpu_lane : lane_laws queued wf find_next_balanced_task pop_gpu settle_task.
Proof.
  split; intros p q; [|intros t]; intros Hwf Hp; destruct (balanced_pop_gpu_spec p q Hwf Hp) as (? & ? & Hk); [done|].
  intros Hpid Hty. unfold settle_task. rewrite Hty, Hk, Hpid.
  destruct (add_gpu_weight_pop (q_proof_id q) (weight (t_data t)) p) as [-> ?]. auto.
Qed.

Lemma balanced_cpu_lane : lane_laws queued wf (fun p => peek (cpu_queue p)) (fun _ => pop_cpu) settle_task.
Proof.
  split; intros p q; [|intros t]; intros Hwf Hp; destruct (balanced_pop_cpu_spec p q Hwf Hp) as (? & ? & Hk); [done|].
  intros _ Hty. unfold settle_task. rewrite Hty, Hk. done.
Qed.

Lemma balanced_queue_total_queued p : queue_total p = length (queued p).
Proof. unfold queue_total, queued. by rewrite length_fmap, length_app. Qed.

Lemma push_gpu_spec pid q p :
  wf p -> gpu_entry pid q ->
  wf (push_gpu pid q p) /\ queued (push_gpu pid q p) ≡ₚ entry q :: queued p.
Proof.
  intros Hwf Hq. set (l := default [] (gpu_queues p !! pid)).
  assert (Hl : heap l /\ Forall (gpu_entry pid) l).
  { unfold l. destruct (gpu_queues p !! pid) eqn:Hg; simpl; [by apply (wf_gpu_heap p Hwf)|].
    split; [apply heap_nil|done]. }
  split.
  - destruct Hwf. constructor; simpl; [|done..]. intros pid' l'. rewrite lookup_insert_Some.
    intros [[<- <-]|[_ ?]]; [|auto]. destruct Hl. split; [by apply push_heap|]. rewrite push_perm. by constructor.
  - unfold queued. simpl. fold l. rewrite <- fmap_cons. f_equiv.
    pose proof (gpu_all_insert_default (gpu_queues p) pid (push q l)) as Hp. fold l in Hp.
    assert (Hg : gpu_all (<[pid := push q l]> (gpu_queues p)) ≡ₚ q :: gpu_all (gpu_queues p)); [|by rewrite Hg].
    apply (Permutation_app_inv_r l). rewrite Hp, push_perm. simpl. f_equiv. apply Permutation_app_comm.
Qed.

Lemma balanced_enqueue_task_spec s t :
  is_Some (s_proofs s !! proof_id (t_data t)) -> wf (s_policy s) ->
  exists p', enqueue_task s t = Some (set_s_policy p' s) /\ wf p' /\
    queued p' ≡ₚ (if schedulable (task_type (t_data t))
                  then [((proof_id (t_data t), t_id t), task_type (t_data t))] else [])
                 ++ queued (s_policy s).
Proof.
  intros [pr Hpr] Hwf. unfold enqueue_task, get_queued_task, schedulable. rewrite Hpr.
  assert (Hid : set_s_policy (s_policy s) s = s) by by destruct s.
  destruct (worker_type_from_task_type _) eqn:Hk; try (exists (s_policy s); by rewrite Hid);
    eexists; (split; [done|]).
  - destruct Hwf. split; [constructor; simpl; [done|by apply push_heap|rewrite push_perm; by constructor]|].
    unfold queued. simpl. by rewrite push_perm, !fmap_app, fmap_cons, Permutation_middle.
  - by apply push_gpu_spec.
Qed.

Lemma balanced_assign_tasks_spec c : assign_pre queued wf (c_state c) ->
  exists c', assign_tasks c = (Ok tt, c') /\ rtc (assign_step queued wf) c c' /\
    (s_shutting_down (c_state c) = false -> head_blocked (fun p => peek (cpu_queue p)) c').
Proof.
  intros Hpre. unfold assign_tasks.
  destruct (s_shutting_down (c_state c)) eqn:Hd; [by exists c|]. cbn [orb].
  destruct (bool_decide (gpu_queues _ = ∅)) eqn:Hg; [destruct (bool_decide (cpu_queue _ = [])) eqn:Hc|]; cbn [andb].
  { exists c. split_and!; [done..|]. intros _ q Hq. apply bool_decide_eq_true in Hc. by rewrite Hc in Hq. }
  all: destruct (assign_loop_refines _ _ _ _ _ balanced_gpu_lane (S (queue_total (s_policy (c_state c)))) c Hpre Hd)
         as (c1 & H1 & Hs1 & Hpre1 & Hd1 & _ & _); [rewrite balanced_queue_total_queued; lia|];
    unfold assign_gpu_tasks; rewrite H1; cbn [bind];
    destruct (assign_loop_refines _ _ _ _ _ balanced_cpu_lane (S (queue_total (s_policy (c_state c1)))) c1 Hpre1 Hd1)
         as (c2 & H2 & Hs2 & _ & _ & _ & Hb); [rewrite balanced_queue_total_queued; lia|];
    exists c2; (split; [done|]); (split; [by etrans|done]).
Qed.

(** A change of the weights only moves no task. *)
Lemma weights_only s p' :
  cpu_queue p' = cpu_queue (s_policy s) -> gpu_queues p' = gpu_queues (s_policy s) ->
  policy_only queued wf s (set_s_policy p' s).
Proof.
  intros Hc Hg. exists p'. split_and!; [done| |unfold queued; by rewrite Hc, Hg].
  intros []. constructor; by rewrite ?Hc, ?Hg.
Qed.

#[global] Instance laws : @PolicyLaws E types policy.
Proof.
  refine {| AssignSpec.queued := queued : @Policy types -> _; policy_wf := wf : @Policy types -> Prop |};
    try (intros; apply policy_only_refl).
  - constructor; simpl; [by intros pid l|apply heap_nil|constructor].
  - unfold queued, gpu_all. simpl. by rewrite map_to_list_empty.
  - intros s t. apply balanced_enqueue_task_spec.
  - intros p te md. exists (p_extra p). by destruct p.
  - intros s pe tid te w pid ty. simpl. unfold post_task_update_state. case_decide; [|apply policy_only_refl].
    apply weights_only; unfold release_gpu_weight; by case_match.
  - intros s pid. by apply weights_only.
  - intros s w. split; [apply policy_only_refl|]. eexists _, _. done.
  - intros c Hpre. destruct (balanced_assign_tasks_spec c Hpre) as (c' & ? & ? & _). by exists c'.
Defined.
End laws.
End Balanced.
