(* ===== verification/Capacity.v ===== *)
(** * Capacity reporting

    Which workers count as connected GPU nodes, the GPU-time counters, the
    grouping of nodes into GPU classes, and the two reports built from the
    state: [get_info] and [get_cluster_info] (bin/coordinator/src/lib.rs). *)
From Stdlib Require String.
From Stdlib Require Import Ascii.
From stdpp Require Import base gmap strings list sorting.
From S2P Require Import Prelude Proto TaskChannel CoordState Coordinator.
Local Open Scope string_scope.
Local Open Scope list_scope.
Local Open Scope Z_scope.
Local Open Scope handler_scope.

(** [is_connected_gpu_node]. *)
Definition is_connected_gpu_node (worker_type : WorkerType) (last_heartbeat now heartbeat_timeout_secs : Z) : bool :=
  match worker_type with
  | Gpu | All => Int.sat_sub now last_heartbeat <=? heartbeat_timeout_secs
  | _ => false
  end.

(** [group_gpu_classes]: [GpuClassCount], the count of each class and the sort. *)
Record GpuClassCount := mkGpuClass { gc_name : string; gc_memory_total_bytes : Z; gc_node_count : Z }.

Definition count_classes (nodes : list (string * Z)) : gmap (string * Z) Z :=
  foldl (fun counts node => <[node := Int.wadd u32 (default 0 (counts !! node)) 1]> counts) ∅ nodes.

Definition class_le (a b : GpuClassCount) : bool :=
  match String.compare (gc_name a) (gc_name b) with
  | Lt => true
  | Eq => gc_memory_total_bytes a <=? gc_memory_total_bytes b
  | Gt => false
  end.

(** [sort_by], a stable sort. *)
Fixpoint insert_class (x : GpuClassCount) (l : list GpuClassCount) : list GpuClassCount :=
  match l with
  | [] => [x]
  | y :: l' => if class_le x y then x :: l else y :: insert_class x l'
  end.
Definition sort_classes (l : list GpuClassCount) : list GpuClassCount := foldr insert_class [] l.

Definition group_gpu_classes `{HashIter} (nodes : list (string * Z)) : list GpuClassCount :=
  sort_classes ((fun kc : (string * Z) * Z => mkGpuClass kc.1.1 kc.1.2 kc.2) <$> iter_counts (count_classes nodes)).

(** [advance_gpu_available_ms]; [elapsed] is a duration in nanoseconds. *)
Definition advance_gpu_available_ms (total gpu_nodes elapsed : Z) : Z :=
  let elapsed_ms := Z.min (as_millis elapsed) (Int.umax u64) in
  Int.sat_add u64 total (Z.min (gpu_nodes * elapsed_ms) (Int.umax u64)).

Section capacity.
Context `{E : ClusterEnv} {PT : PolicyTypes}.

(** [CoordinatorState::connected_gpu_nodes]. *)
Definition connected_gpu_nodes (s : CoordinatorState) (now : Z) : list Worker :=
  filter (fun w => is_connected_gpu_node (w_worker_type w) (w_last_heartbeat w) now
                     (s_worker_heartbeat_timeout_secs s)) (iter_map (s_workers s)).*2.

(** [unix_now]: a clock before the epoch reads as 0. *)
Definition unix_now (c : Coordinator) : Z * Coordinator :=
  let (now, c) := system_now c in (as_secs (Z.max 0 now), c).

(** [advance_gpu_available_integral] and [accumulate_gpu_available_ms]. *)
Definition advance_gpu_available_integral (now : Z) (c : Coordinator) : Coordinator :=
  let gpu_nodes := Int.wrap u32 (Z.of_nat (length (connected_gpu_nodes (c_state c) now))) in
  let (tick, c) := instant_now c in
  let elapsed := Z.max 0 (tick - s_gpu_available_last_tick (c_state c)) in
  with_state (fun s => set_s_gpu_available_ms_total
                         (advance_gpu_available_ms (s_gpu_available_ms_total s) gpu_nodes elapsed)
                         (set_s_gpu_available_last_tick tick s)) c.

Definition accumulate_gpu_available_ms (c : Coordinator) : Coordinator :=
  let (now, c) := unix_now c in advance_gpu_available_integral now c.

(** [get_info]: the counts and the [u32] sums of [GetStatsResponse]. *)
Record Stats := mkStats {
  st_total_tasks : Z;
  st_active_tasks : Z;
  st_cpu_workers : Z;
  st_gpu_workers : Z;
  st_cpu_utilization_current : Z;
  st_cpu_utilization_max : Z;
  st_gpu_utilization_current : Z;
  st_gpu_utilization_max : Z;
  st_active_proofs : Z;
  st_cpu_queue : Z;
  st_gpu_queue : Z;
  st_active_subscribers : Z;
}.

Definition sum_u32 (l : list Z) : Z := foldl (Int.wadd u32) 0 l.
Definition count_u32 {A} (l : list A) : Z := Int.wrap u32 (Z.of_nat (length l)).

Definition workers_of (s : CoordinatorState) (wt : WorkerType) : list Worker :=
  filter (fun w => w_worker_type w = wt) (iter_map (s_workers s)).*2.

Definition get_info {AP : AssignmentPolicy} (c : Coordinator) : Stats :=
  let s := c_state c in
  {| st_total_tasks := s_total_tasks s;
     st_active_tasks := sum_u32 (p_active_tasks <$> (iter_map (s_proofs s)).*2);
     st_cpu_workers := count_u32 (workers_of s Cpu);
     st_gpu_workers := count_u32 (workers_of s Gpu);
     st_cpu_utilization_current := sum_u32 (w_weight <$> workers_of s Cpu);
     st_cpu_utilization_max := sum_u32 (w_max_weight <$> workers_of s Cpu);
     st_gpu_utilization_current := sum_u32 (w_weight <$> workers_of s Gpu);
     st_gpu_utilization_max := sum_u32 (w_max_weight <$> workers_of s Gpu);
     st_active_proofs := Int.wrap u32 (Z.of_nat (size (s_proofs s)));
     st_cpu_queue := cpu_queue_len s;
     st_gpu_queue := gpu_queue_len s;
     st_active_subscribers := Int.wrap u32 (Z.of_nat (size (c_subscribers c))) |}.

(** [get_cluster_info]: [ClusterComponentInfo], [ClusterCapacitySnapshot] and
    [ClusterInfo]. The build constants of the coordinator are parameters. *)
Record ComponentInfo := mkComponent { ci_component : string; ci_version : string; ci_git_sha : string; ci_image_tag : string }.

Record CapacitySnapshot := mkCapacity {
  cs_observed_at : Z;
  cs_counters_since : Z;
  cs_gpu_nodes : Z;
  cs_gpu_available_ms_total : Z;
  cs_gpu_busy_ms_total : Z;
  cs_gpus : list GpuClassCount;
}.

Definition COORDINATOR_COMPONENT : string := "coordinator".

Definition worker_component (w : Worker) : option ComponentInfo :=
  match worker_component_name (w_worker_type w) with
  | None => None
  | Some component =>
      Some (mkComponent component (id_version (w_identity w)) (id_git_sha (w_identity w)) (id_image_tag (w_identity w)))
  end.

Definition get_cluster_info (version git_sha image_tag : string) (c : Coordinator)
  : (list ComponentInfo * CapacitySnapshot) * Coordinator :=
  let (observed_at, c) := unix_now c in
  let c := advance_gpu_available_integral observed_at c in
  let s := c_state c in
  let components := mkComponent COORDINATOR_COMPONENT version git_sha image_tag
                      :: omap worker_component (iter_map (s_workers s)).*2 in
  let gpus := group_gpu_classes ((fun w => (id_gpu_name (w_identity w), id_gpu_memory_total_bytes (w_identity w)))
                                   <$> connected_gpu_nodes s observed_at) in
  let capacity := {| cs_observed_at := observed_at;
                     cs_counters_since := s_counters_since s;
                     cs_gpu_nodes := sum_u32 (gc_node_count <$> gpus);
                     cs_gpu_available_ms_total := s_gpu_available_ms_total s;
                     cs_gpu_busy_ms_total := s_gpu_busy_ms_total s;
                     cs_gpus := gpus |} in
  ((components, capacity), c).
End capacity.

(** [parse_requester] on ASCII strings: lower case, and no ["0x"] prefix. *)
Definition ascii_to_lower (a : ascii) : ascii :=
  let n := N_of_ascii a in if (65 <=? n)%N && (n <=? 90)%N then ascii_of_N (n + 32) else a.
Fixpoint to_lowercase (s : string) : string :=
  match s with EmptyString => EmptyString | String a s => String (ascii_to_lower a) (to_lowercase s) end.
Definition parse_requester (requester : string) : string :=
  let r := to_lowercase requester in
  match r with
  | String "0" (String "x" rest) => rest
  | _ => r
  end.

(** ** The order of the classes *)
Lemma ascii_compare_spec a b : Ascii.compare a b = (N_of_ascii a ?= N_of_ascii b)%N.
Proof. done. Qed.

Lemma string_le_trans : forall s1 s2 s3 : string,
  String.compare s1 s2 <> Gt -> String.compare s2 s3 <> Gt ->
  String.compare s1 s3 <> Gt /\
  (String.compare s1 s3 = Eq -> String.compare s1 s2 = Eq /\ String.compare s2 s3 = Eq).
Proof.
  induction s1 as [|a s1 IH]; intros [|b s2] [|c s3]; simpl; try done.
  rewrite !ascii_compare_spec. intros H1 H2.
  destruct (N.compare_spec (N_of_ascii a) (N_of_ascii b)) as [Hab|Hab|Hab]; [| |done];
    destruct (N.compare_spec (N_of_ascii b) (N_of_ascii c)) as [Hbc|Hbc|Hbc]; try done.
  - rewrite Hab, Hbc, N.compare_refl in *. by apply IH.
  - by rewrite Hab, (proj2 (N.compare_lt_iff _ _) Hbc).
  - by rewrite <- Hbc, (proj2 (N.compare_lt_iff _ _) Hab).
  - rewrite (proj2 (N.compare_lt_iff (N_of_ascii a) (N_of_ascii c))) by lia. done.
Qed.

Lemma class_le_iff a b :
  class_le a b = true <->
  String.compare (gc_name a) (gc_name b) <> Gt /\
  (String.compare (gc_name a) (gc_name b) = Eq -> gc_memory_total_bytes a <= gc_memory_total_bytes b).
Proof.
  unfold class_le. rewrite <- Z.leb_le. destruct (String.compare _ _); naive_solver.
Qed.

#[local] Instance class_le_trans : Transitive (fun a b => class_le a b = true).
Proof.
  intros a b c. rewrite !class_le_iff. intros [H1 H1'] [H2 H2'].
  destruct (string_le_trans _ _ _ H1 H2) as [H3 H4]. split; [done|]. intros He. destruct (H4 He) as [Ha Hb].
  specialize (H1' Ha). specialize (H2' Hb). lia.
Qed.

Lemma class_le_total a b : class_le a b = false -> class_le b a = true.
Proof.
  unfold class_le. rewrite (String.compare_antisym (gc_name b) (gc_name a)).
  destruct (String.compare (gc_name a) (gc_name b)); simpl; try done. lia.
Qed.

Lemma class_le_antisym a b : class_le a b = true -> class_le b a = true ->
  gc_name a = gc_name b /\ gc_memory_total_bytes a = gc_memory_total_bytes b.
Proof.
  unfold class_le. rewrite (String.compare_antisym (gc_name b) (gc_name a)).
  destruct (String.compare (gc_name a) (gc_name b)) eqn:Hc; simpl; try done.
  apply String.compare_eq_iff in Hc. intros. split; [done|lia].
Qed.

(** ** The sort *)
Lemma insert_class_perm x l : insert_class x l ≡ₚ x :: l.
Proof.
  induction l as [|y l IH]; simpl; [done|]. destruct (class_le x y); [done|]. rewrite IH. apply Permutation_swap.
Qed.

Lemma sort_classes_perm l : sort_classes l ≡ₚ l.
Proof. induction l as [|x l IH]; simpl; [done|]. by rewrite insert_class_perm, IH. Qed.

Lemma insert_class_sorted x l :
  StronglySorted (fun a b => class_le a b = true) l -> StronglySorted (fun a b => class_le a b = true) (insert_class x l).
Proof.
  induction 1 as [|y l Hs IH Hall]; simpl; [by repeat constructor|].
  destruct (class_le x y) eqn:Hxy.
  - constructor; [by constructor|]. constructor; [done|]. eapply Forall_impl; [done|]. intros z Hz. exact (class_le_trans x y z Hxy Hz).
  - constructor; [done|]. rewrite insert_class_perm. constructor; [by apply class_le_total|done].
Qed.

Lemma sort_classes_sorted l : StronglySorted (fun a b => class_le a b = true) (sort_classes l).
Proof. induction l as [|x l IH]; simpl; [constructor|by apply insert_class_sorted]. Qed.

(** ** The counts *)
Definition occurrences (k : string * Z) (nodes : list (string * Z)) : Z :=
  Z.of_nat (length (filter (fun n => n = k) nodes)).

Lemma occurrences_snoc k x l : occurrences k (l ++ [x]) = occurrences k l + (if decide (x = k) then 1 else 0).
Proof.
  unfold occurrences. rewrite filter_app, length_app, filter_cons, filter_nil. case_decide; simpl; lia.
Qed.

Lemma occurrences_bound k l : 0 <= occurrences k l <= Z.of_nat (length l).
Proof.
  unfold occurrences. split; [lia|]. pose proof (length_filter (fun n => n = k) l). lia.
Qed.

Lemma count_classes_lookup nodes k :
  Z.of_nat (length nodes) < Int.modulus u32 ->
  count_classes nodes !! k = if decide (occurrences k nodes = 0) then None else Some (occurrences k nodes).
Proof.
  unfold count_classes. induction nodes as [|x l IH] using rev_ind; [done|].
  rewrite length_app. simpl. intros Hlen. rewrite foldl_app, occurrences_snoc. simpl.
  rewrite lookup_insert. pose proof (occurrences_bound k l).
  destruct (decide (x = k)) as [->|Hne].
  - rewrite IH, (decide_False (P := occurrences k l + 1 = 0)) by lia. f_equal.
    rewrite Int.wadd_small; case_decide; simpl; unfold Int.in_range; lia.
  - rewrite Z.add_0_r. apply IH. lia.
Qed.

Lemma count_classes_sum nodes :
  Z.of_nat (length nodes) < Int.modulus u32 ->
  map_Zsum (fun n => n) (count_classes nodes) = Z.of_nat (length nodes).
Proof.
  induction nodes as [|x l IH] using rev_ind; intros Hlen; [apply map_Zsum_empty|].
  rewrite length_app in *. simpl in *. unfold count_classes. rewrite foldl_app. simpl. fold (count_classes l).
  specialize (IH ltac:(lia)). pose proof (count_classes_lookup l x ltac:(lia)) as Hx.
  pose proof (occurrences_bound x l). rewrite Hx. case_decide as Ho; simpl.
  - rewrite map_Zsum_insert_new by done. rewrite IH. unfold Int.wadd, Int.wrap. rewrite Z.mod_small by lia. lia.
  - rewrite (map_Zsum_insert _ _ _ _ _ Hx). rewrite Int.wadd_small by (unfold Int.in_range; lia). lia.
Qed.

Lemma sum_u32_exact l : forall acc,
  0 <= acc -> Forall (fun x => 0 <= x) l -> acc + list_Zsum (fun x => x) l < Int.modulus u32 ->
  foldl (Int.wadd u32) acc l = acc + list_Zsum (fun x => x) l.
Proof.
  induction l as [|x l IH]; intros acc Hacc Hl Hlt; simpl in *; [lia|]. inv Hl.
  assert (0 <= list_Zsum (fun x => x) l).
  { apply list_Zsum_nonneg. intros y Hy. by eapply (proj1 (Forall_forall (fun x => 0 <= x) l)). }
  rewrite Int.wadd_small by (unfold Int.in_range; lia). rewrite IH; [lia|lia|done|lia].
Qed.

Section grouping.
Context `{HO : HashIterOk}.

Definition class_of (kc : (string * Z) * Z) : GpuClassCount := mkGpuClass kc.1.1 kc.1.2 kc.2.

Lemma elem_of_group nodes g :
  g ∈ group_gpu_classes nodes <->
  count_classes nodes !! (gc_name g, gc_memory_total_bytes g) = Some (gc_node_count g).
Proof.
  unfold group_gpu_classes. rewrite sort_classes_perm, iter_counts_perm, list_elem_of_fmap. split.
  - intros ([[n m] cnt] & -> & Hin%elem_of_map_to_list). done.
  - intros Hl. exists ((gc_name g, gc_memory_total_bytes g), gc_node_count g). split; [by destruct g|].
    by apply elem_of_map_to_list.
Qed.

(** The keys of the listed classes are distinct. *)
Lemma group_keys_unique nodes g1 g2 :
  g1 ∈ group_gpu_classes nodes -> g2 ∈ group_gpu_classes nodes ->
  gc_name g1 = gc_name g2 -> gc_memory_total_bytes g1 = gc_memory_total_bytes g2 -> g1 = g2.
Proof.
  rewrite !elem_of_group. destruct g1, g2. simpl. intros H1 H2 -> ->. congruence.
Qed.

Lemma group_sum nodes :
  Z.of_nat (length nodes) < Int.modulus u32 ->
  sum_u32 (gc_node_count <$> group_gpu_classes nodes) = Z.of_nat (length nodes).
Proof.
  intros Hlen. unfold sum_u32.
  assert (Hsum : list_Zsum (fun x => x) (gc_node_count <$> group_gpu_classes nodes) = Z.of_nat (length nodes)).
  { rewrite <- (count_classes_sum nodes Hlen). unfold map_Zsum, group_gpu_classes.
    rewrite (list_Zsum_perm _ _ (snd <$> map_to_list (count_classes nodes))).
    - induction (map_to_list (count_classes nodes)) as [|kc l IH]; simpl; [done|]. by f_equal.
    - rewrite sort_classes_perm, iter_counts_perm, <- list_fmap_compose. done. }
  rewrite sum_u32_exact; [lia|lia| |lia]. apply Forall_fmap, Forall_forall. intros g Hg%elem_of_group. simpl.
  rewrite count_classes_lookup in Hg by done. case_decide; simplify_eq.
  pose proof (occurrences_bound (gc_name g, gc_memory_total_bytes g) nodes). lia.
Qed.

(** The GPU breakdown of a capacity snapshot is exact: for fewer than 2^32
    nodes, a class is listed if and only if some node has its name and memory,
    its count is the number of such nodes, classes are listed once and in
    order, and the [u32] sum of the counts is the number of nodes. *)
Theorem group_gpu_classes_spec nodes :
  Z.of_nat (length nodes) < Int.modulus u32 ->
  (forall g, g ∈ group_gpu_classes nodes <->
     gc_node_count g = occurrences (gc_name g, gc_memory_total_bytes g) nodes /\ 0 < gc_node_count g) /\
  StronglySorted (fun a b => class_le a b = true) (group_gpu_classes nodes) /\
  NoDup ((fun g => (gc_name g, gc_memory_total_bytes g)) <$> group_gpu_classes nodes) /\
  sum_u32 (gc_node_count <$> group_gpu_classes nodes) = Z.of_nat (length nodes).
Proof.
  intros Hlen. split_and!; [|apply sort_classes_sorted| |by apply group_sum].
  - intros g. rewrite elem_of_group, count_classes_lookup by done.
    pose proof (occurrences_bound (gc_name g, gc_memory_total_bytes g) nodes).
    case_decide; split; [done|lia|intros Heq; injection Heq; lia|intros [? ?]; by f_equal].
  - unfold group_gpu_classes. rewrite sort_classes_perm, iter_counts_perm, <- list_fmap_compose.
    rewrite (list_fmap_ext _ fst); [apply NoDup_fst_map_to_list|]. by intros ? [[? ?] ?].
Qed.
End grouping.

(** Snapshots of an unchanged cluster are identical: the grouping depends
    neither on the order of the nodes nor on the iteration order of the hash
    map. *)
Theorem group_gpu_classes_deterministic (H1 H2 : HashIter) nodes1 nodes2 :
  HashIterOk H1 -> HashIterOk H2 -> nodes1 ≡ₚ nodes2 -> Z.of_nat (length nodes1) < Int.modulus u32 ->
  @group_gpu_classes H1 nodes1 = @group_gpu_classes H2 nodes2.
Proof.
  intros HO1 HO2 Hperm Hlen.
  assert (Hc : count_classes nodes1 = count_classes nodes2).
  { apply map_eq. intros k. assert (Hlen2 : length nodes1 = length nodes2) by by apply Permutation_length.
    assert (Ho : occurrences k nodes1 = occurrences k nodes2).
    { unfold occurrences. f_equal. apply Permutation_length. by rewrite Hperm. }
    rewrite !count_classes_lookup by lia. by rewrite Ho. }
  apply (StronglySorted_unique_strong (fun a b => class_le a b = true)).
  - intros x1 x2 Hx1 Hx2 H12 H21. destruct (class_le_antisym _ _ H12 H21) as [Hn Hm].
    apply (elem_of_group nodes1) in Hx1. apply (elem_of_group nodes2) in Hx2. rewrite Hc, Hn, Hm, Hx2 in Hx1.
    destruct x1, x2; simpl in *; congruence.
  - apply sort_classes_sorted.
  - apply sort_classes_sorted.
  - unfold group_gpu_classes. by rewrite !sort_classes_perm, !iter_counts_perm, Hc.
Qed.

Lemma group_gpu_classes_spec_witness :
  let nodes := [("H100", 80); ("A10", 24); ("H100", 80)] in
  (forall g, g ∈ @group_gpu_classes canonical_iter nodes <->
     gc_node_count g = occurrences (gc_name g, gc_memory_total_bytes g) nodes /\ 0 < gc_node_count g) /\
  StronglySorted (fun a b => class_le a b = true) (@group_gpu_classes canonical_iter nodes) /\
  NoDup ((fun g => (gc_name g, gc_memory_total_bytes g)) <$> @group_gpu_classes canonical_iter nodes) /\
  sum_u32 (gc_node_count <$> @group_gpu_classes canonical_iter nodes) = 3.
Proof.
  intros nodes. apply (@group_gpu_classes_spec canonical_iter canonical_iter_ok nodes). vm_compute. reflexivity.
Defined.

(** A second iteration order, the reverse of the first. *)
Definition reversed_iter : HashIter :=
  {| iter_map := fun A m => rev (map_to_list m); iter_keys := fun X => rev (elements X);
     iter_ids := fun X => rev (elements X); iter_counts := fun m => rev (map_to_list m) |}.

#[export] Instance reversed_iter_ok : HashIterOk reversed_iter.
Proof. split; intros; simpl; symmetry; apply Permutation_rev. Qed.

Lemma group_gpu_classes_deterministic_witness :
  @group_gpu_classes canonical_iter [("H100", 80); ("A10", 24)] = @group_gpu_classes reversed_iter [("A10", 24); ("H100", 80)].
Proof.
  apply (group_gpu_classes_deterministic canonical_iter reversed_iter);
    [exact canonical_iter_ok|exact reversed_iter_ok|apply Permutation_swap|vm_compute; reflexivity].
Defined.
