(* ===== verification/CoordSteps.v ===== *)
(** * Every operation preserves the invariant

    For each operation of [Coordinator]: it returns (no panic, no loop out of
    fuel) and the invariant of [CoordInv] holds of the state it leaves. *)
From stdpp Require Import base gmap strings list relations.
From S2P Require Import Prelude Proto TaskChannel CoordState Coordinator AssignSpec CoordInv.
Local Open Scope string_scope.
Local Open Scope list_scope.
Local Open Scope Z_scope.

(** ** Operations that leave the shared state alone *)
Section frame.
Context `{E : ClusterEnv} {PT : PolicyTypes}.

Record frame (c c' : Coordinator) : Prop := {
  fr_state : c_state c' = c_state c;
  fr_tick : (c_tick c <= c_tick c')%nat;
}.

#[global] Instance frame_preorder : PreOrder frame.
Proof.
  split; [done|]. intros c1 c2 c3 [S1 T1] [S2 T2]. split; [congruence|lia].
Qed.

Lemma foldl_frame {A} (f : Coordinator -> A -> Coordinator) l :
  (forall c x, frame c (f c x)) -> forall c, frame c (foldl f c l).
Proof. intros Hf. induction l as [|x l IH]; intros c; simpl; [done|]. etrans; [apply Hf|apply IH]. Qed.

Lemma close_task_channel_frame tid c : frame c (close_task_channel tid c).
Proof.
  unfold close_task_channel. destruct (c_task_channels c !! tid) as [inner|]; [|done].
  destruct (closed inner) eqn:Hc; [done|]. simpl. unfold close_inner. rewrite Hc.
  split; [done|]. simpl. lia.
Qed.

Lemma notify_one_frame tid st c sub : frame c (notify_one tid st c sub).
Proof. unfold notify_one. destruct (c_subscribers c !! sub); [|done]. split; [done|]. simpl. lia. Qed.

Lemma notify_subscribers_frame subs tid st c : frame c (notify_subscribers subs tid st c).
Proof. apply foldl_frame. intros. apply notify_one_frame. Qed.

Lemma reply_sub_frame tx m c : frame c (reply_sub tx m c).
Proof. split; [done|]. simpl. lia. Qed.

Lemma send_proof_result_frame tx r c : frame c (send_proof_result tx r c).
Proof. by destruct tx. Qed.

Lemma cancel_unexpected_frame w l c : frame c (cancel_unexpected w l c).
Proof. apply foldl_frame. intros c' k. by case_decide. Qed.

Lemma open_channel_frame tid c : frame c (open_channel tid c).2.
Proof. unfold open_channel. by destruct (c_task_channels c !! tid). Qed.

Lemma push_channel_frame tid pl i c : frame c (push_channel tid pl i c).
Proof. unfold push_channel. by destruct (push pl i (c_stream_net c)). Qed.

Lemma attach_channel_frame tid o i c : frame c (attach_channel tid o i c).2.
Proof. unfold attach_channel. by destruct (attach_subscriber o i (c_stream_net c)) as [[]]. Qed.

Lemma send_task_message_frame tid pl c : frame c (send_task_message tid pl c).
Proof.
  unfold send_task_message. destruct (c_task_channels c !! tid); [apply push_channel_frame|].
  destruct (task_can_still_send (c_state c) tid); [|done].
  pose proof (open_channel_frame tid c). destruct (open_channel tid c) as [i c1]. simpl in *.
  etrans; [done|apply push_channel_frame].
Qed.

Lemma subscribe_task_channel_frame tid o c : frame c (subscribe_task_channel tid o c).2.
Proof.
  unfold subscribe_task_channel. destruct (c_task_channels c !! tid); [apply attach_channel_frame|].
  destruct (task_can_still_send (c_state c) tid); [|done].
  pose proof (open_channel_frame tid c). destruct (open_channel tid c) as [i c1]. simpl in *.
  etrans; [done|apply attach_channel_frame].
Qed.

Lemma cleanup_stale_frame c : frame c (cleanup_stale_task_channels c).
Proof.
  apply foldl_frame. intros c' [k i]. simpl. destruct (closed_at i); [|done]. simpl.
  case_match; (split; [done|]; simpl; lia).
Qed.

Lemma cleanup_dead_subscribers_frame c : frame c (cleanup_dead_subscribers c).
Proof. apply foldl_frame. intros c' [k i]. simpl. case_match; (split; [done|]; simpl; lia). Qed.

Lemma send_heartbeats_frame c : frame c (send_heartbeats c).
Proof. apply foldl_frame. done. Qed.
End frame.

#[export] Hint Resolve close_task_channel_frame notify_subscribers_frame reply_sub_frame
  send_proof_result_frame cancel_unexpected_frame send_task_message_frame
  subscribe_task_channel_frame cleanup_stale_frame cleanup_dead_subscribers_frame
  send_heartbeats_frame : frame.

Section steps.
Context `{EO : ClusterEnvOk} {PT : PolicyTypes} {AP : AssignmentPolicy} {L : PolicyLaws AP}.
Context (W : Z) (HW : 0 <= W).

Abbreviation InvX := (CoordInv.InvX W).
Abbreviation Inv := (CoordInv.Inv W).

Definition InvC (G : gmap string Proof) (X : gset key) (c : Coordinator) : Prop :=
  InvX G X (c_state c) (c_tick c).

Lemma InvC_frame G X c c' : frame c c' -> InvC G X c -> InvC G X c'.
Proof. intros [Hs Ht] HI. unfold InvC in *. rewrite Hs. by eapply InvX_tick. Qed.

Lemma InvC_policy G X c f :
  policy_only queued policy_wf (c_state c) (f (c_state c)) -> InvC G X c -> InvC G X (with_state f c).
Proof. apply InvX_policy. Qed.

(** *** Releasing the assignments of a removed proof *)
Lemma release_one_inv G X pid proof skip released c tid t :
  InvC G X c -> s_proofs (c_state c) !! pid = None -> G !! pid = Some proof ->
  p_tasks proof !! tid = Some t ->
  let c' := (release_one proof pid skip (released, c) (tid, t)).2 in
  InvC G X c' /\ shrinks (c_state c) (c_state c') /\
  (forall wid w, s_workers (c_state c') !! wid = Some w -> (pid, tid) ∈ w_active_tasks w ->
     skip = Some (wid, tid)).
Proof.
  intros HI Hnone HG Ht.
  assert (Hlt : lookup_task G (pid, tid) = Some t) by (unfold lookup_task; simpl; by rewrite HG).
  pose proof (to_id (lookup_task_ok _ _ _ _ _ _ _ HI Hlt)) as Hid. simpl in Hid.
  assert (Howner : forall wid w, s_workers (c_state c) !! wid = Some w -> (pid, tid) ∈ w_active_tasks w ->
    t_worker t = Some wid).
  { intros wid w Hw Hk. destruct (wo_held (ix_workers HI _ _ Hw) _ Hk) as (t2 & ? & ? & _). congruence. }
  unfold release_one. simpl.
  destruct (t_worker t) as [owner|] eqn:Hown.
  2:{ split_and!; [done|done|]. intros wid w Hw Hk. by specialize (Howner _ _ Hw Hk). }
  case_decide as Hskip.
  { split_and!; [done|done|]. simpl. intros wid w Hw Hk. specialize (Howner _ _ Hw Hk). congruence. }
  destruct (s_workers (c_state c) !! owner) as [w|] eqn:Hw.
  2:{ split_and!; [done|done|]. simpl. intros wid w Hw2 Hk. specialize (Howner _ _ Hw2 Hk). congruence. }
  case_decide as Hk.
  2:{ split_and!; [done|done|]. simpl. intros wid w2 Hw2 Hk2. specialize (Howner _ _ Hw2 Hk2).
      rewrite Hid in Hk. congruence. }
  simpl. rewrite Hid in *.
  set (k := (pid, tid)) in *. set (w' := unassign k (weight (t_data t)) w).
  assert (Hkw : key_weight G k = weight (t_data t)) by (unfold key_weight; by rewrite Hlt).
  assert (HI1 : InvX G X (insert_worker owner w' (c_state c)) (c_tick c)).
  { eapply InvX_settled; [|by eapply unassigned_not_held|].
    - eapply InvX_unassign; [eapply InvX_exempt; [done|]|done..|]; set_solver.
    - intros t2. unfold lookup_task, k. simpl. by rewrite Hnone. }
  assert (Hnh : ~ held (insert_worker owner w' (c_state c)) k) by by eapply unassigned_not_held.
  pose proof (wo_id (ix_workers HI _ _ Hw)) as Hwid.
  destruct (settle_empty_inv W G X (insert_worker owner w' (c_state c)) (c_tick c) owner w')
    as [HI2 Hsh]; [done|by simpl; rewrite lookup_insert_eq|].
  rewrite Hwid.
  pose proof (task_update_law (settle_empty owner w' (insert_worker owner w' (c_state c)))
                (p_extra proof) tid (t_extra t) (weight (t_data t)) pid (task_type (t_data t))) as Hpo.
  assert (Hsh2 : shrinks (insert_worker owner w' (c_state c))
    (post_task_update_state (settle_empty owner w' (insert_worker owner w' (c_state c)))
       (p_extra proof) tid (t_extra t) (weight (t_data t)) pid (task_type (t_data t)))).
  { etrans; [done|by apply policy_only_shrinks]. }
  split_and!.
  - unfold InvC. simpl. by eapply InvX_policy.
  - etrans; [|done]. eapply insert_worker_shrinks; [done|]. simpl. set_solver.
  - intros wid w2 Hw2 Hk2. destruct Hnh. eapply shrinks_held; [done|]. by exists wid, w2.
Qed.
#[local] Arguments release_one : simpl never.

Lemma release_loop_inv G X pid proof skip l : forall released c,
  InvC G X c -> s_proofs (c_state c) !! pid = None -> G !! pid = Some proof ->
  (forall tid t, (tid, t) ∈ l -> p_tasks proof !! tid = Some t) ->
  let c' := (foldl (release_one proof pid skip) (released, c) l).2 in
  InvC G X c' /\ shrinks (c_state c) (c_state c') /\
  (forall tid t wid w, (tid, t) ∈ l -> s_workers (c_state c') !! wid = Some w ->
     (pid, tid) ∈ w_active_tasks w -> skip = Some (wid, tid)).
Proof.
  induction l as [|[tid t] l IH]; intros released c HI Hnone HG Hl; simpl.
  { split_and!; [done|done|]. intros tid t wid w Hin. by inv Hin. }
  destruct (release_one_inv G X pid proof skip released c tid t) as (HI1 & Hsh1 & Hrel);
    [done..|apply Hl; by left|].
  destruct (release_one proof pid skip (released, c) (tid, t)) as [r1 c1] eqn:E1. simpl in HI1, Hsh1, Hrel.
  destruct (IH r1 c1) as (HI2 & Hsh2 & Hall); [done| |done| |].
  { by rewrite (sh_proofs _ _ Hsh1). }
  { intros tid2 t2 Hin. apply Hl. by right. }
  simpl in *. split_and!; [done|by etrans|].
  intros tid2 t2 wid w [[= -> ->]|Hin]%elem_of_cons Hw Hk; [|by eauto].
  destruct (sh_workers _ _ Hsh2 _ _ Hw) as (w1 & Hw1 & Hsub). apply (Hrel wid w1); [done|]. set_solver.
Qed.

(** Deleting a proof leaves at most one assignment of it: the one to [skip]. *)
Lemma release_all_inv X pid proof skip c :
  InvC (<[pid := proof]> (s_proofs (c_state c))) X c -> s_proofs (c_state c) !! pid = None ->
  let c' := (release_remaining_assignments proof pid skip c).2 in
  InvC (<[pid := proof]> (s_proofs (c_state c))) X c' /\ shrinks (c_state c) (c_state c') /\
  (forall k wid w, k.1 = pid -> s_workers (c_state c') !! wid = Some w -> k ∈ w_active_tasks w ->
     skip = Some (wid, k.2)).
Proof.
  intros HI Hnone. unfold release_remaining_assignments.
  destruct (release_loop_inv (<[pid := proof]> (s_proofs (c_state c))) X pid proof skip
              (iter_map (p_tasks proof)) false c) as (HI' & Hsh & Hall); [done|done| | |].
  { apply lookup_insert_eq. }
  { intros tid t Hin. by apply elem_of_iter_map in Hin. }
  simpl in *. split_and!; [done|done|].
  intros [pid2 tid] wid w ? Hw Hk; simpl in *; subst pid2.
  destruct (wo_held (ix_workers HI' _ _ Hw) _ Hk) as (t & Ht & _).
  unfold lookup_task in Ht. simpl in Ht. rewrite lookup_insert_eq in Ht.
  apply (Hall tid t wid w); [|done..]. by apply elem_of_iter_map.
Qed.

(** [remove_finished_proof] *)
Lemma remove_finished_proof_inv X pid proof skip c :
  InvC (s_proofs (c_state c)) X c -> s_proofs (c_state c) !! pid = Some proof ->
  let c' := (remove_finished_proof pid skip c).2 in
  InvC (s_proofs (c_state c)) X c' /\
  s_proofs (c_state c') = delete pid (s_proofs (c_state c)) /\
  s_shutting_down (c_state c') = s_shutting_down (c_state c) /\
  (forall k wid w, k.1 = pid -> s_workers (c_state c') !! wid = Some w -> k ∈ w_active_tasks w ->
     skip = Some (wid, k.2)) /\
  (forall wid w', s_workers (c_state c') !! wid = Some w' ->
     exists w, s_workers (c_state c) !! wid = Some w /\ w_active_tasks w' ⊆ w_active_tasks w).
Proof.
  intros HI Hp. unfold remove_finished_proof.
  pose proof (proof_deleted_law (c_state c) pid) as Hpo.
  set (c1 := with_state (fun s => on_proof_deleted s pid) c).
  assert (HI1 : InvC (s_proofs (c_state c)) X c1) by by apply InvC_policy.
  pose proof (policy_only_shrinks _ _ Hpo) as Hsh1.
  assert (Hp1 : s_proofs (c_state c1) = s_proofs (c_state c)) by apply (sh_proofs _ _ Hsh1).
  rewrite Hp1, Hp. set (c2 := with_state (delete_proof pid) c1).
  assert (HG : <[pid := proof]> (s_proofs (c_state c2)) = s_proofs (c_state c)).
  { unfold c2. simpl. rewrite insert_delete_eq. rewrite <- Hp1. apply insert_id. by rewrite Hp1. }
  destruct (release_all_inv X pid proof skip c2) as (HI3 & Hsh3 & Hall).
  { rewrite HG. by apply InvX_delete_proof. }
  { unfold c2. simpl. apply lookup_delete_eq. }
  rewrite HG in HI3. split_and!; [done| | |done|].
  - rewrite (sh_proofs _ _ Hsh3). unfold c2. simpl. by rewrite <- Hp1.
  - rewrite (sh_down _ _ Hsh3). apply (sh_down _ _ Hsh1).
  - intros wid w' Hw'. destruct (sh_workers _ _ Hsh3 _ _ Hw') as (w & Hw & ?).
    destruct (sh_workers _ _ Hsh1 _ _ Hw) as (w0 & ? & ?). exists w0. split; [done|]. set_solver.
Qed.

(** *** What neither assignments nor removals touch *)
Definition rest (s : CoordinatorState) :=
  (s_total_tasks s, s_proofs_tx s, s_shutting_down s, s_execute_only_mode s,
   s_worker_heartbeat_timeout_secs s,
   (s_gpu_busy_ms_total s, s_gpu_available_ms_total s, s_gpu_available_last_tick s, s_counters_since s)).

Lemma policy_only_rest s s' : policy_only queued policy_wf s s' -> rest s' = rest s.
Proof. by intros (q & -> & _). Qed.

Lemma settle_empty_rest wid w s : rest (settle_empty wid w s) = rest s.
Proof.
  unfold settle_empty. case_decide; [|done]. destruct (post_worker_empty_shape s w) as (Hpo & _).
  destruct (post_worker_empty s w) as [s1 w1]. simpl in *. by apply policy_only_rest in Hpo.
Qed.

Lemma release_one_rest proof pid skip rc kt :
  rest (c_state (release_one proof pid skip rc kt).2) = rest (c_state rc.2).
Proof.
  destruct rc as [r c]. unfold release_one. simpl. destruct (t_worker kt.2) as [owner|]; [|done].
  case_decide; [done|]. destruct (s_workers (c_state c) !! owner) as [w|]; [|done]. case_decide; [|done].
  simpl. rewrite (policy_only_rest _ _ (task_update_law _ _ _ _ _ _ _)), settle_empty_rest. done.
Qed.

Lemma remove_finished_proof_rest pid skip c :
  rest (c_state (remove_finished_proof pid skip c).2) = rest (c_state c).
Proof.
  unfold remove_finished_proof. destruct (s_proofs _ !! pid) as [proof|];
    [|simpl; apply (policy_only_rest _ _ (proof_deleted_law (c_state c) pid))].
  unfold release_remaining_assignments. trans (rest (c_state (with_state (delete_proof pid)
    (with_state (fun s => on_proof_deleted s pid) c)))); [|apply (policy_only_rest _ _ (proof_deleted_law (c_state c) pid))].
  generalize (with_state (delete_proof pid) (with_state (fun s => on_proof_deleted s pid) c)) as c1.
  generalize false. induction (iter_map (p_tasks proof)) as [|kt l IH]; intros r c1; cbn [foldl]; [done|].
  destruct (release_one proof pid skip (r, c1) kt) as [r2 c2] eqn:E2. rewrite IH.
  pose proof (release_one_rest proof pid skip (r, c1) kt) as H. by rewrite E2 in H.
Qed.

Lemma settle_completion_rest wid k wt s : rest (settle_completion wid k wt s).2 = rest s.
Proof.
  unfold settle_completion. destruct (s_workers s !! wid); [|done]. case_decide; [|done].
  simpl. by rewrite settle_empty_rest.
Qed.

(** *** Fields the invariant does not speak about *)
Definition same_core (s s' : CoordinatorState) : Prop :=
  s_workers s' = s_workers s /\ s_proofs s' = s_proofs s /\
  s_shutting_down s' = s_shutting_down s /\ s_policy s' = s_policy s.

Lemma InvX_same_core G X s s' n : same_core s s' -> InvX G X s n -> InvX G X s' n.
Proof.
  intros (Hw & Hp & Hd & Hq) []. constructor; rewrite ?Hw, ?Hp, ?Hd, ?Hq; try done;
    unfold held, queued_keys, queue_typed, get_task_internal in *; rewrite ?Hw, ?Hp, ?Hq; done.
Qed.

Lemma InvX_extra X s n pid p x :
  InvX (s_proofs s) X s n -> s_proofs s !! pid = Some p ->
  InvX (s_proofs (insert_proof pid (set_p_extra x p) s)) X (insert_proof pid (set_p_extra x p) s) n.
Proof.
  intros HI Hp.
  assert (Hl : forall k, lookup_task (<[pid := set_p_extra x p]> (s_proofs s)) k = lookup_task (s_proofs s) k).
  { intros k. unfold lookup_task. rewrite lookup_insert. case_decide; [|done]. subst. by rewrite Hp. }
  assert (Hkw : forall k, key_weight (<[pid := set_p_extra x p]> (s_proofs s)) k = key_weight (s_proofs s) k).
  { intros k. unfold key_weight. by rewrite Hl. }
  constructor; simpl; try apply HI; try done.
  - intros pid2 p2. rewrite lookup_insert_Some. intros [[<- <-]|[_ H2]]; [|by apply HI].
    destruct (ix_proofs HI _ _ Hp). by constructor.
  - intros wid w Hw. destruct (ix_workers HI _ _ Hw) as [? ? Hh Hwt ?]. constructor; try done.
    + intros k Hk. rewrite Hl. auto.
    + intros Hd. destruct (Hwt Hd) as [-> ?]. split; [|done]. by apply set_Zsum_ext.
  - intros [pid2 tid2] ty t2 Hk Ht2. apply (ix_queue_typed HI (pid2, tid2) ty t2 Hk).
    change (lookup_task (<[pid := set_p_extra x p]> (s_proofs s)) (pid2, tid2) = Some t2) in Ht2.
    by rewrite Hl in Ht2.
  - intros k t. rewrite Hl. by apply HI.
  - intros k. rewrite Hl. by apply HI.
Qed.

(** *** The tail of [complete_task] *)
Lemma settle_completion_inv G X s n wid k wt :
  InvX G X s n -> key_weight G k = wt ->
  (forall t, lookup_task (s_proofs s) k = Some t -> is_final (t_status t) = true) ->
  let s' := (settle_completion wid k wt s).2 in
  InvX G X s' n /\ shrinks s s' /\
  (forall w, s_workers s' !! wid = Some w -> k ∉ w_active_tasks w).
Proof.
  intros HI Hwt Hfin. unfold settle_completion.
  destruct (s_workers s !! wid) as [w|] eqn:Hw; simpl.
  2:{ split_and!; [done|done|]. intros w Hw2. congruence. }
  case_decide as Hk; simpl.
  2:{ split_and!; [done|done|]. intros w2 Hw2. by simplify_eq. }
  set (w' := unassign k wt w).
  assert (Hnh : ~ held (insert_worker wid w' s) k) by by eapply unassigned_not_held.
  assert (HI1 : InvX G X (insert_worker wid w' s) n).
  { eapply InvX_settled; [|done|].
    - eapply InvX_unassign; [eapply InvX_exempt; [done|]|done..|]; set_solver.
    - intros t Ht. left. by apply Hfin. }
  destruct (settle_empty_inv W G X (insert_worker wid w' s) n wid w') as [HI2 Hsh];
    [done|by simpl; rewrite lookup_insert_eq|].
  split_and!; [done| |].
  - etrans; [|done]. eapply insert_worker_shrinks; [done|]. simpl. set_solver.
  - intros w2 Hw2 Hk2. apply Hnh. eapply shrinks_held; [done|]. by exists wid, w2.
Qed.

(** A finished removal: the assignments no longer refer to the removed proof. *)
Lemma InvC_removed G pid s n skip :
  InvX G ∅ s n -> s_proofs s = delete pid G ->
  (forall k wid w, k.1 = pid -> s_workers s !! wid = Some w -> k ∈ w_active_tasks w -> skip = (wid, k.2)) ->
  (forall w, s_workers s !! skip.1 = Some w -> (pid, skip.2) ∉ w_active_tasks w) ->
  InvX (s_proofs s) ∅ s n.
Proof.
  intros HI Hp Hskip Hno. rewrite Hp. apply InvX_shrink; [done|by rewrite Hp; apply lookup_delete_eq|].
  intros [pid2 tid2] (wid & w & Hw & Hk) Hpid. simpl in Hpid. subst pid2.
  specialize (Hskip (pid, tid2) _ _ eq_refl Hw Hk). subst skip. by apply (Hno w).
Qed.

Definition safe {A} (m : outcome A * Coordinator) : Prop :=
  Inv m.2 /\ match m.1 with Ok _ | Err _ => True | _ => False end.

Lemma safe_bind {A B} (m : outcome A * Coordinator) (f : A -> Coordinator -> outcome B * Coordinator) :
  safe m -> (forall a c, Inv c -> safe (f a c)) -> safe (bind m f).
Proof. destruct m as [[a|e| |] c]; intros [HI Ho] Hf; simpl in *; [by apply Hf|done..]. Qed.

Lemma Inv_policy c f :
  policy_only queued policy_wf (c_state c) (f (c_state c)) -> Inv c -> Inv (with_state f c).
Proof.
  intros Hpo HI. unfold CoordInv.Inv. simpl. rewrite (sh_proofs _ _ (policy_only_shrinks _ _ Hpo)).
  by eapply InvX_policy.
Qed.

Lemma safe_assign c : Inv c -> safe (assign_tasks c).
Proof. intros HI. destruct (assign_tasks_inv W c HW HI) as (c' & -> & ? & _). done. Qed.

Lemma Inv_frame c c' : frame c c' -> Inv c -> Inv c'.
Proof. intros [Hs Ht] HI. unfold CoordInv.Inv in *. rewrite Hs. by eapply InvX_tick. Qed.
(** *** [complete_task] *)

(** The effect of the report on the stored task: final, counted once. *)
Lemma complete_update_inv c pid proof tid t attempts :
  Inv c -> s_proofs (c_state c) !! pid = Some proof -> p_tasks proof !! tid = Some t ->
  let already := bool_decide (t_status t = Succeeded) in
  let active :=
    if already then p_active_tasks proof
    else if bool_decide (t_status t = FailedFatal) then p_active_tasks proof
    else Int.wsub u32 (p_active_tasks proof) 1 in
  let t' := set_t_status Succeeded (set_t_gpu_attempts attempts
              (set_t_subscribers (if already then t_subscribers t else ∅) t)) in
  let proof' := set_p_active_tasks active (set_p_tasks (<[tid := t']> (p_tasks proof)) proof) in
  Inv (with_state (insert_proof pid proof') c) /\
  p_active_tasks proof' = live_count (p_tasks proof').
Proof.
  intros HI Hp Ht already active t' proof'.
  destruct (ix_proofs HI _ _ Hp) as [Hid Htasks Hsize Hact].
  destruct (Htasks _ _ Ht) as [_ _ _ Hret].
  assert (Hup : proof_update tid t t' proof proof').
  { constructor; simpl; [done..|]. unfold active, already.
    destruct (is_final (t_status t)) eqn:Hf.
    - repeat case_bool_decide; try lia. by destruct (t_status t).
    - rewrite !bool_decide_eq_false_2 by (intros Heq; by rewrite Heq in Hf).
      pose proof (live_count_lookup _ _ _ Ht Hf). pose proof (live_count_bounds (p_tasks proof)).
      rewrite Int.wsub_small; [lia|]. unfold Int.in_range, Int.modulus in *. lia. }
  split.
  - unfold CoordInv.Inv. simpl. eapply (InvX_update W ∅ _ _ pid proof tid t t'); try done. intros _. split; [done|]. by right; right.
  - apply (po_active (W := W) (pid := pid)). by eapply proof_ok_update.
Qed.

Lemma complete_hooks_inv c pid proof te md ty :
  Inv c -> s_proofs (c_state c) !! pid = Some proof ->
  let c' := with_state (fun s => post_task_success_update_state s ty)
              (with_state (insert_proof pid (post_task_success_update_proof proof te md)) c) in
  Inv c' /\ exists proof', s_proofs (c_state c') !! pid = Some proof' /\ p_tasks proof' = p_tasks proof.
Proof.
  intros HI Hp c'. destruct (success_proof_law proof te md) as [x Hx]. unfold c'. rewrite Hx.
  set (c1 := with_state (insert_proof pid (set_p_extra x proof)) c).
  assert (HI1 : Inv c1) by by apply InvX_extra.
  pose proof (success_state_law (c_state c1) ty) as Hpo.
  pose proof (sh_proofs _ _ (policy_only_shrinks _ _ Hpo)) as Hps.
  split; [by apply Inv_policy|].
  exists (set_p_extra x proof). split; [|done]. simpl. unfold c1 in Hps. simpl in Hps. rewrite Hps. apply lookup_insert_eq.
Qed.

(** The removal of a finished proof, if it is finished, then the release of the
    reporter's slot. *)
Lemma complete_tail_inv c pid proof tid t wid active :
  Inv c -> s_proofs (c_state c) !! pid = Some proof -> p_tasks proof !! tid = Some t ->
  is_final (t_status t) = true ->
  forall released c4 c5 c6 freed s7,
  (if active =? 0 then remove_finished_proof pid (Some (wid, tid)) c else (false, c)) = (released, c4) ->
  same_core (c_state c4) (c_state c5) -> c_tick c5 = c_tick c4 ->
  policy_only queued policy_wf (c_state c5) (c_state c6) -> c_tick c6 = c_tick c5 ->
  settle_completion wid (pid, tid) (weight (t_data t)) (c_state c6) = (freed, s7) ->
  Inv (set_c_state s7 c6) /\
  s_proofs s7 = (if active =? 0 then delete pid (s_proofs (c_state c)) else s_proofs (c_state c)) /\
  (forall w, s_workers s7 !! wid = Some w -> (pid, tid) ∉ w_active_tasks w).
Proof.
  intros HI Hp Ht Hf released c4 c5 c6 freed s7 E4 H5 T5 H6 T6 E7.
  set (G := s_proofs (c_state c)) in *.
  assert (Hlt : lookup_task G (pid, tid) = Some t) by (unfold lookup_task; simpl; by rewrite Hp).
  assert (Hkw : key_weight G (pid, tid) = weight (t_data t)) by (unfold key_weight; by rewrite Hlt).
  assert (H4 : InvC G ∅ c4 /\ s_proofs (c_state c4) = (if active =? 0 then delete pid G else G) /\
    (s_proofs (c_state c4) = G \/
    (s_proofs (c_state c4) = delete pid G /\
     forall k wid' w, k.1 = pid -> s_workers (c_state c4) !! wid' = Some w -> k ∈ w_active_tasks w ->
       (wid, tid) = (wid', k.2)))).
  { destruct (active =? 0); simplify_eq; [|by auto].
    destruct (remove_finished_proof_inv ∅ pid proof (Some (wid, tid)) c HI Hp) as (HI4 & Hp4 & _ & Hs4 & _).
    rewrite E4 in *. simpl in *. split_and!; [done..|]. right. split; [done|]. intros k wid' w ? Hw Hk.
    by specialize (Hs4 k wid' w ltac:(done) Hw Hk) as [= <- <-]. }
  destruct H4 as (HI4 & Hpa & Hp4).
  assert (HI6 : InvX G ∅ (c_state c6) (c_tick c6)).
  { rewrite T6, T5. eapply InvX_policy; [done|]. by eapply InvX_same_core. }
  destruct H5 as (Hw5 & Hp5 & Hd5 & Hq5). destruct H6 as (p6 & H6 & _ & _).
  assert (Hp6 : s_proofs (c_state c6) = s_proofs (c_state c4)) by (by rewrite H6).
  assert (Hw6 : s_workers (c_state c6) = s_workers (c_state c4)) by (by rewrite H6).
  destruct (settle_completion_inv G ∅ (c_state c6) (c_tick c6) wid (pid, tid) _ HI6 Hkw) as (HI7 & Hsh7 & Hno).
  { intros t2 Ht2. rewrite Hp6 in Ht2. destruct Hp4 as [Hg|[Hd _]]; [rewrite Hg in Ht2; by simplify_eq|].
    rewrite Hd in Ht2. unfold lookup_task in Ht2. simpl in Ht2. by rewrite lookup_delete_eq in Ht2. }
  rewrite E7 in *. simpl in *. split_and!; [|by rewrite (sh_proofs _ _ Hsh7), Hp6, Hpa|done].
  unfold CoordInv.Inv. simpl. destruct Hp4 as [Hp4|[Hp4 Hskip]].
  - by rewrite (sh_proofs _ _ Hsh7), Hp6, Hp4.
  - eapply (InvC_removed G pid _ _ (wid, tid)); [done| | |done].
    + by rewrite (sh_proofs _ _ Hsh7), Hp6.
    + intros k wid' w Hk1 Hw Hk. destruct (sh_workers _ _ Hsh7 _ _ Hw) as (w6 & Hw6' & Hsub).
      rewrite Hw6 in Hw6'. apply (Hskip k wid' w6); set_solver.
Qed.

(** [complete_task] as a whole: [c7] is the state the freed capacity is offered
    in, [c8] the one after the assignments. *)
Lemma complete_task_run worker_id pid tid md c proof t :
  Inv c -> s_proofs (c_state c) !! pid = Some proof -> p_tasks proof !! tid = Some t ->
  let r := credit_attempt worker_id (t_gpu_attempts t) in
  exists c7 c8 c' t' tasks' P,
    complete_task worker_id pid tid md c = (Ok tt, c') /\
    Inv c7 /\ rtc (assign_step queued policy_wf) c7 c8 /\ frame c8 c' /\ Inv c' /\
    tasks' = <[tid := t']> (p_tasks proof) /\
    t_status t' = Succeeded /\ t_gpu_attempts t' = r.2 /\ same_task t t' /\ t_retries t' = t_retries t /\
    (exists proof3, P !! pid = Some proof3 /\ p_tasks proof3 = tasks') /\
    s_proofs (c_state c7) = (if live_count tasks' =? 0 then delete pid P else P) /\
    (forall w, s_workers (c_state c7) !! worker_id = Some w -> (pid, tid) ∉ w_active_tasks w) /\
    s_gpu_busy_ms_total (c_state c7)
    = (if r.1 then Int.sat_add u64 (s_gpu_busy_ms_total (c_state c)) (gpu_ms md)
       else s_gpu_busy_ms_total (c_state c)).
Proof.
  intros HI Hp Ht. unfold complete_task. rewrite Hp, Ht.
  destruct (credit_attempt worker_id (t_gpu_attempts t)) as [credit attempts]. cbn [fst snd].
  destruct (complete_update_inv c pid proof tid t attempts HI Hp Ht) as [HI1 Hact].
  set (already := bool_decide (t_status t = Succeeded)) in *.
  set (active := if already then _ else _) in *.
  set (t' := set_t_status Succeeded _) in *.
  set (proof' := set_p_active_tasks active _) in *.
  set (c2 := close_task_channel tid _).
  assert (Hfr : frame (with_state (insert_proof pid proof') c) c2) by apply close_task_channel_frame.
  assert (HI2 : Inv c2) by by eapply Inv_frame.
  assert (Hp2 : s_proofs (c_state c2) !! pid = Some proof').
  { rewrite (fr_state _ _ Hfr). simpl. apply lookup_insert_eq. }
  set (c3 := if already then c2 else _).
  assert (H3 : Inv c3 /\ (exists proof3, s_proofs (c_state c3) !! pid = Some proof3 /\ p_tasks proof3 = p_tasks proof') /\
    rest (c_state c3) = rest (c_state c)).
  { assert (Hr2 : rest (c_state c2) = rest (c_state c)) by by rewrite (fr_state _ _ Hfr).
    unfold c3. destruct already; [by eauto|].
    destruct (complete_hooks_inv c2 pid proof' (t_extra t) md (task_type (t_data t)) HI2 Hp2) as [? ?].
    split_and!; [done..|]. simpl. rewrite (policy_only_rest _ _ (success_state_law _ _)). done. }
  clearbody c3. destruct H3 as (HI3 & (proof3 & Hp3 & Htasks3) & Hr3).
  destruct (if active =? 0 then _ else _) as [released c4] eqn:E4.
  assert (Hr4 : rest (c_state c4) = rest (c_state c)).
  { rewrite <- Hr3. destruct (active =? 0); simplify_eq; [|done].
    pose proof (remove_finished_proof_rest pid (Some (worker_id, tid)) c3) as Hrm. by rewrite E4 in Hrm. }
  set (c5 := if credit then _ else _).
  set (c6 := if holds (c_state c5) worker_id (pid, tid) then _ else _).
  assert (Hpo6 : policy_only queued policy_wf (c_state c5) (c_state c6)).
  { unfold c6. destruct (holds _ _ _); [simpl; apply task_update_law|by exists (s_policy (c_state c5)); destruct (c_state c5)]. }
  destruct (settle_completion _ _ _ _) as [freed s7] eqn:E7.
  destruct (complete_tail_inv c3 pid proof3 tid t' worker_id active HI3 Hp3) with released c4 c5 c6 freed s7
    as (HI7 & Hps7 & Hno7); try done.
  { rewrite Htasks3. apply lookup_insert_eq. }
  { unfold c5. by destruct credit. }
  { unfold c5. by destruct credit. }
  { unfold c6. by destruct (holds _ _ _). }
  assert (Hg7 : s_gpu_busy_ms_total s7 = if credit then Int.sat_add u64 (s_gpu_busy_ms_total (c_state c)) (gpu_ms md)
                                         else s_gpu_busy_ms_total (c_state c)).
  { pose proof (settle_completion_rest worker_id (pid, tid) (weight (t_data t)) (c_state c6)) as Hr7.
    rewrite E7, (policy_only_rest _ _ Hpo6) in Hr7. simpl in Hr7. unfold rest in Hr7, Hr4.
    unfold c5 in Hr7. destruct credit; simpl in Hr7; congruence. }
  assert (exists c8, (if released || freed then assign_tasks (set_c_state s7 c6) else (Ok tt, set_c_state s7 c6)) = (Ok tt, c8)
    /\ rtc (assign_step queued policy_wf) (set_c_state s7 c6) c8 /\ Inv c8) as (c8 & E8 & Hrtc & HI8).
  { destruct (released || freed); [|by eexists].
    destruct (assign_tasks_inv W _ HW HI7) as (c8 & E8 & HI8 & Hrtc). by exists c8. }
  rewrite E8. cbn [bind]. set (c' := match _ with Some subs => _ | None => c8 end).
  assert (Hfr8 : frame c8 c') by (unfold c'; destruct already; [done|apply notify_subscribers_frame]).
  exists (set_c_state s7 c6), c8, c', t', (p_tasks proof'), (s_proofs (c_state c3)).
  split_and!; try done; [by eapply Inv_frame|by exists proof3|]. rewrite <- Hact. exact Hps7.
Qed.

Lemma complete_task_safe worker_id pid tid md c : Inv c -> safe (complete_task worker_id pid tid md c).
Proof.
  intros HI. destruct (s_proofs (c_state c) !! pid) as [proof|] eqn:Hp; [|unfold complete_task; by rewrite Hp].
  destruct (p_tasks proof !! tid) as [t|] eqn:Ht; [|unfold complete_task; by rewrite Hp, Ht].
  destruct (complete_task_run worker_id pid tid md c proof t HI Hp Ht)
    as (c7 & c8 & c' & t' & tasks' & P & -> & _ & _ & _ & HI' & _). done.
Qed.

(** *** Creating proofs and tasks *)
Lemma InvX_new_proof s n pid p :
  InvX (s_proofs s) ∅ s n -> s_proofs s !! pid = None -> p_id p = pid -> p_tasks p = ∅ -> p_active_tasks p = 0 ->
  InvX (s_proofs (insert_proof pid p s)) ∅ (insert_proof pid p s) n.
Proof.
  intros HI Hnone Hid Ht Ha.
  assert (Hl : forall k, lookup_task (<[pid := p]> (s_proofs s)) k = lookup_task (s_proofs s) k).
  { intros k. unfold lookup_task. rewrite lookup_insert. case_decide as Hd; [|done]. by rewrite <- Hd, Hnone, Ht. }
  constructor; simpl; try apply HI; try done.
  - intros pid2 p2. rewrite lookup_insert_Some. intros [[<- <-]|[_ H2]]; [|by apply HI].
    constructor; [done| | |]; rewrite Ht.
    + intros tid t. by rewrite lookup_empty.
    + by rewrite map_size_empty.
    + unfold live_count. by rewrite map_Zsum_empty.
  - intros wid w Hw. destruct (ix_workers HI _ _ Hw) as [? ? Hh Hwt ?]. constructor; try done.
    + intros k Hk. rewrite Hl. auto.
    + intros Hd. destruct (Hwt Hd) as [-> ?]. split; [|done].
      apply set_Zsum_ext. intros k _. unfold key_weight. by rewrite Hl.
  - intros [pid2 tid2] ty t2 Hk Ht2. apply (ix_queue_typed HI (pid2, tid2) ty t2 Hk).
    change (lookup_task (<[pid := p]> (s_proofs s)) (pid2, tid2) = Some t2) in Ht2. by rewrite Hl in Ht2.
  - intros k t. rewrite Hl. by apply HI.
  - intros k. rewrite Hl. by apply HI.
Qed.

(** Adding a fresh task to a proof; until it is queued it is in [X]. *)
Lemma InvX_new_task s n pid p t :
  let tid := create_type_id "task" n in
  let p' := set_p_tasks (<[tid := t]> (p_tasks p))
              (set_p_active_tasks (Int.wadd u32 (p_active_tasks p) 1) p) in
  InvX (s_proofs s) ∅ s n -> s_proofs s !! pid = Some p ->
  task_ok W pid tid t -> is_final (t_status t) = false ->
  Z.of_nat (size (p_tasks p)) + 1 < Int.modulus u32 ->
  let s' := insert_proof pid p' s in
  InvX (s_proofs s') {[(pid, tid)]} s' (S n) /\ lookup_task (s_proofs s') (pid, tid) = Some t /\
  ~ held s' (pid, tid) /\ (pid, tid) ∉ queued_keys s'.
Proof.
  intros tid p' HI Hp Hok Hf Hsize s'.
  assert (Hnew : forall k, k ∈ queued_keys s \/ is_Some (lookup_task (s_proofs s) k) -> k.2 <> tid).
  { intros k Hk Heq. destruct (ix_fresh HI k Hk) as (m & Hm & Hk2). rewrite Heq in Hk2.
    apply create_type_id_inj in Hk2. lia. }
  assert (Hfresh : p_tasks p !! tid = None).
  { apply eq_None_not_Some. intros Hs. apply (Hnew (pid, tid)); [right|done]. unfold lookup_task. simpl. by rewrite Hp. }
  assert (Hl : forall k, lookup_task (s_proofs s') k = if decide (k = (pid, tid)) then Some t else lookup_task (s_proofs s) k).
  { intros [pid2 tid2]. unfold lookup_task, s', p'. simpl. rewrite lookup_insert. case_decide; simplify_eq/=.
    - rewrite Hp, lookup_insert. repeat case_decide; congruence.
    - case_decide; [congruence|done]. }
  assert (Hheld : forall k, held s k -> lookup_task (s_proofs s') k = lookup_task (s_proofs s) k).
  { intros k (wid & w & Hw & Hk). rewrite Hl. rewrite decide_False; [done|]. intros ->.
    destruct (wo_held (ix_workers HI _ _ Hw) _ Hk) as (t2 & Ht2 & _). by apply (Hnew (pid, tid)); eauto. }
  pose proof (InvX_exempt W _ ∅ {[(pid, tid)]} _ _ HI ltac:(set_solver)) as HI'.
  split_and!.
  - constructor; simpl; try apply HI'; try done.
    + intros pid2 p2. rewrite lookup_insert_Some. intros [[<- <-]|[_ H2]]; [|by apply HI'].
      destruct (ix_proofs HI _ _ Hp) as [Hid Htasks Hsz Hact]. constructor; unfold p'; simpl; [done| | |].
      * intros tid2 t2. rewrite lookup_insert_Some. intros [[<- <-]|[_ H2]]; auto.
      * rewrite map_size_insert_None by done. lia.
      * unfold live_count. rewrite map_Zsum_insert_new by done. rewrite Hf. fold (live_count (p_tasks p)).
        pose proof (live_count_bounds (p_tasks p)).
        rewrite Int.wadd_small; [lia|]. unfold Int.in_range. lia.
    + intros wid w Hw. destruct (ix_workers HI' _ _ Hw) as [? ? Hh Hwt ?]. constructor; try done.
      * intros k Hk. rewrite Hheld by by exists wid, w. auto.
      * intros Hd. destruct (Hwt Hd) as [-> ?]. split; [|done].
        apply set_Zsum_ext. intros k Hk. unfold key_weight. rewrite Hheld; [done|]. by exists wid, w.
    + intros k ty t2 Hk Ht2. apply (ix_queue_typed HI' k ty t2 Hk).
      change (lookup_task (s_proofs s') (k.1, k.2) = Some t2) in Ht2. rewrite <- surjective_pairing, Hl in Ht2.
      case_decide; [|by destruct k]. subst k. exfalso. apply (Hnew (pid, tid)); [left|done].
      apply list_elem_of_fmap. by exists (pid, tid, ty).
    + intros k t2 Hd. rewrite Hl. case_decide; [intros; subst; set_solver|]. by apply HI'.
    + intros k Hk. destruct (decide (k = (pid, tid))) as [->|Hne]; [exists n; split; [lia|done]|].
      rewrite Hl, decide_False in Hk by done. destruct (ix_fresh HI' k Hk) as (m & ? & ?). exists m. split; [lia|done].
  - rewrite Hl. by rewrite decide_True.
  - intros (wid & w & Hw & Hk). destruct (wo_held (ix_workers HI _ _ Hw) _ Hk) as (t2 & Ht2 & _).
    by apply (Hnew (pid, tid)); eauto.
  - intros Hk. by apply (Hnew (pid, tid)); [left|].
Qed.
(** What a client may ask for: a weight within the bound, and fewer than [2^32]
    tasks in one proof. *)
Definition task_admissible (data : TaskData) (c : Coordinator) : Prop :=
  0 <= weight data <= W /\
  forall p, s_proofs (c_state c) !! proof_id data = Some p ->
    Z.of_nat (size (p_tasks p)) + 1 < Int.modulus u32.

Lemma create_task_internal_safe data c :
  Inv c -> task_admissible data c -> safe (create_task_internal data c).
Proof.
  intros HI [Hwt Hsize]. unfold create_task_internal. simpl.
  destruct (s_proofs (c_state c) !! proof_id data) as [p|] eqn:Hp.
  2:{ split; [|done]. unfold CoordInv.Inv. simpl. eapply InvX_same_core; [|eapply InvX_tick; [exact HI|lia]]. done. }
  set (t := mkTask _ data _ Pending 0 ∅ None ∅ 0 task_state_default).
  set (c0 := with_state (fun s => set_s_total_tasks (Int.wadd u64 (s_total_tasks s) 1) s) (tick (tick c))).
  assert (HI0 : InvX (s_proofs (c_state c0)) ∅ (c_state c0) (c_tick c)).
  { eapply (InvX_same_core _ _ (c_state c)); [done|exact HI]. }
  destruct (InvX_new_task (c_state c0) (c_tick c) (proof_id data) p t) as (HI1 & Hl & Hnh & Hnq); try done.
  { by apply (Hsize p). }
  apply (InvX_tick W _ _ _ _ (S (S (c_tick c)))) in HI1; [|lia].
  destruct (InvX_enqueue W _ _ _ _ _ t t HI1 Hl ltac:(done) Hnh Hnq) as (p' & Henq & HI2).
  simpl in Henq, HI2. rewrite Henq. apply safe_bind.
  - apply safe_assign. unfold CoordInv.Inv. simpl.
    replace ({[(proof_id data, create_type_id "task" (c_tick c))]} ∖ {[(proof_id data, create_type_id "task" (c_tick c))]} : gset key)
      with (∅ : gset key) in HI2 by set_solver. done.
  - intros _ c' HI'. done.
Qed.

Lemma create_task_safe data c : Inv c -> task_admissible data c -> safe (create_task data c).
Proof. apply create_task_internal_safe. Qed.

Lemma create_proof_safe req c :
  Inv c -> 0 <= Int.wrap u32 (CONTROLLER_WEIGHT env_weights) <= W -> safe (create_proof req c).
Proof.
  intros HI Hw. unfold create_proof. destruct (s_shutting_down (c_state c)); [done|].
  destruct (s_proofs (c_state c) !! cp_proof_id req) as [p|] eqn:Hp; [done|]. simpl.
  apply create_task_internal_safe.
  - eapply InvX_new_proof; try done. eapply InvX_tick; [exact HI|]. simpl. lia.
  - split; [done|]. simpl. intros p. rewrite lookup_insert_eq. intros [= <-]. simpl. by rewrite map_size_empty.
Qed.

Lemma create_dummy_proof_safe pid e c : Inv c -> safe (create_dummy_proof pid e c).
Proof.
  intros HI. unfold create_dummy_proof. destruct (s_shutting_down (c_state c)); [done|].
  destruct (s_proofs (c_state c) !! pid) as [p|] eqn:Hp; [done|]. simpl. split; [|done].
  eapply InvX_new_proof; try done. eapply InvX_tick; [exact HI|]. simpl. lia.
Qed.

(** *** Workers *)
Lemma since_epoch_ok c : since_epoch c = (Ok (clock (c_tick c)), tick c).
Proof.
  unfold since_epoch. pose proof (clock_nonneg (c_tick c)).
  by replace (clock (c_tick c) <? 0) with false by lia.
Qed.

Lemma add_worker_safe wid wt max_weight ch ident c :
  Inv c -> 0 <= max_weight <= Int.umax u32 - W -> safe (add_worker wid wt max_weight ch ident c).
Proof.
  intros HI Hm. unfold add_worker, new_worker. destruct (s_workers (c_state c) !! wid) as [w|] eqn:Hw.
  - split; [|done]. unfold CoordInv.Inv. simpl. eapply InvX_worker; [exact HI|exact Hw| |done|done].
    destruct (ix_workers HI _ _ Hw). by constructor.
  - rewrite since_epoch_ok. cbn [bind]. apply safe_bind; [|done]. apply safe_assign.
    unfold CoordInv.Inv. simpl. eapply InvX_new_worker; [|exact Hw| |done].
    + eapply InvX_tick; [exact HI|]. lia.
    + constructor; simpl; [done|done|set_solver| |done]. rewrite set_Zsum_empty. lia.
Qed.

Lemma close_worker_safe wid c : Inv c -> safe (close_worker wid c).
Proof.
  intros HI. unfold close_worker. destruct (s_workers (c_state c) !! wid) as [w|] eqn:Hw; [|done].
  split; [|done]. unfold CoordInv.Inv. simpl. eapply InvX_worker; [exact HI|exact Hw| |done|done].
  destruct (ix_workers HI _ _ Hw). by constructor.
Qed.

(** [assigned_weight] is the exact sum of the assigned weights. *)
Lemma foldl_wadd (f : key -> option Z) l : forall acc,
  0 <= acc -> (forall k, k ∈ l -> exists x, f k = Some x /\ 0 <= x) ->
  acc + list_Zsum (fun k => default 0 (f k)) l <= Int.umax u32 ->
  foldl (fun acc k => match f k with Some x => Int.wadd u32 acc x | None => acc end) acc l
  = acc + list_Zsum (fun k => default 0 (f k)) l.
Proof.
  induction l as [|k l IH]; intros acc Hacc Hf Hle; simpl in *; [lia|].
  destruct (Hf k) as (x & Hx & Hx0); [by left|]. rewrite Hx in *. simpl in *.
  assert (0 <= list_Zsum (fun k => default 0 (f k)) l).
  { apply list_Zsum_nonneg. intros k' Hk'. destruct (Hf k') as (y & -> & ?); [by right|]. done. }
  unfold Int.umax in *. rewrite Int.wadd_small by (unfold Int.in_range; lia).
  rewrite IH; [lia|lia| |lia]. intros k' Hk'. apply Hf. by right.
Qed.

Lemma assigned_weight_exact s n wid w :
  InvX (s_proofs s) ∅ s n -> s_workers s !! wid = Some w -> s_shutting_down s = false ->
  assigned_weight s (w_active_tasks w) = w_weight w.
Proof.
  intros HI Hw Hd. destruct (ix_workers HI _ _ Hw) as [_ Hmax Hheld Hwt _]. destruct (Hwt Hd) as [Hsum Hle].
  set (f := fun k : key => (fun t => weight (t_data t)) <$> lookup_task (s_proofs s) k).
  assert (Hf : forall k, default 0 (f k) = key_weight (s_proofs s) k).
  { intros k. unfold f, key_weight. by destruct (lookup_task (s_proofs s) k). }
  assert (Hs : list_Zsum (fun k => default 0 (f k)) (iter_keys (w_active_tasks w)) = w_weight w).
  { rewrite Hsum. unfold set_Zsum. rewrite (list_Zsum_perm _ _ _ (iter_keys_perm _)). apply list_Zsum_ext. auto. }
  unfold assigned_weight.
  rewrite (foldl_ext _ (fun acc k => match f k with Some x => Int.wadd u32 acc x | None => acc end)).
  - rewrite foldl_wadd; [lia|lia| |lia]. intros k Hk%elem_of_iter_keys.
    destruct (Hheld k Hk) as (t & Ht & _). unfold f. rewrite Ht. simpl. eexists; split; [done|].
    apply (to_weight (lookup_task_ok W _ _ _ _ _ _ HI Ht)).
  - intros acc k. unfold f, lookup_task, get_task_internal. simpl.
    destruct (s_proofs s !! k.1) as [p|]; [|done]. by destruct (p_tasks p !! k.2).
Qed.

Lemma resend_missing_none w reported l : forall c,
  (forall k, k ∈ l -> is_Some (lookup_task (s_proofs (c_state c)) k)) ->
  let r := foldl (fun (rc : list key * Coordinator) k =>
             let (gone, c) := rc in
             if decide (k ∈ (reported : gset key)) then (gone, c)
             else match get_task_internal (c_state c) k.1 k.2 with
                  | Some t => (gone, send_task t w (json_string (get_task_input_metadata (c_state c) t)) c)
                  | None => (gone ++ [k], c)
                  end) ([], c) l in
  r.1 = [] /\ frame c r.2.
Proof.
  induction l as [|k l IH]; intros c Hl; cbn [foldl]; [done|].
  destruct (Hl k) as [t Ht]; [by left|].
  case_decide; [apply IH; intros k' Hk'; apply Hl; by right|].
  destruct k as [pid tid]. change (get_task_internal (c_state c) (pid, tid).1 (pid, tid).2)
    with (lookup_task (s_proofs (c_state c)) (pid, tid)). rewrite Ht.
  set (c1 := send_task _ _ _ _).
  destruct (IH c1) as [Hg Hfr]; [intros k' Hk'; apply Hl; by right|].
  split; [done|]. etrans; [|done]. done.
Qed.
End steps.
