(* ===== verification/CoordLifecycle.v ===== *)
(** * Heartbeats, worker removal, failures and shutdown preserve the invariant *)
From stdpp Require Import base gmap strings list relations.
From S2P Require Import Prelude Proto TaskChannel CoordState Coordinator AssignSpec CoordInv CoordSteps.
Local Open Scope string_scope.
Local Open Scope list_scope.
Local Open Scope Z_scope.
Local Open Scope handler_scope.

Section lifecycle.
Context `{EO : ClusterEnvOk} {PT : PolicyTypes} {AP : AssignmentPolicy} {L : PolicyLaws AP}.
Context (W : Z) (HW : 0 <= W).

Abbreviation InvX := (CoordInv.InvX W).
Abbreviation Inv := (CoordInv.Inv W).
Abbreviation InvC := (CoordSteps.InvC W).
Abbreviation safe := (CoordSteps.safe W).

(** *** [handle_heartbeat] *)
Lemma heartbeat_worker_ok c wid w0 now :
  Inv c -> s_workers (c_state c) !! wid = Some w0 ->
  worker_ok W (s_proofs (c_state c)) ∅ (s_shutting_down (c_state c)) wid
    (set_w_weight (assigned_weight (c_state c) (w_active_tasks w0)) (set_w_last_heartbeat now w0)).
Proof.
  intros HI Hw. destruct (ix_workers HI _ _ Hw) as [? ? ? Hwt ?].
  constructor; simpl; try done. intros Hd.
  rewrite (assigned_weight_exact W HW _ _ _ _ HI Hw Hd). auto.
Qed.

Lemma handle_heartbeat_safe wid pids tids cw c : Inv c -> safe (handle_heartbeat wid pids tids cw c).
Proof.
  intros HI. unfold handle_heartbeat.
  destruct (s_workers (c_state c) !! wid) as [w0|] eqn:Hw; [|done].
  rewrite since_epoch_ok. cbn [bind].
  set (w1 := set_w_last_heartbeat (as_secs (clock (c_tick c))) w0).
  set (c1 := with_state (insert_worker wid w1) (tick c)).
  assert (HI1 : Inv c1).
  { unfold CoordInv.Inv, c1. simpl. eapply InvX_worker; [|exact Hw| |done|done].
    - eapply InvX_tick; [exact HI|lia].
    - destruct (ix_workers HI _ _ Hw). by constructor. }
  assert (Hw1 : s_workers (c_state c1) !! wid = Some w1) by apply lookup_insert_eq.
  set (c2 := cancel_unexpected w1 _ c1).
  assert (Hfr2 : frame c1 c2) by apply cancel_unexpected_frame.
  unfold resend_missing.
  destruct (resend_missing_none w1 (list_to_set (zip pids tids)) (iter_keys (w_active_tasks w1)) c2) as [Hg Hfr3].
  { intros k Hk%elem_of_iter_keys. rewrite (fr_state _ _ Hfr2).
    destruct (wo_held (ix_workers HI1 _ _ Hw1) _ Hk) as (t & Ht & _). eauto. }
  destruct (foldl _ ([], c2) _) as [gone c3]. simpl in Hg, Hfr3. subst gone.
  assert (Hfr : frame c1 c3) by by etrans.
  assert (HI3 : Inv c3) by by eapply Inv_frame.
  assert (Hw3 : s_workers (c_state c3) !! wid = Some w1) by by rewrite (fr_state _ _ Hfr).
  set (w4 := set_w_active_tasks _ _).
  assert (Ha4 : w_active_tasks w4 = w_active_tasks w1) by (unfold w4; simpl; set_solver).
  set (c4 := with_state (insert_worker wid w4) c3).
  assert (HI4 : InvX (s_proofs (c_state c4)) ∅ (c_state c4) (c_tick c4)).
  { unfold c4. simpl. eapply InvX_worker; [exact HI3|exact Hw3| |by rewrite Ha4|by rewrite Ha4].
    destruct (heartbeat_worker_ok c3 wid w1 (w_last_heartbeat w1) HI3 Hw3) as [? ? Hh Hwt Hd].
    constructor; rewrite ?Ha4; try done. }
  pose proof (wo_id (ix_workers HI3 _ _ Hw3)) as Hid.
  destruct (settle_empty_inv W _ ∅ (c_state c4) (c_tick c4) wid w4 HI4) as [HI5 Hsh];
    [by unfold c4; simpl; rewrite lookup_insert_eq|].
  assert (Hid4 : w_id w4 = wid) by exact Hid.
  assert (HI6 : Inv (with_state (settle_empty (w_id w4) w4) c4)).
  { rewrite Hid4. unfold CoordInv.Inv, with_state. cbn [c_state c_tick set_c_state]. by rewrite (sh_proofs _ _ Hsh). }
  destruct (negb _ || _); [|done].
  by destruct (assign_tasks_inv W _ HW HI6) as (c7 & -> & HI7 & _).
Qed.

(** *** Removing a worker *)
Lemma InvX_delete_worker X s n wid w :
  InvX (s_proofs s) X s n -> s_workers s !! wid = Some w ->
  let s' := set_s_workers (delete wid (s_workers s)) s in
  InvX (s_proofs s') (w_active_tasks w ∪ X) s' n /\
  (forall k, k ∈ w_active_tasks w -> ~ held s' k /\ k ∉ queued_keys s' /\ is_Some (lookup_task (s_proofs s) k)).
Proof.
  intros HI Hw s'.
  assert (Hh : forall k, held s' k -> held s k).
  { intros k (wid2 & w2 & H2 & Hk). simpl in H2. apply lookup_delete_Some in H2 as [_ H2]. by exists wid2, w2. }
  pose proof (InvX_exempt W _ X (w_active_tasks w ∪ X) s n HI ltac:(set_solver)) as HI'.
  split.
  - constructor; simpl; try apply HI'.
    + intros wid2 w2 H2. apply lookup_delete_Some in H2 as [_ H2]. by apply HI'.
    + intros k Hk Hhk. apply (ix_queue_free HI' k Hk). auto.
    + intros k t Hd Ht Hf Hs Hx. destruct (ix_covered HI' k t) as [(wid2 & w2 & H2 & Hk)|]; [done..| |by right].
      left. exists wid2, w2. simpl. rewrite lookup_delete_ne; [done|]. intros ->. simplify_eq. set_solver.
  - intros k Hk. split_and!.
    + intros (wid2 & w2 & H2 & Hk2). simpl in H2. apply lookup_delete_Some in H2 as [Hne H2].
      apply Hne. by eapply (held_unique W); [exact HI|exact Hw|..].
    + intros Hq. apply (ix_queue_free HI k Hq). by exists wid, w.
    + destruct (wo_held (ix_workers HI _ _ Hw) _ Hk) as (t & Ht & _). eauto.
Qed.

(** The tasks of [G] are all in [G'], with the same data and status. *)
Definition kept (G G' : gmap string Proof) : Prop :=
  forall k t, lookup_task G k = Some t ->
  exists t', lookup_task G' k = Some t' /\ t_status t' = t_status t /\ same_task t t'.

#[local] Instance kept_preorder : PreOrder kept.
Proof.
  split; [intros G k t Ht; by exists t|].
  intros G1 G2 G3 H12 H23 k t Ht. destruct (H12 _ _ Ht) as (t2 & Ht2 & ? & [? ?]).
  destruct (H23 _ _ Ht2) as (t3 & ? & ? & [? ?]). exists t3. split_and!; [done|congruence|split; congruence].
Qed.

(** One of the removed worker's tasks goes back to the queue. *)
Lemma requeue_one_inv X c k :
  InvC (s_proofs (c_state c)) X c -> k ∈ X ->
  ~ held (c_state c) k -> k ∉ queued_keys (c_state c) -> is_Some (lookup_task (s_proofs (c_state c)) k) ->
  exists c', requeue_one (Ok tt, c) k = (Ok tt, c') /\
    InvC (s_proofs (c_state c')) (X ∖ {[k]}) c' /\
    s_workers (c_state c') = s_workers (c_state c) /\
    s_shutting_down (c_state c') = s_shutting_down (c_state c) /\
    kept (s_proofs (c_state c)) (s_proofs (c_state c')) /\
    (forall k', k' <> k -> k' ∈ queued_keys (c_state c') <-> k' ∈ queued_keys (c_state c)).
Proof.
  intros HI Hx Hnh Hnq [t Ht]. destruct (lookup_task_Some _ _ _ Ht) as (p & Hp & Hpt).
  unfold requeue_one. cbn [bind]. rewrite Hp, Hpt.
  set (t' := set_t_dead_worker_requeue_count _ t).
  set (p' := set_p_tasks (<[k.2 := t']> (p_tasks p)) p).
  set (s1 := insert_proof k.1 p' (c_state c)).
  assert (HI1 : InvX (s_proofs s1) X s1 (c_tick c)).
  { destruct k as [pid tid]. eapply (InvX_update W X _ _ pid p tid t t'); try done.
    - constructor; unfold p'; simpl; [done..|]. lia.
    - apply (to_retries (lookup_task_ok W _ _ _ _ _ _ HI Ht)). }
  set (s2 := post_task_update_state s1 _ _ _ _ _ _).
  assert (Hpo : policy_only queued policy_wf s1 s2) by apply task_update_law.
  pose proof (InvX_policy W _ _ _ _ _ Hpo HI1) as HI2.
  destruct Hpo as (q & Hs2 & _ & Hq).
  assert (Hl2 : lookup_task (s_proofs s2) k = Some t').
  { rewrite Hs2. unfold lookup_task, s1. simpl. rewrite lookup_insert_eq. simpl. apply lookup_insert_eq. }
  assert (Hk2 : forall k', k' ∈ queued_keys s2 <-> k' ∈ queued_keys (c_state c)).
  { intros k'. unfold queued_keys. rewrite Hs2. simpl. by rewrite Hq. }
  assert (Hw2 : s_workers s2 = s_workers (c_state c)) by by rewrite Hs2.
  assert (Hnh2 : ~ held s2 k) by (unfold held; by rewrite Hw2).
  destruct (InvX_enqueue W _ _ _ _ k t' t' HI2 Hl2) as (q3 & Henq & HI3); [done|done|by rewrite Hk2|].
  rewrite Henq. eexists. split; [done|]. simpl.
  split_and!.
  - unfold CoordSteps.InvC. simpl. by rewrite Hs2 in *.
  - done.
  - cbn [c_state set_c_state]. by rewrite Hs2.
  - intros k' t2. rewrite Hs2. unfold s1, p'. simpl. rewrite lookup_task_insert. unfold lookup_task.
    destruct (decide (k'.1 = k.1)) as [He|He]; [rewrite He, Hp; destruct (decide (k'.2 = k.2)) as [He2|He2]|];
      [|intros ?; by exists t2..]. rewrite He2, Hpt. intros [= <-]. by eexists.
  - intros k' Hne. destruct (lookup_task_ok W _ _ _ _ _ _ HI Ht) as [Hid Hpid _ _].
    destruct (enqueue_law s2 t') as (q4 & Henq4 & _ & Hq4); [|apply HI2|].
    { unfold lookup_task in Hl2. simpl. rewrite Hpid. destruct (s_proofs s2 !! k.1); [eauto|done]. }
    rewrite Henq in Henq4. injection Henq4 as <-.
    rewrite <- Hk2. unfold queued_keys. simpl. rewrite Hq4, fmap_app, elem_of_app. simpl.
    rewrite Hid, Hpid, <- surjective_pairing. destruct (schedulable _); simpl; set_solver.
Qed.

Lemma requeue_loop_inv l : forall X c,
  InvC (s_proofs (c_state c)) X c -> NoDup l ->
  (forall k, k ∈ l -> k ∈ X /\ ~ held (c_state c) k /\ k ∉ queued_keys (c_state c) /\
     is_Some (lookup_task (s_proofs (c_state c)) k)) ->
  exists c', foldl requeue_one (Ok tt, c) l = (Ok tt, c') /\
    InvC (s_proofs (c_state c')) (X ∖ list_to_set l) c' /\
    s_workers (c_state c') = s_workers (c_state c) /\
    s_shutting_down (c_state c') = s_shutting_down (c_state c) /\ kept (s_proofs (c_state c)) (s_proofs (c_state c')).
Proof.
  induction l as [|k l IH]; intros X c HI Hnd Hl; cbn [foldl].
  { exists c. split_and!; [done| |done|done|done]. eapply InvX_exempt; [exact HI|set_solver]. }
  inv Hnd. destruct (Hl k) as (Hx & Hnh & Hnq & Ht); [by left|].
  destruct (requeue_one_inv X c k HI Hx Hnh Hnq Ht) as (c1 & -> & HI1 & Hw1 & Hd1 & Hkept1 & Hk1).
  destruct (IH _ c1 HI1) as (c2 & -> & HI2 & Hw2 & Hd2 & Hkept2); [done| |].
  - intros k' Hk'. destruct (Hl k') as (? & ? & ? & [t' Ht']); [by right|].
    assert (k' <> k) by (intros ->; done). destruct (Hkept1 _ _ Ht') as (t2 & ? & _).
    split_and!; [set_solver|unfold held; by rewrite Hw1|by rewrite Hk1|by eexists].
  - exists c2. split_and!; [done| |congruence|congruence|by etrans]. eapply InvX_exempt; [exact HI2|set_solver].
Qed.

Lemma remove_worker_internal_inv wid c :
  Inv c -> exists c', remove_worker_internal wid c = (Ok tt, c') /\ Inv c' /\
    s_workers (c_state c') = delete wid (s_workers (c_state c)) /\
    s_shutting_down (c_state c') = s_shutting_down (c_state c) /\
    kept (s_proofs (c_state c)) (s_proofs (c_state c')).
Proof.
  intros HI. unfold remove_worker_internal.
  destruct (s_workers (c_state c) !! wid) as [w|] eqn:Hw;
    [|exists c; split_and!; [done..|by rewrite delete_id|done|done]].
  destruct (InvX_delete_worker ∅ _ _ wid w HI Hw) as [HI1 Hk].
  set (c1 := with_state _ c).
  destruct (requeue_loop_inv (iter_keys (w_active_tasks w)) (w_active_tasks w ∪ ∅) c1)
    as (c2 & -> & HI2 & Hw2 & Hd2 & Hkept).
  - exact HI1.
  - apply NoDup_iter_keys.
  - intros k Hin%elem_of_iter_keys. split; [set_solver|]. by apply Hk.
  - simpl. destruct (worker_empty_law (c_state c2) w) as [Hpo _].
    destruct (policy_only_shrinks _ _ Hpo) as [Hps _ _]. eexists. split_and!; [done| |..]; simpl.
    2:{ by destruct Hpo as (q & -> & _). }
    2:{ by destruct Hpo as (q & -> & _). }
    2:{ by rewrite Hps. }
    apply Inv_policy; [done|]. eapply InvX_exempt; [exact HI2|]. intros k. rewrite elem_of_difference, elem_of_list_to_set, elem_of_iter_keys.
    set_solver.
Qed.

Lemma remove_worker_safe wid c : Inv c -> safe (remove_worker wid c).
Proof.
  intros HI. unfold remove_worker. destruct (remove_worker_internal_inv wid c HI) as (c1 & -> & HI1 & _).
  cbn [bind]. by destruct (assign_tasks_inv W _ HW HI1) as (c2 & -> & HI2 & _).
Qed.

Lemma reap_workers_safe dead c : Inv c -> safe (reap_workers dead c).
Proof.
  intros HI. unfold reap_workers.
  assert (exists c', foldl (fun oc id => let? (_, c) := oc in remove_worker_internal id c) (Ok tt, c) dead
            = (Ok tt, c') /\ Inv c') as (c1 & -> & HI1).
  { revert c HI. induction dead as [|id dead IH]; intros c HI; cbn [foldl bind]; [by exists c|].
    destruct (remove_worker_internal_inv id c HI) as (c1 & -> & HI1 & _). by apply IH. }
  cbn [bind]. by destruct (assign_tasks_inv W _ HW HI1) as (c2 & -> & HI2 & _).
Qed.

Lemma Inv_tick c : Inv c -> Inv (tick c).
Proof. intros HI. apply (Inv_frame W c); [|done]. split; [done|simpl; lia]. Qed.

Lemma cleanup_dead_workers_safe c : Inv c -> safe (cleanup_dead_workers c).
Proof.
  intros HI%Inv_tick. unfold cleanup_dead_workers. rewrite since_epoch_ok. cbn [bind].
  case_decide; [done|by apply reap_workers_safe].
Qed.

(** *** Removing a proof *)
Definition assigned (s : CoordinatorState) (wid : string) (k : key) : Prop :=
  exists w, s_workers s !! wid = Some w /\ k ∈ w_active_tasks w.

Lemma settle_empty_assigned s wid w wid2 k :
  s_workers s !! wid = Some w -> assigned s wid2 k -> assigned (settle_empty wid w s) wid2 k.
Proof.
  intros Hw (w2 & Hw2 & Hk). unfold settle_empty. case_decide as He; [|by exists w2].
  destruct (post_worker_empty_shape s w) as ((q & Hs & _) & _ & _ & _ & Ha).
  destruct (post_worker_empty s w) as [s1 w1]. simpl in *. subst s1.
  unfold assigned. simpl. destruct (decide (wid2 = wid)) as [->|Hne].
  - exists w1. rewrite lookup_insert_eq. split; [done|]. rewrite Ha. by simplify_eq.
  - exists w2. by rewrite lookup_insert_ne.
Qed.

Lemma policy_only_assigned s s' wid k :
  policy_only queued policy_wf s s' -> assigned s wid k -> assigned s' wid k.
Proof. by intros (q & -> & _). Qed.

(** The reporting worker's own assignment is left to its report. *)
Lemma release_one_keeps G X proof pid r c tid2 t2 wid tid :
  InvC G X c -> G !! pid = Some proof -> p_tasks proof !! tid2 = Some t2 ->
  assigned (c_state c) wid (pid, tid) ->
  assigned (c_state (release_one proof pid (Some (wid, tid)) (r, c) (tid2, t2)).2) wid (pid, tid).
Proof.
  intros HI HG Ht Has. unfold release_one. simpl.
  assert (Hlt : lookup_task G (pid, tid2) = Some t2) by (unfold lookup_task; simpl; by rewrite HG).
  pose proof (to_id (lookup_task_ok _ _ _ _ _ _ _ HI Hlt)) as Hid. simpl in Hid.
  destruct (t_worker t2) as [owner|] eqn:Hown; [|done].
  case_decide as Hskip; [done|].
  destruct (s_workers (c_state c) !! owner) as [w|] eqn:Hw; [|done].
  case_decide as Hk; [|done]. rewrite Hid in *. simpl.
  eapply policy_only_assigned; [apply task_update_law|].
  assert (Hne : tid2 <> tid).
  { intros ->. destruct Has as (w2 & Hw2 & Hk2).
    destruct (wo_held (ix_workers HI _ _ Hw2) _ Hk2) as (t3 & ? & ? & _). congruence. }
  rewrite (wo_id (ix_workers HI _ _ Hw)).
  apply settle_empty_assigned; [simpl; by rewrite lookup_insert_eq|].
  destruct Has as (w2 & Hw2 & Hk2). unfold assigned. simpl.
  destruct (decide (wid = owner)) as [->|Hne2].
  - eexists. rewrite lookup_insert_eq. split; [done|]. simplify_eq. simpl. set_solver.
  - exists w2. by rewrite lookup_insert_ne.
Qed.
#[local] Arguments release_one : simpl never.

Lemma release_loop_keeps G X proof pid wid tid l : forall r c,
  InvC G X c -> s_proofs (c_state c) !! pid = None -> G !! pid = Some proof ->
  (forall tid t, (tid, t) ∈ l -> p_tasks proof !! tid = Some t) ->
  assigned (c_state c) wid (pid, tid) ->
  assigned (c_state (foldl (release_one proof pid (Some (wid, tid))) (r, c) l).2) wid (pid, tid).
Proof.
  induction l as [|[tid2 t2] l IH]; intros r c HI Hnone HG Hl Has; cbn [foldl]; [done|].
  assert (Ht2 : p_tasks proof !! tid2 = Some t2) by (apply Hl; by left).
  destruct (release_one_inv W HW G X pid proof (Some (wid, tid)) r c tid2 t2) as (HI1 & Hsh1 & _); [done..|].
  pose proof (release_one_keeps G X proof pid r c tid2 t2 wid tid HI HG Ht2 Has) as Has1.
  destruct (release_one _ _ _ _ _) as [r1 c1]. simpl in *.
  apply IH; [done|by rewrite (sh_proofs _ _ Hsh1)|done| |done]. intros tid3 t3 Hin. apply Hl. by right.
Qed.

(** [c'] is [c] after the removal of proof [pid], which only [skip] may still be
    working on. *)
Record removal (G : gmap string Proof) (X : gset key) (pid : string) (skip : option (string * string))
    (c c' : Coordinator) : Prop := {
  rm_inv : InvC G X c';
  rm_proofs : s_proofs (c_state c') = delete pid G;
  rm_down : s_shutting_down (c_state c') = s_shutting_down (c_state c);
  rm_left : forall k wid w, k.1 = pid -> s_workers (c_state c') !! wid = Some w -> k ∈ w_active_tasks w ->
    skip = Some (wid, k.2);
  rm_keeps : forall wid tid, skip = Some (wid, tid) ->
    assigned (c_state c) wid (pid, tid) -> assigned (c_state c') wid (pid, tid);
}.

Lemma release_removal G X pid proof skip c c' :
  InvC G X c -> G !! pid = Some proof -> s_proofs (c_state c) = delete pid G ->
  frame (release_remaining_assignments proof pid skip c).2 c' -> removal G X pid skip c c'.
Proof.
  intros HI HG Hp Hfr.
  assert (HGe : <[pid := proof]> (s_proofs (c_state c)) = G) by by rewrite Hp, insert_delete_id.
  assert (Hnone : s_proofs (c_state c) !! pid = None) by by rewrite Hp, lookup_delete_eq.
  destruct (release_all_inv W HW X pid proof skip c) as (HI1 & Hsh & Hall); [by rewrite HGe|done|].
  rewrite HGe in HI1. constructor; [by eapply InvC_frame|rewrite (fr_state _ _ Hfr)..].
  - by rewrite (sh_proofs _ _ Hsh).
  - apply Hsh.
  - done.
  - intros wid tid -> Has. apply (release_loop_keeps G X); [done..| |done].
    intros tid2 t2 Hin. by apply elem_of_iter_map in Hin.
Qed.

(** The first half of a removal: the policy is told and the entry deleted. *)
Lemma removal_start X pid c :
  InvC (s_proofs (c_state c)) X c ->
  let c' := with_state (delete_proof pid) (with_state (fun s => on_proof_deleted s pid) c) in
  InvC (s_proofs (c_state c)) X c' /\
  s_proofs (c_state c') = delete pid (s_proofs (c_state c)) /\
  s_proofs (on_proof_deleted (c_state c) pid) = s_proofs (c_state c) /\
  s_workers (c_state c') = s_workers (c_state c) /\
  s_shutting_down (c_state c') = s_shutting_down (c_state c).
Proof.
  intros HI c'. destruct (proof_deleted_law (c_state c) pid) as (q & Hq & Hlaw).
  assert (HI1 : InvC (s_proofs (c_state c)) X c').
  { apply InvX_delete_proof. eapply InvX_policy; [|exact HI]. by exists q. }
  split_and!; [done|..]; unfold c'; simpl; by rewrite Hq.
Qed.

Lemma remove_finished_removal X pid proof skip c :
  InvC (s_proofs (c_state c)) X c -> s_proofs (c_state c) !! pid = Some proof ->
  removal (s_proofs (c_state c)) X pid skip c (remove_finished_proof pid skip c).2.
Proof.
  intros HI Hp. destruct (removal_start X pid c HI) as (HI1 & Hp1 & Hpe & Hw1 & Hd1).
  unfold remove_finished_proof. simpl. rewrite Hpe, Hp. set (c1 := with_state _ (with_state _ _)) in *.
  destruct (release_removal _ X pid proof skip c1 _ HI1 Hp Hp1 (reflexivity _)) as [? ? Hd ? Hk].
  constructor; [done|done|congruence|done|]. intros wid tid Hs Has. apply Hk; [done|]. unfold assigned. by rewrite Hw1.
Qed.

Lemma tear_down_frame pid proof ns ex skip tx c :
  exists c1, frame c c1 /\
    frame (release_remaining_assignments proof pid skip c1).2 (tear_down pid proof ns ex skip tx c).
Proof.
  exists (foldl (fun c (kt : string * Task) =>
            if decide (t_subscribers kt.2 = ∅) then c
            else notify_subscribers (t_subscribers kt.2) (t_id kt.2) FailedFatal c)
          c (iter_map (p_tasks proof))).
  split.
  2:{ unfold tear_down. destruct (release_remaining_assignments _ _ _ _) as [r c2]. cbn [snd].
      trans (foldl (fun c (kt : string * Task) => close_task_channel (t_id kt.2) c) c2 (iter_map (p_tasks proof))).
      - apply foldl_frame. auto with frame.
      - destruct ns; [auto with frame|reflexivity]. }
  apply foldl_frame. intros c' kt. case_decide; [done|auto with frame].
Qed.

Lemma fail_proof_internal_removal X pid ns ex skip blamed proof c :
  InvC (s_proofs (c_state c)) X c -> s_proofs (c_state c) !! pid = Some proof ->
  s_shutting_down (c_state c) = false -> vet_blamed (c_state c) pid blamed = None ->
  exists c', fail_proof_internal pid blamed ns ex skip c = (Ok tt, c') /\
    removal (s_proofs (c_state c)) X pid skip c c'.
Proof.
  intros HI Hp Hd Hv. destruct (removal_start X pid c HI) as (HI1 & Hp1 & Hpe & Hw1 & Hd1).
  unfold fail_proof_internal. rewrite Hd, Hv. simpl. rewrite Hpe, Hp.
  set (c1 := with_state _ (with_state _ _)) in *. eexists. split; [done|].
  destruct (tear_down_frame pid proof ns ex skip (s_proofs_tx (c_state c)) c1) as (c2 & Hfr2 & Hfr3).
  pose proof (fr_state _ _ Hfr2) as Hs2.
  destruct (release_removal _ X pid proof skip c2 _ (InvC_frame _ _ _ _ _ Hfr2 HI1) Hp
              (eq_trans (f_equal s_proofs Hs2) Hp1) Hfr3) as [? ? Hd3 ? Hk].
  constructor; [done|done|by rewrite Hd3, Hs2, Hd1|done|].
  intros wid tid Hs Has. apply Hk; [done|]. rewrite Hs2. unfold assigned. by rewrite Hw1.
Qed.

Lemma removal_Inv pid c c' : removal (s_proofs (c_state c)) ∅ pid None c c' -> Inv c'.
Proof.
  intros [HI Hp _ Hleft _]. unfold CoordInv.Inv. rewrite Hp. eapply InvX_shrink; [exact HI| |].
  - by rewrite Hp, lookup_delete_eq.
  - intros k (wid & w & Hw & Hk) He. by specialize (Hleft k wid w He Hw Hk).
Qed.

Lemma fail_proof_internal_safe pid blamed ns ex c :
  Inv c -> safe (fail_proof_internal pid blamed ns ex None c).
Proof.
  intros HI. destruct (s_shutting_down (c_state c)) eqn:Hd; [unfold fail_proof_internal; by rewrite Hd|].
  destruct (vet_blamed (c_state c) pid blamed) as [r|] eqn:Hv.
  - unfold fail_proof_internal. rewrite Hd, Hv. split; [done|]. simpl.
    unfold vet_blamed in Hv. by repeat case_match; simplify_eq.
  - destruct (s_proofs (c_state c) !! pid) as [proof|] eqn:Hp.
    + destruct (fail_proof_internal_removal ∅ pid ns ex None blamed proof c HI Hp Hd Hv) as (c' & -> & Hr).
      split; [by eapply removal_Inv|done].
    + destruct (removal_start ∅ pid c HI) as (HI1 & Hp1 & Hpe & _).
      unfold fail_proof_internal. rewrite Hd, Hv. simpl. rewrite Hpe, Hp. split; [|done].
      unfold CoordInv.Inv. simpl. rewrite Hpe, delete_id by done. exact HI1.
Qed.

(** *** [fail_task] *)
Lemma assigned_running c wid w k t :
  Inv c -> s_workers (c_state c) !! wid = Some w -> k ∈ w_active_tasks w ->
  lookup_task (s_proofs (c_state c)) k = Some t ->
  t_worker t = Some wid /\ (t_status t = Running \/ t_status t = Succeeded) /\
  k ∉ queued_keys (c_state c) /\ s_shutting_down (c_state c) = false.
Proof.
  intros HI Hw Hk Ht. pose proof (ix_workers HI _ _ Hw) as Hok.
  destruct (wo_held Hok _ Hk) as (t2 & Ht2 & Hown & Hst). simplify_eq. split_and!; [done|set_solver|..].
  - intros Hq. apply (ix_queue_free HI _ Hq). by exists wid, w.
  - destruct (s_shutting_down (c_state c)) eqn:Hd; [|done]. pose proof (wo_down Hok eq_refl). set_solver.
Qed.

Lemma fail_succeeded_task_run wid w pid tid proof t c :
  Inv c -> s_workers (c_state c) !! wid = Some w -> (pid, tid) ∈ w_active_tasks w ->
  s_proofs (c_state c) !! pid = Some proof -> p_tasks proof !! tid = Some t -> t_status t = Succeeded ->
  exists c3 c', fail_succeeded_task wid pid tid proof t c = (Ok tt, c') /\ Inv c3 /\ Inv c' /\
    rtc (assign_step queued policy_wf) c3 c' /\ s_proofs (c_state c3) = s_proofs (c_state c) /\
    (forall w', s_workers (c_state c3) !! wid = Some w' -> (pid, tid) ∉ w_active_tasks w').
Proof.
  intros HI Hw Hk Hp Ht Hst. unfold fail_succeeded_task.
  set (c1 := with_state (fun s => post_task_update_state s _ _ _ _ _ _) c).
  assert (Hpo : policy_only queued policy_wf (c_state c) (c_state c1)) by apply task_update_law.
  assert (HI1 : Inv c1) by by apply Inv_policy.
  destruct Hpo as (q & Hs1 & _). rewrite Hs1. simpl. rewrite Hw.
  assert (Hp1 : s_proofs (c_state c1) = s_proofs (c_state c)) by by rewrite Hs1.
  assert (Hw1 : s_workers (c_state c1) !! wid = Some w) by by rewrite Hs1.
  assert (Hlt : lookup_task (s_proofs (c_state c1)) (pid, tid) = Some t)
    by (rewrite Hp1; unfold lookup_task; simpl; by rewrite Hp).
  destruct (settle_completion_inv W HW (s_proofs (c_state c1)) ∅ (c_state c1) (c_tick c1) wid (pid, tid)
    (weight (t_data t))) as (HI2 & Hsh & Hno).
  { exact HI1. }
  { unfold key_weight. by rewrite Hlt. }
  { intros t2 Ht2. simplify_eq. by rewrite Hst. }
  unfold settle_completion in HI2, Hsh, Hno. rewrite Hw1, decide_True in HI2, Hsh, Hno by done. simpl in HI2, Hsh, Hno.
  set (c3 := with_state _ c1).
  assert (HI3 : Inv c3) by (unfold CoordInv.Inv; simpl; rewrite (sh_proofs _ _ Hsh); exact HI2).
  destruct (assign_tasks_inv W _ HW HI3) as (c4 & -> & HI4 & Hrtc).
  exists c3, c4. split_and!; try done. unfold c3. simpl. by rewrite (sh_proofs _ _ Hsh).
Qed.

(** The status change of [fail_task]; the task's key is exempt until its slot
    is released. *)
Lemma fail_update_inv c wid w pid proof tid t retryable :
  Inv c -> s_workers (c_state c) !! wid = Some w -> (pid, tid) ∈ w_active_tasks w ->
  s_proofs (c_state c) !! pid = Some proof -> p_tasks proof !! tid = Some t -> t_status t <> Succeeded ->
  let status := fail_status retryable t in
  let active :=
    if decide (status = FailedFatal)
    then if decide (t_status t = FailedFatal) then p_active_tasks proof
         else Int.wsub u32 (p_active_tasks proof) 1
    else p_active_tasks proof in
  let retries := if decide (status = FailedRetryable) then Int.wadd u8 (t_retries t) 1 else t_retries t in
  let t' := set_t_status status (set_t_retries retries t) in
  let proof' := set_p_active_tasks active (set_p_tasks (<[tid := t']> (p_tasks proof)) proof) in
  let s' := insert_proof pid proof' (c_state c) in
  InvX (s_proofs s') {[(pid, tid)]} s' (c_tick c) /\
  (status = FailedFatal \/ (status = FailedRetryable /\ active <> 0 /\ manual_proof_fail retryable t = false)).
Proof.
  intros HI Hw Hk Hp Ht Hns status active retries t' proof' s'.
  assert (Hlt : lookup_task (s_proofs (c_state c)) (pid, tid) = Some t) by (unfold lookup_task; simpl; by rewrite Hp).
  destruct (assigned_running c wid w _ t HI Hw Hk Hlt) as (Hown & [Hrun|?] & Hnq & Hd); [|done].
  pose proof (lookup_task_ok _ _ _ _ _ _ _ HI Hlt) as Htok. pose proof (to_retries Htok) as Hr.
  pose proof (ix_proofs HI _ _ Hp) as Hpok.
  assert (Hlive : 1 <= p_active_tasks proof < Int.modulus u32).
  { rewrite (po_active Hpok). pose proof (live_count_bounds (p_tasks proof)). pose proof (po_size Hpok).
    assert (1 <= live_count (p_tasks proof)); [|lia]. eapply live_count_lookup; [done|by rewrite Hrun]. }
  assert (Hst : status = FailedFatal \/ (status = FailedRetryable /\ t_retries t <> MAX_TASK_RETRIES /\ retryable = true)).
  { unfold status, fail_status. destruct retryable; [|by left].
    destruct (Z.eqb_spec (t_retries t) MAX_TASK_RETRIES); [by left|by right]. }
  split.
  - apply (InvX_update W {[(pid, tid)]} _ _ pid proof tid t t'); try done.
    + eapply InvX_exempt; [exact HI|set_solver].
    + constructor; unfold proof', active; simpl; [done..|]. rewrite Hrun. simpl.
      destruct Hst as [->|[-> _]]; simpl; [|lia].
      rewrite Int.wsub_small by (unfold Int.in_range; lia). lia.
    + unfold t', retries. simpl. destruct Hst as [->|(-> & ? & _)]; simpl; [done|].
      unfold MAX_TASK_RETRIES in *.
      rewrite Int.wadd_small; [lia|]. unfold Int.in_range, Int.modulus. lia.
    + intros _. split; [done|]. left. set_solver.
    + by rewrite Hrun.
  - destruct Hst as [?|(Hs & Hne & ->)]; [by left|right]. split_and!; [done| |].
    + unfold active. rewrite Hs, decide_False by done. lia.
    + unfold manual_proof_fail. simpl. destruct (Z.eqb_spec (t_retries t) MAX_TASK_RETRIES); [done|].
      by rewrite andb_false_r.
Qed.

(** Taking the failed task off its worker: nobody holds it any more. *)
Lemma fail_release_inv G c wid k t pe te :
  InvC G {[k]} c -> assigned (c_state c) wid k -> lookup_task G k = Some t ->
  let c1 := with_state (fun s => post_task_update_state s pe k.2 te (weight (t_data t)) k.1
                                   (task_type (t_data t))) c in
  exists w, s_workers (c_state c1) !! wid = Some w /\
    let s2 := insert_worker wid (unassign k (weight (t_data t)) w) (c_state c1) in
    InvX G {[k]} s2 (c_tick c) /\ ~ held s2 k /\ k ∉ queued_keys s2 /\
    s_proofs s2 = s_proofs (c_state c) /\ s_shutting_down s2 = s_shutting_down (c_state c) /\
    (forall k' wid' w', s_workers s2 !! wid' = Some w' -> k' ∈ w_active_tasks w' ->
       k' <> k /\ assigned (c_state c) wid' k').
Proof.
  intros HI (w & Hw & Hk) Hlt c1.
  assert (Hpo : policy_only queued policy_wf (c_state c) (c_state c1)) by apply task_update_law.
  pose proof (InvX_policy W _ _ _ _ _ Hpo HI) as HI1.
  destruct Hpo as (q & Hs1 & _ & Hq).
  assert (Hw1 : s_workers (c_state c1) !! wid = Some w) by by rewrite Hs1.
  exists w. split; [done|]. intros s2.
  assert (Hnh : ~ held s2 k) by by eapply unassigned_not_held.
  split_and!.
  - eapply InvX_unassign; [exact HI1|done..| |set_solver]. unfold key_weight. by rewrite Hlt.
  - done.
  - intros Hin. apply (ix_queue_free HI1 k); [exact Hin|]. by exists wid, w.
  - change (s_proofs (c_state c1) = s_proofs (c_state c)). by rewrite Hs1.
  - change (s_shutting_down (c_state c1) = s_shutting_down (c_state c)). by rewrite Hs1.
  - intros k' wid' w' Hw' Hk'. split; [intros ->; apply Hnh; by exists wid', w'|].
    change (<[wid := unassign k (weight (t_data t)) w]> (s_workers (c_state c1)) !! wid' = Some w') in Hw'.
    apply lookup_insert_Some in Hw' as [[<- <-]|[_ Hw']].
    + exists w. split; [done|]. simpl in Hk'. set_solver.
    + exists w'. split; [|done]. by rewrite Hs1 in Hw'.
Qed.

Lemma fail_tail_inv G c wid pid tid t pe te :
  InvC G {[(pid, tid)]} c -> assigned (c_state c) wid (pid, tid) -> lookup_task G (pid, tid) = Some t ->
  (s_proofs (c_state c) = G \/
   (s_proofs (c_state c) = delete pid G /\
    forall k wid' w, k.1 = pid -> s_workers (c_state c) !! wid' = Some w -> k ∈ w_active_tasks w ->
      Some (wid, tid) = Some (wid', k.2))) ->
  t_status t = FailedFatal \/ (t_status t = FailedRetryable /\ s_proofs (c_state c) = G) ->
  exists c',
    (let c := with_state (fun s => post_task_update_state s pe tid te (weight (t_data t)) pid
                                     (task_type (t_data t))) c in
     let c := match s_workers (c_state c) !! wid with
              | Some w => with_state (insert_worker wid (unassign (pid, tid) (weight (t_data t)) w)) c
              | None => c
              end in
     if decide (t_status t = FailedRetryable)
     then match enqueue_task (c_state c) t with
          | Some s => (Ok tt, set_c_state s c)
          | None => (Panic, c)
          end
     else (Ok tt, c)) = (Ok tt, c') /\ Inv c' /\
    s_proofs (c_state c') = s_proofs (c_state c) /\ ~ held (c_state c') (pid, tid) /\
    s_shutting_down (c_state c') = s_shutting_down (c_state c).
Proof.
  intros HI Has Hlt Hcase Hst.
  destruct (fail_release_inv G c wid (pid, tid) t pe te HI Has Hlt) as (w & Hw & HI2 & Hnh & Hnq & Hp2 & Hd2 & Hheld).
  cbn [fst snd] in Hw, HI2, Hnh, Hnq, Hp2, Hd2, Hheld. cbv zeta. rewrite Hw.
  set (s2 := insert_worker wid _ _) in *.
  destruct Hst as [Hf|[Hr Hg]].
  - rewrite decide_False by congruence. eexists. split; [done|]. split; [|by split_and!]. unfold CoordInv.Inv.
    change (InvX (s_proofs s2) ∅ s2 (c_tick c)). rewrite Hp2. assert (HI3 : InvX G ∅ s2 (c_tick c)).
    { apply (InvX_settled W G ∅ s2 _ (pid, tid)); [by eapply InvX_exempt; [exact HI2|set_solver]|done|].
      rewrite Hp2. intros t2 Ht2. left. destruct Hcase as [Hg|[Hg _]].
      - rewrite Hg in Ht2. simplify_eq. by rewrite Hf.
      - rewrite Hg in Ht2. unfold lookup_task in Ht2. simpl in Ht2. by rewrite lookup_delete_eq in Ht2. }
    destruct Hcase as [->|[Hg Hleft]]; [done|]. rewrite Hg. apply InvX_shrink; [done| |].
    + by rewrite Hp2, Hg, lookup_delete_eq.
    + intros k (wid' & w' & Hw' & Hk') He. destruct (Hheld _ _ _ Hw' Hk') as [Hne (w0 & Hw0 & Hk0)].
      specialize (Hleft k wid' w0 He Hw0 Hk0). destruct k; simpl in *; congruence.
  - rewrite decide_True by done.
    destruct (InvX_enqueue W G {[(pid, tid)]} s2 (c_tick c) (pid, tid) t t) as (q & Hq & HI3); [done| |done..|].
    { by rewrite Hp2, Hg. }
    change (c_state (with_state _ _)) with s2. rewrite Hq. eexists. split; [done|].
    split; [|by split_and!]. unfold CoordInv.Inv. cbn [c_state set_c_state set_s_policy s_proofs].
    rewrite Hp2, Hg. eapply InvX_exempt; [exact HI3|set_solver].
Qed.

(** What happens to the proof of a failed task: it stays, or it is removed. *)
Lemma fail_middle_inv c wid pid tid proof active manual :
  InvC (s_proofs (c_state c)) {[(pid, tid)]} c -> s_proofs (c_state c) !! pid = Some proof ->
  s_shutting_down (c_state c) = false -> assigned (c_state c) wid (pid, tid) ->
  exists c',
    (let c := if negb manual && (active =? 0)
              then (remove_finished_proof pid (Some (wid, tid)) c).2 else c in
     if manual then fail_proof_internal pid None true None (Some (wid, tid)) c else (Ok tt, c)) = (Ok tt, c') /\
    InvC (s_proofs (c_state c)) {[(pid, tid)]} c' /\ assigned (c_state c') wid (pid, tid) /\
    s_shutting_down (c_state c') = s_shutting_down (c_state c) /\
    (manual = false -> active <> 0 -> c' = c) /\
    s_proofs (c_state c') = (if manual || (active =? 0) then delete pid (s_proofs (c_state c)) else s_proofs (c_state c)) /\
    (s_proofs (c_state c') = s_proofs (c_state c) \/
     (s_proofs (c_state c') = delete pid (s_proofs (c_state c)) /\
      forall k wid' w, k.1 = pid -> s_workers (c_state c') !! wid' = Some w -> k ∈ w_active_tasks w ->
        Some (wid, tid) = Some (wid', k.2))).
Proof.
  intros HI Hp Hd Has. destruct manual; simpl.
  - destruct (fail_proof_internal_removal _ pid true None (Some (wid, tid)) None proof c HI Hp Hd)
      as (c' & -> & [? ? ? ? Hk]); [done|]. exists c'. split_and!; [done..|by apply Hk|done|done|done|by right].
  - destruct (Z.eqb_spec active 0) as [->|Hne].
    + destruct (remove_finished_removal _ pid proof (Some (wid, tid)) c HI Hp) as [? ? ? ? Hk].
      eexists. split_and!; [done..|by apply Hk|done|done|done|by right].
    + exists c. split_and!; try done. by left.
Qed.

(** The failure of a running task as a whole: [c4] is the state the freed
    capacity is offered in, [c5] the one after the assignments. *)
Lemma fail_task_run wid w pid tid proof t retryable c :
  Inv c -> s_workers (c_state c) !! wid = Some w -> (pid, tid) ∈ w_active_tasks w ->
  s_proofs (c_state c) !! pid = Some proof -> p_tasks proof !! tid = Some t -> t_status t <> Succeeded ->
  let status := fail_status retryable t in
  exists c4 c5 c' t' proof',
    fail_task wid pid tid retryable c = (Ok tt, c') /\ Inv c4 /\ ~ held (c_state c4) (pid, tid) /\
    s_shutting_down (c_state c4) = false /\
    rtc (assign_step queued policy_wf) c4 c5 /\ frame c5 c' /\ Inv c' /\
    p_tasks proof' = <[tid := t']> (p_tasks proof) /\ t_status t' = status /\ same_task t t' /\
    t_retries t' = (if decide (status = FailedRetryable) then t_retries t + 1 else t_retries t) /\
    s_proofs (c_state c4)
    = (if manual_proof_fail retryable t || (live_count (p_tasks proof') =? 0)
       then delete pid (<[pid := proof']> (s_proofs (c_state c))) else <[pid := proof']> (s_proofs (c_state c))) /\
    (status = FailedFatal \/ (status = FailedRetryable /\ manual_proof_fail retryable t = false /\
                              live_count (p_tasks proof') <> 0)).
Proof.
  intros HI Hw Hk Hp Ht Hs. unfold fail_task. rewrite Hw, decide_True, Hp, Ht, decide_False by done.
  destruct (fail_update_inv c wid w pid proof tid t retryable HI Hw Hk Hp Ht Hs) as [HI1 Hst].
  assert (Hlt : lookup_task (s_proofs (c_state c)) (pid, tid) = Some t) by (unfold lookup_task; simpl; by rewrite Hp).
  destruct (assigned_running c wid w _ t HI Hw Hk Hlt) as (_ & _ & _ & Hd).
  pose proof (to_retries (lookup_task_ok W _ _ _ _ _ _ HI Hlt)) as Hret.
  set (status := fail_status retryable t) in *. set (active := if decide _ then _ else p_active_tasks proof) in *.
  set (t' := set_t_status status _) in *.
  set (proof' := set_p_active_tasks active _) in *.
  assert (Hact : active = live_count (p_tasks proof')).
  { apply (po_active (W := W) (pid := pid) (ix_proofs HI1 pid proof' (lookup_insert_eq _ _ _))). }
  set (c1 := with_state (insert_proof pid proof') c) in *. cbv zeta.
  set (c2 := close_task_channel tid c1).
  assert (Hfr : frame c1 c2) by apply close_task_channel_frame.
  pose proof (fr_state _ _ Hfr) as Hs2.
  assert (Hp2 : s_proofs (c_state c2) !! pid = Some proof') by (rewrite Hs2; apply lookup_insert_eq).
  assert (HI2 : InvC (s_proofs (c_state c2)) {[(pid, tid)]} c2).
  { rewrite Hs2. by eapply InvC_frame. }
  assert (Hlt2 : lookup_task (s_proofs (c_state c2)) (pid, tid) = Some t').
  { unfold lookup_task. simpl. rewrite Hp2. apply lookup_insert_eq. }
  destruct (fail_middle_inv c2 wid pid tid proof' active (manual_proof_fail retryable t))
    as (c3 & Hmid & HI3 & Has3 & Hd3 & Hstay & Hps3 & Hcase); [done|done|by rewrite Hs2|by exists w; rewrite Hs2|].
  cbv zeta in Hmid. rewrite Hmid. cbn [bind].
  destruct (fail_tail_inv _ c3 wid pid tid t' (p_extra proof') (t_extra t') HI3 Has3 Hlt2)
    as (c4 & Htail & HI4 & Hps4 & Hnh4 & Hd4).
  { by destruct Hcase as [?|?]; [left|right]. }
  { destruct Hst as [?|(? & ? & ?)]; [by left|right]. split; [done|]. by rewrite Hstay. }
  cbv zeta in Htail. change (t_status t') with status in Htail. rewrite Htail. cbn [bind].
  destruct (assign_tasks_inv W _ HW HI4) as (c5 & -> & HI5 & Hrtc). cbn [bind].
  set (c6 := if decide (status = FailedFatal) then _ else c5).
  assert (Hfr6 : frame c5 c6) by (unfold c6; destruct (decide (status = FailedFatal)); [auto with frame|done]).
  exists c4, c5, c6, t', proof'. split_and!; try done.
  - by rewrite Hd4, Hd3, Hs2.
  - by eapply Inv_frame.
  - unfold t'. cbn [t_retries set_t_status set_t_retries]. destruct (decide (status = FailedRetryable)) as [Hr|]; [|done].
    destruct Hst as [?|(_ & _ & _)]; [congruence|]. apply Int.wadd_small. unfold Int.in_range, Int.modulus, MAX_TASK_RETRIES in *. lia.
  - by rewrite Hps4, Hps3, Hs2, Hact.
  - destruct Hst as [?|(? & ? & ?)]; [by left|right]. by rewrite <- Hact.
Qed.

Lemma fail_task_safe wid pid tid retryable c : Inv c -> safe (fail_task wid pid tid retryable c).
Proof.
  intros HI. destruct (s_workers (c_state c) !! wid) as [w|] eqn:Hw; [|unfold fail_task; by rewrite Hw].
  destruct (decide ((pid, tid) ∈ w_active_tasks w)) as [Hk|Hk]; [|unfold fail_task; by rewrite Hw, decide_False].
  destruct (s_proofs (c_state c) !! pid) as [proof|] eqn:Hp; [|unfold fail_task; by rewrite Hw, decide_True, Hp].
  destruct (p_tasks proof !! tid) as [t|] eqn:Ht; [|unfold fail_task; by rewrite Hw, decide_True, Hp, Ht].
  destruct (decide (t_status t = Succeeded)) as [Hs|Hs].
  - unfold fail_task. rewrite Hw, decide_True, Hp, Ht, decide_True by done.
    destruct (fail_succeeded_task_run wid w pid tid proof t c HI Hw Hk Hp Ht Hs) as (c3 & c' & -> & _ & HI' & _). done.
  - destruct (fail_task_run wid w pid tid proof t retryable c HI Hw Hk Hp Ht Hs)
      as (c4 & c5 & c' & t' & proof' & -> & _ & _ & _ & _ & _ & HI' & _). done.
Qed.

(** *** Proofs *)
Lemma cancel_proofs_safe pids c : Inv c -> safe (cancel_proofs pids c).
Proof.
  intros HI. unfold cancel_proofs. set (c1 := foldl _ _ _).
  assert (HI1 : Inv c1).
  { unfold c1. clear c1. revert c HI. induction pids as [|pid pids IH]; intros c HI; cbn [foldl]; [done|].
    apply IH. by apply fail_proof_internal_safe. }
  by destruct (assign_tasks_inv W _ HW HI1) as (c2 & -> & HI2 & _).
Qed.

Lemma cleanup_cancel_expired_proofs_safe c : Inv c -> safe (cleanup_cancel_expired_proofs c).
Proof.
  intros HI%Inv_tick. unfold cleanup_cancel_expired_proofs. cbn [system_now].
  case_decide; [done|by apply cancel_proofs_safe].
Qed.

Lemma complete_proof_safe pid ex c : Inv c -> safe (complete_proof pid ex c).
Proof.
  intros HI. unfold complete_proof. destruct (s_proofs (c_state c) !! pid); [|done].
  split; [|done]. cbn [snd]. eapply Inv_frame; [|exact HI]. auto with frame.
Qed.

(** *** Subscribers *)
Lemma subscribe_one_inv sub pid tx c tid : Inv c -> Inv (subscribe_one sub pid tx c tid).
Proof.
  intros HI. unfold subscribe_one.
  destruct (get_task_internal (c_state c) pid tid) as [t|] eqn:Ht;
    [|eapply Inv_frame; [auto with frame|done]].
  destruct (is_final (t_status t)) eqn:Hf; [eapply Inv_frame; [auto with frame|done]|].
  unfold get_task_internal in Ht.
  destruct (s_proofs (c_state c) !! pid) as [p|] eqn:Hp; [|done]. simpl in Ht.
  assert (Hlt : lookup_task (s_proofs (c_state c)) (pid, tid) = Some t) by (unfold lookup_task; simpl; by rewrite Hp).
  unfold CoordInv.Inv, with_state. cbn [c_state set_c_state c_tick]. rewrite (update_task_insert _ _ _ _ _ _ Hp Ht).
  apply (InvX_update W ∅ _ _ pid p tid t (set_t_subscribers ({[sub]} ∪ t_subscribers t) t)); try done.
  - constructor; simpl; [done..|lia].
  - apply (to_retries (lookup_task_ok _ _ _ _ _ _ _ HI Hlt)).
  - intros (wid & w & Hw & Hk). destruct (assigned_running c wid w _ t HI Hw Hk Hlt) as (_ & ? & _). by auto.
Qed.

Lemma foldl_Inv {A} (f : Coordinator -> A -> Coordinator) l :
  (forall c x, Inv c -> Inv (f c x)) -> forall c, Inv c -> Inv (foldl f c l).
Proof. intros Hf. induction l as [|x l IH]; intros c HI; simpl; auto. Qed.

Lemma add_subscriptions_safe sub tids c : Inv c -> safe (add_subscriptions sub tids c).
Proof.
  intros HI. unfold add_subscriptions. destruct (c_subscribers c !! sub) as [sb|]; [|done].
  cbn [system_now]. set (c1 := set_c_subscribers _ _).
  assert (HI1 : Inv c1) by by apply Inv_tick in HI.
  destruct (s_proofs (c_state c1) !! _); (split; [|done]); apply foldl_Inv; try done.
  - intros c2 tid. apply subscribe_one_inv.
  - intros c2 tid HI2. eapply Inv_frame; [auto with frame|done].
Qed.

Lemma create_subscriber_safe sub pid tids tx c : Inv c -> safe (create_subscriber sub pid tids tx c).
Proof.
  intros HI%Inv_tick. unfold create_subscriber. cbn [system_now].
  case_decide; [done|by apply add_subscriptions_safe].
Qed.

(** *** [shutdown] *)
Lemma shutdown_state_inv s n :
  InvX (s_proofs s) ∅ s n ->
  let s' := set_s_workers (set_w_active_tasks ∅ <$> s_workers s) (set_s_shutting_down true s) in
  InvX (s_proofs s') ∅ s' n.
Proof.
  intros HI s'.
  assert (Hnh : forall k, ~ held s' k).
  { intros k (wid & w & Hw & Hk). simpl in Hw. rewrite lookup_fmap in Hw.
    destruct (s_workers s !! wid); simpl in Hw; simplify_eq. set_solver. }
  constructor; simpl; try apply HI; try done.
  - intros wid w Hw. rewrite lookup_fmap in Hw. destruct (s_workers s !! wid) as [w0|] eqn:Hw0; simpl in Hw; [|done].
    simplify_eq. destruct (ix_workers HI _ _ Hw0). by constructor.
Qed.

Lemma shutdown_inv c : Inv c -> Inv (shutdown c).
Proof.
  intros HI. unfold shutdown.
  set (c1 := foldl _ (with_state (set_s_shutting_down true) c) _).
  assert (Hfr1 : frame (with_state (set_s_shutting_down true) c) c1).
  { apply foldl_frame. intros c' kw. apply foldl_frame. done. }
  set (c2 := with_state _ c1).
  assert (HI2 : Inv c2).
  { unfold c2, CoordInv.Inv, with_state. cbn [c_state set_c_state c_tick]. rewrite (fr_state _ _ Hfr1).
    apply (shutdown_state_inv (c_state c)). eapply InvX_tick; [exact HI|apply (fr_tick _ _ Hfr1)]. }
  eapply Inv_frame; [|eapply Inv_frame; [|exact HI2]]; apply foldl_frame; auto with frame.
Qed.

Lemma Inv_same_core c f : same_core (c_state c) (f (c_state c)) -> Inv c -> Inv (with_state f c).
Proof.
  intros Hc HI. unfold CoordInv.Inv, with_state. cbn [c_state set_c_state c_tick].
  destruct Hc as (Hw & Hp & Hd & Hq). rewrite Hp. by apply (InvX_same_core W _ _ (c_state c)).
Qed.
End lifecycle.
