(* ===== verification/HandlerFacts.v ===== *)
(** * What assignments leave alone, and the runs of the handlers

    Lemmas about [assign_step] sequences (finished tasks do not change, live
    ones only start) and the detailed runs of [fail_task] and [remove_worker],
    for the properties of HandlerProps.v. *)
From stdpp Require Import base gmap strings list relations.
From S2P Require Import Prelude Proto TaskChannel CoordState Coordinator AssignSpec CoordInv PolicyQueue CoordSteps CoordLifecycle.
Local Open Scope string_scope.
Local Open Scope list_scope.
Local Open Scope Z_scope.
Local Open Scope handler_scope.

Section facts.
Context `{EO : ClusterEnvOk} {PT : PolicyTypes} {AP : AssignmentPolicy} {L : PolicyLaws AP}.

Abbreviation astep := (assign_step queued policy_wf).

(** ** Assignment steps *)

(** How a task can look after some assignments: the same, or live and started. *)
Definition evolves (t t' : Task) : Prop :=
  same_task t t' /\ t_retries t' = t_retries t /\
  (t' = t \/ (is_final (t_status t) = false /\ t_status t' = Running)).

#[global] Instance evolves_preorder : PreOrder evolves.
Proof.
  split; [intros t; split_and!; [done|done|by left]|].
  intros t1 t2 t3 ([? ?] & ? & H12) ([? ?] & ? & H23). split_and!; [split; congruence|congruence|].
  destruct H12 as [->|[? Hr]], H23 as [->|[? ?]]; auto.
Qed.

Lemma evolves_final t t' : evolves t t' -> is_final (t_status t) = true -> t' = t.
Proof. intros (_ & _ & [?|[? _]]); congruence. Qed.

Lemma evolves_live t t' : evolves t t' -> is_final (t_status t') = is_final (t_status t).
Proof. intros (_ & _ & [->|[-> ->]]); done. Qed.

Record assign_frame (c c' : Coordinator) : Prop := {
  af_tasks : forall pid tid t, get_task_internal (c_state c) pid tid = Some t ->
    exists t', get_task_internal (c_state c') pid tid = Some t' /\ evolves t t';
  af_proofs : forall pid, s_proofs (c_state c') !! pid = None <-> s_proofs (c_state c) !! pid = None;
  af_back : forall pid tid, get_task_internal (c_state c) pid tid = None -> get_task_internal (c_state c') pid tid = None;
  af_rest : rest (c_state c') = rest (c_state c);
  af_workers : forall wid, s_workers (c_state c') !! wid = None <-> s_workers (c_state c) !! wid = None;
  af_settled : forall k wid,
    (forall t, get_task_internal (c_state c) k.1 k.2 = Some t -> is_final (t_status t) = true) ->
    assigned (c_state c') wid k -> assigned (c_state c) wid k;
}.

#[global] Instance assign_frame_preorder : PreOrder assign_frame.
Proof.
  split.
  - intros c. constructor; try done. intros pid tid t Ht. exists t. by split.
  - intros c1 c2 c3 [T1 P1 B1 R1 W1 S1] [T2 P2 B2 R2 W2 S2]. constructor.
    + intros pid tid t Ht. destruct (T1 _ _ _ Ht) as (t2 & Ht2 & ?). destruct (T2 _ _ _ Ht2) as (t3 & ? & ?).
      exists t3. split; [done|by etrans].
    + intros pid. by rewrite P2.
    + auto.
    + congruence.
    + intros wid. by rewrite W2.
    + intros k wid Hf Ha. apply S1; [done|]. apply S2; [|done]. intros t2 Ht2.
      destruct (get_task_internal (c_state c1) k.1 k.2) as [t|] eqn:Ht; [|by rewrite B1 in Ht2].
      destruct (T1 _ _ _ Ht) as (t2' & Ht2' & Hev). simplify_eq. rewrite (evolves_live _ _ Hev). by apply Hf.
Qed.

Lemma assign_step_frame c c' : astep c c' -> keys_ok (c_state c) -> assign_frame c c'.
Proof.
  intros Hs (_ & _ & Hkt).
  destruct Hs as [c k ty p' Hd Hq Hwf Hg|c k ty p' t wid w now Hd Hq Hwf Ht Hf Hw He].
  - constructor; try done. intros pid tid t Ht. exists t. by split.
  - destruct (Hkt _ _ _ Ht) as [Hid Hpid].
    set (s' := record_assignment now t wid w (c_state c)).
    assert (Hget : forall pid tid, get_task_internal (set_s_policy p' s') pid tid
      = if decide (pid = proof_id (t_data t) /\ tid = t_id t)
        then start_task w <$> get_task_internal (c_state c) pid tid else get_task_internal (c_state c) pid tid)
      by (intros; apply get_task_record).
    constructor; simpl; try done.
    + intros pid tid t0 Ht0. rewrite Hget. case_decide as Hk; [|exists t0; by split].
      rewrite Ht0. eexists. split; [done|]. destruct Hk as [-> ->]. rewrite Hid, Hpid, Ht in Ht0. simplify_eq.
      split_and!; [done|done|by right].
    + intros pid. rewrite lookup_alter_None. done.
    + intros pid tid Hn. rewrite Hget. case_decide; by rewrite ?Hn.
    + intros wid'. rewrite lookup_insert_None. split; [by intros [? _]|]. intros Hn. split; [done|congruence].
    + intros k' wid' Hfin (w' & Hw' & Hk'). simpl in Hw'. apply lookup_insert_Some in Hw' as [[<- <-]|[Hne Hw']].
      * exists w. split; [done|]. simpl in Hk'. apply elem_of_union in Hk' as [Hk'%elem_of_singleton|?]; [|done].
        subst k'. simpl in Hfin. rewrite Hid, Hpid in Hfin. specialize (Hfin _ Ht). congruence.
      * by exists w'.
Qed.

Lemma assign_steps_frame c c' :
  rtc astep c c' -> assign_pre queued policy_wf (c_state c) -> assign_frame c c'.
Proof.
  induction 1 as [c|c1 c2 c3 Hs _ IH]; intros Hpre; [done|].
  etrans; [apply assign_step_frame; [done|apply Hpre]|]. apply IH. by apply (assign_step_pre _ _ _ _ Hs Hpre).
Qed.

Lemma frame_assign_frame c c' : frame c c' -> assign_frame c c'.
Proof. intros [Hs _]. unfold assigned. constructor; rewrite ?Hs; try done. intros pid tid t Ht. exists t. by split. Qed.

Lemma live_count_zero (m : gmap string Task) :
  live_count m = 0 <-> forall tid t, m !! tid = Some t -> is_final (t_status t) = true.
Proof.
  split.
  - intros Hz tid t Ht. destruct (is_final (t_status t)) eqn:Hf; [done|].
    pose proof (live_count_lookup _ _ _ Ht Hf). lia.
  - intros Hall. unfold live_count, map_Zsum.
    assert (H : forall kt, kt ∈ map_to_list m -> is_final (t_status kt.2) = true)
      by (intros [tid t] Hin%elem_of_map_to_list; by apply (Hall tid)).
    induction (map_to_list m) as [|kt l IH]; simpl; [done|].
    rewrite (H kt) by (by left). apply IH. intros kt' Hin. apply H. by right.
Qed.

Lemma credit_attempt_idem w a : (credit_attempt w (credit_attempt w a).2).1 = false.
Proof.
  unfold credit_attempt. destruct (a !! w) as [x|] eqn:Hx; simpl; [|by rewrite Hx].
  destruct (credited x) eqn:Hc; simpl; [by rewrite Hx, Hc|by rewrite lookup_insert_eq].
Qed.

(** ** The messages of a heartbeat *)
Definition sends (ch : nat) (ms : list ServerMessage) (n : Mpsc ServerMessage) : Mpsc ServerMessage :=
  foldl (fun n m => send_ ch m n) n ms.

Definition cancels (w : Worker) (reported : list (string * string)) : list ServerMessage :=
  (fun k => CancelTask k.1 k.2) <$> filter (fun k => k ∉ w_active_tasks w) reported.

Definition resends (s : CoordinatorState) (w : Worker) (reported : list (string * string)) : list ServerMessage :=
  omap (fun k => t ← get_task_internal s k.1 k.2;
                 Some (NewTask (t_id t) (t_data t) (json_string (get_task_input_metadata s t))))
       (filter (fun k => k ∉ reported) (iter_keys (w_active_tasks w))).

Lemma cancel_unexpected_net w l : forall c,
  c_worker_net (cancel_unexpected w l c) = sends (w_channel w) (cancels w l) (c_worker_net c).
Proof.
  unfold cancel_unexpected, cancels. induction l as [|k l IH]; intros c; [done|]. cbn [foldl].
  rewrite filter_cons. case_decide as Hk; [rewrite decide_False by auto; apply IH|].
  rewrite decide_True by done. rewrite IH. done.
Qed.

Lemma resend_missing_net w reported l : forall c gone,
  let r := foldl (fun (rc : list key * Coordinator) k =>
             let (gone, c) := rc in
             if decide (k ∈ (list_to_set reported : gset key)) then (gone, c)
             else match get_task_internal (c_state c) k.1 k.2 with
                  | Some t => (gone, send_task t w (json_string (get_task_input_metadata (c_state c) t)) c)
                  | None => (gone ++ [k], c)
                  end) (gone, c) l in
  c_worker_net r.2 = sends (w_channel w)
    (omap (fun k => t ← get_task_internal (c_state c) k.1 k.2;
                    Some (NewTask (t_id t) (t_data t) (json_string (get_task_input_metadata (c_state c) t))))
          (filter (fun k => k ∉ reported) l)) (c_worker_net c).
Proof.
  induction l as [|k l IH]; intros c gone; [done|]. cbn [foldl]. rewrite filter_cons.
  destruct (decide (k ∈ (list_to_set reported : gset key))) as [Hk|Hk]; rewrite elem_of_list_to_set in Hk.
  - rewrite decide_False by auto. apply IH.
  - rewrite decide_True by done. cbn [omap list_omap]. destruct (get_task_internal (c_state c) k.1 k.2) as [t|]; simpl; rewrite IH; done.
Qed.

(** ** Closing every channel *)
Lemma close_task_channel_lookup tid c tid' inner :
  c_task_channels (close_task_channel tid c) !! tid' = Some inner ->
  closed inner = true \/ (tid' <> tid /\ c_task_channels c !! tid' = Some inner).
Proof.
  unfold close_task_channel. destruct (c_task_channels c !! tid) as [i|] eqn:Hi.
  - destruct (closed i) eqn:Hc.
    + intros Ht. destruct (decide (tid' = tid)) as [->|Hne]; [left; congruence|by right].
    + simpl. unfold close_inner. rewrite Hc. simpl. rewrite lookup_insert_Some.
      intros [[<- <-]|[Hne Ht]]; [by left|by right].
  - intros Ht. right. split; [congruence|done].
Qed.

Lemma close_all_closed (l : list (string * MessageChannelInner)) : forall c,
  (forall tid inner, c_task_channels c !! tid = Some inner -> closed inner = true \/ tid ∈ l.*1) ->
  forall tid inner,
  c_task_channels (foldl (fun c (ki : string * MessageChannelInner) => close_task_channel ki.1 c) c l) !! tid = Some inner ->
  closed inner = true.
Proof.
  induction l as [|[tid0 i0] l IH]; intros c Hc tid inner; cbn [foldl].
  - intros Ht. destruct (Hc _ _ Ht) as [?|Hin]; [done|]. by apply not_elem_of_nil in Hin.
  - apply IH. intros tid' inner' Ht'. apply close_task_channel_lookup in Ht' as [?|[Hne Ht']]; [by left|].
    destruct (Hc _ _ Ht') as [?|[?|?]%elem_of_cons]; [by left|done|by right].
Qed.

Lemma foldl_preserves {A B} (g : Coordinator -> B) (f : Coordinator -> A -> Coordinator) l :
  (forall c x, g (f c x) = g c) -> forall c, g (foldl f c l) = g c.
Proof. intros Hf. induction l as [|x l IH]; intros c; cbn [foldl]; [done|]. by rewrite IH. Qed.
End facts.
