(* ===== verification/Reach.v ===== *)
(** * Runs of the coordinator

    Every request handler and periodic job as an operation, the states they can
    reach from [new_coordinator], and that every reachable state satisfies the
    invariant whatever order the operations come in. *)
From stdpp Require Import base gmap strings list relations.
From S2P Require Import Prelude Proto TaskChannel CoordState Coordinator AssignSpec Capacity CoordInv CoordSteps CoordLifecycle.
Local Open Scope string_scope.
Local Open Scope list_scope.
Local Open Scope Z_scope.

Section reach.
Context `{EO : ClusterEnvOk} {PT : PolicyTypes} {AP : AssignmentPolicy} {L : PolicyLaws AP}.
Context (W : Z).

(** The server's side of the channels: [mpsc::unbounded_channel()] for a worker's or a
    subscriber's stream and for the results, and a receiver that goes away. *)
Definition open_worker_channel (c : Coordinator) : nat * Coordinator :=
  let (ch, n) := unbounded_channel (c_worker_net c) in (ch, set_c_worker_net n c).
Definition open_sub_channel (c : Coordinator) : nat * Coordinator :=
  let (ch, n) := unbounded_channel (c_sub_net c) in (ch, set_c_sub_net n c).
Definition open_proofs_channel (c : Coordinator) : nat * Coordinator :=
  let (ch, n) := unbounded_channel (c_proofs_net c) in (ch, set_c_proofs_net n c).
Definition drop_sub_receiver (rx : nat) (c : Coordinator) : Coordinator := set_c_sub_net (drop_rx rx (c_sub_net c)) c.

(** [ReapWorkers] and [CancelProofs] take the list an earlier scan made: the
    source drops the lock in between, so the list may be out of date. The last five
    are what the gRPC server does to the shared channels and the clock. *)
Inductive op :=
  | CreateProof (req : CreateProofRequest)
  | CreateDummyProof (pid : string) (expires : Z)
  | CreateTask (data : TaskData)
  | CompleteTask (worker_id pid tid : string) (md : TaskMetadata)
  | FailTask (worker_id pid tid : string) (retryable : bool)
  | CompleteProof (pid : string) (extra : option string)
  | FailProof (pid : string) (blamed : option string) (notify : bool) (extra : option string)
  | Heartbeat (worker_id : string) (pids tids : list string) (current_weight : Z)
  | AddWorker (worker_id : string) (wt : WorkerType) (max_weight : Z) (channel : nat) (identity : WorkerIdentity)
  | CloseWorker (worker_id : string)
  | RemoveWorker (worker_id : string)
  | ReapWorkers (dead : list string)
  | CancelProofs (expired : list string)
  | CreateSubscriber (sub_id pid : string) (tids : list string) (tx : nat)
  | AddSubscriptions (sub_id : string) (tids : list string)
  | SendTaskMessage (tid : string) (payload : list Z)
  | SubscribeTaskChannel (tid : string) (offset : nat)
  | SendHeartbeats
  | CleanupDeadSubscribers
  | CleanupStaleTaskChannels
  | SetProofsTx (tx : nat)
  | SetExecuteOnly (b : bool)
  | SetHeartbeatTimeout (secs : Z)
  | AccumulateGpuAvailable
  | GetClusterInfo (version git_sha image_tag : string)
  | Shutdown
  | OpenWorkerChannel
  | OpenSubChannel
  | OpenProofsChannel
  | DropSubReceiver (rx : nat)
  | Tick.

Definition ignore {A} (m : outcome A * Coordinator) : outcome unit * Coordinator :=
  (match m.1 with Ok _ => Ok tt | Err e => Err e | Panic => Panic | Fuel => Fuel end, m.2).

Definition run (o : op) (c : Coordinator) : outcome unit * Coordinator :=
  match o with
  | CreateProof req => ignore (create_proof req c)
  | CreateDummyProof pid e => ignore (create_dummy_proof pid e c)
  | CreateTask data => ignore (create_task data c)
  | CompleteTask w pid tid md => complete_task w pid tid md c
  | FailTask w pid tid r => fail_task w pid tid r c
  | CompleteProof pid ex => complete_proof pid ex c
  | FailProof pid blamed notify ex => fail_proof pid blamed notify ex c
  | Heartbeat w pids tids cw => handle_heartbeat w pids tids cw c
  | AddWorker w wt mw ch ident => ignore (add_worker w wt mw ch ident c)
  | CloseWorker w => close_worker w c
  | RemoveWorker w => remove_worker w c
  | ReapWorkers dead => reap_workers dead c
  | CancelProofs pids => cancel_proofs pids c
  | CreateSubscriber sub pid tids tx => create_subscriber sub pid tids tx c
  | AddSubscriptions sub tids => add_subscriptions sub tids c
  | SendTaskMessage tid pl => (Ok tt, send_task_message tid pl c)
  | SubscribeTaskChannel tid off => (Ok tt, (subscribe_task_channel tid off c).2)
  | SendHeartbeats => (Ok tt, send_heartbeats c)
  | CleanupDeadSubscribers => (Ok tt, cleanup_dead_subscribers c)
  | CleanupStaleTaskChannels => (Ok tt, cleanup_stale_task_channels c)
  | SetProofsTx tx => (Ok tt, set_proofs_tx tx c)
  | SetExecuteOnly b => (Ok tt, set_execute_only_mode b c)
  | SetHeartbeatTimeout s => (Ok tt, set_worker_heartbeat_timeout s c)
  | AccumulateGpuAvailable => (Ok tt, accumulate_gpu_available_ms c)
  | GetClusterInfo v g t => (Ok tt, (get_cluster_info v g t c).2)
  | Shutdown => (Ok tt, shutdown c)
  | OpenWorkerChannel => (Ok tt, (open_worker_channel c).2)
  | OpenSubChannel => (Ok tt, (open_sub_channel c).2)
  | OpenProofsChannel => (Ok tt, (open_proofs_channel c).2)
  | DropSubReceiver rx => (Ok tt, drop_sub_receiver rx c)
  | Tick => (Ok tt, tick c)
  end.

(** What the deployment promises: task weights are at most [W], workers declare
    a capacity that leaves [W] below [u32::MAX], and a proof has fewer than
    [2^32] tasks. *)
Definition admissible (o : op) (c : Coordinator) : Prop :=
  match o with
  | CreateProof _ => 0 <= Int.wrap u32 (CONTROLLER_WEIGHT env_weights) <= W
  | CreateTask data => task_admissible W data c
  | AddWorker _ _ mw _ _ => 0 <= mw <= Int.umax u32 - W
  | _ => True
  end.

Inductive reachable : Coordinator -> Prop :=
  | reach_init : reachable new_coordinator
  | reach_step c o : reachable c -> admissible o c -> reachable (run o c).2.

Lemma new_coordinator_inv : Inv W new_coordinator.
Proof.
  constructor; simpl; try done.
  - unfold queued_keys. simpl. rewrite queued_default. constructor.
  - intros k. unfold queued_keys. simpl. rewrite queued_default. intros Hk. by apply not_elem_of_nil in Hk.
  - apply policy_default_wf.
  - intros k. unfold queued_keys. simpl. rewrite queued_default. simpl. intros [Hk|[t Ht]]; [by apply not_elem_of_nil in Hk|done].
Qed.

Lemma safe_ignore {A} (m : outcome A * Coordinator) : safe W m -> safe W (ignore m).
Proof. destruct m as [[] ?]; done. Qed.

Lemma safe_frame c c' : frame c c' -> Inv W c -> safe W (Ok tt, c').
Proof. intros Hf HI. split; [by eapply Inv_frame|done]. Qed.

Lemma advance_integral_inv now c : Inv W c -> Inv W (advance_gpu_available_integral now c).
Proof. intros HI. apply (Inv_same_core W (tick c)); [done|by apply Inv_tick]. Qed.

Context (HW : 0 <= W).

Lemma run_safe o c : Inv W c -> admissible o c -> safe W (run o c).
Proof.
  intros HI Ha. destruct o; simpl in Ha |- *.
  all: try apply safe_ignore; try (eapply safe_frame; [solve [auto with frame]|done]).
  all: try (split; [|done]; by apply Inv_same_core).
  - by apply create_proof_safe.
  - by apply create_dummy_proof_safe.
  - by apply create_task_safe.
  - by apply complete_task_safe.
  - by apply fail_task_safe.
  - by apply complete_proof_safe.
  - by apply fail_proof_internal_safe.
  - by apply handle_heartbeat_safe.
  - by apply add_worker_safe.
  - by apply close_worker_safe.
  - by apply remove_worker_safe.
  - by apply reap_workers_safe.
  - by apply cancel_proofs_safe.
  - by apply create_subscriber_safe.
  - by apply add_subscriptions_safe.
  - split; [|done]. apply advance_integral_inv. by apply Inv_tick.
  - split; [|done]. apply advance_integral_inv. by apply Inv_tick.
  - split; [by apply shutdown_inv|done].
  - eapply safe_frame; [|done]. split; [done|simpl; lia].
  - eapply safe_frame; [|done]. split; [done|simpl; lia].
  - eapply safe_frame; [|done]. split; [done|simpl; lia].
  - eapply safe_frame; [|done]. split; [done|simpl; lia].
  - eapply safe_frame; [|done]. split; [done|simpl; lia].
Qed.

Lemma reachable_inv c : reachable c -> Inv W c.
Proof. induction 1; [apply new_coordinator_inv|by apply run_safe]. Qed.
End reach.
