(* ===== verification/Demo.v ===== *)
(** * A concrete environment

    The environment and the small runs that the witnesses of the theorems
    evaluate on: a clock that advances a second per reading, ids numbered in
    order, and the default policy. *)
From stdpp Require Import base gmap strings list pretty.
From S2P Require Import Prelude Proto TaskChannel CoordState Coordinator AssignSpec CoordInv PolicyQueue DefaultPolicy CoordSteps Reach.
Local Open Scope string_scope.
Local Open Scope list_scope.
Local Open Scope Z_scope.

Definition demo_env : ClusterEnv := {|
  env_iter := canonical_iter;
  env_weights := default_weights;
  from_task_type := fun t =>
    match t with
    | Controller | PlonkWrap | Groth16Wrap | ExecuteOnly => Cpu
    | MarkerDeferredRecord | UnspecifiedTaskType => NoneWorker
    | _ => Gpu
    end;
  cpu_only := false;
  create_type_id := fun prefix n => prefix +:+ "_" +:+ pretty n;
  json_string := fun s => s;
  clock := fun n => Z.of_nat n * 1000000000;
  instant := fun n => Z.of_nat n;
|}.

Lemma string_app_inj_l (p s1 s2 : string) : p +:+ s1 = p +:+ s2 -> s1 = s2.
Proof. induction p as [|a p IH]; simpl; [done|]. intros [= H]. auto. Qed.

#[export] Instance demo_env_ok : ClusterEnvOk demo_env.
Proof.
  split; simpl.
  - apply canonical_iter_ok.
  - intros p n m H. apply string_app_inj_l in H. injection H as H. by apply (inj pretty).
  - lia.
  - lia.
Qed.

#[local] Existing Instance demo_env.
#[local] Existing Instance Default.types.
#[local] Existing Instance Default.policy.

Definition demo_identity : WorkerIdentity := mkIdentity "" "" "" "GPU" 0 "".
Definition demo_req : CreateProofRequest := mkCreateProof "p1" [] [] "0x1" 0.

(** The states of a run: a proof is created, a worker of capacity 64 joins (and
    is given the controller task), and it reports the task done. *)
Definition demo0 : Coordinator := new_coordinator.
Definition demo1 : Coordinator := (run (CreateProof demo_req) demo0).2.
Definition demo2 : Coordinator := (run (AddWorker "w1" All 64 0%nat demo_identity) demo1).2.
Definition demo3 : Coordinator := (run (CompleteTask "w1" "p1" "task_3" (mkTaskMetadata 5)) demo2).2.

Definition demo_W : Z := 1000.

Lemma demo1_reachable : reachable demo_W demo1.
Proof. apply reach_step; [apply reach_init|]. vm_compute. split; intros H; discriminate H. Qed.

Lemma demo2_reachable : reachable demo_W demo2.
Proof. apply reach_step; [apply demo1_reachable|]. vm_compute. split; intros H; discriminate H. Qed.

Lemma demo3_reachable : reachable demo_W demo3.
Proof. apply reach_step; [apply demo2_reachable|]. exact I. Qed.

(** A second run: a proof with two tasks whose worker is removed and whose tasks
    move to another worker; the first worker then reports one of them done. *)
Definition demo_shard : TaskData := mkTaskData ProveShard [] [] "{}" "p1" None 4 "0x1".
Definition late1 : Coordinator := (run (CreateTask demo_shard) demo1).2.
Definition late2 : Coordinator := (run (AddWorker "w1" All 64 0%nat demo_identity) late1).2.
Definition late3 : Coordinator := (run (RemoveWorker "w1") late2).2.
Definition late4 : Coordinator := (run (AddWorker "w2" All 64 1%nat demo_identity) late3).2.
Definition late5 : Coordinator := (run (CompleteTask "w1" "p1" "task_3" (mkTaskMetadata 5)) late4).2.

Lemma late1_reachable : reachable demo_W late1.
Proof.
  apply reach_step; [apply demo1_reachable|]. split; [vm_compute; split; discriminate|].
  intros p Hp. vm_compute in Hp. injection Hp as <-. vm_compute. reflexivity.
Qed.

Lemma late2_reachable : reachable demo_W late2.
Proof. apply reach_step; [apply late1_reachable|]. vm_compute. split; discriminate. Qed.

Lemma late3_reachable : reachable demo_W late3.
Proof. apply reach_step; [apply late2_reachable|]. exact I. Qed.

Lemma late4_reachable : reachable demo_W late4.
Proof. apply reach_step; [apply late3_reachable|]. vm_compute. split; discriminate. Qed.

Lemma late5_reachable : reachable demo_W late5.
Proof. apply reach_step; [apply late4_reachable|]. exact I. Qed.
