(* ===== verification/CoordProps.v ===== *)
(** * Safety of the coordinator

    The properties of every state the coordinator can reach, for any policy
    that obeys [PolicyLaws], any hash iteration order, any clock readings and
    any order of operations. *)
From stdpp Require Import base gmap strings list relations.
From S2P Require Import Prelude Proto TaskChannel CoordState Coordinator AssignSpec CoordInv CoordSteps CoordLifecycle DefaultPolicy Reach Demo.
Local Open Scope string_scope.
Local Open Scope list_scope.
Local Open Scope Z_scope.

Section props.
Context `{EO : ClusterEnvOk} {PT : PolicyTypes} {AP : AssignmentPolicy} {L : PolicyLaws AP}.
Context (W : Z) (HW : 0 <= W).

(** C1. No live task is ever lost or run twice: in every reachable state that is
    not shutting down, a task that is not final and has a worker type is either
    held by exactly one worker, which its record names, and is then running and
    not queued, or it is queued and no worker holds it. *)
Theorem live_task_has_one_home c pid tid t :
  reachable W c -> s_shutting_down (c_state c) = false ->
  get_task_internal (c_state c) pid tid = Some t -> is_final (t_status t) = false ->
  schedulable (task_type (t_data t)) = true ->
  (exists wid, assigned (c_state c) wid (pid, tid) /\ t_worker t = Some wid /\ t_status t = Running /\
     (forall wid', assigned (c_state c) wid' (pid, tid) -> wid' = wid) /\
     (pid, tid) ∉ queued_keys (c_state c)) \/
  ((pid, tid) ∈ queued_keys (c_state c) /\ forall wid, ~ assigned (c_state c) wid (pid, tid)).
Proof.
  intros HI%reachable_inv Hd Ht Hf Hs; [|done].
  destruct (ix_covered HI (pid, tid) t Hd Ht Hf Hs) as [(wid & w & Hw & Hk)|Hq]; [set_solver| |].
  - left. exists wid. destruct (assigned_running W HW c wid w _ t HI Hw Hk Ht) as (? & [?|Hst] & ? & _);
      [|by rewrite Hst in Hf].
    split_and!; [by exists w|done..| |done]. intros wid' (w' & Hw' & Hk').
    by eapply (held_unique W); [exact HI|..].
  - right. split; [done|]. intros wid (w & Hw & Hk). apply (ix_queue_free HI _ Hq). by exists wid, w.
Qed.

(** C2. Under the declared bounds no operation panics and no loop runs out: from
    every reachable state, every operation returns [Ok] or an error status. *)
Theorem operations_never_panic c o :
  reachable W c -> admissible W o c -> (run o c).1 = Ok tt \/ exists e, (run o c).1 = Err e.
Proof.
  intros HI%reachable_inv Ha; [|done]. destruct (run_safe W HW o c HI Ha) as [_ Ho].
  destruct (run o c).1 as [[]| | |]; naive_solver.
Qed.


(** C4. Assignments are sound: a task a worker is assigned exists, names that
    worker and is running, or has succeeded in the meantime; no two workers
    are assigned the same task. *)
Theorem assignments_sound c wid k :
  reachable W c -> assigned (c_state c) wid k ->
  (exists t, get_task_internal (c_state c) k.1 k.2 = Some t /\ t_worker t = Some wid /\
     (t_status t = Running \/ t_status t = Succeeded)) /\
  forall wid', assigned (c_state c) wid' k -> wid' = wid.
Proof.
  intros HI%reachable_inv (w & Hw & Hk); [|done]. split.
  - destruct (wo_held (ix_workers HI _ _ Hw) _ Hk) as (t & Ht & ? & Hst). exists t. split_and!; [done..|set_solver].
  - intros wid' (w' & Hw' & Hk'). by eapply (held_unique W); [exact HI|..].
Qed.

(** C5. The count of active tasks that decides when a proof is removed is exact:
    [active_tasks] is the number of the proof's tasks that are neither
    succeeded nor fatally failed. *)
Theorem active_tasks_exact c pid p :
  reachable W c -> s_proofs (c_state c) !! pid = Some p ->
  p_active_tasks p = Z.of_nat (length (filter (fun kt => is_final (t_status kt.2) = false) (map_to_list (p_tasks p)))).
Proof.
  intros HI%reachable_inv Hp; [|done]. rewrite (po_active (ix_proofs HI _ _ Hp)).
  unfold live_count, map_Zsum. induction (map_to_list (p_tasks p)) as [|kt l IH]; [done|].
  rewrite filter_cons. simpl. destruct (is_final (t_status kt.2)) eqn:Hf; case_decide; try done; simpl; lia.
Qed.

(** Retries are bounded: no task is retried more than [MAX_TASK_RETRIES]
    times, so the [u8] counter never overflows. *)
Theorem retries_bounded c pid tid t :
  reachable W c -> get_task_internal (c_state c) pid tid = Some t -> 0 <= t_retries t <= MAX_TASK_RETRIES.
Proof.
  intros HI%reachable_inv Ht; [|done]. apply (to_retries (lookup_task_ok W _ _ _ _ (pid, tid) t HI Ht)).
Qed.
End props.

(** ** Witnesses *)
Section witnesses.
#[local] Existing Instance demo_env.
#[local] Existing Instance Default.types.
#[local] Existing Instance Default.policy.

Definition demo_task (c : Coordinator) (tid : string) : option Task := get_task_internal (c_state c) "p1" tid.

Lemma demo2_task : exists t, demo_task demo2 "task_3" = Some t /\ is_final (t_status t) = false /\
  schedulable (task_type (t_data t)) = true.
Proof. eexists. split; [vm_compute; reflexivity|]. split; vm_compute; reflexivity. Defined.

Lemma live_task_has_one_home_witness :
  exists t, demo_task demo2 "task_3" = Some t /\
  ((exists wid, assigned (c_state demo2) wid ("p1", "task_3") /\ t_worker t = Some wid /\ t_status t = Running /\
     (forall wid', assigned (c_state demo2) wid' ("p1", "task_3") -> wid' = wid) /\
     ("p1", "task_3") ∉ queued_keys (c_state demo2)) \/
  (("p1", "task_3") ∈ queued_keys (c_state demo2) /\ forall wid, ~ assigned (c_state demo2) wid ("p1", "task_3"))).
Proof.
  destruct demo2_task as (t & Ht & Hf & Hs). exists t. split; [exact Ht|].
  apply (live_task_has_one_home demo_W ltac:(vm_compute; discriminate) demo2 "p1" "task_3" t demo2_reachable);
    [vm_compute; reflexivity|exact Ht|exact Hf|exact Hs].
Defined.

Lemma operations_never_panic_witness :
  (run (FailTask "w1" "p1" "task_3" true) demo2).1 = Ok tt \/
  exists e, (run (FailTask "w1" "p1" "task_3" true) demo2).1 = Err e.
Proof.
  apply (operations_never_panic demo_W ltac:(vm_compute; discriminate) demo2 _ demo2_reachable). exact I.
Defined.

Lemma demo2_worker : exists w, s_workers (c_state demo2) !! "w1" = Some w /\ ("p1", "task_3") ∈ w_active_tasks w.
Proof. eexists. split; [vm_compute; reflexivity|]. apply (bool_decide_unpack _). vm_compute. exact I. Defined.


Lemma assignments_sound_witness :
  (exists t, get_task_internal (c_state demo2) "p1" "task_3" = Some t /\ t_worker t = Some "w1" /\
     (t_status t = Running \/ t_status t = Succeeded)) /\
  forall wid', assigned (c_state demo2) wid' ("p1", "task_3") -> wid' = "w1".
Proof.
  apply (assignments_sound demo_W ltac:(vm_compute; discriminate) demo2 "w1" ("p1", "task_3") demo2_reachable).
  destruct demo2_worker as (w & Hw & Hk). exists w. split; [exact Hw|exact Hk].
Defined.

Lemma active_tasks_exact_witness : exists p, s_proofs (c_state demo2) !! "p1" = Some p /\
  p_active_tasks p = Z.of_nat (length (filter (fun kt => is_final (t_status kt.2) = false) (map_to_list (p_tasks p)))).
Proof.
  eexists. split; [vm_compute; reflexivity|].
  apply (active_tasks_exact demo_W ltac:(vm_compute; discriminate) demo2 "p1" _ demo2_reachable).
  vm_compute. reflexivity.
Defined.

Lemma retries_bounded_witness : exists t, demo_task demo2 "task_3" = Some t /\ 0 <= t_retries t <= MAX_TASK_RETRIES.
Proof.
  destruct demo2_task as (t & Ht & _). exists t. split; [exact Ht|].
  apply (retries_bounded demo_W ltac:(vm_compute; discriminate) demo2 "p1" "task_3" t demo2_reachable). exact Ht.
Defined.
End witnesses.
