(* ===== verification/PolicyProps.v ===== *)
(** * Properties of the assignment policies *)
From stdpp Require Import base gmap strings list relations.
From S2P Require Import Prelude Proto TaskChannel BinHeap CoordState Coordinator AssignSpec CoordInv PolicyQueue DefaultPolicy BalancedPolicy CoordSteps Reach Demo.
Local Open Scope string_scope.
Local Open Scope list_scope.
Local Open Scope Z_scope.

(** The queue order is lexicographic, so [QueuedTask]'s [Ord] is a total
    preorder: [SetupVkey] tasks first, then the oldest proof, then
    [ProveShard] tasks, then the oldest task. *)
Theorem queue_order_lexicographic a b :
  queued_cmp a b = lex_cmp (queue_key a) (queue_key b) /\ queued_cmp b a = CompOpp (queued_cmp a b).
Proof.
  split; [apply queued_cmp_lex|]. rewrite !queued_cmp_lex.
  destruct (queue_key a) as [[[a1 b1] c1] d1], (queue_key b) as [[[a2 b2] c2] d2]. unfold lex_cmp.
  rewrite (Z.compare_antisym a1 a2), (Z.compare_antisym b1 b2), (Z.compare_antisym c1 c2), (Z.compare_antisym d1 d2).
  by destruct (a1 ?= a2), (b1 ?= b2), (c1 ?= c2), (d1 ?= d2).
Qed.

(** A queue built with [push] and [pop] gives its tasks back in priority
    order: pushing keeps the heap and adds the task; popping gives a task that no
    queued task precedes, removes exactly that task and keeps the heap. *)
Theorem queue_pops_by_priority (l : list QueuedTask) :
  heap l ->
  (forall q, heap (push q l) /\ push q l ≡ₚ q :: l) /\
  (forall q l', pop l = (Some q, l') ->
     l ≡ₚ q :: l' /\ heap l' /\ forall q', q' ∈ l -> queued_cmp q' q <> Lt) /\
  (l = [] <-> (pop l).1 = None).
Proof.
  intros Hl. split_and!.
  - intros q. split; [by apply push_heap|apply push_perm].
  - intros q l' Hp. destruct (pop_cons _ _ _ Hp) as [Hpk Hperm]. split_and!; [done|by eapply pop_heap|].
    intros q' Hq'. pose proof (peek_greatest l q q' Hl Hpk Hq') as Hle. unfold ord_le, reverse_queued in Hle.
    rewrite queued_cmp_lex in *. destruct (queue_key q') as [[[a1 b1] c1] d1], (queue_key q) as [[[a2 b2] c2] d2].
    apply lex_cmp_not_gt in Hle. unfold lex_cmp.
    destruct (Z.compare_spec a1 a2), (Z.compare_spec b1 b2), (Z.compare_spec c1 c2), (Z.compare_spec d1 d2);
      simpl; try done; lia.
  - destruct l as [|x l]; [done|]. split; [done|]. destruct (pop_peek (x :: l) x eq_refl) as [l' ->]. done.
Qed.

Section search.
Context `{EO : ClusterEnvOk} {PT : PolicyTypes}.

(** The worker search of [assign_task] picks an open worker of the right type
    with room for the task, and among those one that is free the soonest; it
    picks none only if every such worker is never free. *)
Theorem search_picks_soonest wt tw s :
  match find_best_worker wt tw s with
  | Some (wid, w) =>
      s_workers s !! wid = Some w /\ eligible wt tw w = true /\
      forall wid' w', s_workers s !! wid' = Some w' -> eligible wt tw w' = true ->
        w_next_free_time w <= w_next_free_time w'
  | None => forall wid w, s_workers s !! wid = Some w -> eligible wt tw w = true -> Int.umax u128 <= w_next_free_time w
  end.
Proof.
  destruct (find_best_worker wt tw s) as [[wid w]|] eqn:Hf.
  - by apply find_best_worker_some in Hf as (? & ? & _ & ?).
  - intros wid w. by apply find_best_worker_none.
Qed.
End search.

Section default.
#[local] Existing Instance Default.types.
Context `{EO : ClusterEnvOk}.


End default.

Section balanced.
#[local] Existing Instance Balanced.types.
Context `{EO : ClusterEnvOk}.


(** The balanced policy serves the proof with the least GPU weight: the task
    it picks heads the queue of a proof with the lowest assigned GPU weight
    and, among those, the oldest. *)
Theorem balanced_picks_least_served (p : Balanced.BalancedPolicy) q :
  Balanced.find_next_balanced_task p = Some q ->
  exists pid, Balanced.gpu_head p pid q /\
    forall pid' q', Balanced.gpu_head p pid' q' ->
      Balanced.gpu_weight p pid < Balanced.gpu_weight p pid' \/
      (Balanced.gpu_weight p pid = Balanced.gpu_weight p pid' /\ q_proof_created_at q <= q_proof_created_at q').
Proof. apply Balanced.find_next_some. Qed.

End balanced.

(** The capacity check of [assign_task] adds the two [u32] weights without a
    check, so a task of weight [u32::MAX] passes it on a worker of capacity 64
    that already has a task: the sum wraps around to a small number. *)
Theorem huge_task_passes_capacity_check (PT : PolicyTypes) (w : Worker) :
  w_closed w = false -> w_worker_type w = All -> 0 < w_weight w <= w_max_weight w -> w_max_weight w <= Int.umax u32 ->
  eligible Gpu (Int.umax u32) w = true /\ w_max_weight w < w_weight w + Int.umax u32.
Proof.
  intros Hc Ht Hw Hm. unfold eligible. rewrite Hc, Ht. split; [|lia]. simpl.
  apply Z.leb_le. unfold Int.wadd, Int.wrap, Int.umax, Int.modulus in *. rewrite Z.add_sub_assoc.
  rewrite <- (Z.mod_unique (w_weight w + 2 ^ 32 - 1) (2 ^ 32) 1 (w_weight w - 1)); lia.
Qed.

(** ** Witnesses *)
Definition demo_queued (n : Z) (ty : TaskType) (pid : string) : QueuedTask := mkQueuedTask "t" ty n n pid.
Definition demo_queue : list QueuedTask := push (demo_queued 2 ProveShard "p1") (push (demo_queued 1 ProveShard "p1") []).

Lemma demo_queue_heap : heap demo_queue.
Proof. apply push_heap, push_heap, heap_nil. Qed.

Lemma queue_pops_by_priority_witness :
  (forall q, heap (push q demo_queue) /\ push q demo_queue ≡ₚ q :: demo_queue) /\
  (forall q l', pop demo_queue = (Some q, l') ->
     demo_queue ≡ₚ q :: l' /\ heap l' /\ forall q', q' ∈ demo_queue -> queued_cmp q' q <> Lt) /\
  (demo_queue = [] <-> (pop demo_queue).1 = None).
Proof. apply (queue_pops_by_priority demo_queue demo_queue_heap). Defined.

Section default_witness.
#[local] Existing Instance demo_env.
#[local] Existing Instance Default.types.
#[local] Existing Instance Default.policy.


Lemma search_picks_soonest_witness :
  match find_best_worker Gpu 4 (c_state late4) with
  | Some (wid, w) =>
      s_workers (c_state late4) !! wid = Some w /\ eligible Gpu 4 w = true /\
      forall wid' w', s_workers (c_state late4) !! wid' = Some w' -> eligible Gpu 4 w' = true ->
        w_next_free_time w <= w_next_free_time w'
  | None => forall wid w, s_workers (c_state late4) !! wid = Some w -> eligible Gpu 4 w = true ->
      Int.umax u128 <= w_next_free_time w
  end.
Proof. apply (@search_picks_soonest demo_env demo_env_ok Default.types Gpu 4 (c_state late4)). Defined.
End default_witness.

Section balanced_witness.
#[local] Existing Instance demo_env.
#[local] Existing Instance Balanced.types.
#[local] Existing Instance Balanced.policy.

Definition balanced1 : Coordinator := (run (CreateProof demo_req) new_coordinator).2.

Lemma balanced1_reachable : reachable demo_W balanced1.
Proof. apply reach_step; [apply reach_init|]. vm_compute. split; discriminate. Qed.


Definition demo_balanced : Balanced.BalancedPolicy :=
  Balanced.mkBalancedPolicy []
    (<["p2" := [demo_queued 5 ProveShard "p2"]]> {["p1" := [demo_queued 3 ProveShard "p1"]]}) {["p1" := 24]}.

Lemma balanced_picks_least_served_witness :
  exists pid, Balanced.gpu_head demo_balanced pid (demo_queued 5 ProveShard "p2") /\
    forall pid' q', Balanced.gpu_head demo_balanced pid' q' ->
      Balanced.gpu_weight demo_balanced pid < Balanced.gpu_weight demo_balanced pid' \/
      (Balanced.gpu_weight demo_balanced pid = Balanced.gpu_weight demo_balanced pid' /\ 5 <= q_proof_created_at q').
Proof. apply (balanced_picks_least_served demo_balanced (demo_queued 5 ProveShard "p2")). vm_compute. reflexivity. Defined.
End balanced_witness.

Section capacity_witness.
#[local] Existing Instance Default.types.

Definition demo_busy_worker : Worker := mkWorker "w1" All 64 0 4 ∅ 0%nat 0 false demo_identity tt.

Lemma huge_task_passes_capacity_check_witness :
  eligible Gpu (Int.umax u32) demo_busy_worker = true /\ 64 < 4 + Int.umax u32.
Proof.
  apply (huge_task_passes_capacity_check _ demo_busy_worker);
    [reflexivity|reflexivity|split; vm_compute; [reflexivity|discriminate]|vm_compute; discriminate].
Defined.
End capacity_witness.
