(* ===== verification/ReportProps.v ===== *)
(** * Properties of the capacity reports and of dead-worker detection *)
From stdpp Require Import base gmap strings list.
From S2P Require Import Prelude Proto TaskChannel CoordState Coordinator AssignSpec Capacity CoordInv CoordSteps DefaultPolicy Reach Demo.
Local Open Scope string_scope.
Local Open Scope list_scope.
Local Open Scope Z_scope.

(** ** Connected nodes and dead workers *)
Section connected.
Context `{EO : ClusterEnvOk} {PT : PolicyTypes}.

(** A worker counts as a connected GPU node exactly when it is of a GPU
    type and would not be reaped as dead at the same instant, as long as
    heartbeat time plus timeout fits in a [u64]. *)
Theorem connected_iff_not_dead s w now :
  0 <= w_last_heartbeat w -> 0 <= s_worker_heartbeat_timeout_secs s ->
  w_last_heartbeat w + s_worker_heartbeat_timeout_secs s <= Int.umax u64 ->
  is_connected_gpu_node (w_worker_type w) (w_last_heartbeat w) now (s_worker_heartbeat_timeout_secs s) = true <->
  (w_worker_type w = Gpu \/ w_worker_type w = All) /\ is_dead s now w = false.
Proof.
  intros Hh Ht Hsum. unfold is_connected_gpu_node, is_dead.
  rewrite Int.wadd_small by (unfold Int.in_range, Int.umax in *; lia). unfold Int.sat_sub.
  rewrite Z.ltb_ge. destruct (w_worker_type w); rewrite ?Z.leb_le; naive_solver lia.
Qed.

(** The availability integral never decreases and stays a [u64]; as long as
    nothing saturates, an advance adds exactly the connected GPU nodes times
    the milliseconds since the last advance. *)
Theorem gpu_available_integral_advances c now :
  Int.in_range u64 (s_gpu_available_ms_total (c_state c)) ->
  let s := c_state c in
  let s' := c_state (advance_gpu_available_integral now c) in
  let nodes := Z.of_nat (length (connected_gpu_nodes s now)) in
  let ms := as_millis (Z.max 0 (instant (c_tick c) - s_gpu_available_last_tick s)) in
  s_gpu_available_ms_total s <= s_gpu_available_ms_total s' <= Int.umax u64 /\
  s_gpu_available_last_tick s' = instant (c_tick c) /\
  (nodes < Int.modulus u32 -> ms <= Int.umax u64 -> s_gpu_available_ms_total s + nodes * ms <= Int.umax u64 ->
   s_gpu_available_ms_total s' = s_gpu_available_ms_total s + nodes * ms).
Proof.
  intros Hr s s' nodes ms. fold s in Hr.
  assert (Hms : 0 <= ms) by (unfold ms, as_millis; apply Z.div_pos; lia).
  assert (Hn : 0 <= Int.wrap u32 nodes) by (apply Int.wrap_range; lia).
  assert (Hs' : s_gpu_available_ms_total s'
    = Int.sat_add u64 (s_gpu_available_ms_total s)
        (Z.min (Int.wrap u32 nodes * Z.min ms (Int.umax u64)) (Int.umax u64))) by done.
  split_and!; [..|done|].
  - rewrite Hs'. apply Int.sat_add_le; [done|]. unfold Int.umax, Int.modulus. nia.
  - rewrite Hs'. apply Int.sat_add_le; [done|]. unfold Int.umax, Int.modulus. nia.
  - intros Hnodes Hm Hle. rewrite Hs'. unfold Int.wrap. rewrite Z.mod_small by lia.
    unfold Int.sat_add. unfold Int.in_range in Hr. rewrite (Z.min_l ms) by done.
    rewrite (Z.min_l (nodes * ms)) by lia. lia.
Qed.

End connected.

Section witnesses.
#[local] Existing Instance demo_env.
#[local] Existing Instance Default.types.
#[local] Existing Instance Default.policy.

Definition demo_worker : Worker := mkWorker "w1" All 64 0 0 ∅ 0%nat 5 false demo_identity tt.

Lemma connected_iff_not_dead_witness :
  is_connected_gpu_node All 5 20 (s_worker_heartbeat_timeout_secs (c_state demo2)) = true <->
  (All = Gpu \/ All = All) /\ is_dead (c_state demo2) 20 demo_worker = false.
Proof. apply (connected_iff_not_dead (c_state demo2) demo_worker 20); vm_compute; discriminate. Defined.

Lemma gpu_available_integral_advances_witness :
  let s := c_state demo2 in
  let s' := c_state (advance_gpu_available_integral 20 demo2) in
  let nodes := Z.of_nat (length (connected_gpu_nodes s 20)) in
  let ms := as_millis (Z.max 0 (instant (c_tick demo2) - s_gpu_available_last_tick s)) in
  s_gpu_available_ms_total s <= s_gpu_available_ms_total s' <= Int.umax u64 /\
  s_gpu_available_last_tick s' = instant (c_tick demo2) /\
  (nodes < Int.modulus u32 -> ms <= Int.umax u64 -> s_gpu_available_ms_total s + nodes * ms <= Int.umax u64 ->
   s_gpu_available_ms_total s' = s_gpu_available_ms_total s + nodes * ms).
Proof. apply (gpu_available_integral_advances demo2 20). split; vm_compute; [discriminate|reflexivity]. Defined.
End witnesses.
