(* ===== verification/HandlerProps.v ===== *)
(** * What each handler does

    The behaviour of completion, failure, removal of workers and shutdown on
    every reachable state, for any policy that obeys [PolicyLaws]. *)
From stdpp Require Import base gmap strings list relations.
From S2P Require Import Prelude Proto TaskChannel CoordState Coordinator AssignSpec CoordInv PolicyQueue DefaultPolicy CoordSteps CoordLifecycle HandlerFacts Reach Demo.
Local Open Scope string_scope.
Local Open Scope list_scope.
Local Open Scope Z_scope.

Section props.
Context `{EO : ClusterEnvOk} {PT : PolicyTypes} {AP : AssignmentPolicy} {L : PolicyLaws AP}.
Context (W : Z) (HW : 0 <= W).

Lemma Inv_assign_frame c c' c'' :
  Inv W c -> rtc (assign_step queued policy_wf) c c' -> frame c' c'' -> assign_frame c c''.
Proof.
  intros HI Hs Hf. etrans; [apply assign_steps_frame; [done|by eapply inv_assign_pre]|by apply frame_assign_frame].
Qed.

(** C34. A completion report on a known task always succeeds: afterwards the
    reporter does not hold the task, the task is [Succeeded] if it is still
    there, and its proof is removed exactly when every other task of the proof
    was already final. *)
Theorem complete_task_finishes c wid pid tid md t :
  reachable W c -> get_task_internal (c_state c) pid tid = Some t ->
  exists c', complete_task wid pid tid md c = (Ok tt, c') /\
    ~ assigned (c_state c') wid (pid, tid) /\
    (forall t', get_task_internal (c_state c') pid tid = Some t' -> t_status t' = Succeeded) /\
    (s_proofs (c_state c') !! pid = None <->
     forall tid' t', tid' <> tid -> get_task_internal (c_state c) pid tid' = Some t' -> is_final (t_status t') = true).
Proof.
  intros HI%reachable_inv Hget; [|done]. pose proof Hget as Hget2. unfold get_task_internal in Hget2 |- *.
  destruct (s_proofs (c_state c) !! pid) as [proof|] eqn:Hp; [|done].
  destruct (complete_task_run W HW wid pid tid md c proof t HI Hp Hget2)
    as (c7 & c8 & c' & t' & tasks' & P & Hrun & HI7 & Hrtc & Hfr & HI' & -> & Hst & _ & _ & _ & (p3 & Hp3 & Htasks) & Hps7 & Hno7 & _).
  destruct (Inv_assign_frame c7 c8 c' HI7 Hrtc Hfr) as [AT AP_ AB _ _ AS].
  assert (Hfin : forall t2, get_task_internal (c_state c7) pid tid = Some t2 -> t_status t2 = Succeeded).
  { unfold get_task_internal. rewrite Hps7. intros t2. destruct (_ =? 0).
    - by rewrite lookup_delete_eq.
    - rewrite Hp3, Htasks, lookup_insert_eq. intros [= <-]. done. }
  exists c'. split_and!; [done|..].
  - intros Ha. destruct (AS (pid, tid) wid) as (w & Hw & Hk); [|done|by apply (Hno7 w)].
    intros t2 Ht2. simpl in Ht2. by rewrite (Hfin t2 Ht2).
  - intros t2 Ht2. destruct (get_task_internal (c_state c7) pid tid) as [t3|] eqn:Ht3.
    + destruct (AT _ _ _ Ht3) as (t4 & Ht4 & Hev). specialize (Hfin t3 eq_refl). unfold get_task_internal in Ht4.
      rewrite (evolves_final _ _ Hev) in Ht4 by by rewrite Hfin. congruence.
    + apply AB in Ht3. unfold get_task_internal in Ht3. congruence.
  - rewrite AP_, Hps7. destruct (Z.eqb_spec (live_count (<[tid := t']> (p_tasks proof))) 0) as [Hz|Hz].
    + split; [|intros _; apply lookup_delete_eq]. intros _ tid' t2 Hne Ht2. rewrite live_count_zero in Hz.
      apply (Hz tid'). by rewrite lookup_insert_ne.
    + split; [intros Hn; congruence|]. intros Hall. exfalso. apply Hz, live_count_zero. intros tid' t2.
      rewrite lookup_insert_Some. intros [[<- <-]|[Hne Ht2]]; [by rewrite Hst|by apply (Hall tid')].
Qed.

(** GPU time is credited at most once per attempt: the counter grows by the
    reported [gpu_ms] (saturating) exactly when the reporter has an uncredited
    attempt on a GPU worker, and a repeated report of the same worker adds
    nothing. *)
Theorem gpu_time_credited_once c wid pid tid md md' t :
  reachable W c -> get_task_internal (c_state c) pid tid = Some t ->
  let c' := (complete_task wid pid tid md c).2 in
  s_gpu_busy_ms_total (c_state c')
  = (if match t_gpu_attempts t !! wid with Some a => negb (credited a) && on_gpu a | None => false end
     then Int.sat_add u64 (s_gpu_busy_ms_total (c_state c)) (gpu_ms md)
     else s_gpu_busy_ms_total (c_state c)) /\
  s_gpu_busy_ms_total (c_state (complete_task wid pid tid md' c').2) = s_gpu_busy_ms_total (c_state c').
Proof.
  intros HI%reachable_inv Hget; [|done]. unfold get_task_internal in Hget.
  destruct (s_proofs (c_state c) !! pid) as [proof|] eqn:Hp; [|done]. intros c'.
  destruct (complete_task_run W HW wid pid tid md c proof t HI Hp Hget)
    as (c7 & c8 & c2 & t' & tasks' & P & Hrun & HI7 & Hrtc & Hfr & HI' & Ht' & Hst & Hatt & _ & _ & (p3 & Hp3 & Htasks) & Hps7 & _ & Hg7).
  destruct (Inv_assign_frame c7 c8 c2 HI7 Hrtc Hfr) as [AT _ AB AR _ _].
  assert (Hg2 : s_gpu_busy_ms_total (c_state c2) = s_gpu_busy_ms_total (c_state c7)) by (unfold rest in AR; congruence).
  assert (Hc' : c' = c2) by (unfold c'; by rewrite Hrun). rewrite Hc'. split.
  - rewrite Hg2, Hg7. unfold credit_attempt. destruct (t_gpu_attempts t !! wid) as [a|]; [|done].
    destruct (credited a); simpl; [done|]. by destruct (on_gpu a).
  - destruct (get_task_internal (c_state c2) pid tid) as [t2|] eqn:Ht2; unfold get_task_internal in Ht2.
    2:{ unfold complete_task. destruct (s_proofs (c_state c2) !! pid); [|done]. by rewrite Ht2. }
    destruct (s_proofs (c_state c2) !! pid) as [proof2|] eqn:Hp2; [|done].
    assert (Hatt2 : t_gpu_attempts t2 = (credit_attempt wid (t_gpu_attempts t)).2).
    { destruct (get_task_internal (c_state c7) pid tid) as [t3|] eqn:Ht3.
      2:{ apply AB in Ht3. unfold get_task_internal in Ht3. rewrite Hp2 in Ht3. congruence. }
      destruct (AT _ _ _ Ht3) as (t4 & Ht4 & Hev). unfold get_task_internal in Ht3, Ht4. rewrite Hps7 in Ht3.
      destruct (_ =? 0); [by rewrite lookup_delete_eq in Ht3|]. rewrite Hp3, Htasks, Ht', lookup_insert_eq in Ht3.
      injection Ht3 as <-. rewrite (evolves_final _ _ Hev) in Ht4 by by rewrite Hst. rewrite Hp2 in Ht4. congruence. }
    destruct (complete_task_run W HW wid pid tid md' c2 proof2 t2 HI' Hp2 Ht2)
      as (d7 & d8 & d2 & ? & ? & ? & Hrun2 & HId7 & Hrtc2 & Hfr2 & _ & _ & _ & _ & _ & _ & _ & _ & _ & Hgd).
    destruct (Inv_assign_frame d7 d8 d2 HId7 Hrtc2 Hfr2) as [_ _ _ AR2 _ _].
    rewrite Hrun2. simpl. rewrite Hatt2, credit_attempt_idem in Hgd. unfold rest in AR2. congruence.
Qed.

(** A late failure report cannot undo a success: failing a task that has
    already succeeded leaves its record as it is and only frees the
    reporter's slot. *)
Theorem late_failure_keeps_success c wid pid tid t retryable :
  reachable W c -> assigned (c_state c) wid (pid, tid) ->
  get_task_internal (c_state c) pid tid = Some t -> t_status t = Succeeded ->
  exists c', fail_task wid pid tid retryable c = (Ok tt, c') /\
    get_task_internal (c_state c') pid tid = Some t /\ ~ assigned (c_state c') wid (pid, tid).
Proof.
  intros HI%reachable_inv (w & Hw & Hk) Hget Hst; [|done]. pose proof Hget as Hget2. unfold get_task_internal in Hget2.
  destruct (s_proofs (c_state c) !! pid) as [proof|] eqn:Hp; [|done].
  destruct (fail_succeeded_task_run W HW wid w pid tid proof t c HI Hw Hk Hp Hget2 Hst)
    as (c3 & c' & Hrun & HI3 & HI' & Hrtc & Hp3 & Hno).
  destruct (Inv_assign_frame c3 c' c' HI3 Hrtc ltac:(done)) as [AT _ _ _ _ AS].
  assert (Hg3 : get_task_internal (c_state c3) pid tid = Some t) by (unfold get_task_internal; by rewrite Hp3, Hp).
  exists c'. split_and!.
  - unfold fail_task. by rewrite Hw, decide_True, Hp, Hget2, decide_True.
  - destruct (AT _ _ _ Hg3) as (t' & Ht' & Hev). by rewrite (evolves_final _ _ Hev) in Ht' by by rewrite Hst.
  - intros Ha. destruct (AS (pid, tid) wid) as (w' & Hw' & Hk'); [|done|by apply (Hno w')].
    intros t2 Ht2. simpl in Ht2. simplify_eq. by rewrite Hst.
Qed.

(** A retryable failure with retries left never loses the task: its proof
    stays, the task is live again with one more retry counted, and it is
    queued or already placed. *)
Theorem retryable_failure_requeues c wid pid tid t :
  reachable W c -> assigned (c_state c) wid (pid, tid) ->
  get_task_internal (c_state c) pid tid = Some t -> t_status t = Running ->
  t_retries t < MAX_TASK_RETRIES -> schedulable (task_type (t_data t)) = true ->
  exists c' t', fail_task wid pid tid true c = (Ok tt, c') /\
    get_task_internal (c_state c') pid tid = Some t' /\ t_retries t' = t_retries t + 1 /\
    (t_status t' = FailedRetryable \/ t_status t' = Running) /\
    ((exists wid', assigned (c_state c') wid' (pid, tid)) \/ (pid, tid) ∈ queued_keys (c_state c')).
Proof.
  intros HI%reachable_inv (w & Hw & Hk) Hget Hst Hr Hs; [|done].
  destruct (assigned_running W HW c wid w (pid, tid) t HI Hw Hk Hget) as (_ & _ & _ & Hd).
  pose proof Hget as Hget2. unfold get_task_internal in Hget2.
  destruct (s_proofs (c_state c) !! pid) as [proof|] eqn:Hp; [|done].
  destruct (fail_task_run W HW wid w pid tid proof t true c HI Hw Hk Hp Hget2 ltac:(congruence))
    as (c4 & c5 & c' & t' & proof' & Hrun & HI4 & Hnh & Hd4 & Hrtc & Hfr & HI' & Htasks & Hst' & [_ Hdata] & Hret & Hps & Hcase).
  assert (Hstat : fail_status true t = FailedRetryable).
  { unfold fail_status. rewrite (proj2 (Z.eqb_neq _ _)); [done|lia]. }
  destruct Hcase as [?|(_ & Hman & Hlive)]; [congruence|].
  assert (Hg4 : get_task_internal (c_state c4) pid tid = Some t').
  { unfold get_task_internal. rewrite Hps, Hman, (proj2 (Z.eqb_neq _ _) Hlive). simpl.
    by rewrite lookup_insert_eq, Htasks, lookup_insert_eq. }
  destruct (Inv_assign_frame c4 c5 c' HI4 Hrtc Hfr) as [AT _ _ AR _ _].
  destruct (AT _ _ _ Hg4) as (t2 & Ht2 & Hev).
  assert (Hd' : s_shutting_down (c_state c') = false) by (unfold rest in AR; congruence).
  exists c', t2. split_and!; [done|done| | |].
  - destruct Hev as (_ & -> & _). rewrite Hret, Hstat. by rewrite decide_True.
  - destruct Hev as (_ & _ & [->|[_ ?]]); [left; congruence|by right].
  - destruct (ix_covered HI' (pid, tid) t2 Hd' Ht2) as [(wid' & w' & ? & ?)|?].
    + rewrite (evolves_live _ _ Hev), Hst', Hstat. done.
    + destruct Hev as ([_ ->] & _). by rewrite Hdata.
    + set_solver.
    + left. by exists wid', w'.
    + by right.
Qed.


(** C35. Removing a worker (it left, or it was found dead) loses none of its
    tasks: the worker is gone, and every live task it held is queued again or
    already placed on another worker. *)
Theorem remove_worker_requeues c wid w :
  reachable W c -> s_workers (c_state c) !! wid = Some w ->
  exists c', remove_worker wid c = (Ok tt, c') /\ s_workers (c_state c') !! wid = None /\
    forall k t, k ∈ w_active_tasks w -> get_task_internal (c_state c) k.1 k.2 = Some t ->
      is_final (t_status t) = false -> schedulable (task_type (t_data t)) = true ->
      (exists wid', wid' <> wid /\ assigned (c_state c') wid' k) \/ k ∈ queued_keys (c_state c').
Proof.
  intros HI%reachable_inv Hw; [|done].
  destruct (remove_worker_internal_inv W HW wid c HI) as (c1 & Hrun & HI1 & Hw1 & Hd1 & Hkept).
  destruct (assign_tasks_inv W _ HW HI1) as (c2 & Has & HI2 & Hrtc).
  destruct (Inv_assign_frame c1 c2 c2 HI1 Hrtc ltac:(done)) as [AT _ _ AR AW _].
  assert (Hgone : s_workers (c_state c2) !! wid = None) by (rewrite AW, Hw1; apply lookup_delete_eq).
  exists c2. split_and!; [unfold remove_worker; rewrite Hrun; cbn [bind]; by rewrite Has|done|].
  intros k t Hk Ht Hf Hs. destruct (Hkept k t Ht) as (t1 & Ht1 & Hst1 & [_ Hdata]).
  destruct (AT _ _ _ Ht1) as (t2 & Ht2 & Hev).
  destruct (s_shutting_down (c_state c2)) eqn:Hdn.
  { exfalso. assert (Hd : s_shutting_down (c_state c) = true).
    { unfold rest in AR. congruence. }
    pose proof (wo_down (ix_workers HI _ _ Hw) Hd). set_solver. }
  destruct (ix_covered HI2 k t2 Hdn Ht2) as [(wid' & w' & Hw' & Hk')|?].
  - by rewrite (evolves_live _ _ Hev), Hst1.
  - destruct Hev as ([_ ->] & _). by rewrite Hdata.
  - set_solver.
  - left. exists wid'. split; [congruence|by exists w'].
  - by right.
Qed.

(** Failing a proof: blaming a task the proof does not have is an error and
    changes nothing, blaming a task that has succeeded is ignored, and
    otherwise the proof is removed with every assignment of its tasks. *)
Theorem fail_proof_outcome c pid blamed notify extra p :
  reachable W c -> s_shutting_down (c_state c) = false -> s_proofs (c_state c) !! pid = Some p ->
  (forall tid, blamed = Some tid -> p_tasks p !! tid = None ->
     exists e, code e = NotFound /\ fail_proof pid blamed notify extra c = (Err e, c)) /\
  (forall tid t, blamed = Some tid -> p_tasks p !! tid = Some t -> t_status t = Succeeded ->
     fail_proof pid blamed notify extra c = (Ok tt, c)) /\
  (blamed = None \/ (exists tid t, blamed = Some tid /\ p_tasks p !! tid = Some t /\ t_status t <> Succeeded) ->
     exists c', fail_proof pid blamed notify extra c = (Ok tt, c') /\
       s_proofs (c_state c') = delete pid (s_proofs (c_state c)) /\
       forall wid k, assigned (c_state c') wid k -> k.1 <> pid).
Proof.
  intros HI%reachable_inv Hd Hp; [|done].
  assert (Hrm : vet_blamed (c_state c) pid blamed = None ->
    exists c', fail_proof pid blamed notify extra c = (Ok tt, c') /\
      s_proofs (c_state c') = delete pid (s_proofs (c_state c)) /\
      forall wid k, assigned (c_state c') wid k -> k.1 <> pid).
  { intros Hv. destruct (fail_proof_internal_removal W HW ∅ pid notify extra None blamed p c HI Hp Hd Hv)
      as (c' & Hrun & [_ Hps _ Hleft _]).
    exists c'. split_and!; [done..|]. intros wid k (w & Hw & Hk) He. by specialize (Hleft k wid w He Hw Hk). }
  assert (Hun : forall r, vet_blamed (c_state c) pid blamed = Some r -> fail_proof pid blamed notify extra c = (r, c)).
  { intros r Hv. unfold fail_proof, fail_proof_internal. by rewrite Hd, Hv. }
  unfold vet_blamed in Hrm, Hun. rewrite Hp in Hrm, Hun. split_and!.
  - intros tid -> Ht. rewrite Ht in Hun. eexists. split; [|by apply Hun]. done.
  - intros tid t -> Ht Hs. rewrite Ht, decide_True in Hun by done. by apply Hun.
  - intros [->|(tid & t & -> & Ht & Hs)]; [by apply Hrm|]. rewrite Ht, decide_False in Hrm by done. by apply Hrm.
Qed.

(** A heartbeat reconciles a worker with the coordinator: the worker is told to cancel
    exactly the tasks it runs without being assigned them, and is sent again exactly the
    tasks it is assigned but does not run; its weight stays and its heartbeat time becomes
    the current one. *)
Lemma heartbeat_effect c wid w pids tids cw :
  reachable W c -> s_shutting_down (c_state c) = false ->
  s_workers (c_state c) !! wid = Some w -> w_active_tasks w <> ∅ ->
  exists c', handle_heartbeat wid pids tids cw c = (Ok tt, c') /\
    c_state c' = insert_worker wid (set_w_last_heartbeat (as_secs (clock (c_tick c))) w) (c_state c) /\
    c_worker_net c' = sends (w_channel w) (cancels w (zip pids tids) ++ resends (c_state c') w (zip pids tids))
                        (c_worker_net c).
Proof.
  intros HI%reachable_inv Hd Hw Hne; [|done]. unfold handle_heartbeat. rewrite Hw, since_epoch_ok. cbn [bind].
  set (w1 := set_w_last_heartbeat _ w). set (c1 := with_state (insert_worker wid w1) (tick c)).
  set (rep := zip pids tids). set (c2 := cancel_unexpected w1 rep c1).
  assert (Hfr2 : frame c1 c2) by apply cancel_unexpected_frame.
  assert (Hget : forall pid tid, get_task_internal (c_state c2) pid tid = get_task_internal (c_state c) pid tid)
    by (intros; by rewrite (fr_state _ _ Hfr2)).
  pose proof (resend_missing_net w1 rep (iter_keys (w_active_tasks w1)) c2 []) as Hnet.
  destruct (resend_missing_none w1 (list_to_set rep) (iter_keys (w_active_tasks w1)) c2) as [Hg Hfr3].
  { intros [pid tid] Hk%elem_of_iter_keys. destruct (wo_held (ix_workers HI _ _ Hw) _ Hk) as (t & Ht & _).
    change (is_Some (get_task_internal (c_state c2) pid tid)). rewrite Hget. by exists t. }
  unfold resend_missing. cbv zeta in Hnet. destruct (foldl _ ([], c2) _) as [gone c3]. simpl in Hg, Hfr3, Hnet. subst gone.
  assert (Hs3 : c_state c3 = insert_worker wid w1 (c_state c)) by by rewrite (fr_state _ _ Hfr3), (fr_state _ _ Hfr2).
  assert (Haw : assigned_weight (c_state c3) (w_active_tasks w1) = w_weight w).
  { rewrite Hs3. unfold assigned_weight. rewrite <- (assigned_weight_exact W HW _ _ _ _ HI Hw Hd). done. }
  rewrite Haw. set (w4 := set_w_active_tasks _ _).
  assert (Hw4 : w4 = w1).
  { unfold w4, w1. destruct w; simpl. by rewrite difference_empty_L. }
  rewrite Hw4. unfold with_state, settle_empty. cbv beta. rewrite decide_False by done. rewrite !bool_decide_eq_true_2, bool_decide_eq_false_2 by done.
  simpl. assert (Hs4 : insert_worker wid w1 (c_state c3) = insert_worker wid w1 (c_state c)).
  { rewrite Hs3. unfold insert_worker. simpl. by rewrite insert_insert_eq. }
  eexists. split; [done|]. simpl. rewrite Hs4. split; [done|].
  assert (Hn2 : c_worker_net c2 = sends (w_channel w) (cancels w rep) (c_worker_net c))
    by apply (cancel_unexpected_net w1 rep c1).
  rewrite Hnet, Hn2, (fr_state _ _ Hfr2). unfold sends. by rewrite foldl_app.
Qed.

(** After [shutdown] nothing runs any more: no worker holds a task, every
    task channel is closed, new proofs are refused and failures of proofs are
    ignored. *)
Theorem shutdown_stops_everything c :
  reachable W c ->
  let c' := shutdown c in
  (forall wid k, ~ assigned (c_state c') wid k) /\
  (forall tid inner, c_task_channels c' !! tid = Some inner -> closed inner = true) /\
  (forall req, create_proof req c' = (Err (mkStatus FailedPrecondition "Server shutting down"), c')) /\
  (forall pid blamed notify extra, fail_proof pid blamed notify extra c' = (Ok tt, c')).
Proof.
  intros HI%reachable_inv c'; [|done].
  pose proof (shutdown_inv W HW c HI) as HI'.
  assert (Hdown : s_shutting_down (c_state c') = true).
  { unfold c', shutdown. rewrite (foldl_preserves c_state) by done.
    rewrite (foldl_preserves c_state) by (intros; apply (fr_state _ _ (close_task_channel_frame _ _))).
    unfold with_state at 1. cbn [c_state set_c_state s_shutting_down set_s_workers].
    rewrite (foldl_preserves c_state); [done|]. intros. by rewrite (foldl_preserves c_state). }
  split_and!.
  - intros wid k (w & Hw & Hk). pose proof (wo_down (ix_workers HI' _ _ Hw) Hdown). set_solver.
  - unfold c', shutdown. rewrite (foldl_preserves c_task_channels) by done.
    set (c2 := with_state _ _). apply close_all_closed. intros tid inner Ht. right.
    apply list_elem_of_fmap. exists (tid, inner). split; [done|]. by apply elem_of_iter_map.
  - intros req. unfold create_proof. by rewrite Hdown.
  - intros pid blamed notify extra. unfold fail_proof, fail_proof_internal. by rewrite Hdown.
Qed.
End props.

(** ** Witnesses *)
Section witnesses.
#[local] Existing Instance demo_env.
#[local] Existing Instance Default.types.
#[local] Existing Instance Default.policy.

Abbreviation W0 := (ltac:(vm_compute; discriminate) : 0 <= demo_W).

Definition task3 (c : Coordinator) : option Task := get_task_internal (c_state c) "p1" "task_3".

Lemma demo2_task3 : exists t, task3 demo2 = Some t /\ t_status t = Running /\ t_retries t = 0 /\
  schedulable (task_type (t_data t)) = true.
Proof. eexists. split_and!; [vm_compute; reflexivity|vm_compute; reflexivity..]. Defined.

Lemma demo2_assigned : assigned (c_state demo2) "w1" ("p1", "task_3").
Proof. eexists. split; [vm_compute; reflexivity|]. apply (bool_decide_unpack _). vm_compute. exact I. Defined.

Lemma complete_task_finishes_witness :
  exists c', complete_task "w1" "p1" "task_3" (mkTaskMetadata 5) demo2 = (Ok tt, c') /\
    ~ assigned (c_state c') "w1" ("p1", "task_3") /\
    (forall t', task3 c' = Some t' -> t_status t' = Succeeded) /\
    (s_proofs (c_state c') !! "p1" = None <->
     forall tid' t', tid' <> "task_3" -> get_task_internal (c_state demo2) "p1" tid' = Some t' -> is_final (t_status t') = true).
Proof.
  destruct demo2_task3 as (t & Ht & _).
  apply (complete_task_finishes demo_W W0 demo2 "w1" "p1" "task_3" (mkTaskMetadata 5) t demo2_reachable). exact Ht.
Defined.

Lemma gpu_time_credited_once_witness :
  exists t, task3 demo2 = Some t /\
  let c' := (complete_task "w1" "p1" "task_3" (mkTaskMetadata 5) demo2).2 in
  s_gpu_busy_ms_total (c_state c')
  = (if match t_gpu_attempts t !! "w1" with Some a => negb (credited a) && on_gpu a | None => false end
     then Int.sat_add u64 (s_gpu_busy_ms_total (c_state demo2)) 5
     else s_gpu_busy_ms_total (c_state demo2)) /\
  s_gpu_busy_ms_total (c_state (complete_task "w1" "p1" "task_3" (mkTaskMetadata 7) c').2)
  = s_gpu_busy_ms_total (c_state c').
Proof.
  destruct demo2_task3 as (t & Ht & _). exists t. split; [exact Ht|].
  apply (gpu_time_credited_once demo_W W0 demo2 "w1" "p1" "task_3" (mkTaskMetadata 5) (mkTaskMetadata 7) t demo2_reachable).
  exact Ht.
Defined.

Lemma late5_task3 : exists t, task3 late5 = Some t /\ t_status t = Succeeded.
Proof. eexists. split; vm_compute; reflexivity. Defined.

Lemma late5_assigned : assigned (c_state late5) "w2" ("p1", "task_3").
Proof. eexists. split; [vm_compute; reflexivity|]. apply (bool_decide_unpack _). vm_compute. exact I. Defined.

Lemma late_failure_keeps_success_witness :
  exists t c', task3 late5 = Some t /\ fail_task "w2" "p1" "task_3" true late5 = (Ok tt, c') /\
    task3 c' = Some t /\ ~ assigned (c_state c') "w2" ("p1", "task_3").
Proof.
  destruct late5_task3 as (t & Ht & Hst).
  destruct (late_failure_keeps_success demo_W W0 late5 "w2" "p1" "task_3" t true late5_reachable late5_assigned Ht Hst)
    as (c' & H).
  exists t, c'. split; [exact Ht|exact H].
Defined.

Lemma retryable_failure_requeues_witness :
  exists t c' t', task3 demo2 = Some t /\ fail_task "w1" "p1" "task_3" true demo2 = (Ok tt, c') /\
    task3 c' = Some t' /\ t_retries t' = t_retries t + 1 /\
    (t_status t' = FailedRetryable \/ t_status t' = Running) /\
    ((exists wid', assigned (c_state c') wid' ("p1", "task_3")) \/ ("p1", "task_3") ∈ queued_keys (c_state c')).
Proof.
  destruct demo2_task3 as (t & Ht & Hst & Hr & Hs).
  destruct (retryable_failure_requeues demo_W W0 demo2 "w1" "p1" "task_3" t demo2_reachable demo2_assigned Ht Hst)
    as (c' & t' & H); [rewrite Hr; vm_compute; reflexivity|exact Hs|].
  exists t, c', t'. split; [exact Ht|exact H].
Defined.


Lemma remove_worker_requeues_witness :
  exists w c', s_workers (c_state demo2) !! "w1" = Some w /\
    remove_worker "w1" demo2 = (Ok tt, c') /\ s_workers (c_state c') !! "w1" = None /\
    forall k t, k ∈ w_active_tasks w -> get_task_internal (c_state demo2) k.1 k.2 = Some t ->
      is_final (t_status t) = false -> schedulable (task_type (t_data t)) = true ->
      (exists wid', wid' <> "w1" /\ assigned (c_state c') wid' k) \/ k ∈ queued_keys (c_state c').
Proof.
  destruct demo2_assigned as (w & Hw & _).
  destruct (remove_worker_requeues demo_W W0 demo2 "w1" w demo2_reachable Hw) as (c' & H).
  exists w, c'. split; [exact Hw|exact H].
Defined.

Lemma fail_proof_outcome_witness :
  exists c', fail_proof "p1" None true None demo2 = (Ok tt, c') /\
    s_proofs (c_state c') = delete "p1" (s_proofs (c_state demo2)) /\
    forall wid k, assigned (c_state c') wid k -> k.1 <> "p1".
Proof.
  destruct (s_proofs (c_state demo2) !! "p1") as [p|] eqn:Hp; [|vm_compute in Hp; discriminate Hp].
  apply (proj2 (proj2 (fail_proof_outcome demo_W W0 demo2 "p1" None true None p demo2_reachable
                         ltac:(vm_compute; reflexivity) Hp))). left. reflexivity.
Defined.

Lemma shutdown_stops_everything_witness :
  (forall wid k, ~ assigned (c_state (shutdown demo2)) wid k) /\
  (forall tid inner, c_task_channels (shutdown demo2) !! tid = Some inner -> closed inner = true) /\
  (forall req, create_proof req (shutdown demo2) = (Err (mkStatus FailedPrecondition "Server shutting down"), shutdown demo2)) /\
  (forall pid blamed notify extra, fail_proof pid blamed notify extra (shutdown demo2) = (Ok tt, shutdown demo2)).
Proof. apply (shutdown_stops_everything demo_W W0 demo2 demo2_reachable). Defined.
End witnesses.
