(* ===== verification/Server.v ===== *)
(** * The coordinator's gRPC service

    [bin/coordinator/src/server.rs] and the periodic jobs of [util.rs]: every RPC of
    [GenericWorkerService], the registration [open] leaves to a spawned task, and the
    task behind each subscriber stream, which forwards the coordinator's messages,
    keeps them until they are acknowledged, and sends them again. A step is an RPC, a
    turn of a spawned task, or a client that goes away. *)
From stdpp Require Import base gmap strings list.
From S2P Require Import Prelude Proto TaskChannel CoordState Coordinator AssignSpec Capacity CoordInv CoordSteps Reach.
Local Open Scope string_scope.
Local Open Scope list_scope.
Local Open Scope Z_scope.

Module Serve.

(** [OpenRequest], with [worker_type()] as the generated getter returns it. *)
Record OpenRequest := mkOpen {
  o_worker_id : string;
  o_worker_type : WorkerType;
  o_max_weight : Z;
  o_version : string;
  o_git_sha : string;
  o_image_tag : string;
  o_gpu_name : string;
  o_gpu_memory_total_bytes : Z;
  o_location : option string;
}.

Inductive rpc :=
  | Open (hb : OpenRequest)
  | Close (worker_id : string)
  | Heartbeat (worker_id : string) (proof_ids task_ids : list string) (current_weight : Z)
  | CompleteTask (worker_id proof_id task_id metadata : string)
  | FailTask (worker_id proof_id task_id : string) (retryable : bool)
  | CreateTask (data : option TaskData)
  | GetTaskStatuses (proof_id : string) (task_ids : list string)
  | CompleteProof (proof_id : string) (extra_data : option string)
  | FailProof (proof_id : string) (task_id : option string) (extra_data : option string)
  | CreateProof (request : CreateProofRequest)
  | CreateDummyProof (proof_id : string) (expires_at : Z)
  | CancelProof (proof_id : string)
  | OpenSub (sub_id proof_id : string) (task_ids : list string)
  | UpdateSub (sub_id : string) (task_ids : list string)
  | AckSub (sub_id msg_id : string)
  | Healthcheck
  | GetStats
  | SubscribeTaskMessages (task_id : string) (start_offset : nat)
  | SendTaskMessage (task_id : string) (payload : list Z).

Inductive response :=
  | Empty
  | TaskId (id : string)
  | Statuses (m : TaskStatus -> list string)
  | StatsInfo (i : Stats)
  | WorkerStream (rx : nat)
  | SubStream (rx : nat)
  | TaskStream (rx : nat).

(** [serde_json::from_str] at [TaskMetadata]. *)
Class MetadataCodec := parse_metadata : string -> option TaskMetadata.

Section service.
Context `{E : ClusterEnv} {PT : PolicyTypes} {AP : AssignmentPolicy} {MC : MetadataCodec}.

(** A message that awaits its acknowledgement: when it was last sent, and how often
    it has been sent again. *)
Record Pending := mkPending { pd_last : Z; pd_msg : ServerSubMessage; pd_retries : Z }.
Abbreviation Unacked := (gmap string Pending).

(** The task of [spawn_subscriber_channel_task]: its receiver with the number of
    messages taken from it, the client's stream, and the shared map. *)
Record SubTask := mkSubTask {
  k_sub : string;
  k_rx : nat;
  k_read : nat;
  k_tx : nat;
  k_map : nat;
  k_live : bool;
}.

(** [GenericSubscriberHandler]: the map and the task. *)
Record Handler := mkHandler { h_unacked : nat; h_task : nat }.

(** [GenericWorkerService] with the tasks it has spawned and the client streams. *)
Record Service := mkService {
  v_coord : Coordinator;
  v_subs : gmap string Handler;
  v_maps : list Unacked;
  v_tasks : list SubTask;
  v_streams : Mpsc ServerSubMessage;
  v_registrations : list (OpenRequest * nat);
}.

Definition set_coord (c : Coordinator) (s : Service) : Service :=
  mkService c (v_subs s) (v_maps s) (v_tasks s) (v_streams s) (v_registrations s).
Definition set_subs (x : gmap string Handler) (s : Service) : Service :=
  mkService (v_coord s) x (v_maps s) (v_tasks s) (v_streams s) (v_registrations s).
Definition set_maps (x : list Unacked) (s : Service) : Service :=
  mkService (v_coord s) (v_subs s) x (v_tasks s) (v_streams s) (v_registrations s).
Definition set_tasks (x : list SubTask) (s : Service) : Service :=
  mkService (v_coord s) (v_subs s) (v_maps s) x (v_streams s) (v_registrations s).
Definition set_streams (x : Mpsc ServerSubMessage) (s : Service) : Service :=
  mkService (v_coord s) (v_subs s) (v_maps s) (v_tasks s) x (v_registrations s).
Definition set_registrations (x : list (OpenRequest * nat)) (s : Service) : Service :=
  mkService (v_coord s) (v_subs s) (v_maps s) (v_tasks s) (v_streams s) x.

Definition new_service : Service := mkService new_coordinator ∅ [] [] mpsc_empty [].

(** An RPC that runs a coordinator operation and answers [f] of its result. *)
Definition forward {A} (s : Service) (m : outcome A * Coordinator) (f : A -> response) : outcome response * Service :=
  (match m.1 with Ok a => Ok (f a) | Err e => Err e | Panic => Panic | Fuel => Fuel end, set_coord m.2 s).

(** ** Subscriber streams *)

Definition stop_task (k : SubTask) : SubTask := mkSubTask (k_sub k) (k_rx k) (k_read k) (k_tx k) (k_map k) false.

(** [sender_handle.abort()]: the task and the ends it owns go away. *)
Definition abort (t : nat) (s : Service) : Service :=
  match v_tasks s !! t with
  | None => s
  | Some k =>
      set_coord (drop_sub_receiver (k_rx k) (v_coord s)) (set_tasks (<[t := stop_task k]> (v_tasks s)) s)
  end.

(** [spawn_subscriber_channel_task]. *)
Definition spawn_task (sub_id : string) (outer_rx tx map : nat) (s : Service) : nat * Service :=
  (length (v_tasks s), set_tasks (v_tasks s ++ [mkSubTask sub_id outer_rx 0 tx map true]) s).

(** [open_sub] up to [create_subscriber]: the two channels, the greeting, and the task
    that joins them, which takes over the map of an earlier stream. *)
Definition attach_stream (sub_id : string) (s : Service) : nat * nat * Service :=
  let (tx, streams) := unbounded_channel (v_streams s) in
  let (outer, c) := open_sub_channel (v_coord s) in
  let (mid, c) := new_id "msg" c in
  let s := set_coord c (set_streams (send_ tx (mkSubMsg mid SubHeartbeat) streams) s) in
  match v_subs s !! sub_id with
  | Some h =>
      let s := abort (h_task h) s in
      let (t, s) := spawn_task sub_id outer tx (h_unacked h) s in
      (outer, tx, set_subs (<[sub_id := mkHandler (h_unacked h) t]> (v_subs s)) s)
  | None =>
      let map := length (v_maps s) in
      let (t, s) := spawn_task sub_id outer tx map (set_maps (v_maps s ++ [∅]) s) in
      (outer, tx, set_subs (<[sub_id := mkHandler map t]> (v_subs s)) s)
  end.

Definition open_sub (sub_id proof_id : string) (task_ids : list string) (s : Service) : outcome response * Service :=
  let '(outer, tx, s) := attach_stream sub_id s in
  forward s (create_subscriber sub_id proof_id task_ids outer (v_coord s)) (fun _ => SubStream tx).

Definition ack_sub (sub_id msg_id : string) (s : Service) : outcome response * Service :=
  match v_subs s !! sub_id with
  | Some h => (Ok Empty, set_maps (alter (delete msg_id) (h_unacked h) (v_maps s)) s)
  | None => (Err (mkStatus NotFound "Unknown subscription"), s)
  end.

(** The branch that receives a message of the coordinator. *)
Definition task_recv (t : nat) (s : Service) : Service :=
  match v_tasks s !! t with
  | Some k =>
      match boxes (c_sub_net (v_coord s)) !! k_rx k with
      | Some mb =>
          match sent mb !! k_read k, k_live k with
          | Some msg, true =>
              let (now, c) := system_now (v_coord s) in
              mkService c (v_subs s)
                (alter (<[msg_id msg := mkPending now msg 0]>) (k_map k) (v_maps s))
                (<[t := mkSubTask (k_sub k) (k_rx k) (S (k_read k)) (k_tx k) (k_map k) true]> (v_tasks s))
                (send_ (k_tx k) msg (v_streams s)) (v_registrations s)
          | _, _ => s
          end
      | None => s
      end
  | None => s
  end.

Definition RESEND_AFTER : Z := 4 * 1000000000.

(** [tx.is_closed()]. *)
Definition stream_closed (tx : nat) (n : Mpsc ServerSubMessage) : bool :=
  match boxes n !! tx with Some mb => negb (rx_open mb) | None => true end.

(** One entry of [map.retain]. *)
Definition resend_one (now : Z) (tx : nat) (acc : Unacked * Mpsc ServerSubMessage) (kp : string * Pending) :
    Unacked * Mpsc ServerSubMessage :=
  let '(map, n) := acc in
  let '(id, p) := kp in
  if RESEND_AFTER <? Z.max 0 (now - pd_last p) then
    let retries := Int.wadd u32 (pd_retries p) 1 in
    let (ok, n) := send tx (pd_msg p) n in
    if negb ok then (delete id map, n)
    else if 3 <? retries then (delete id map, n)
    else (<[id := mkPending now (pd_msg p) retries]> map, n)
  else acc.

(** [map.retain]; the client may go away after [cut] entries. *)
Fixpoint resend (now : Z) (tx : nat) (cut : option nat) (acc : Unacked * Mpsc ServerSubMessage) (l : list (string * Pending)) :
    Unacked * Mpsc ServerSubMessage :=
  match l with
  | [] => acc
  | kp :: l =>
      let acc := match cut with Some O => (acc.1, drop_rx tx acc.2) | _ => acc end in
      resend now tx (pred <$> cut) (resend_one now tx acc kp) l
  end.

(** [outer_rx.is_closed()]: the coordinator holds no sender for it any more. *)
Definition outer_closed (rx : nat) (c : Coordinator) : bool :=
  forallb (fun ks : string * Subscriber => negb (bool_decide (sub_tx ks.2 = rx))) (iter_map (c_subscribers c)).
Definition outer_empty (k : SubTask) (c : Coordinator) : bool :=
  match boxes (c_sub_net c) !! k_rx k with Some mb => bool_decide (k_read k = length (sent mb)) | None => true end.

(** The branch of the interval. *)
Definition task_tick (t : nat) (cut : option nat) (s : Service) : Service :=
  match v_tasks s !! t with
  | Some k =>
      if k_live k then
        let map := default ∅ (v_maps s !! k_map k) in
        let s :=
          if stream_closed (k_tx k) (v_streams s) then s
          else
            let (now, c) := system_now (v_coord s) in
            let (map, n) := resend now (k_tx k) cut (map, v_streams s) (iter_map map) in
            set_coord c (set_maps (<[k_map k := map]> (v_maps s)) (set_streams n s)) in
        let drained :=
          bool_decide (default ∅ (v_maps s !! k_map k) = (∅ : Unacked)) || stream_closed (k_tx k) (v_streams s) in
        if drained && outer_closed (k_rx k) (v_coord s) && outer_empty k (v_coord s) then
          let subs :=
            match v_subs s !! k_sub k with
            | Some h => if decide (h_task h = t) then delete (k_sub k) (v_subs s) else v_subs s
            | None => v_subs s
            end in
          abort t (set_subs subs s)
        else s
      else s
  | None => s
  end.

(** ** The RPCs *)

Definition open (hb : OpenRequest) (s : Service) : outcome response * Service :=
  let (rx, c) := open_worker_channel (v_coord s) in
  (Ok (WorkerStream rx), set_coord c (set_registrations (v_registrations s ++ [(hb, rx)]) s)).

(** The registration [open] spawns; its error is only logged. *)
Definition register (i : nat) (s : Service) : Service :=
  match v_registrations s !! i with
  | None => s
  | Some (hb, tx) =>
      let ident := mkIdentity (o_version hb) (o_git_sha hb) (o_image_tag hb) (o_gpu_name hb)
                     (o_gpu_memory_total_bytes hb) (default "" (o_location hb)) in
      let (_, c) := add_worker (o_worker_id hb) (o_worker_type hb) (o_max_weight hb) tx ident (v_coord s) in
      set_coord c (set_registrations (delete i (v_registrations s)) s)
  end.

Definition close (worker_id : string) (s : Service) : outcome response * Service :=
  forward s (close_worker worker_id (v_coord s)) (fun _ => Empty).

Definition heartbeat (worker_id : string) (proof_ids task_ids : list string) (current_weight : Z) (s : Service) :
    outcome response * Service :=
  forward s (handle_heartbeat worker_id proof_ids task_ids current_weight (v_coord s)) (fun _ => Empty).

(** Metadata that does not parse counts as the default. *)
Definition complete_task (worker_id proof_id task_id metadata : string) (s : Service) : outcome response * Service :=
  forward s (Coordinator.complete_task worker_id proof_id task_id
               (default (mkTaskMetadata 0) (parse_metadata metadata)) (v_coord s)) (fun _ => Empty).

Definition fail_task (worker_id proof_id task_id : string) (retryable : bool) (s : Service) : outcome response * Service :=
  forward s (Coordinator.fail_task worker_id proof_id task_id retryable (v_coord s)) (fun _ => Empty).

(** [request.into_inner().data.unwrap()]. *)
Definition create_task (data : option TaskData) (s : Service) : outcome response * Service :=
  match data with
  | Some data => forward s (Coordinator.create_task data (v_coord s)) TaskId
  | None => (Panic, s)
  end.

Definition get_task_statuses (proof_id : string) (task_ids : list string) (s : Service) : outcome response * Service :=
  forward s (Coordinator.get_task_statuses proof_id task_ids (v_coord s), v_coord s) Statuses.

Definition complete_proof (proof_id : string) (extra_data : option string) (s : Service) : outcome response * Service :=
  forward s (Coordinator.complete_proof proof_id extra_data (v_coord s)) (fun _ => Empty).

Definition fail_proof (proof_id : string) (task_id extra_data : option string) (s : Service) : outcome response * Service :=
  forward s (Coordinator.fail_proof proof_id task_id true extra_data (v_coord s)) (fun _ => Empty).

Definition create_proof (request : CreateProofRequest) (s : Service) : outcome response * Service :=
  forward s (Coordinator.create_proof request (v_coord s)) TaskId.

Definition create_dummy_proof (proof_id : string) (expires_at : Z) (s : Service) : outcome response * Service :=
  forward s (Coordinator.create_dummy_proof proof_id expires_at (v_coord s)) (fun _ => Empty).

Definition cancel_proof (proof_id : string) (s : Service) : outcome response * Service :=
  forward s (Coordinator.fail_proof proof_id None true None (v_coord s)) (fun _ => Empty).

Definition update_sub (sub_id : string) (task_ids : list string) (s : Service) : outcome response * Service :=
  forward s (add_subscriptions sub_id task_ids (v_coord s)) (fun _ => Empty).

Definition get_stats (s : Service) : outcome response * Service := (Ok (StatsInfo (get_info (v_coord s))), s).

Definition subscribe_task_messages (task_id : string) (start_offset : nat) (s : Service) : outcome response * Service :=
  let (rx, c) := subscribe_task_channel task_id start_offset (v_coord s) in (Ok (TaskStream rx), set_coord c s).

Definition send_task_message (task_id : string) (payload : list Z) (s : Service) : outcome response * Service :=
  (Ok Empty, set_coord (Coordinator.send_task_message task_id payload (v_coord s)) s).

Definition serve (r : rpc) (s : Service) : outcome response * Service :=
  match r with
  | Open hb => open hb s
  | Close w => close w s
  | Heartbeat w pids tids cw => heartbeat w pids tids cw s
  | CompleteTask w pid tid md => complete_task w pid tid md s
  | FailTask w pid tid retryable => fail_task w pid tid retryable s
  | CreateTask data => create_task data s
  | GetTaskStatuses pid tids => get_task_statuses pid tids s
  | CompleteProof pid extra => complete_proof pid extra s
  | FailProof pid tid extra => fail_proof pid tid extra s
  | CreateProof req => create_proof req s
  | CreateDummyProof pid expires => create_dummy_proof pid expires s
  | CancelProof pid => cancel_proof pid s
  | OpenSub sub pid tids => open_sub sub pid tids s
  | UpdateSub sub tids => update_sub sub tids s
  | AckSub sub mid => ack_sub sub mid s
  | Healthcheck => (Ok Empty, s)
  | GetStats => get_stats s
  | SubscribeTaskMessages tid offset => subscribe_task_messages tid offset s
  | SendTaskMessage tid payload => send_task_message tid payload s
  end.

(** ** Steps of the server *)
Inductive server_op :=
  | Rpc (r : rpc)
  | Register (i : nat)
  | TaskRecv (t : nat)
  | TaskTick (t : nat) (cut : option nat)
  | ClientGone (stream : nat)
  | Background (o : op).  (* the periodic jobs, the claimer, shutdown *)

Definition server_step (s : Service) (o : server_op) : Service :=
  match o with
  | Rpc r => (serve r s).2
  | Register i => register i s
  | TaskRecv t => task_recv t s
  | TaskTick t cut => task_tick t cut s
  | ClientGone tx => set_streams (drop_rx tx (v_streams s)) s
  | Background o => set_coord (run o (v_coord s)).2 s
  end.

(** The bounds of [admissible] on what the requests carry. *)
Definition server_admissible (W : Z) (o : server_op) (s : Service) : Prop :=
  match o with
  | Rpc (CreateTask (Some data)) => task_admissible W data (v_coord s)
  | Rpc (CreateProof req) => admissible W (Reach.CreateProof req) (v_coord s)
  | Register i =>
      forall hb tx, v_registrations s !! i = Some (hb, tx) -> 0 <= o_max_weight hb <= Int.umax u32 - W
  | Background o => admissible W o (v_coord s)
  | _ => True
  end.

Inductive server_reachable (W : Z) : Service -> Prop :=
  | server_init : server_reachable W new_service
  | server_next s o : server_reachable W s -> server_admissible W o s -> server_reachable W (server_step s o).

End service.
End Serve.
