(* ===== verification/ServerProps.v ===== *)
(** * Properties of the coordinator's gRPC service

    The service adds nothing to what the coordinator can do, and a subscriber gets the
    results it asked for in spite of lost streams. *)
From stdpp Require Import base gmap strings list.
From S2P Require Import Prelude Proto TaskChannel CoordState Coordinator AssignSpec Capacity CoordInv CoordSteps Reach Server Demo.
From S2P Require Import PolicyQueue DefaultPolicy.
Import Serve.
Local Open Scope string_scope.
Local Open Scope list_scope.
Local Open Scope Z_scope.

Section refinement.
Context `{EO : ClusterEnvOk} {PT : PolicyTypes} {AP : AssignmentPolicy} {L : PolicyLaws AP} {MC : MetadataCodec}.
Context (W : Z).

Lemma reach_drop rx c : reachable W c -> reachable W (drop_sub_receiver rx c).
Proof. intros H. apply (reach_step W c (DropSubReceiver rx)); done. Qed.

Lemma reach_tick c : reachable W c -> reachable W (tick c).
Proof. intros H. apply (reach_step W c Tick); done. Qed.

Hint Resolve reach_drop reach_tick : core.

Lemma abort_reach t s : reachable W (v_coord s) -> reachable W (v_coord (abort t s)).
Proof. intros H. unfold abort. destruct (v_tasks s !! t); [by apply reach_drop|done]. Qed.

Lemma attach_stream_reach sub s : reachable W (v_coord s) -> reachable W (v_coord (attach_stream sub s).2).
Proof.
  intros H. pose proof (reach_step W _ OpenSubChannel H I) as H1. unfold attach_stream.
  destruct (unbounded_channel (v_streams s)) as [tx streams].
  change (run OpenSubChannel (v_coord s)).2 with (open_sub_channel (v_coord s)).2 in H1.
  destruct (open_sub_channel (v_coord s)) as [outer c]. cbn [snd] in H1.
  unfold new_id. cbn [fst snd]. set (s1 := set_coord (tick c) _).
  assert (reachable W (v_coord s1)) as Hs1 by (by apply reach_tick). clearbody s1.
  destruct (v_subs s1 !! sub) as [h|]; cbn; [by apply abort_reach|done].
Qed.

Lemma open_sub_reach sub pid tids s :
  reachable W (v_coord s) -> reachable W (v_coord (open_sub sub pid tids s).2).
Proof.
  intros H%(attach_stream_reach sub). unfold open_sub. destruct (attach_stream sub s) as [[outer tx] s1].
  by apply (reach_step W _ (CreateSubscriber sub pid tids outer)).
Qed.

Lemma serve_reach r s :
  reachable W (v_coord s) -> server_admissible W (Rpc r) s -> reachable W (v_coord (serve r s).2).
Proof.
  intros H Ha. destruct r; cbn -[run] in *.
  - by apply (reach_step W _ OpenWorkerChannel).
  - by apply (reach_step W _ (CloseWorker worker_id)).
  - by apply (reach_step W _ (Reach.Heartbeat worker_id proof_ids task_ids current_weight)).
  - by apply (reach_step W _ (Reach.CompleteTask worker_id proof_id task_id (default (mkTaskMetadata 0) (parse_metadata metadata)))).
  - by apply (reach_step W _ (Reach.FailTask worker_id proof_id task_id retryable)).
  - destruct data as [data|]; [|done]. by apply (reach_step W _ (Reach.CreateTask data)).
  - done.
  - by apply (reach_step W _ (Reach.CompleteProof proof_id extra_data)).
  - by apply (reach_step W _ (Reach.FailProof proof_id task_id true extra_data)).
  - by apply (reach_step W _ (Reach.CreateProof request)).
  - by apply (reach_step W _ (Reach.CreateDummyProof proof_id expires_at)).
  - by apply (reach_step W _ (Reach.FailProof proof_id None true None)).
  - by apply open_sub_reach.
  - by apply (reach_step W _ (AddSubscriptions sub_id task_ids)).
  - unfold ack_sub. by destruct (v_subs s !! sub_id).
  - done.
  - done.
  - pose proof (reach_step W _ (SubscribeTaskChannel task_id start_offset) H I) as Hr. cbn in Hr.
    unfold subscribe_task_messages. by destruct (subscribe_task_channel task_id start_offset (v_coord s)).
  - by apply (reach_step W _ (Reach.SendTaskMessage task_id payload)).
Qed.

Lemma task_tick_reach t cut s : reachable W (v_coord s) -> reachable W (v_coord (task_tick t cut s)).
Proof.
  intros H. unfold task_tick. destruct (v_tasks s !! t) as [k|]; [|done]. destruct (k_live k); [|done].
  set (s1 := if stream_closed _ _ then s else _).
  assert (reachable W (v_coord s1)) as Hs1.
  { unfold s1. destruct (stream_closed _ _); [done|]. cbn. destruct (resend _ _ _ _ _). cbn. by apply reach_tick. }
  clearbody s1. cbv zeta. case_match; [|done]. by apply abort_reach.
Qed.

Lemma server_reachable_coord s : server_reachable W s -> reachable W (v_coord s).
Proof.
  induction 1 as [|s o _ IH Ha]; [constructor|]. destruct o; cbn [server_step].
  - by apply serve_reach.
  - unfold register. destruct (v_registrations s !! i) as [[hb tx]|] eqn:Hi; [|done].
    pose proof (reach_step W _ (AddWorker (o_worker_id hb) (o_worker_type hb) (o_max_weight hb) tx
      (mkIdentity (o_version hb) (o_git_sha hb) (o_image_tag hb) (o_gpu_name hb)
                     (o_gpu_memory_total_bytes hb) (default "" (o_location hb)))) IH (Ha hb tx Hi)) as Hr. cbn -[add_worker] in Hr.
    by destruct (add_worker _ _ _ _ _ _).
  - unfold task_recv, system_now. repeat (case_match; try done). simplify_eq. by apply reach_tick.
  - by apply task_tick_reach.
  - done.
  - by apply reach_step.
Qed.

Definition returns {A} (o : outcome A) : Prop := match o with Ok _ | Err _ => True | _ => False end.

Lemma forward_returns {A} s (m : outcome A * Coordinator) f : returns m.1 -> returns (forward s m f).1.
Proof. by destruct m as [[] ?]. Qed.

Lemma ignore_returns {A} (m : outcome A * Coordinator) : returns (ignore m).1 -> returns m.1.
Proof. by destruct m as [[] ?]. Qed.

Lemma get_task_statuses_returns pid tids c : returns (Coordinator.get_task_statuses pid tids c).
Proof.
  unfold Coordinator.get_task_statuses. destruct (s_proofs (c_state c) !! pid) as [p|]; [|done].
  assert (returns (Ok (fun _ : TaskStatus => @nil string))) as H0 by done. revert H0. generalize (Ok (fun _ : TaskStatus => @nil string)).
  induction tids as [|tid tids IH]; intros acc Hacc; [done|]. cbn. apply IH.
  destruct acc; try done. by destruct (p_tasks p !! tid).
Qed.

Context (HW : 0 <= W).

Lemma run_returns o c : reachable W c -> admissible W o c -> returns (run o c).1.
Proof. intros HI%reachable_inv Ha; [|done]. by destruct (run_safe W HW o c HI Ha) as [_ Ho]. Qed.

Lemma serve_returns r s :
  reachable W (v_coord s) -> server_admissible W (Rpc r) s -> r <> CreateTask None -> returns (serve r s).1.
Proof.
  intros H Ha Hr. destruct r; cbn -[run forward] in *; try done; try apply forward_returns.
  - by apply (run_returns (CloseWorker worker_id)).
  - by apply (run_returns (Reach.Heartbeat worker_id proof_ids task_ids current_weight)).
  - by apply (run_returns (Reach.CompleteTask worker_id proof_id task_id (default (mkTaskMetadata 0) (parse_metadata metadata)))).
  - by apply (run_returns (Reach.FailTask worker_id proof_id task_id retryable)).
  - destruct data as [data|]; [|done]. apply forward_returns, ignore_returns. by apply (run_returns (Reach.CreateTask data)).
  - apply get_task_statuses_returns.
  - by apply (run_returns (Reach.CompleteProof proof_id extra_data)).
  - by apply (run_returns (Reach.FailProof proof_id task_id true extra_data)).
  - apply ignore_returns. by apply (run_returns (Reach.CreateProof request)).
  - apply ignore_returns. by apply (run_returns (Reach.CreateDummyProof proof_id expires_at)).
  - by apply (run_returns (Reach.FailProof proof_id None true None)).
  - unfold open_sub. pose proof (attach_stream_reach sub_id s H) as H1. destruct (attach_stream sub_id s) as [[outer tx] s1].
    apply forward_returns. by apply (run_returns (CreateSubscriber sub_id proof_id task_ids outer)).
  - by apply (run_returns (AddSubscriptions sub_id task_ids)).
  - unfold ack_sub. by destruct (v_subs s !! sub_id).
  - unfold subscribe_task_messages. by destruct (subscribe_task_channel task_id start_offset (v_coord s)).
Qed.

(** The service refines the coordinator: however RPCs, registrations, subscriber
    tasks, disconnecting clients and background jobs interleave, the coordinator inside
    the service is in a state the coordinator itself can reach, so every property of
    reachable states holds of it; and every RPC except a [create_task] without its data
    returns a response or an error status, never a panic. *)
Theorem service_refines_coordinator s :
  server_reachable W s ->
  reachable W (v_coord s) /\
  forall r, server_admissible W (Rpc r) s -> r <> CreateTask None ->
    (exists a, (serve r s).1 = Ok a) \/ (exists e, (serve r s).1 = Err e).
Proof.
  intros Hs%server_reachable_coord. split; [done|]. intros r Ha Hr.
  pose proof (serve_returns r s Hs Ha Hr) as Hret. destruct (serve r s).1; naive_solver.
Qed.

End refinement.

(** ** Resending *)
Section resending.
Context `{EO : ClusterEnvOk} {PT : PolicyTypes} {AP : AssignmentPolicy} {MC : MetadataCodec}.

Definition due (now : Z) (p : Pending) : bool := RESEND_AFTER <? Z.max 0 (now - pd_last p).

(** What one tick makes of an entry. *)
Definition after_tick (now : Z) (p : Pending) : option Pending :=
  if due now p then
    let retries := Int.wadd u32 (pd_retries p) 1 in
    if 3 <? retries then None else Some (mkPending now (pd_msg p) retries)
  else Some p.

Definition due_messages (now : Z) (l : list (string * Pending)) : list ServerSubMessage :=
  pd_msg <$> (filter (fun p => due now p = true) l.*2).

Lemma resend_open now tx l map n mb :
  boxes n !! tx = Some mb -> rx_open mb = true -> NoDup l.*1 ->
  (forall id p, (id, p) ∈ l -> map !! id = Some p) ->
  exists map' n', resend now tx None (map, n) l = (map', n') /\
    boxes n' !! tx = Some (mkMailbox (sent mb ++ due_messages now l) true) /\
    (forall id, map' !! id = if decide (id ∈ l.*1) then map !! id ≫= after_tick now else map !! id).
Proof.
  revert map n mb. induction l as [|[id p] l IH]; intros map n mb Hb Ho Hnd Hl.
  { exists map, n. cbn. split_and!; [done| |done]. rewrite app_nil_r, Hb. by destruct mb; cbn in Ho; subst. }
  apply NoDup_cons in Hnd as [Hid Hnd]. cbn [resend].
  assert (Hp : map !! id = Some p) by (apply Hl; by left).
  assert (exists map1 n1 mb1, resend_one now tx (map, n) (id, p) = (map1, n1) /\ boxes n1 !! tx = Some mb1 /\ rx_open mb1 = true /\
    sent mb1 = sent mb ++ (if due now p then [pd_msg p] else []) /\ map1 !! id = after_tick now p /\
    (forall id', id <> id' -> map1 !! id' = map !! id')) as (map1 & n1 & mb1 & Heq & Hb1 & Ho1 & Hs1 & Hm1 & Hrest).
  { unfold resend_one, due, after_tick. destruct (RESEND_AFTER <? _) eqn:Hdue.
    - unfold send. rewrite Hb, Ho. cbn [negb]. unfold due. rewrite Hdue.
      destruct (3 <? Int.wadd u32 (pd_retries p) 1); eexists _, _, (mkMailbox (sent mb ++ [pd_msg p]) true);
        split_and!; try reflexivity; cbn; try apply lookup_insert_eq; try apply lookup_delete_eq; intros; by simplify_map_eq.
    - exists map, n, mb. unfold due. rewrite Hdue, app_nil_r. by split_and!. }
  cbn [fmap option_fmap option_map]. rewrite Heq.
  destruct (IH map1 n1 mb1 Hb1 Ho1 Hnd) as (map' & n' & Hr & Hbox & Hmap).
  { intros id' p' Hin. rewrite Hrest; [by apply Hl; right|]. intros <-. apply Hid. apply list_elem_of_fmap. by exists (id, p'). }
  exists map', n'. split_and!; [done| |].
  - rewrite Hbox, Hs1, <- app_assoc. do 2 f_equal. unfold due_messages. rewrite !fmap_cons, filter_cons. cbn [snd].
    destruct (due now p); [rewrite decide_True by done|rewrite decide_False by done]; done.
  - intros id'. rewrite Hmap. cbn. destruct (decide (id' = id)) as [->|Hne].
    + rewrite decide_False by done. rewrite decide_True by (by left). by rewrite Hm1, Hp.
    + rewrite Hrest by done. destruct (decide (id' ∈ l.*1)).
      * by rewrite decide_True by (by right).
      * rewrite decide_False; [done|]. intros [?|?]%elem_of_cons; done.
Qed.

Lemma abort_streams t s : v_streams (abort t s) = v_streams s /\ v_maps (abort t s) = v_maps s.
Proof. unfold abort. by destruct (v_tasks s !! t). Qed.

(** Delivery to a subscriber is at least once, with a bound. A tick of a
    subscriber's task whose stream is open sends again, on that stream, exactly the
    messages not acknowledged for more than four seconds, in the map's order; each of
    them is kept with one more retry and a fresh time until its fourth resend, after
    which it is dropped, and every other message is untouched. This holds for the task
    of a reconnected stream too, which inherits the map. *)
Theorem tick_resends_exactly s t k m mb :
  v_tasks s !! t = Some k -> k_live k = true -> v_maps s !! k_map k = Some m ->
  boxes (v_streams s) !! k_tx k = Some mb -> rx_open mb = true ->
  let now := clock (c_tick (v_coord s)) in
  let s' := task_tick t None s in
  boxes (v_streams s') !! k_tx k = Some (mkMailbox (sent mb ++ due_messages now (iter_map m)) true) /\
  exists m', v_maps s' !! k_map k = Some m' /\ forall id, m' !! id = m !! id ≫= after_tick now.
Proof.
  intros Ht Hlive Hm Hb Ho now s'. unfold s', task_tick. rewrite Ht, Hlive. unfold stream_closed. rewrite Hb, Ho. cbn [negb].
  rewrite Hm. cbn [default from_option id]. cbv zeta. unfold system_now.
  destruct (resend_open now (k_tx k) (iter_map m) m (v_streams s) mb Hb Ho (NoDup_iter_map m)) as (m' & n' & Hr & Hbox & Hmap).
  { intros i p Hin. by apply elem_of_iter_map. }
  fold now. rewrite Hr.
  assert (Hgoal : boxes n' !! k_tx k = Some (mkMailbox (sent mb ++ due_messages now (iter_map m)) true) /\
    exists m2, <[k_map k := m']> (v_maps s) !! k_map k = Some m2 /\ forall id, m2 !! id = m !! id ≫= after_tick now).
  { split; [done|]. exists m'. split; [apply list_lookup_insert_eq; by eapply lookup_lt_Some|].
    intros id. rewrite Hmap. case_decide as Hin; [done|]. destruct (m !! id) as [p|] eqn:Hp; [|done].
    destruct Hin. apply list_elem_of_fmap. exists (id, p). split; [done|]. by apply elem_of_iter_map. }
  case_match; [|exact Hgoal]. destruct (abort_streams t (set_subs (match v_subs s !! k_sub k with
    | Some h => if decide (h_task h = t) then delete (k_sub k) (v_subs s) else v_subs s | None => v_subs s end)
    (set_coord (tick (v_coord s)) (set_maps (<[k_map k := m']> (v_maps s)) (set_streams n' s))))) as [Hst Hma].
  cbn in Hst, Hma |- *. by rewrite Hst, Hma.
Qed.

End resending.

(** ** Concrete runs *)
#[local] Existing Instance demo_env.
#[local] Existing Instance Default.types.
#[local] Existing Instance Default.policy.
#[local] Instance demo_codec : MetadataCodec := fun _ => None.

Definition demo_open : OpenRequest := mkOpen "w1" All 64 "" "" "" "GPU" 0 None.
Definition demo_service : Service :=
  foldl server_step new_service
    [Rpc (CreateProof demo_req); Rpc (Open demo_open); Register 0;
     Rpc (OpenSub "sub" "p1" ["gone"]); TaskRecv 0].

Lemma demo_service_reachable : server_reachable demo_W demo_service.
Proof.
  unfold demo_service. cbn [foldl]. repeat apply server_next; try exact I; [apply server_init|vm_compute; split; discriminate|].
  intros hb tx Hi. change (v_registrations _) with [(demo_open, 0%nat)] in Hi. injection Hi as <- _.
  vm_compute. split; discriminate.
Qed.

Lemma service_refines_coordinator_witness :
  reachable demo_W (v_coord demo_service) /\
  ((exists a, (serve (CompleteTask "w1" "p1" "task_3" "") demo_service).1 = Ok a) \/
   (exists e, (serve (CompleteTask "w1" "p1" "task_3" "") demo_service).1 = Err e)).
Proof.
  destruct (service_refines_coordinator (L := Default.laws) demo_W ltac:(unfold demo_W; lia) demo_service demo_service_reachable) as [H1 H2].
  split; [exact H1|]. apply H2; [exact I|discriminate].
Defined.

(** Five readings of the clock later the unknown-task notice is due again. *)
Definition demo_waiting : Service := foldl server_step demo_service [Background Tick; Background Tick; Background Tick; Background Tick; Background Tick].

Definition demo_box (s : Service) : mailbox ServerSubMessage := default (mkMailbox [] true) (boxes (v_streams s) !! 0%nat).

Lemma tick_resends_exactly_witness :
  sub_message <$> sent (demo_box demo_waiting) = [SubHeartbeat; UnknownTask "p1" "gone"] /\
  sub_message <$> sent (demo_box (task_tick 0 None demo_waiting)) = [SubHeartbeat; UnknownTask "p1" "gone"; UnknownTask "p1" "gone"].
Proof.
  split; [vm_compute; reflexivity|].
  destruct (tick_resends_exactly demo_waiting 0 (mkSubTask "sub" 0 1 0 0 true)
    (default ∅ (v_maps demo_waiting !! 0%nat)) (demo_box demo_waiting)) as [Hb _];
    [vm_compute; reflexivity..|].
  change (k_tx (mkSubTask "sub" 0 1 0 0 true)) with 0%nat in Hb. unfold demo_box at 1. rewrite Hb. vm_compute. reflexivity.
Defined.

(** A stream that breaks in the middle of a tick takes with it the message whose resend
    fails: it is no longer in the map a reconnected stream would inherit. *)
Lemma broken_tick_drops_message :
  (fun m : gmap string Pending => size m) <$> v_maps demo_waiting = [1%nat] /\
  (fun m : gmap string Pending => size m) <$> v_maps (task_tick 0 (Some 0%nat) demo_waiting) = [0%nat].
Proof. split; vm_compute; reflexivity. Qed.
