(* ===== verification/ApiStore.v ===== *)
(** * The cluster API

    The proof-request service of [bin/api/src/service.rs] over its table (the
    [proof_requests] relation of [migrations/]) and the client of
    [crates/common/src/client.rs] that the coordinator, the fulfiller and the
    gateway call it with: per-attempt timeouts, retries and the paged listing.

    Postgres runs one statement at a time on the table: each [sqlx] query is a
    function on it, [execute] adds what a broken connection can do (the
    statement may or may not have run when the error comes back). *)
From stdpp Require Import base gmap strings list sorting.
From S2P Require Import Prelude.
Local Open Scope string_scope.
Local Open Scope list_scope.
Local Open Scope Z_scope.

Inductive ProofRequestStatus := PrPending | PrCompleted | PrFailed | PrCancelled.

#[export] Instance ProofRequestStatus_eq_dec : EqDecision ProofRequestStatus.
Proof. solve_decision. Defined.

(** The generated enum's wire codes, and the database's order of [TEXT]
    values (its collation). *)
Class ApiEnv := {
  status_i32 : ProofRequestStatus -> Z;
  text_le : relation string;
  text_le_dec :: RelDecision text_le;
}.

Class ApiEnvOk (E : ApiEnv) : Prop := {
  status_i32_inj :: Inj (=) (=) status_i32;
  text_le_total :: TotalOrder text_le;
}.

(** ** Rows and messages *)
Record ExecutionResult := mkExecutionResult {
  er_status : Z;
  er_failure_cause : Z;
  er_cycles : Z;
  er_gas : Z;
  er_public_values_hash : list Z;
}.

Record DbProofRequest := mkRow {
  r_id : string;
  r_proof_status : Z;
  r_requester : list Z;
  r_execution_status : option Z;
  r_execution_failure_cause : option Z;
  r_execution_cycles : option Z;
  r_execution_gas : option Z;
  r_execution_public_values_hash : option (list Z);
  r_stdin_artifact_id : string;
  r_program_artifact_id : string;
  r_proof_artifact_id : option string;
  r_options_artifact_id : option string;
  r_cycle_limit : option Z;
  r_gas_limit : option Z;
  r_deadline : Z;
  r_handled : bool;
  r_metadata : string;
  r_created_at : Z;
  r_updated_at : Z;
  r_extra_data : option string;
  r_scheduled_by : option string;
  r_stdin_private : bool;
}.

Record ProofRequest := mkProofRequest {
  q_id : string;
  q_proof_status : Z;
  q_requester : list Z;
  q_execution_result : option ExecutionResult;
  q_stdin_artifact_id : string;
  q_program_artifact_id : string;
  q_proof_artifact_id : option string;
  q_options_artifact_id : option string;
  q_cycle_limit : option Z;
  q_gas_limit : option Z;
  q_deadline : Z;
  q_handled : bool;
  q_metadata : string;
  q_created_at : Z;
  q_updated_at : Z;
  q_extra_data : option string;
  q_scheduled_by : option string;
  q_stdin_private : bool;
}.

Record ProofRequestCreateRequest := mkCreateRequest {
  cr_proof_id : string;
  cr_requester : list Z;
  cr_stdin_artifact_id : string;
  cr_program_artifact_id : string;
  cr_options_artifact_id : option string;
  cr_proof_artifact_id : option string;
  cr_cycle_limit : Z;
  cr_deadline : Z;
  cr_gas_limit : Z;
  cr_scheduled_by : option string;
  cr_stdin_private : bool;
}.

Record ProofRequestUpdateRequest := mkUpdateRequest {
  up_proof_id : string;
  up_proof_status : option Z;
  up_handled : option bool;
  up_deadline : option Z;
  up_execution_result : option ExecutionResult;
  up_metadata : option string;
  up_extra_data : option string;
}.

Record ProofRequestListRequest := mkListRequest {
  ls_proof_status : list Z;
  ls_execution_status : list Z;
  ls_minimum_deadline : option Z;
  ls_handled : option bool;
  ls_scheduled_by : option string;
  ls_limit : option Z;
  ls_offset : option Z;
}.

Definition empty_update (id : string) : ProofRequestUpdateRequest :=
  mkUpdateRequest id None None None None None None.

#[export] Instance ExecutionResult_eq_dec : EqDecision ExecutionResult.
Proof. solve_decision. Defined.
#[export] Instance ProofRequestUpdateRequest_eq_dec : EqDecision ProofRequestUpdateRequest.
Proof. solve_decision. Defined.

(** Rust's [as] between [u64] and [i64]. *)
Definition as_i64 (x : Z) : Z := if x <? 2 ^ 63 then x else x - 2 ^ 64.
Definition as_u64 (x : Z) : Z := Int.wrap u64 x.

(** [DbProofRequest::into_proto]: the [unwrap]s panic on a half-set execution
    result. *)
Definition into_proto (r : DbProofRequest) : outcome ProofRequest :=
  let proto (er : option ExecutionResult) :=
    mkProofRequest (r_id r) (r_proof_status r) (r_requester r) er
      (r_stdin_artifact_id r) (r_program_artifact_id r) (r_proof_artifact_id r) (r_options_artifact_id r)
      (as_u64 <$> r_cycle_limit r) (as_u64 <$> r_gas_limit r) (as_u64 (r_deadline r))
      (r_handled r) (r_metadata r) (as_u64 (r_created_at r)) (as_u64 (r_updated_at r))
      (r_extra_data r) (r_scheduled_by r) (r_stdin_private r) in
  match r_execution_status r with
  | None => Ok (proto None)
  | Some status =>
      match r_execution_failure_cause r, r_execution_cycles r, r_execution_gas r,
            r_execution_public_values_hash r with
      | Some cause, Some cycles, Some gas, Some hash =>
          Ok (proto (Some (mkExecutionResult status cause (as_u64 cycles) (as_u64 gas) hash)))
      | _, _, _, _ => Panic
      end
  end.

(** Collecting an iterator of conversions stops at the first panic. *)
Fixpoint collect {A B} (f : A -> outcome B) (l : list A) : outcome (list B) :=
  match l with
  | [] => Ok []
  | x :: l =>
      match f x with
      | Ok y => match collect f l with Ok ys => Ok (y :: ys) | Err e => Err e | Panic => Panic | Fuel => Fuel end
      | Err e => Err e
      | Panic => Panic
      | Fuel => Fuel
      end
  end.

Abbreviation Db := (gmap string DbProofRequest).

(** ** One statement against the database *)
Inductive Fault := Healthy | FailedBefore | FailedAfter.

Definition execute {A} (fault : Fault) (stmt : Db -> A * Db) (db : Db) : option A * Db :=
  match fault with
  | Healthy => (Some (stmt db).1, (stmt db).2)
  | FailedBefore => (None, db)
  | FailedAfter => (None, (stmt db).2)
  end.

Section service.
Context `{E : ApiEnv}.

Definition new_row (now : Z) (req : ProofRequestCreateRequest) : DbProofRequest :=
  mkRow (cr_proof_id req) (status_i32 PrPending) (cr_requester req) None None None None None
    (cr_stdin_artifact_id req) (cr_program_artifact_id req) (cr_proof_artifact_id req)
    (cr_options_artifact_id req) (Some (as_i64 (cr_cycle_limit req))) (Some (as_i64 (cr_gas_limit req)))
    (as_i64 (cr_deadline req)) false "null" now now None (cr_scheduled_by req) (cr_stdin_private req).

(** [INSERT]: [false] is the unique violation on [id]; [now] is the column
    default of the timestamps. *)
Definition insert_row (now : Z) (req : ProofRequestCreateRequest) (db : Db) : bool * Db :=
  match db !! cr_proof_id req with
  | Some _ => (false, db)
  | None => (true, <[cr_proof_id req := new_row now req]> db)
  end.

(** [proof_request_create]. *)
Definition proof_request_create (fault : Fault) (now : Z) (req : ProofRequestCreateRequest) (db : Db)
  : outcome unit * Db :=
  match execute fault (insert_row now req) db with
  | (Some true, db) => (Ok tt, db)
  | (Some false, db) => (Err (mkStatus AlreadyExists "proof request already exists"), db)
  | (None, db) => (Err (mkStatus Internal "Failed to create proof request"), db)
  end.

Definition set_r_proof_status (x : Z) (r : DbProofRequest) : DbProofRequest :=
  mkRow (r_id r) x (r_requester r) (r_execution_status r) (r_execution_failure_cause r)
    (r_execution_cycles r) (r_execution_gas r) (r_execution_public_values_hash r)
    (r_stdin_artifact_id r) (r_program_artifact_id r) (r_proof_artifact_id r) (r_options_artifact_id r)
    (r_cycle_limit r) (r_gas_limit r) (r_deadline r) (r_handled r) (r_metadata r) (r_created_at r)
    (r_updated_at r) (r_extra_data r) (r_scheduled_by r) (r_stdin_private r).

(** [UPDATE ... WHERE id = $1 AND guard]: the rows affected and the table. *)
Definition update_where (id : string) (guard : DbProofRequest -> bool)
    (set : DbProofRequest -> DbProofRequest) (db : Db) : nat * Db :=
  match db !! id with
  | Some r => if guard r then (1%nat, <[id := set r]> db) else (0%nat, db)
  | None => (0%nat, db)
  end.

Definition is_pending (r : DbProofRequest) : bool := r_proof_status r =? status_i32 PrPending.

(** [proof_request_cancel]. *)
Definition proof_request_cancel (fault : Fault) (id : string) (db : Db) : outcome unit * Db :=
  match execute fault (update_where id is_pending (set_r_proof_status (status_i32 PrCancelled))) db with
  | (Some _, db) => (Ok tt, db)
  | (None, db) => (Err (mkStatus Internal "Failed to cancel proof request"), db)
  end.

(** The [SET] list [proof_request_update] builds from the fields present. *)
Definition apply_update (req : ProofRequestUpdateRequest) (r : DbProofRequest) : DbProofRequest :=
  let keep {A} (x : option A) (old : A) := default old x in
  let er {A} (f : ExecutionResult -> A) (old : option A) :=
    match up_execution_result req with Some e => Some (f e) | None => old end in
  mkRow (r_id r) (keep (up_proof_status req) (r_proof_status r)) (r_requester r)
    (er er_status (r_execution_status r)) (er er_failure_cause (r_execution_failure_cause r))
    (er (fun e => as_i64 (er_cycles e)) (r_execution_cycles r))
    (er (fun e => as_i64 (er_gas e)) (r_execution_gas r))
    (er er_public_values_hash (r_execution_public_values_hash r))
    (r_stdin_artifact_id r) (r_program_artifact_id r) (r_proof_artifact_id r) (r_options_artifact_id r)
    (r_cycle_limit r) (r_gas_limit r) (keep (as_i64 <$> up_deadline req) (r_deadline r))
    (keep (up_handled req) (r_handled r)) (keep (up_metadata req) (r_metadata r))
    (r_created_at r) (r_updated_at r)
    (match up_extra_data req with Some x => Some x | None => r_extra_data r end)
    (r_scheduled_by r) (r_stdin_private r).

Definition guard_pending (req : ProofRequestUpdateRequest) : bool :=
  match up_proof_status req with Some _ => true | None => false end.

(** [proof_request_update]. *)
Definition proof_request_update (fault : Fault) (req : ProofRequestUpdateRequest) (db : Db)
  : outcome unit * Db :=
  if decide (req = empty_update (up_proof_id req))
  then (Err (mkStatus InvalidArgument "No updates specified"), db)
  else
    let guard := fun r => if guard_pending req then is_pending r else true in
    match execute fault (update_where (up_proof_id req) guard (apply_update req)) db with
    | (Some O, db) =>
        if guard_pending req then (Ok tt, db)
        else (Err (mkStatus NotFound ("Proof request " +:+ up_proof_id req +:+ " not found")), db)
    | (Some (S _), db) => (Ok tt, db)
    | (None, db) => (Err (mkStatus Internal "Failed to update proof request"), db)
    end.

(** [proof_request_get]. *)
Definition proof_request_get (fault : Fault) (id : string) (db : Db) : outcome (option ProofRequest) :=
  match execute fault (fun db => (db !! id, db)) db with
  | (Some (Some r), _) =>
      match into_proto r with Ok q => Ok (Some q) | Err e => Err e | Panic => Panic | Fuel => Fuel end
  | (Some None, _) => Ok None
  | (None, _) => Err (mkStatus Internal "Failed to get proof request")
  end.

(** The [WHERE] clause [proof_request_list] builds; a comparison with [NULL]
    keeps no row. *)
Definition list_match (req : ProofRequestListRequest) (r : DbProofRequest) : bool :=
  (match ls_proof_status req with [] => true | l => bool_decide (r_proof_status r ∈ l) end) &&
  (match ls_execution_status req with
   | [] => true
   | l => match r_execution_status r with Some x => bool_decide (x ∈ l) | None => false end
   end) &&
  (match ls_minimum_deadline req with Some d => as_i64 d <=? r_deadline r | None => true end) &&
  (match ls_handled req with Some h => Bool.eqb h (r_handled r) | None => true end) &&
  (match ls_scheduled_by req with Some s => bool_decide (r_scheduled_by r = Some s) | None => true end).

(** [ORDER BY created_at ASC, id ASC]. *)
Definition row_le (a b : DbProofRequest) : Prop :=
  r_created_at a < r_created_at b \/ (r_created_at a = r_created_at b /\ text_le (r_id a) (r_id b)).

#[export] Instance row_le_dec : RelDecision row_le.
Proof. unfold row_le. intros a b. apply _. Defined.

Definition matching_rows (req : ProofRequestListRequest) (db : Db) : list DbProofRequest :=
  merge_sort row_le (filter (fun r => list_match req r = true) (map_to_list db).*2).

Definition I32_MAX : Z := 2 ^ 31 - 1.

Definition list_page (req : ProofRequestListRequest) (db : Db) : list DbProofRequest :=
  let limit := Z.min (default 10 (ls_limit req)) 1000 in
  let offset := Z.min (default 0 (ls_offset req)) I32_MAX in
  take (Z.to_nat limit) (drop (Z.to_nat offset) (matching_rows req db)).

(** [proof_request_list]. *)
Definition proof_request_list (fault : Fault) (req : ProofRequestListRequest) (db : Db)
  : outcome (list ProofRequest) :=
  match execute fault (fun db => (list_page req db, db)) db with
  | (Some rows, _) => collect into_proto rows
  | (None, _) => Err (mkStatus Internal "Failed to list proof requests")
  end.
End service.

(** ** The client *)

(** One gRPC attempt: served by the API, refused before it got there, or cut
    off by [ATTEMPT_TIMEOUT] with the server having run it or not. *)
Inductive Attempt := Served (f : Fault) | Refused (e : Status) | TimedOut (ran : option Fault).

(** [with_timeout]. *)
Definition with_timeout {T} (a : Attempt) (call : Fault -> Db -> outcome T * Db) (db : Db)
  : outcome T * Db :=
  let late := Err (mkStatus DeadlineExceeded "cluster API attempt timed out") in
  match a with
  | Served f => call f db
  | Refused e => (Err e, db)
  | TimedOut None => (late, db)
  | TimedOut (Some f) => (late, (call f db).2)
  end.

(** [BackoffError for tonic::Status]: the codes worth a retry. *)
Definition is_transient (c : Code) : bool :=
  match c with
  | Internal | Unavailable | Unknown | Cancelled | DeadlineExceeded | ResourceExhausted | Aborted | DataLoss => true
  | _ => false
  end.

(** [retry_call]: the first attempt and those the backoff budget still allows. *)
Fixpoint retry_call {T} (a : Attempt) (more : list Attempt) (call : Fault -> Db -> outcome T * Db) (db : Db)
  : outcome T * Db :=
  match with_timeout a call db, more with
  | (Err e, db), a' :: more' => if is_transient (code e) then retry_call a' more' call db else (Err e, db)
  | r, _ => r
  end.

Definition PROOF_REQUEST_PAGE_SIZE : Z := 1000.
Definition MAX_PAGES : nat := 100.

(** [drain_pages]: [pages] are left of the [MAX_PAGES] of the loop. *)
Fixpoint drain_from {T} (page_size : Z) (fetch : Z -> outcome (list T)) (page_idx pages : nat) (all : list T)
  : outcome (list T) :=
  match pages with
  | O => Ok all
  | S pages =>
      match fetch (Int.wrap u32 (Z.of_nat page_idx * page_size)) with
      | Ok page =>
          let all := all ++ page in
          if Int.wrap u32 (Z.of_nat (length page)) =? page_size
          then drain_from page_size fetch (S page_idx) pages all
          else Ok all
      | Err e => Err e
      | Panic => Panic
      | Fuel => Fuel
      end
  end.

Definition drain_pages {T} (page_size : Z) (fetch : Z -> outcome (list T)) : outcome (list T) :=
  drain_from page_size fetch 0 MAX_PAGES [].

(** [dedup_by_id]: [seen] is the set the filter threads. *)
Fixpoint dedup_from (seen : gset string) (rows : list ProofRequest) : list ProofRequest :=
  match rows with
  | [] => []
  | q :: rows =>
      if decide (q_id q ∈ seen) then dedup_from seen rows
      else q :: dedup_from ({[q_id q]} ∪ seen) rows
  end.
Definition dedup_by_id (rows : list ProofRequest) : list ProofRequest := dedup_from ∅ rows.

Definition page_request (req : ProofRequestListRequest) (offset : Z) : ProofRequestListRequest :=
  mkListRequest (ls_proof_status req) (ls_execution_status req) (ls_minimum_deadline req)
    (ls_handled req) (ls_scheduled_by req) (Some PROOF_REQUEST_PAGE_SIZE) (Some offset).

(** [get_all_proof_requests]: [list_call] is [get_proof_requests]; successive
    pages are separate reads of the table. *)
Definition get_all_proof_requests (list_call : ProofRequestListRequest -> outcome (list ProofRequest))
    (req : ProofRequestListRequest) : outcome (list ProofRequest) :=
  match drain_pages PROOF_REQUEST_PAGE_SIZE (fun offset => list_call (page_request req offset)) with
  | Ok rows => Ok (dedup_by_id rows)
  | Err e => Err e
  | Panic => Panic
  | Fuel => Fuel
  end.

(** ** The table over time

    Every request the service takes, as one operation on the table. *)
Inductive api_op :=
  | ApiCreate (f : Fault) (now : Z) (req : ProofRequestCreateRequest)
  | ApiCancel (f : Fault) (id : string)
  | ApiUpdate (f : Fault) (req : ProofRequestUpdateRequest).

Section table.
Context `{EO : ApiEnvOk}.

Definition api_run (o : api_op) (db : Db) : Db :=
  match o with
  | ApiCreate f now req => (proof_request_create f now req db).2
  | ApiCancel f id => (proof_request_cancel f id db).2
  | ApiUpdate f req => (proof_request_update f req db).2
  end.

Definition api_runs (os : list api_op) (db : Db) : Db := foldl (fun db o => api_run o db) db os.

(** Rows sit under their own id and set the execution result's columns together. *)
Definition row_wf (r : DbProofRequest) : Prop :=
  r_execution_status r = None \/
  (is_Some (r_execution_failure_cause r) /\ is_Some (r_execution_cycles r) /\
   is_Some (r_execution_gas r) /\ is_Some (r_execution_public_values_hash r)).
Definition db_wf (db : Db) : Prop := forall id r, db !! id = Some r -> r_id r = id /\ row_wf r.

(** What a statement may do to the table. *)
Record row_step (r r' : DbProofRequest) : Prop := {
  rs_id : r_id r' = r_id r;
  rs_wf : row_wf r -> row_wf r';
  rs_final : r_proof_status r <> status_i32 PrPending -> r_proof_status r' = r_proof_status r;
}.
Definition db_step (db db' : Db) : Prop :=
  (forall id r, db !! id = Some r -> exists r', db' !! id = Some r' /\ row_step r r') /\
  (forall id r', db' !! id = Some r' -> db !! id = None -> r_id r' = id /\ row_wf r').

Lemma row_step_refl r : row_step r r.
Proof. by constructor. Qed.

Lemma row_step_trans r1 r2 r3 : row_step r1 r2 -> row_step r2 r3 -> row_step r1 r3.
Proof.
  intros [Hi1 Hw1 Hf1] [Hi2 Hw2 Hf2]. constructor; [congruence|auto|].
  intros Hp. rewrite Hf2; [auto|]. by rewrite Hf1.
Qed.

Lemma db_step_refl db : db_step db db.
Proof. split; [|by intros ?? -> ]. intros id r Hr. exists r. split; [done|apply row_step_refl]. Qed.

Lemma db_step_trans db1 db2 db3 : db_step db1 db2 -> db_step db2 db3 -> db_step db1 db3.
Proof.
  intros [Ho1 Hn1] [Ho2 Hn2]. split.
  - intros id r Hr. destruct (Ho1 id r Hr) as (r2 & Hr2 & Hs). destruct (Ho2 id r2 Hr2) as (r3 & Hr3 & Hs').
    exists r3. split; [done|by eapply row_step_trans].
  - intros id r3 Hr3 Hnone. destruct (db2 !! id) as [r2|] eqn:Hr2; [|by apply Hn2].
    destruct (Hn1 id r2 Hr2 Hnone) as [Hid Hwf]. destruct (Ho2 id r2 Hr2) as (r3' & Hr3' & [Hi Hw _]).
    simplify_eq. split; [congruence|auto].
Qed.

Lemma db_step_wf db db' : db_step db db' -> db_wf db -> db_wf db'.
Proof.
  intros [Ho Hn] Hwf id r' Hr'. destruct (db !! id) as [r|] eqn:Hr; [|by apply Hn].
  destruct (Ho id r Hr) as (r'' & Hr'' & [Hi Hw _]). destruct (Hwf id r Hr) as [Hid Hrw].
  simplify_eq. split; [congruence|auto].
Qed.

Lemma db_step_update id r r' db : db !! id = Some r -> row_step r r' -> db_step db (<[id := r']> db).
Proof.
  intros Hr Hs. split.
  - intros id0 r0 Hr0. destruct (decide (id0 = id)) as [->|Hne].
    + simplify_eq. exists r'. rewrite lookup_insert_eq. done.
    + exists r0. rewrite lookup_insert_ne by congruence. split; [done|apply row_step_refl].
  - intros id0 r0 Hr0 Hn. destruct (decide (id0 = id)) as [->|Hne]; [congruence|].
    rewrite lookup_insert_ne in Hr0 by congruence. congruence.
Qed.

Lemma db_step_update_where id guard set db :
  (forall r, guard r = true -> row_step r (set r)) -> db_step db (update_where id guard set db).2.
Proof.
  intros Hset. unfold update_where. case_all; try apply db_step_refl. eapply db_step_update; eauto.
Qed.

Lemma execute_step {A} fault (stmt : Db -> A * Db) db :
  db_step db (stmt db).2 -> db_step db (execute fault stmt db).2.
Proof. destruct fault; simpl; auto using db_step_refl. Qed.

Lemma insert_row_step now req db : db_step db (insert_row now req db).2.
Proof.
  unfold insert_row. destruct (db !! cr_proof_id req) eqn:Hnew; simpl; [apply db_step_refl|]. split.
  - intros id r Hr. exists r. rewrite lookup_insert_ne by congruence. split; [done|apply row_step_refl].
  - intros id r Hr Hn. destruct (decide (id = cr_proof_id req)) as [->|Hne].
    + rewrite lookup_insert_eq in Hr. simplify_eq. split; [done|by left].
    + rewrite lookup_insert_ne in Hr by congruence. congruence.
Qed.

Lemma is_pending_iff r : is_pending r = true <-> r_proof_status r = status_i32 PrPending.
Proof. unfold is_pending. apply Z.eqb_eq. Qed.

Lemma apply_update_step req r :
  (guard_pending req = true -> is_pending r = true) -> row_step r (apply_update req r).
Proof.
  unfold guard_pending. intros Hg. constructor; simpl; [done| |].
  - unfold row_wf. simpl. destruct (up_execution_result req); [|done]. intros _. right. by repeat split.
  - intros Hp. destruct (up_proof_status req); simpl; [|done].
    by specialize (Hg eq_refl) as ?%is_pending_iff.
Qed.

Lemma proof_request_update_step f req db : db_step db (proof_request_update f req db).2.
Proof.
  unfold proof_request_update. destruct (decide _); [apply db_step_refl|].
  set (guard := fun r => if guard_pending req then is_pending r else true).
  assert (Hs : db_step db (execute f (update_where (up_proof_id req) guard (apply_update req)) db).2).
  { apply execute_step, db_step_update_where. intros r Hg. apply apply_update_step.
    intros Hp. unfold guard in Hg. by rewrite Hp in Hg. }
  destruct (execute _ _ _) as [[[]|] ?]; [destruct (guard_pending req)| |]; apply Hs.
Qed.

Lemma proof_request_cancel_step f id db : db_step db (proof_request_cancel f id db).2.
Proof.
  unfold proof_request_cancel.
  set (stmt := update_where id is_pending (set_r_proof_status (status_i32 PrCancelled))).
  assert (Hs : db_step db (execute f stmt db).2).
  { apply execute_step, db_step_update_where. intros r Hp%is_pending_iff. by constructor. }
  destruct (execute f stmt db) as [[] ?]; apply Hs.
Qed.

Lemma proof_request_create_step f now req db : db_step db (proof_request_create f now req db).2.
Proof.
  unfold proof_request_create. pose proof (execute_step f (insert_row now req) db (insert_row_step now req db)) as Hs.
  destruct (execute _ _ _) as [[[]|] ?]; apply Hs.
Qed.

Lemma api_run_step o db : db_step db (api_run o db).
Proof.
  destruct o; [apply proof_request_create_step|apply proof_request_cancel_step|apply proof_request_update_step].
Qed.

Lemma api_runs_step os db : db_step db (api_runs os db).
Proof.
  revert db. induction os as [|o os IH]; intros db; [apply db_step_refl|].
  simpl. eapply db_step_trans; [apply api_run_step|apply IH].
Qed.
End table.

(** ** The paged listing *)
Lemma collect_ok {A B} (f : A -> outcome B) l l' :
  Forall2 (fun x y => f x = Ok y) l l' -> collect f l = Ok l'.
Proof. induction 1 as [|x y l l' Hx _ IH]; simpl; [done|]. by rewrite Hx, IH. Qed.

Lemma into_proto_ok r : row_wf r -> exists q, into_proto r = Ok q.
Proof.
  unfold row_wf, into_proto. destruct (r_execution_status r); [|eauto].
  intros [|((? & ->) & (? & ->) & (? & ->) & (? & ->))]; [done|eauto].
Qed.

Lemma into_proto_id r q : into_proto r = Ok q -> q_id q = r_id r.
Proof. unfold into_proto. intros H. by repeat case_match; simplify_eq/=. Qed.

Lemma into_proto_all rows :
  Forall row_wf rows -> exists qs, Forall2 (fun r q => into_proto r = Ok q) rows qs.
Proof.
  induction 1 as [|r rows Hr _ [qs IH]]; [by exists []|].
  destruct (into_proto_ok r Hr) as [q Hq]. exists (q :: qs). by constructor.
Qed.

Lemma dedup_from_nodup seen rows :
  NoDup (q_id <$> rows) -> (forall q, q ∈ rows -> q_id q ∉ seen) -> dedup_from seen rows = rows.
Proof.
  revert seen. induction rows as [|q rows IH]; intros seen Hnd Hs; [done|]. cbn [dedup_from].
  rewrite decide_False by (apply Hs; left). f_equal. inversion Hnd as [|?? Hq Hnd']; subst.
  apply IH; [done|]. intros q' Hq'. apply not_elem_of_union. split; [|apply Hs; by right].
  intros Heq%elem_of_singleton. apply Hq. rewrite <- Heq. by apply list_elem_of_fmap_2.
Qed.

Lemma dedup_from_ids seen rows :
  NoDup (q_id <$> dedup_from seen rows) /\
  (forall q, q ∈ dedup_from seen rows -> q_id q ∉ seen /\ q ∈ rows).
Proof.
  revert seen. induction rows as [|q rows IH]; intros seen; cbn [dedup_from].
  { split; [constructor|]. by intros q ?%not_elem_of_nil. }
  destruct (decide _) as [Hin|Hnin].
  { destruct (IH seen) as [Hnd Hsub]. split; [done|]. intros q' [? ?]%Hsub. split; [done|by right]. }
  destruct (IH ({[q_id q]} ∪ seen)) as [Hnd Hsub]. split.
  - cbn. constructor; [|done]. intros (q' & Hq' & [Hq'' _]%Hsub)%list_elem_of_fmap. set_solver.
  - intros q' [->|[? ?]%Hsub]%elem_of_cons; [split; [done|left]|]. split; [set_solver|by right].
Qed.

Section paging.
Context {T : Type} (size : Z) (Hsize : 0 < size) (Hfit : Z.of_nat MAX_PAGES * size < 2 ^ 32).

Definition page_of (l : list T) (offset : Z) : list T := take (Z.to_nat size) (drop (Z.to_nat offset) l).

Lemma drain_from_spec l fetch page_idx pages :
  (page_idx + pages = MAX_PAGES)%nat ->
  (forall offset, 0 <= offset < Z.of_nat MAX_PAGES * size -> fetch offset = Ok (page_of l offset)) ->
  drain_from size fetch page_idx pages (take (page_idx * Z.to_nat size) l) =
  Ok (take (MAX_PAGES * Z.to_nat size) l).
Proof.
  intros Hp Hf. revert page_idx Hp. induction pages as [|pages IH]; intros k Hp; cbn [drain_from].
  { repeat f_equal. lia. }
  assert (Hk : 0 <= Z.of_nat k * size < Z.of_nat MAX_PAGES * size) by nia.
  unfold Int.wrap, Int.modulus. rewrite (Z.mod_small (Z.of_nat k * size)) by lia.
  rewrite Hf by done. unfold page_of. replace (Z.to_nat (Z.of_nat k * size)) with (k * Z.to_nat size)%nat by lia.
  rewrite take_take_drop. rewrite length_take, length_drop.
  rewrite Z.mod_small by nia. destruct (Z.eqb_spec (Z.of_nat (Z.to_nat size `min` (length l - k * Z.to_nat size))) size).
  - replace (k * Z.to_nat size + Z.to_nat size)%nat with (S k * Z.to_nat size)%nat by lia. apply IH. lia.
  - assert (length l <= k * Z.to_nat size + Z.to_nat size)%nat by lia.
    f_equal. rewrite !take_ge; [done| |lia].
    assert (k * Z.to_nat size + Z.to_nat size <= MAX_PAGES * Z.to_nat size)%nat by nia. lia.
Qed.

Lemma drain_pages_spec l fetch :
  (forall offset, 0 <= offset < Z.of_nat MAX_PAGES * size -> fetch offset = Ok (page_of l offset)) ->
  drain_pages size fetch = Ok (take (MAX_PAGES * Z.to_nat size) l).
Proof. intros Hf. by rewrite <- (drain_from_spec l fetch 0 MAX_PAGES eq_refl Hf). Qed.
End paging.

Section listing.
Context `{EO : ApiEnvOk}.

Lemma matching_rows_perm req db :
  matching_rows req db ≡ₚ filter (fun r => list_match req r = true) (map_to_list db).*2.
Proof. apply merge_sort_Permutation. Qed.

Lemma elem_of_matching_rows req db r :
  r ∈ matching_rows req db <-> list_match req r = true /\ exists id, db !! id = Some r.
Proof.
  rewrite matching_rows_perm, list_elem_of_filter, list_elem_of_fmap. f_equiv. split.
  - intros ([id r'] & -> & ?%elem_of_map_to_list). eauto.
  - intros [id ?%elem_of_map_to_list]. by exists (id, r).
Qed.

#[export] Instance row_le_total : Total row_le.
Proof.
  intros a b. unfold row_le. destruct (Z.lt_trichotomy (r_created_at a) (r_created_at b)) as [|[He|]]; [by left; left| |by right; left].
  destruct (total text_le (r_id a) (r_id b)); [left|right]; right; by split.
Qed.

#[export] Instance row_le_trans : Transitive row_le.
Proof.
  intros a b c. unfold row_le. intros [?|[??]] [?|[??]]; [left; lia..|]. right. split; [lia|by etrans].
Qed.

Lemma matching_rows_sorted req db : StronglySorted row_le (matching_rows req db).
Proof. apply StronglySorted_merge_sort; apply _. Qed.

Lemma db_ids_nodup db : db_wf db -> NoDup (r_id <$> (map_to_list db).*2).
Proof.
  intros Hwf. rewrite <- list_fmap_compose.
  rewrite (list_fmap_ext _ fst (map_to_list db)); [apply NoDup_fst_map_to_list|].
  intros ? [id r] Hr%list_elem_of_lookup_2%elem_of_map_to_list. by destruct (Hwf id r Hr).
Qed.

Lemma sublist_nodup {A B} (f : A -> B) (P : A -> Prop) `{!forall x, Decision (P x)} l :
  NoDup (f <$> l) -> NoDup (f <$> filter P l).
Proof. intros Hnd. eapply sublist_NoDup; [exact Hnd|]. apply fmap_sublist, sublist_filter. Qed.

Lemma matching_rows_ids req db : db_wf db -> NoDup (r_id <$> matching_rows req db).
Proof.
  intros Hwf. rewrite (matching_rows_perm req db). by apply sublist_nodup, db_ids_nodup.
Qed.

Lemma proof_request_list_page req db qs offset :
  Forall2 (fun r q => into_proto r = Ok q) (matching_rows req db) qs ->
  0 <= offset < Z.of_nat MAX_PAGES * PROOF_REQUEST_PAGE_SIZE ->
  proof_request_list Healthy (page_request req offset) db = Ok (page_of PROOF_REQUEST_PAGE_SIZE qs offset).
Proof.
  intros Hq Ho. unfold proof_request_list, list_page. cbn [execute fst].
  change (matching_rows (page_request req offset) db) with (matching_rows req db).
  cbn [page_request ls_limit ls_offset from_option id].
  replace (Z.min offset I32_MAX) with offset by (unfold I32_MAX, MAX_PAGES, PROOF_REQUEST_PAGE_SIZE in *; lia).
  apply collect_ok. unfold page_of. by apply Forall2_take, Forall2_drop.
Qed.

Lemma proto_ids rows qs :
  Forall2 (fun r q => into_proto r = Ok q) rows qs -> q_id <$> qs = r_id <$> rows.
Proof. induction 1 as [|r q rows qs Hr _ IH]; [done|]. cbn. by rewrite IH, (into_proto_id r q Hr). Qed.

Lemma get_all_spec req db :
  db_wf db ->
  exists qs, Forall2 (fun r q => into_proto r = Ok q) (matching_rows req db) qs /\
    get_all_proof_requests (fun r => proof_request_list Healthy r db) req =
    Ok (take (MAX_PAGES * Z.to_nat PROOF_REQUEST_PAGE_SIZE) qs).
Proof.
  intros Hwf. destruct (into_proto_all (matching_rows req db)) as [qs Hq].
  { apply Forall_forall. intros r (_ & id & Hr)%elem_of_matching_rows. by destruct (Hwf id r Hr). }
  exists qs. split; [done|]. unfold get_all_proof_requests.
  rewrite (drain_pages_spec PROOF_REQUEST_PAGE_SIZE eq_refl eq_refl qs)
    by (intros; by apply proof_request_list_page).
  generalize (MAX_PAGES * Z.to_nat PROOF_REQUEST_PAGE_SIZE)%nat. intros n.
  f_equal. apply dedup_from_nodup; [|set_solver].
  eapply sublist_NoDup; [apply (matching_rows_ids req db Hwf)|].
  rewrite <- (proto_ids _ _ Hq). apply fmap_sublist, sublist_take.
Qed.
End listing.

(** ** Completion writes *)
Section completion.
Context `{EO : ApiEnvOk}.

(** A write that moves a row from [Pending] to another status. *)
Definition completes (req : ProofRequestUpdateRequest) : Prop :=
  exists st, up_proof_status req = Some (status_i32 st) /\ st <> PrPending.

(** The table once the write has run. *)
Definition landed (req : ProofRequestUpdateRequest) (db : Db) : Db :=
  (update_where (up_proof_id req) is_pending (apply_update req) db).2.

Definition row_settled (id : string) (db : Db) : Prop :=
  forall r, db !! id = Some r -> r_proof_status r <> status_i32 PrPending.

Lemma completes_guard req : completes req -> guard_pending req = true /\ req <> empty_update (up_proof_id req).
Proof.
  intros (st & Hst & _). unfold guard_pending. rewrite Hst. split; [done|].
  intros He. by rewrite He in Hst.
Qed.

Lemma update_landed f req db :
  completes req ->
  proof_request_update f req db =
  (match f with Healthy => Ok tt | _ => Err (mkStatus Internal "Failed to update proof request") end,
   match f with FailedBefore => db | _ => landed req db end).
Proof.
  intros [Hg Hne]%completes_guard. unfold proof_request_update. rewrite decide_False by done. rewrite Hg.
  unfold landed. destruct f; cbn [execute]; try done. by destruct (update_where _ _ _ _) as [[] ?].
Qed.

Lemma landed_settled req db : completes req -> row_settled (up_proof_id req) (landed req db).
Proof.
  intros (st & Hst & Hne) r. unfold landed, update_where.
  destruct (db !! up_proof_id req) as [r0|] eqn:Hr0; cbn [snd]; [|congruence].
  destruct (is_pending r0) eqn:Hp; cbn [snd].
  - rewrite lookup_insert_eq. intros [= <-]. cbn. rewrite Hst. cbn. by intros ?%status_i32_inj.
  - rewrite Hr0. intros [= <-] Hr. apply is_pending_iff in Hr. congruence.
Qed.

Lemma landed_of_settled req db : row_settled (up_proof_id req) db -> landed req db = db.
Proof.
  unfold landed, update_where. intros Hs. case_match; [|done]. case_match eqn:Hp; [|done].
  apply is_pending_iff in Hp. by eapply Hs in Hp.
Qed.

Lemma landed_idem req db : completes req -> landed req (landed req db) = landed req db.
Proof. intros Hc. by apply landed_of_settled, landed_settled. Qed.

Lemma landed_other req db id : id <> up_proof_id req -> landed req db !! id = db !! id.
Proof.
  intros Hne. unfold landed, update_where. repeat case_match; try done.
  cbn [snd]. by rewrite lookup_insert_ne by congruence.
Qed.

Lemma landed_step req db : completes req -> db_step db (landed req db).
Proof.
  intros Hc. pose proof (proof_request_update_step Healthy req db) as H. by rewrite update_landed in H.
Qed.

(** Rows are never deleted, so a settled row stays settled. *)
Lemma row_settled_step id db db' :
  is_Some (db !! id) -> row_settled id db -> db_step db db' -> row_settled id db'.
Proof.
  intros [r Hr] Hs [Ho _] r' Hr'. destruct (Ho id r Hr) as (r'' & Hr'' & [_ _ Hf]). simplify_eq.
  rewrite Hf; by apply Hs.
Qed.

Lemma attempt_landed a req db :
  completes req -> exists o,
  with_timeout a (fun f db => proof_request_update f req db) db = (o, db) /\ o <> Ok tt \/
  with_timeout a (fun f db => proof_request_update f req db) db = (o, landed req db).
Proof.
  intros Hc. destruct a as [f|e|[f|]]; cbn [with_timeout]; rewrite ?update_landed by done.
  - destruct f; eexists; [right|left; split|right]; done.
  - eexists. by left.
  - destruct f; cbn; eexists; [right|left; split|right]; done.
  - eexists. by left.
Qed.

Lemma retry_landed a more req db :
  completes req ->
  let (o, db') := retry_call a more (fun f db => proof_request_update f req db) db in
  (db' = db \/ db' = landed req db) /\ (o = Ok tt -> db' = landed req db).
Proof.
  intros Hc. revert a db. induction more as [|a' more IH]; intros a db; cbn [retry_call].
  - destruct (attempt_landed a req db Hc) as (o & [[-> Ho]| ->]); destruct o; (split; [auto|done]).
  - destruct (attempt_landed a req db Hc) as (o & [[-> Ho]| ->]); destruct o as [[]|e| |];
      try destruct (is_transient (code e)); try (split; [auto|done]).
    + apply IH.
    + specialize (IH a' (landed req db)). rewrite landed_idem in IH by done.
      destruct (retry_call _ _ _ _) as [o db']. destruct IH as [[->| ->] ?]; auto.
Qed.
End completion.
