(* ===== verification/ClusterSync.v ===== *)
(** * The coordinator and the cluster API

    The two tasks of [bin/coordinator/src/cluster.rs] that keep the coordinator
    and the API's table together: [spawn_proof_status_task] writes the results
    of finished proofs, [spawn_proof_claimer_task] claims new rows, fails proofs
    whose row moved on and re-issues completion writes that were lost. They run
    beside each other, the worker-facing handlers and the API's other clients,
    so every stretch of them between two [await]s is a step of [sync_run], and
    a step list is an interleaving. *)
From stdpp Require Import base gmap strings list relations pretty.
From S2P Require Import Prelude Proto TaskChannel CoordState Coordinator AssignSpec CoordInv Reach ApiStore.
Local Open Scope string_scope.
Local Open Scope list_scope.
Local Open Scope Z_scope.

(** The serialisers ([serde_json], [hex]) the two tasks call. *)
Class SyncEnv {PT : PolicyTypes} := {
  json_result_metadata : option ProofResultMetadata -> option string;
  json_controller_metadata : bool -> option string;
  hex_encode : list Z -> string;
}.

Module Cluster.

(** [TaskState]: what the coordinator knows about a proof it owns. *)
Inductive TaskState := Pending | Terminal (update : ProofRequestUpdateRequest).

(** Where the status task is: waiting on [completed_rx] with [read] results
    taken, in [update_proof_request], or past its [Ok]. *)
Inductive StatusTask :=
  | Receiving (read : nat)
  | Writing (read : nat) (id : string) (update : ProofRequestUpdateRequest)
  | Written (read : nat) (id : string)
  | StatusStopped.

(** Where a spawned re-issue is. *)
Inductive Reissue := Sending (update : ProofRequestUpdateRequest) | Landed | Leaving.

(** Where the confirmation of a missing proof is: reading its row, the row read
    and no longer pending, its entry removed. *)
Inductive Confirm := Asking | Gone | Failing.

Inductive Claimer :=
  | Sleeping
  | Fetching (req : ProofRequestListRequest) (page_idx : nat) (all : list ProofRequest)
  | Claiming (rows : list ProofRequest) (seen : gset string)
  | Inserting (id : string) (rows : list ProofRequest) (seen : gset string)
  | Confirming (now : Z) (todo : list (string * Confirm))
  | ClaimerStopped.

Section sync.
Context {E : ClusterEnv} {PT : PolicyTypes} {AP : AssignmentPolicy} {AE : ApiEnv} {SE : SyncEnv}.
Context (completed_rx : nat).

Record Sync := mkSync {
  y_coord : Coordinator;
  y_db : Db;
  y_map : gmap string TaskState;
  y_inflight : gset string;
  y_status : StatusTask;
  y_reissues : list (string * Reissue);
  y_claimer : Claimer;
}.

Definition set_y_coord (v : Coordinator) (s : Sync) : Sync :=
  mkSync v (y_db s) (y_map s) (y_inflight s) (y_status s) (y_reissues s) (y_claimer s).
Definition set_y_db (v : Db) (s : Sync) : Sync :=
  mkSync (y_coord s) v (y_map s) (y_inflight s) (y_status s) (y_reissues s) (y_claimer s).
Definition set_y_map (v : gmap string TaskState) (s : Sync) : Sync :=
  mkSync (y_coord s) (y_db s) v (y_inflight s) (y_status s) (y_reissues s) (y_claimer s).
Definition set_y_inflight (v : gset string) (s : Sync) : Sync :=
  mkSync (y_coord s) (y_db s) (y_map s) v (y_status s) (y_reissues s) (y_claimer s).
Definition set_y_status (v : StatusTask) (s : Sync) : Sync :=
  mkSync (y_coord s) (y_db s) (y_map s) (y_inflight s) v (y_reissues s) (y_claimer s).
Definition set_y_reissues (v : list (string * Reissue)) (s : Sync) : Sync :=
  mkSync (y_coord s) (y_db s) (y_map s) (y_inflight s) (y_status s) v (y_claimer s).
Definition set_y_claimer (v : Claimer) (s : Sync) : Sync :=
  mkSync (y_coord s) (y_db s) (y_map s) (y_inflight s) (y_status s) (y_reissues s) v.

(** [still_pending]. *)
Definition still_pending (row : ProofRequest) (now : Z) : bool :=
  (q_proof_status row =? status_i32 PrPending) && negb (q_handled row) && (now <=? q_deadline row).

(** [DashMap::remove_if] and [matches!]. *)
Definition is_terminal (st : TaskState) : bool := match st with Terminal _ => true | Pending => false end.
Definition remove_if (p : TaskState -> bool) (id : string) (m : gmap string TaskState)
  : gmap string TaskState :=
  match m !! id with
  | Some st => if p st then delete id m else m
  | None => m
  end.

(** ** The status task *)

(** The write [spawn_proof_status_task] makes of a result. *)
Definition completion_update (r : ProofResult) : ProofRequestUpdateRequest :=
  let status := if pr_success r then PrCompleted else PrFailed in
  let metadata := default "null" (json_result_metadata (pr_metadata r)) in
  mkUpdateRequest (pr_id r) (Some (status_i32 status)) None None None (Some metadata) (pr_extra_data r).

Definition sent_results (c : Coordinator) : list ProofResult :=
  match boxes (c_proofs_net c) !! completed_rx with Some mb => sent mb | None => [] end.

(** [completed_rx.recv()] and the body up to [update_proof_request]. *)
Definition status_recv (s : Sync) : Sync :=
  match y_status s with
  | Receiving read =>
      match sent_results (y_coord s) !! read with
      | None => s
      | Some r =>
          match y_map s !! pr_id r with
          | None => set_y_status (Receiving (S read)) s
          | Some _ =>
              let update := completion_update r in
              set_y_status (Writing (S read) (pr_id r) update)
                (set_y_map (<[pr_id r := Terminal update]> (y_map s)) s)
          end
      end
  | _ => s
  end.

(** One attempt of [update_proof_request]; [more] is whether the backoff budget
    allows another after a transient error. *)
Definition status_attempt (a : Attempt) (more : bool) (s : Sync) : Sync :=
  match y_status s with
  | Writing read id update =>
      let (o, db) := with_timeout a (fun f db => proof_request_update f update db) (y_db s) in
      let s := set_y_db db s in
      match o with
      | Ok _ => set_y_status (Written read id) s
      | Err e => if is_transient (code e) && more then s else set_y_status (Receiving read) s
      | _ => s
      end
  | _ => s
  end.

Definition status_settle (s : Sync) : Sync :=
  match y_status s with
  | Written read id => set_y_status (Receiving read) (set_y_map (remove_if is_terminal id (y_map s)) s)
  | _ => s
  end.

(** The cancellation token is only looked at while waiting for a result. *)
Definition status_stop (s : Sync) : Sync :=
  match y_status s with Receiving _ => set_y_status StatusStopped s | _ => s end.

(** ** Re-issued writes *)

(** [reissue_lost_status_write] up to the spawn. *)
Definition reissue_lost_status_write (s : Sync) (update : ProofRequestUpdateRequest) : Sync :=
  let id := up_proof_id update in
  if decide (id ∈ y_inflight s) then s
  else set_y_reissues (y_reissues s ++ [(id, Sending update)]) (set_y_inflight ({[id]} ∪ y_inflight s) s).

(** The spawned task: its attempts, [remove_if], and [inflight.remove]. *)
Definition reissue_attempt (i : nat) (a : Attempt) (more : bool) (s : Sync) : Sync :=
  match y_reissues s !! i with
  | Some (id, Sending update) =>
      let (o, db) := with_timeout a (fun f db => proof_request_update f update db) (y_db s) in
      let s := set_y_db db s in
      match o with
      | Ok _ => set_y_reissues (<[i := (id, Landed)]> (y_reissues s)) s
      | Err e => if is_transient (code e) && more then s
                 else set_y_reissues (<[i := (id, Leaving)]> (y_reissues s)) s
      | _ => s
      end
  | _ => s
  end.

Definition reissue_settle (i : nat) (s : Sync) : Sync :=
  match y_reissues s !! i with
  | Some (id, Landed) =>
      set_y_reissues (<[i := (id, Leaving)]> (y_reissues s)) (set_y_map (remove_if is_terminal id (y_map s)) s)
  | _ => s
  end.

Definition reissue_finish (i : nat) (s : Sync) : Sync :=
  match y_reissues s !! i with
  | Some (id, Leaving) => set_y_reissues (delete i (y_reissues s)) (set_y_inflight (y_inflight s ∖ {[id]}) s)
  | _ => s
  end.

(** ** The claimer *)

(** The listing of a poll. *)
Definition claim_filter (now : Z) : ProofRequestListRequest :=
  mkListRequest [status_i32 PrPending] [] (Some now) (Some false) None None None.

Definition poll_start (now : Z) (s : Sync) : Sync :=
  match y_claimer s with Sleeping => set_y_claimer (Fetching (claim_filter now) 0 []) s | _ => s end.

(** One page of [get_all_proof_requests]: the loop of [drain_pages] with the
    table free to change between two pages. *)
Definition poll_page (a : Attempt) (more : bool) (s : Sync) : Sync :=
  match y_claimer s with
  | Fetching req page_idx all =>
      let offset := Int.wrap u32 (Z.of_nat page_idx * PROOF_REQUEST_PAGE_SIZE) in
      match (with_timeout a (fun f db => (proof_request_list f (page_request req offset) db, db)) (y_db s)).1 with
      | Ok page =>
          let all := all ++ page in
          if (Int.wrap u32 (Z.of_nat (length page)) =? PROOF_REQUEST_PAGE_SIZE)
             && (S page_idx <? MAX_PAGES)%nat
          then set_y_claimer (Fetching req (S page_idx) all) s
          else set_y_claimer (Claiming (rev (dedup_by_id all)) ∅) s
      | Err e => if is_transient (code e) && more then s else set_y_claimer Sleeping s
      | _ => s
      end
  | _ => s
  end.

(** The [CreateProofRequest] of a claimed row; [None] skips the row. *)
Definition claim_request (q : ProofRequest) : option CreateProofRequest :=
  options_artifact_id ← q_options_artifact_id q;
  cycle_limit ← q_cycle_limit q;
  proof_artifact_id ← q_proof_artifact_id q;
  metadata ← json_controller_metadata (q_stdin_private q);
  Some (mkCreateProof (q_id q)
    [q_program_artifact_id q; q_stdin_artifact_id q; options_artifact_id;
     pretty (Z.to_N cycle_limit); ""; metadata]
    [proof_artifact_id] (hex_encode (q_requester q)) (as_i64 (q_deadline q))).

(** One row of the response, up to [create_proof]'s return. *)
Definition claim_one (s : Sync) : Sync :=
  match y_claimer s with
  | Claiming (q :: rows) seen =>
      let seen := {[q_id q]} ∪ seen in
      let skip := set_y_claimer (Claiming rows seen) in
      match y_map s !! q_id q, claim_request q with
      | Some _, _ | None, None => skip s
      | None, Some req =>
          let (o, c) := create_proof req (y_coord s) in
          let s := set_y_coord c s in
          match o with
          | Ok _ => set_y_claimer (Inserting (q_id q) rows seen) s
          | Err _ => skip s
          | _ => set_y_claimer ClaimerStopped s
          end
      end
  | _ => s
  end.

Definition claim_insert (s : Sync) : Sync :=
  match y_claimer s with
  | Inserting id rows seen => set_y_claimer (Claiming rows seen) (set_y_map (<[id := Pending]> (y_map s)) s)
  | _ => s
  end.

(** [fail_missing_proofs]: the missing proofs and the time they are judged at. *)
Definition missing_proofs (m : gmap string TaskState) (seen : gset string) : list string :=
  (filter (fun kv : string * TaskState => negb (is_terminal kv.2) = true /\ kv.1 ∉ seen) (iter_map m)).*1.

Definition claim_done (now : Z) (s : Sync) : Sync :=
  match y_claimer s with
  | Claiming [] seen => set_y_claimer (Confirming now ((., Asking) <$> missing_proofs (y_map s) seen)) s
  | _ => s
  end.

(** [get_proof_request] of one missing proof. *)
Definition confirm_read (i : nat) (a : Attempt) (more : bool) (s : Sync) : Sync :=
  match y_claimer s with
  | Confirming now todo =>
      match todo !! i with
      | Some (id, Asking) =>
          let keep := set_y_claimer (Confirming now (delete i todo)) s in
          let gone := set_y_claimer (Confirming now (<[i := (id, Gone)]> todo)) s in
          match (with_timeout a (fun f db => (proof_request_get f id db, db)) (y_db s)).1 with
          | Ok (Some row) => if still_pending row now then keep else gone
          | Ok None => gone
          | Err e => if is_transient (code e) && more then s else keep
          | _ => s
          end
      | _ => s
      end
  | _ => s
  end.

Definition confirm_remove (i : nat) (s : Sync) : Sync :=
  match y_claimer s with
  | Confirming now todo =>
      match todo !! i with
      | Some (id, Gone) =>
          match y_map s !! id with
          | Some Pending =>
              set_y_claimer (Confirming now (<[i := (id, Failing)]> todo)) (set_y_map (delete id (y_map s)) s)
          | _ => set_y_claimer (Confirming now (delete i todo)) s
          end
      | _ => s
      end
  | _ => s
  end.

Definition confirm_fail (i : nat) (s : Sync) : Sync :=
  match y_claimer s with
  | Confirming now todo =>
      match todo !! i with
      | Some (id, Failing) =>
          set_y_claimer (Confirming now (delete i todo))
            (set_y_coord (fail_proof id None false None (y_coord s)).2 s)
      | _ => s
      end
  | _ => s
  end.

(** The sweep of unconfirmed terminal writes that ends a poll. *)
Definition unconfirmed (m : gmap string TaskState) : list ProofRequestUpdateRequest :=
  omap (fun kv : string * TaskState => match kv.2 with Terminal u => Some u | Pending => None end) (iter_map m).

Definition sweep (s : Sync) : Sync :=
  match y_claimer s with
  | Confirming _ [] => set_y_claimer Sleeping (foldl reissue_lost_status_write s (unconfirmed (y_map s)))
  | _ => s
  end.

Definition claimer_stop (s : Sync) : Sync :=
  match y_claimer s with Sleeping => set_y_claimer ClaimerStopped s | _ => s end.

(** ** Interleavings *)
Inductive sync_op :=
  | CoordOp (o : op)
  | ApiOp (o : api_op)
  | StatusRecv
  | StatusAttempt (a : Attempt) (more : bool)
  | StatusSettle
  | StatusStop
  | ReissueAttempt (i : nat) (a : Attempt) (more : bool)
  | ReissueSettle (i : nat)
  | ReissueFinish (i : nat)
  | PollStart (now : Z)
  | PollPage (a : Attempt) (more : bool)
  | ClaimOne
  | ClaimInsert
  | ClaimDone (now : Z)
  | ConfirmRead (i : nat) (a : Attempt) (more : bool)
  | ConfirmRemove (i : nat)
  | ConfirmFail (i : nat)
  | Sweep
  | ClaimerStop.

Definition sync_run (o : sync_op) (s : Sync) : Sync :=
  match o with
  | CoordOp o => set_y_coord (run o (y_coord s)).2 s
  | ApiOp o => set_y_db (api_run o (y_db s)) s
  | StatusRecv => status_recv s
  | StatusAttempt a more => status_attempt a more s
  | StatusSettle => status_settle s
  | StatusStop => status_stop s
  | ReissueAttempt i a more => reissue_attempt i a more s
  | ReissueSettle i => reissue_settle i s
  | ReissueFinish i => reissue_finish i s
  | PollStart now => poll_start now s
  | PollPage a more => poll_page a more s
  | ClaimOne => claim_one s
  | ClaimInsert => claim_insert s
  | ClaimDone now => claim_done now s
  | ConfirmRead i a more => confirm_read i a more s
  | ConfirmRemove i => confirm_remove i s
  | ConfirmFail i => confirm_fail i s
  | Sweep => sweep s
  | ClaimerStop => claimer_stop s
  end.

(** The start: a coordinator whose results go to [completed_rx], nothing
    tracked, and the table as it is found. *)
Definition sync_init (c : Coordinator) (db : Db) : Sync :=
  mkSync c db ∅ ∅ (Receiving 0) [] Sleeping.

Inductive sync_reachable (c0 : Coordinator) (db0 : Db) : Sync -> Prop :=
  | sync_start : sync_reachable c0 db0 (sync_init c0 db0)
  | sync_step s o : sync_reachable c0 db0 s -> sync_reachable c0 db0 (sync_run o s).
End sync.

(** ** The invariant *)
Section invariant.
Context {E : ClusterEnv} {EO : ClusterEnvOk E} {PT : PolicyTypes} {AP : AssignmentPolicy}.
Context {AE : ApiEnv} {AEO : ApiEnvOk AE} {SE : SyncEnv}.
Context (completed_rx : nat).

Definition has_row (db : Db) (id : string) : Prop := is_Some (db !! id).
Definition write_of (id : string) (u : ProofRequestUpdateRequest) : Prop := completes u /\ up_proof_id u = id.
Definition settled_row (db : Db) (id : string) : Prop := has_row db id /\ row_settled id db.

Definition state_ok (db : Db) (id : string) (st : TaskState) : Prop :=
  has_row db id /\ match st with Pending => True | Terminal u => write_of id u end.
Definition status_ok (db : Db) (t : StatusTask) : Prop :=
  match t with
  | Writing _ id u => has_row db id /\ write_of id u
  | Written _ id => settled_row db id
  | _ => True
  end.
Definition reissue_ok (db : Db) (e : string * Reissue) : Prop :=
  has_row db e.1 /\
  match e.2 with Sending u => write_of e.1 u | Landed => row_settled e.1 db | Leaving => True end.
Definition claimer_ok (db : Db) (m : gmap string TaskState) (t : Claimer) : Prop :=
  let rows_ok rows := Forall (fun q => has_row db (q_id q)) rows in
  match t with
  | Fetching _ _ all => rows_ok all
  | Claiming rows _ => rows_ok rows
  | Inserting id rows _ => has_row db id /\ m !! id = None /\ rows_ok rows
  | _ => True
  end.

Record SInv (s : Sync) : Prop := {
  si_wf : db_wf (y_db s);
  si_map : forall id st, y_map s !! id = Some st -> state_ok (y_db s) id st;
  si_status : status_ok (y_db s) (y_status s);
  si_reissues : Forall (reissue_ok (y_db s)) (y_reissues s);
  si_nodup : NoDup (y_reissues s).*1;
  si_inflight : forall id, id ∈ y_inflight s <-> id ∈ (y_reissues s).*1;
  si_claimer : claimer_ok (y_db s) (y_map s) (y_claimer s);
}.

Lemma has_row_step db db' id : db_step db db' -> has_row db id -> has_row db' id.
Proof. intros [Ho _] [r Hr]. destruct (Ho id r Hr) as (r' & ? & _). by exists r'. Qed.

Lemma settled_row_step db db' id : db_step db db' -> settled_row db id -> settled_row db' id.
Proof. intros Hs [Hr Hset]. split; [by eapply has_row_step|by eapply row_settled_step]. Qed.

Lemma status_ok_step db db' t : db_step db db' -> status_ok db t -> status_ok db' t.
Proof.
  intros Hs. destruct t; simpl; [done| |by apply settled_row_step|done].
  intros [??]. split; [by eapply has_row_step|done].
Qed.

Lemma reissue_ok_step db db' e : db_step db db' -> reissue_ok db e -> reissue_ok db' e.
Proof.
  intros Hs [Hr He]. split; [by eapply has_row_step|]. destruct (e.2); try done.
  by eapply row_settled_step.
Qed.

Lemma rows_ok_step db db' (rows : list ProofRequest) :
  db_step db db' -> Forall (fun q => has_row db (q_id q)) rows -> Forall (fun q => has_row db' (q_id q)) rows.
Proof. intros Hs Hr. eapply Forall_impl; [done|]. intros q. by apply has_row_step. Qed.

Lemma claimer_ok_step db db' m t : db_step db db' -> claimer_ok db m t -> claimer_ok db' m t.
Proof.
  intros Hs. destruct t; simpl; try done; [by apply rows_ok_step..|].
  intros (Hr & ? & ?). repeat split; [by eapply has_row_step|done|by eapply rows_ok_step].
Qed.

Lemma SInv_db db' s : db_step (y_db s) db' -> SInv s -> SInv (set_y_db db' s).
Proof.
  intros Hs [Hwf Hm Hst Hre Hnd Hin Hc]. constructor; cbn; try done.
  - by eapply db_step_wf.
  - intros id st [Hr Ht]%Hm. split; [by eapply has_row_step|done].
  - by eapply status_ok_step.
  - eapply Forall_impl; [done|]. intros e. by apply reissue_ok_step.
  - by eapply claimer_ok_step.
Qed.

Lemma SInv_coord c s : SInv s -> SInv (set_y_coord c s).
Proof. by intros []. Qed.

Lemma SInv_status t s : SInv s -> status_ok (y_db s) t -> SInv (set_y_status t s).
Proof. by intros []. Qed.

Lemma SInv_claimer t s : SInv s -> claimer_ok (y_db s) (y_map s) t -> SInv (set_y_claimer t s).
Proof. by intros []. Qed.

(** Removing an entry keeps the invariant; so does replacing a tracked one. *)
Lemma SInv_map m s :
  SInv s -> (forall id st, m !! id = Some st -> state_ok (y_db s) id st) ->
  (forall id, y_map s !! id = None -> m !! id = None) -> SInv (set_y_map m s).
Proof.
  intros [Hwf Hm Hst Hre Hnd Hin Hc] Hok Hnone. constructor; cbn; try done.
  destruct (y_claimer s); try done. simpl in *. naive_solver.
Qed.

Lemma SInv_delete id s : SInv s -> SInv (set_y_map (delete id (y_map s)) s).
Proof.
  intros HI. apply SInv_map; [done| |].
  - intros id' st [_ H]%lookup_delete_Some. by apply (si_map s HI).
  - intros id' H. apply lookup_delete_None. by right.
Qed.

Lemma set_y_map_same s : set_y_map (y_map s) s = s.
Proof. by destruct s. Qed.

Lemma SInv_remove_if p id s : SInv s -> SInv (set_y_map (remove_if p id (y_map s)) s).
Proof.
  intros HI. unfold remove_if. repeat case_match; rewrite ?set_y_map_same; try done. by apply SInv_delete.
Qed.

Lemma completion_update_writes r : write_of (pr_id r) (completion_update r).
Proof. split; [|done]. destruct (pr_success r) eqn:Hr; [exists PrCompleted|exists PrFailed]; cbn; by rewrite Hr. Qed.

Lemma status_recv_inv s : SInv s -> SInv (status_recv completed_rx s).
Proof.
  intros HI. unfold status_recv. destruct (y_status s); try done.
  destruct (sent_results _ _ !! _) as [r|]; [|done].
  destruct (y_map s !! pr_id r) as [st|] eqn:Hst; [|by apply SInv_status].
  destruct (si_map s HI _ _ Hst) as [Hrow _]. pose proof (completion_update_writes r) as Hw.
  apply SInv_status; [apply SInv_map; [done| |]|done].
  - intros id st'. rewrite lookup_insert_Some. intros [[<- <-]|[_ H]]; [done|by apply (si_map s HI)].
  - intros id Hid. rewrite lookup_insert_ne; [done|]. congruence.
Qed.

(** An attempt either leaves the table alone or lands the write, and an [Ok]
    means it landed. *)
Lemma attempt_inv a u id s :
  SInv s -> has_row (y_db s) id -> write_of id u ->
  let (o, db) := with_timeout a (fun f db => proof_request_update f u db) (y_db s) in
  SInv (set_y_db db s) /\ has_row db id /\ (o = Ok tt -> settled_row db id).
Proof.
  intros HI Hrow [Hc Hid]. destruct (attempt_landed a u (y_db s) Hc) as (o & [[-> Ho]| ->]).
  - split; [apply SInv_db; [apply db_step_refl|done]|done].
  - assert (Hs : db_step (y_db s) (landed u (y_db s))) by by apply landed_step.
    split; [by apply SInv_db|]. split; [by eapply has_row_step|]. intros _.
    split; [by eapply has_row_step|]. rewrite <- Hid. by apply landed_settled.
Qed.

Lemma status_attempt_inv a more s : SInv s -> SInv (status_attempt a more s).
Proof.
  intros HI. unfold status_attempt. destruct (y_status s) as [|read id u| |] eqn:Ht; try done.
  pose proof (si_status s HI) as Hst. rewrite Ht in Hst. destruct Hst as [Hrow Hw].
  pose proof (attempt_inv a u id s HI Hrow Hw) as Ha.
  destruct (with_timeout _ _ _) as [o db]. destruct Ha as (HI' & _ & Hok).
  destruct o as [[]|e| |]; [by apply SInv_status; [|apply Hok]| |done|done].
  destruct (_ && _); [done|by apply SInv_status].
Qed.

Lemma status_settle_inv s : SInv s -> SInv (status_settle s).
Proof.
  intros HI. unfold status_settle. destruct (y_status s); try done.
  apply SInv_status; [by apply SInv_remove_if|done].
Qed.

Lemma SInv_reissue_phase i id ph ph' s :
  SInv s -> y_reissues s !! i = Some (id, ph) -> reissue_ok (y_db s) (id, ph') ->
  SInv (set_y_reissues (<[i := (id, ph')]> (y_reissues s)) s).
Proof.
  intros [Hwf Hm Hst Hre Hnd Hin Hc] Hi Hok.
  assert (Hids : (<[i := (id, ph')]> (y_reissues s)).*1 = (y_reissues s).*1).
  { rewrite list_fmap_insert. apply list_insert_id. by rewrite list_lookup_fmap, Hi. }
  constructor; cbn; rewrite ?Hids; try done. by apply Forall_insert.
Qed.

Lemma reissue_attempt_inv i a more s : SInv s -> SInv (reissue_attempt i a more s).
Proof.
  intros HI. unfold reissue_attempt. destruct (y_reissues s !! i) as [[id [u| |]]|] eqn:Hi; try done.
  pose proof (proj1 (Forall_lookup _ _) (si_reissues s HI) _ _ Hi) as [Hrow Hw].
  pose proof (attempt_inv a u id s HI Hrow Hw) as Ha.
  destruct (with_timeout _ _ _) as [o db]. destruct Ha as (HI' & Hrow' & Hok).
  destruct o as [[]|e| |]; [| |done|done].
  - eapply SInv_reissue_phase; [done|done|]. split; [done|]. by apply Hok.
  - destruct (_ && _); [done|]. eapply SInv_reissue_phase; [done|done|]. by split.
Qed.

Lemma reissue_settle_inv i s : SInv s -> SInv (reissue_settle i s).
Proof.
  intros HI. unfold reissue_settle. destruct (y_reissues s !! i) as [[id [u| |]]|] eqn:Hi; try done.
  pose proof (proj1 (Forall_lookup _ _) (si_reissues s HI) _ _ Hi) as [Hrow _].
  change (y_reissues s) with (y_reissues (set_y_map (remove_if is_terminal id (y_map s)) s)) in *.
  eapply SInv_reissue_phase; [by apply SInv_remove_if|done|]. by split.
Qed.

Lemma reissue_finish_inv i s : SInv s -> SInv (reissue_finish i s).
Proof.
  intros HI. unfold reissue_finish. destruct (y_reissues s !! i) as [[id [u| |]]|] eqn:Hi; try done.
  destruct HI as [Hwf Hm Hst Hre Hnd Hin Hc].
  assert (Hp : y_reissues s ≡ₚ (id, Leaving) :: delete i (y_reissues s)) by by apply delete_Permutation.
  assert (Hids : forall x, x ∈ (y_reissues s).*1 <-> x = id \/ x ∈ (delete i (y_reissues s)).*1).
  { intros x. generalize dependent (delete i (y_reissues s)). intros l ->. cbn. apply elem_of_cons. }
  rewrite Hp in Hre, Hnd. cbn in Hnd. inversion Hnd as [|?? Hnot Hnd']; inversion Hre; subst.
  constructor; cbn; try done. intros id'. rewrite elem_of_difference, Hin, Hids. set_solver.
Qed.

Lemma reissue_lost_inv u s :
  SInv s -> has_row (y_db s) (up_proof_id u) -> completes u -> SInv (reissue_lost_status_write s u).
Proof.
  intros [Hwf Hm Hst Hre Hnd Hin Hc] Hrow Hcu. unfold reissue_lost_status_write.
  destruct (decide _) as [|Hnin]; [done|]. constructor; cbn; try done.
  - apply Forall_app. split; [done|]. by repeat constructor.
  - rewrite fmap_app. apply NoDup_app. split; [done|]. split; [|apply NoDup_singleton].
    intros x Hx ->%list_elem_of_singleton. by apply Hnin, Hin.
  - intros id. rewrite fmap_app, elem_of_union, elem_of_app, Hin. set_solver.
Qed.

Lemma listed_rows f req db page :
  db_wf db -> proof_request_list f req db = Ok page -> Forall (fun q => has_row db (q_id q)) page.
Proof.
  intros Hwf. unfold proof_request_list. destruct f; cbn; try done. intros Hc.
  assert (Hin : Forall (fun r => exists id, db !! id = Some r) (list_page req db)).
  { apply Forall_take, Forall_drop, Forall_forall. intros r Hr%elem_of_matching_rows. naive_solver. }
  revert page Hc. induction Hin as [|r rows [id Hr] _ IH]; intros page Hc; cbn in Hc; [by simplify_eq|].
  destruct (into_proto r) as [q| | |] eqn:Hq; try done.
  destruct (collect into_proto rows) as [qs| | |] eqn:Hqs; try done. simplify_eq. constructor; [|by apply IH].
  rewrite (into_proto_id r q Hq). destruct (Hwf id r Hr) as [-> _]. by exists r.
Qed.

Lemma dedup_rows_ok (P : ProofRequest -> Prop) rows : Forall P rows -> Forall P (dedup_by_id rows).
Proof.
  rewrite !Forall_forall. intros HP q Hq. apply HP. by destruct (dedup_from_ids ∅ rows) as [_ [_ ?]%(fun H => H q Hq)].
Qed.

Lemma poll_page_inv a more s : SInv s -> SInv (poll_page a more s).
Proof.
  intros HI. unfold poll_page. destruct (y_claimer s) as [|req k all| | | |] eqn:Ht; try done.
  pose proof (si_claimer s HI) as Hc. rewrite Ht in Hc. cbn in Hc.
  destruct (with_timeout _ _ _).1 as [page|e| |] eqn:Hp; try done.
  - assert (Hrows : Forall (fun q => has_row (y_db s) (q_id q)) (all ++ page)).
    { apply Forall_app. split; [done|]. destruct a as [f|e|[]]; cbn in Hp; try done.
      eapply listed_rows; [apply (si_wf s HI)|done]. }
    destruct (_ && _); apply SInv_claimer; try done. cbn. by apply Forall_rev, dedup_rows_ok.
  - destruct (_ && _); [done|by apply SInv_claimer].
Qed.

Lemma claim_one_inv s : SInv s -> SInv (claim_one s).
Proof.
  intros HI. unfold claim_one. destruct (y_claimer s) as [| |[|q rows] seen| | |] eqn:Ht; try done.
  pose proof (si_claimer s HI) as Hc. rewrite Ht in Hc. cbn in Hc. inversion Hc; subst.
  destruct (y_map s !! q_id q) eqn:Hm; [by apply SInv_claimer|].
  destruct (claim_request q) as [req|]; [|by apply SInv_claimer].
  destruct (create_proof req (y_coord s)) as [[]]; apply SInv_claimer; try done; by apply SInv_coord.
Qed.

Lemma claim_insert_inv s : SInv s -> SInv (claim_insert s).
Proof.
  intros HI. unfold claim_insert. destruct (y_claimer s) as [| | |id rows seen| |] eqn:Ht; try done.
  pose proof (si_claimer s HI) as Hc. rewrite Ht in Hc. destruct Hc as (Hrow & Hnone & Hrows).
  destruct HI as [Hwf Hm Hst Hre Hnd Hin _]. constructor; cbn; try done.
  intros id' st. rewrite lookup_insert_Some. intros [[<- <-]|[_ ?]]; [done|by apply Hm].
Qed.

Lemma confirm_read_inv i a more s : SInv s -> SInv (confirm_read i a more s).
Proof.
  intros HI. unfold confirm_read. destruct (y_claimer s) eqn:Ht; try done.
  repeat case_match; try done; by apply SInv_claimer.
Qed.

Lemma confirm_remove_inv i s : SInv s -> SInv (confirm_remove i s).
Proof.
  intros HI. unfold confirm_remove. destruct (y_claimer s) eqn:Ht; try done.
  repeat case_match; try done; apply SInv_claimer; try done. by apply SInv_delete.
Qed.

Lemma confirm_fail_inv i s : SInv s -> SInv (confirm_fail i s).
Proof.
  intros HI. unfold confirm_fail. destruct (y_claimer s) eqn:Ht; try done.
  repeat case_match; try done. apply SInv_claimer; [|done]. by apply SInv_coord.
Qed.

Lemma elem_of_unconfirmed m u : u ∈ unconfirmed m <-> exists id, m !! id = Some (Terminal u).
Proof.
  unfold unconfirmed. rewrite list_elem_of_omap. split.
  - intros ([id [|u']] & Hin%elem_of_iter_map & Hu); cbn in Hu; simplify_eq. eauto.
  - intros [id Hid]. exists (id, Terminal u). by rewrite elem_of_iter_map.
Qed.

Lemma reissue_lost_same s u :
  y_db (reissue_lost_status_write s u) = y_db s /\ y_map (reissue_lost_status_write s u) = y_map s.
Proof. unfold reissue_lost_status_write. by destruct (decide _). Qed.

Lemma reissue_all_inv us s :
  SInv s -> (forall u, u ∈ us -> has_row (y_db s) (up_proof_id u) /\ completes u) ->
  SInv (foldl reissue_lost_status_write s us).
Proof.
  revert s. induction us as [|u us IH]; intros s HI Hus; [done|]. cbn.
  destruct (Hus u ltac:(left)) as [Hrow Hc]. apply IH; [by apply reissue_lost_inv|].
  destruct (reissue_lost_same s u) as [-> _]. intros u' Hu'. apply Hus. by right.
Qed.

Lemma sweep_inv s : SInv s -> SInv (sweep s).
Proof.
  intros HI. unfold sweep. destruct (y_claimer s) as [| | | |now [|]|] eqn:Ht; try done.
  apply SInv_claimer; [|done]. apply reissue_all_inv; [done|].
  intros u [id [Hrow [Hc <-]]%(si_map s HI)]%elem_of_unconfirmed. done.
Qed.

Lemma sync_run_inv o s : SInv s -> SInv (sync_run completed_rx o s).
Proof.
  intros HI. destruct o; cbn [sync_run].
  - by apply SInv_coord.
  - apply SInv_db; [apply api_run_step|done].
  - by apply status_recv_inv.
  - by apply status_attempt_inv.
  - by apply status_settle_inv.
  - unfold status_stop. case_match; try done. by apply SInv_status.
  - by apply reissue_attempt_inv.
  - by apply reissue_settle_inv.
  - by apply reissue_finish_inv.
  - unfold poll_start. case_match; try done. apply SInv_claimer; [done|]. constructor.
  - by apply poll_page_inv.
  - by apply claim_one_inv.
  - by apply claim_insert_inv.
  - unfold claim_done. repeat case_match; try done. by apply SInv_claimer.
  - by apply confirm_read_inv.
  - by apply confirm_remove_inv.
  - by apply confirm_fail_inv.
  - by apply sweep_inv.
  - unfold claimer_stop. case_match; try done. by apply SInv_claimer.
Qed.

Lemma sync_init_inv c db : db_wf db -> SInv (sync_init c db).
Proof. intros Hwf. constructor; cbn; try done. constructor. set_solver. Qed.

Lemma sync_reachable_inv c db s : db_wf db -> sync_reachable completed_rx c db s -> SInv s.
Proof. intros Hwf. induction 1; [by apply sync_init_inv|by apply sync_run_inv]. Qed.

(** ** What a step does to the table and to an entry *)
Lemma attempt_step a u db :
  db_step db (with_timeout a (fun f db => proof_request_update f u db) db).2.
Proof. destruct a as [f|e|[f|]]; cbn; auto using proof_request_update_step, db_step_refl. Qed.

Lemma foldl_reissue_same us s :
  y_db (foldl reissue_lost_status_write s us) = y_db s /\ y_map (foldl reissue_lost_status_write s us) = y_map s.
Proof.
  revert s. induction us as [|u us IH]; intros s; [done|]. cbn.
  destruct (IH (reissue_lost_status_write s u)) as [-> ->]. apply reissue_lost_same.
Qed.

Lemma sync_run_db o s : db_step (y_db s) (y_db (sync_run completed_rx o s)).
Proof.
  destruct o; cbn [sync_run].
  2: by apply api_run_step.
  3: { unfold status_attempt. destruct (y_status s); try apply db_step_refl.
       pose proof (attempt_step a update (y_db s)) as Hs. destruct (with_timeout _ _ _).
       repeat case_match; apply Hs. }
  5: { unfold reissue_attempt. destruct (y_reissues s !! i) as [[? [u| |]]|]; try apply db_step_refl.
       pose proof (attempt_step a u (y_db s)) as Hs. destruct (with_timeout _ _ _).
       repeat case_match; apply Hs. }
  15: { unfold sweep. repeat case_match; try apply db_step_refl. cbn.
        destruct (foldl_reissue_same (unconfirmed (y_map s)) s) as [-> _]. apply db_step_refl. }
  all: unfold status_recv, status_settle, status_stop, reissue_settle, reissue_finish, poll_start, poll_page,
    claim_one, claim_insert, claim_done, confirm_read, confirm_remove, confirm_fail, claimer_stop.
  all: repeat case_match; apply db_step_refl.
Qed.

(** The fate of the entry of [id] in one step. *)
Inductive entry_step (o : sync_op) (s : Sync) (id : string) : TaskState -> option TaskState -> Prop :=
  | entry_same st : entry_step o s id st (Some st)
  | entry_recorded st u : entry_step o s id st (Some (Terminal u))
  | entry_settled u : settled_row (y_db s) id -> entry_step o s id (Terminal u) None
  | entry_failed i now todo :
      o = ConfirmRemove i -> y_claimer s = Confirming now todo -> todo !! i = Some (id, Gone) ->
      entry_step o s id Pending None.

Lemma remove_if_entry o s id id' st :
  y_map s !! id = Some st -> settled_row (y_db s) id' ->
  entry_step o s id st (remove_if is_terminal id' (y_map s) !! id).
Proof.
  intros Hst Hset. unfold remove_if. destruct (y_map s !! id') as [st'|] eqn:Hst'; [|rewrite Hst; constructor].
  destruct (is_terminal st') eqn:Hter; [|rewrite Hst; constructor].
  destruct (decide (id = id')) as [->|Hne].
  - simplify_eq. rewrite lookup_delete_eq. destruct st; [done|by constructor].
  - rewrite lookup_delete_ne by congruence. rewrite Hst. constructor.
Qed.

Lemma sync_run_entry o s id st :
  SInv s -> y_map s !! id = Some st -> entry_step o s id st (y_map (sync_run completed_rx o s) !! id).
Proof.
  intros HI Hst. destruct o; cbn [sync_run].
  3: { unfold status_recv. repeat case_match; cbn; try (rewrite Hst; constructor).
       destruct (decide (id = pr_id p)) as [->|]; [rewrite lookup_insert_eq|rewrite lookup_insert_ne, Hst by done];
         constructor. }
  4: { unfold status_settle. destruct (y_status s) eqn:Ht; cbn; try (rewrite Hst; constructor).
       apply remove_if_entry; [done|]. pose proof (si_status s HI) as H. by rewrite Ht in H. }
  6: { unfold reissue_settle. destruct (y_reissues s !! i) as [[id' []]|] eqn:Hi; cbn; try (rewrite Hst; constructor).
       apply remove_if_entry; [done|]. exact (proj1 (Forall_lookup _ _) (si_reissues s HI) _ _ Hi). }
  10: { unfold claim_insert. destruct (y_claimer s) eqn:Ht; cbn; try (rewrite Hst; constructor).
        pose proof (si_claimer s HI) as H. rewrite Ht in H. destruct H as (_ & Hnone & _).
        rewrite lookup_insert_ne by congruence. rewrite Hst. constructor. }
  12: { unfold confirm_remove. destruct (y_claimer s) as [| | | |now todo|] eqn:Ht; cbn; try (rewrite Hst; constructor).
        destruct (todo !! i) as [[id' []]|] eqn:Hi; cbn; try (rewrite Hst; constructor).
        destruct (y_map s !! id') as [[]|] eqn:Hst'; cbn; try (rewrite Hst; constructor).
        destruct (decide (id = id')) as [->|]; [|rewrite lookup_delete_ne, Hst by done; constructor].
        simplify_eq. rewrite lookup_delete_eq. by eapply entry_failed. }
  13: { unfold sweep. repeat case_match; cbn; try (rewrite Hst; constructor).
        destruct (foldl_reissue_same (unconfirmed (y_map s)) s) as [_ ->]. rewrite Hst. constructor. }
  all: unfold status_attempt, status_stop, reissue_attempt, reissue_finish, poll_start, poll_page,
    claim_one, claim_done, confirm_read, confirm_fail, claimer_stop.
  all: repeat case_match; cbn; rewrite Hst; constructor.
Qed.
End invariant.
End Cluster.
