(* ===== verification/SyncProps.v ===== *)
(** * The coordinator and the API: properties

    Completion writes survive a failing API until the row has left [Pending],
    a row that is alive is never failed by paging churn, and the table keeps
    the first terminal status it is given. *)
From stdpp Require Import base gmap strings list relations sorting.
From S2P Require Import Prelude Proto TaskChannel CoordState Coordinator AssignSpec CoordInv DefaultPolicy Reach Demo ApiStore ClusterSync.
Local Open Scope string_scope.
Local Open Scope list_scope.
Local Open Scope Z_scope.
Import Cluster.

(** ** A concrete table *)
#[export] Instance demo_api : ApiEnv :=
  {| status_i32 := fun st => match st with PrPending => 1 | PrCompleted => 2 | PrFailed => 3 | PrCancelled => 4 end;
     text_le := String.le |}.

#[export] Instance demo_api_ok : ApiEnvOk demo_api.
Proof.
  split; [by intros [] []|]. cbn. split; [apply _|]. intros x y.
  destruct (decide (x = y)) as [->|Hne]; [by right; left|].
  destruct (total String.le x y) as [H|H]; [left|right; right]; (split; [done|]);
    intros H'; apply Hne; by apply (anti_symm String.le).
Qed.

Definition demo_create (id : string) : ProofRequestCreateRequest :=
  mkCreateRequest id [155] "stdin" "program" (Some "options") (Some "proof") 1000 5000 0 None false.
Definition demo_db : Db := api_runs [ApiCreate Healthy 7 (demo_create "p1"); ApiCreate Healthy 7 (demo_create "p0")] ∅.
Definition demo_completion (id : string) (st : ProofRequestStatus) : ProofRequestUpdateRequest :=
  mkUpdateRequest id (Some (status_i32 st)) None None None (Some "null") None.

Section table_props.
Context `{AEO : ApiEnvOk}.

(** C17. A proof request's terminal status is final: once a row has left
    [Pending], no sequence of creates, cancels and updates, failing database
    connections included, removes it or changes its status. *)
Theorem terminal_status_final (os : list api_op) (db : Db) (id : string) (r : DbProofRequest) :
  db !! id = Some r -> r_proof_status r <> status_i32 PrPending ->
  exists r', api_runs os db !! id = Some r' /\ r_proof_status r' = r_proof_status r.
Proof.
  intros Hr Hp. destruct (api_runs_step os db) as [Ho _]. destruct (Ho id r Hr) as (r' & Hr' & [_ _ Hf]). eauto.
Qed.

(** A completion write is idempotent under retries: however many attempts
    reach the database, with replies lost and connections cut, the table is the
    one before or the one a single run of the write leaves, and an [Ok] means
    the write ran and its row is no longer [Pending]. *)
Theorem completion_write_idempotent (a : Attempt) (more : list Attempt) (req : ProofRequestUpdateRequest) (db : Db) :
  completes req ->
  let (o, db') := retry_call a more (fun f db => proof_request_update f req db) db in
  (db' = db \/ db' = (proof_request_update Healthy req db).2) /\
  (o = Ok tt -> db' = (proof_request_update Healthy req db).2 /\ row_settled (up_proof_id req) db').
Proof.
  intros Hc. pose proof (retry_landed a more req db Hc) as H. destruct (retry_call _ _ _ _) as [o db'].
  rewrite update_landed by done. destruct H as [Hdb Hok]. split; [done|]. intros Ho.
  split; [auto|]. rewrite (Hok Ho). by apply landed_settled.
Qed.

(** The paged listing is exact on a table that does not change under it: it
    succeeds with the conversions of the first 100,000 rows that match, each once,
    in order of creation time and id. *)
Theorem paged_listing_exact (req : ProofRequestListRequest) (db : Db) :
  db_wf db ->
  exists qs, get_all_proof_requests (fun r => proof_request_list Healthy r db) req = Ok qs /\
    Forall2 (fun r q => into_proto r = Ok q)
      (take (MAX_PAGES * Z.to_nat PROOF_REQUEST_PAGE_SIZE) (matching_rows req db)) qs /\
    NoDup (q_id <$> qs) /\
    StronglySorted row_le (matching_rows req db) /\
    (forall r, r ∈ matching_rows req db <-> list_match req r = true /\ exists id, db !! id = Some r).
Proof.
  intros Hwf. destruct (get_all_spec req db Hwf) as (qs & Hq & ->). eexists. split; [done|].
  split; [by apply Forall2_take|]. split; [|split; [apply matching_rows_sorted|apply elem_of_matching_rows]].
  eapply sublist_NoDup; [apply (matching_rows_ids req db Hwf)|].
  rewrite <- (proto_ids _ _ Hq). apply fmap_sublist, sublist_take.
Qed.
End table_props.

Lemma demo_db_wf : db_wf demo_db.
Proof. apply (db_step_wf ∅); [apply api_runs_step|]. by intros ?? ?%lookup_empty_Some. Qed.

Lemma demo_completes id : completes (demo_completion id PrCompleted).
Proof. by exists PrCompleted. Qed.

Lemma terminal_status_final_witness :
  exists r', api_runs [ApiUpdate Healthy (demo_completion "p1" PrFailed); ApiCancel Healthy "p1"]
               (landed (demo_completion "p1" PrCompleted) demo_db) !! "p1" = Some r' /\ r_proof_status r' = 2.
Proof.
  destruct (landed (demo_completion "p1" PrCompleted) demo_db !! "p1") as [r|] eqn:Hr; [|vm_compute in Hr; discriminate].
  assert (Hs : r_proof_status r = 2) by (vm_compute in Hr; by simplify_eq).
  rewrite <- Hs. apply (terminal_status_final _ _ "p1" r); [done|]. by rewrite Hs.
Defined.

Lemma completion_write_idempotent_witness :
  let (o, db') := retry_call (TimedOut (Some Healthy)) [Served FailedAfter; Served Healthy]
                    (fun f db => proof_request_update f (demo_completion "p1" PrCompleted) db) demo_db in
  (db' = demo_db \/ db' = (proof_request_update Healthy (demo_completion "p1" PrCompleted) demo_db).2) /\
  (o = Ok tt -> db' = (proof_request_update Healthy (demo_completion "p1" PrCompleted) demo_db).2 /\
     row_settled "p1" db').
Proof. apply completion_write_idempotent, demo_completes. Defined.

Lemma paged_listing_exact_witness :
  exists qs, get_all_proof_requests (fun r => proof_request_list Healthy r demo_db) (claim_filter 100) = Ok qs /\
    q_id <$> qs = ["p0"; "p1"].
Proof.
  destruct (paged_listing_exact (claim_filter 100) demo_db demo_db_wf) as (qs & Hqs & _).
  exists qs. split; [exact Hqs|]. vm_compute in Hqs. by simplify_eq.
Defined.

(** ** The two tasks *)
Section sync_props.
Context {E : ClusterEnv} {EO : ClusterEnvOk E} {PT : PolicyTypes} {AP : AssignmentPolicy}.
Context {AE : ApiEnv} {AEO : ApiEnvOk AE} {SE : SyncEnv}.
Context (completed_rx : nat).

Definition sync_steps : relation Sync := rtc (fun s s' => exists o, s' = sync_run completed_rx o s).

(** C15. A finished proof's result is never lost: from the moment the status task
    has recorded the completion write of a tracked proof, whatever the workers,
    the API's other clients, failing attempts and the claimer do in whatever
    order, the coordinator still tracks a completion write for it or the row has
    left [Pending]. *)
Theorem completion_never_forgotten c db s s' id u :
  db_wf db -> sync_reachable completed_rx c db s -> y_map s !! id = Some (Terminal u) -> sync_steps s s' ->
  (exists u', y_map s' !! id = Some (Terminal u')) \/ settled_row (y_db s') id.
Proof.
  intros Hwf Hr Hu Hsteps. apply sync_reachable_inv in Hr as HI; [|done].
  assert (Hkept : (exists u, y_map s !! id = Some (Terminal u)) \/ settled_row (y_db s) id) by eauto.
  clear Hu Hr. induction Hsteps as [|s1 s2 s3 [o ->] _ IH]; [done|]. apply IH; [by apply sync_run_inv|].
  destruct Hkept as [[u' Hu']|Hset]; [|right; eapply settled_row_step; [apply sync_run_db|done]].
  pose proof (sync_run_entry completed_rx o s1 id _ HI Hu') as He.
  inversion He as [|st u'' Hst Hs|? Hset|]; subst; [left; eauto..|].
  right. eapply settled_row_step; [apply sync_run_db|done].
Qed.

(** The row is one the claimer's listing keeps at any time up to [T]. *)
Definition alive (T : Z) (id : string) (db : Db) : Prop :=
  exists r, db !! id = Some r /\ r_proof_status r = status_i32 PrPending /\ r_handled r = false /\
    T <= as_u64 (r_deadline r).

(** No poll in progress has read the row of [id] and found it gone. *)
Definition no_verdict_in (T : Z) (id : string) (t : Claimer) : Prop :=
  match t with
  | Confirming now todo => now <= T /\ forall ph, (id, ph) ∈ todo -> ph = Asking
  | _ => True
  end.
Definition no_verdict (T : Z) (id : string) (s : Sync) : Prop := no_verdict_in T id (y_claimer s).

Definition clock_le (T : Z) (o : sync_op) : Prop :=
  match o with ClaimDone now => now <= T | _ => True end.

Lemma elem_of_delete_list {A} (l : list A) i x : x ∈ delete i l -> x ∈ l.
Proof. intros H. eapply elem_of_submseteq; [done|]. apply sublist_submseteq, sublist_delete. Qed.

Lemma alive_still_pending T id db now f o :
  alive T id db -> now <= T -> db_wf db -> proof_request_get f id db = Ok o ->
  exists q, o = Some q /\ still_pending q now = true.
Proof.
  intros (r & Hr & Hp & Hh & Hd) Hnow Hwf. unfold proof_request_get. destruct f; cbn; try done.
  rewrite Hr. destruct (into_proto r) as [q| | |] eqn:Hq; intros; simplify_eq. exists q. split; [done|].
  unfold into_proto in Hq. unfold still_pending. repeat case_match; simplify_eq/=;
    rewrite Hp, Hh, Z.eqb_refl; cbn; apply Z.leb_le; lia.
Qed.

Lemma no_verdict_step T id o s :
  SInv s -> clock_le T o -> alive T id (y_db s) -> no_verdict T id s ->
  no_verdict T id (sync_run completed_rx o s).
Proof.
  intros HI Hclock Hal Hnv. unfold no_verdict in *. destruct o; cbn [sync_run clock_le] in *.
  14: { unfold claim_done. destruct (y_claimer s) as [| |[|] seen| | |] eqn:Ht; cbn; rewrite ?Ht; try done.
        split; [done|]. intros ph (? & [= <- <-] & _)%list_elem_of_fmap. done. }
  14: { unfold confirm_read. destruct (y_claimer s) as [| | | |now' todo|] eqn:Ht; rewrite ?Ht; try done.
        pose proof Hnv as [Hnow Hask]. destruct (todo !! i) as [[id' []]|] eqn:Hi; rewrite ?Ht; try done.
        assert (Hkeep : now' <= T /\ forall ph, (id, ph) ∈ delete i todo -> ph = Asking).
        { split; [done|]. intros ph ?%elem_of_delete_list. auto. }
        destruct (with_timeout _ _ _).1 as [o|e| |] eqn:Ho; cbn; rewrite ?Ht; try done;
          [|destruct (_ && _); cbn; rewrite ?Ht; done].
        assert (Hgone : id <> id' -> now' <= T /\ forall ph, (id, ph) ∈ <[i := (id', Gone)]> todo -> ph = Asking).
        { intros Hne. split; [done|]. intros ph [j Hj]%list_elem_of_lookup.
          apply list_lookup_insert_Some in Hj as [(_ & ? & _)|[_ Hj]]; [congruence|].
          apply Hask. by eapply list_elem_of_lookup_2. }
        destruct (decide (id = id')) as [<-|Hne]; [|repeat case_match; simplify_eq/=; auto].
        destruct a as [f|e|[]]; cbn in Ho; try done.
        destruct (alive_still_pending T id (y_db s) now' f o Hal Hnow (si_wf s HI) Ho) as (q & -> & ->). done. }
  14: { unfold confirm_remove. destruct (y_claimer s) as [| | | |now todo|] eqn:Ht; rewrite ?Ht; try done.
        destruct (todo !! i) as [[id' []]|] eqn:Hi; rewrite ?Ht; try done.
        destruct Hnv as [Hnow Hask].
        assert (Hne : id <> id') by (intros <-; by apply list_elem_of_lookup_2, Hask in Hi).
        repeat case_match; simplify_eq/=; (split; [done|]); intros ph Hph; apply Hask;
          try by apply elem_of_delete_list in Hph.
        apply list_elem_of_lookup in Hph as [j Hj].
        apply list_lookup_insert_Some in Hj as [(_ & ? & _)|[_ Hj]]; [congruence|by eapply list_elem_of_lookup_2]. }
  14: { unfold confirm_fail. destruct (y_claimer s) as [| | | |now todo|] eqn:Ht; rewrite ?Ht; try done.
        destruct (todo !! i) as [[id' []]|]; cbn; rewrite ?Ht; try done.
        destruct Hnv as [Hnow Hask]. split; [done|]. intros ph ?%elem_of_delete_list. auto. }
  14: { unfold sweep. destruct (y_claimer s) as [| | | |now [|]|] eqn:Ht; cbn; rewrite ?Ht; done. }
  all: unfold status_recv, status_attempt, status_settle, status_stop, reissue_attempt, reissue_settle, reissue_finish,
    poll_start, poll_page, claim_one, claim_insert, claimer_stop.
  all: repeat case_match; first [exact Hnv|done|by match goal with H : y_claimer _ = _ |- _ => rewrite H end].
Qed.

(** C16. A live proof is never failed by the claimer: while a tracked proof's row
    stays [Pending], unhandled and before its deadline, no paging churn, failing
    read or interleaving makes the coordinator drop it, so long as no earlier
    poll already judged its row gone. *)
Theorem live_row_never_failed T c db s s' id :
  db_wf db -> sync_reachable completed_rx c db s -> no_verdict T id s -> is_Some (y_map s !! id) ->
  rtc (fun s s' => exists o, clock_le T o /\ alive T id (y_db s) /\ s' = sync_run completed_rx o s) s s' ->
  is_Some (y_map s' !! id) /\ no_verdict T id s'.
Proof.
  intros Hwf Hr Hnv Htr Hsteps. apply sync_reachable_inv in Hr as HI; [|done]. clear Hr.
  induction Hsteps as [|s1 s2 s3 (o & Hclock & Hal & ->) _ IH]; [done|].
  apply IH; [by apply no_verdict_step| |by apply sync_run_inv]. destruct Htr as [st Hst].
  pose proof (sync_run_entry completed_rx o s1 id st HI Hst) as He.
  inversion He as [|st' u' Hst' Hs|? [_ Hset]|i now todo Ho Hcl Hi]; subst; [by eexists..| |].
  - destruct Hal as (r & Hr & Hp & _). by apply Hset in Hr.
  - unfold no_verdict, no_verdict_in in Hnv. rewrite Hcl in Hnv. destruct Hnv as [_ Hask].
    by apply list_elem_of_lookup_2, Hask in Hi.
Qed.

Lemma reissue_all_entries us s e :
  e ∈ y_reissues (foldl reissue_lost_status_write s us) ->
  e ∈ y_reissues s \/ exists u, u ∈ us /\ e = (up_proof_id u, Sending u).
Proof.
  revert s. induction us as [|u us IH]; intros s He; [by left|]. cbn in He.
  apply IH in He as [He|(u' & ? & ->)]; [|right; exists u'; split; [by right|done]].
  unfold reissue_lost_status_write in He. destruct (decide _); [by left|]. cbn in He.
  apply elem_of_app in He as [?| ->%list_elem_of_singleton]; [by left|]. right. exists u. split; [left|done].
Qed.

Lemma reissue_all_inflight us s u :
  u ∈ us -> up_proof_id u ∈ y_inflight (foldl reissue_lost_status_write s us).
Proof.
  assert (Hmono : forall us s id, id ∈ y_inflight s -> id ∈ y_inflight (foldl reissue_lost_status_write s us)).
  { clear. intros us. induction us as [|u us IH]; intros s id Hid; [done|]. cbn. apply IH.
    unfold reissue_lost_status_write. destruct (decide _); [done|]. cbn. set_solver. }
  revert s. induction us as [|u' us IH]; intros s Hu; [by apply not_elem_of_nil in Hu|]. cbn.
  apply elem_of_cons in Hu as [->|Hu]; [|by apply IH]. apply Hmono.
  unfold reissue_lost_status_write. destruct (decide _); [done|]. cbn. set_solver.
Qed.

(** A poll's sweep leaves a re-issue in flight for every tracked completion
    write, of that very write if none was in flight before. *)
Lemma sweep_reissues s now id u :
  SInv s -> y_claimer s = Confirming now [] -> y_map s !! id = Some (Terminal u) ->
  exists i ph, y_reissues (sweep s) !! i = Some (id, ph) /\ (id ∉ y_inflight s -> ph = Sending u).
Proof.
  intros HI Hcl Hu. destruct (si_map s HI _ _ Hu) as [Hrow [Hc Hid]].
  pose proof (sweep_inv s HI) as HI'. unfold sweep in *. rewrite Hcl in *.
  set (us := unconfirmed (y_map s)) in *.
  assert (Hin : id ∈ y_inflight (foldl reissue_lost_status_write s us)).
  { rewrite <- Hid. apply reissue_all_inflight, elem_of_unconfirmed. eauto. }
  apply (si_inflight _ HI') in Hin. cbn in Hin. apply list_elem_of_fmap in Hin as ([id' ph] & Heq & He).
  cbn in Heq. subst id'. apply list_elem_of_lookup in He as Hi. destruct Hi as [i Hi]. exists i, ph. split; [done|].
  intros Hnin. apply reissue_all_entries in He as [He|(u' & Hu' & [= Heq ->])].
  - exfalso. apply Hnin, (si_inflight s HI). by apply (list_elem_of_fmap_2 fst) in He.
  - f_equal. apply elem_of_unconfirmed in Hu' as [id' Hu']. destruct (si_map s HI _ _ Hu') as [_ [_ Hid']]. congruence.
Qed.

(** C18. A lost completion write is recovered by the next poll: the sweep at the
    end of the poll re-issues it unless a re-issue of that proof is already in
    flight, and one attempt that reaches a healthy API lands it and ends the
    tracking. *)
Theorem lost_write_recovered c db s now id u more :
  db_wf db -> sync_reachable completed_rx c db s ->
  y_claimer s = Confirming now [] -> y_map s !! id = Some (Terminal u) ->
  exists i ph, y_reissues (sync_run completed_rx Sweep s) !! i = Some (id, ph) /\
    (id ∉ y_inflight s ->
     let s' := foldl (fun s o => sync_run completed_rx o s) s
                 [Sweep; ReissueAttempt i (Served Healthy) more; ReissueSettle i] in
     y_db s' = (proof_request_update Healthy u (y_db s)).2 /\ y_map s' !! id = None /\ settled_row (y_db s') id).
Proof.
  intros Hwf Hr Hcl Hu. apply sync_reachable_inv in Hr as HI; [|done].
  destruct (si_map s HI _ _ Hu) as [Hrow [Hc Hid]].
  destruct (sweep_reissues s now id u HI Hcl Hu) as (i & ph & Hi & Hph). exists i, ph. split; [done|].
  intros Hnin. rewrite (Hph Hnin) in Hi. cbn [foldl sync_run].
  assert (Hsame : y_db (sweep s) = y_db s /\ y_map (sweep s) = y_map s).
  { unfold sweep. rewrite Hcl. apply foldl_reissue_same. }
  destruct Hsame as [Hdb Hmap]. unfold reissue_attempt. rewrite Hi. cbn [with_timeout].
  rewrite Hdb, !update_landed by done. unfold reissue_settle. cbn.
  rewrite list_lookup_insert_eq by (by eapply lookup_lt_Some). cbn. rewrite Hmap.
  unfold remove_if. rewrite Hu. cbn. rewrite lookup_delete_eq. split; [done|]. split; [done|].
  split; [eapply has_row_step; [by apply landed_step|done]|]. rewrite <- Hid. by apply landed_settled.
Qed.
End sync_props.

(** ** Concrete interleavings *)
#[local] Existing Instance demo_env.
#[local] Existing Instance Default.types.
#[local] Existing Instance Default.policy.

Definition demo_sync_env : SyncEnv :=
  {| json_result_metadata := fun _ => Some "null"; json_controller_metadata := fun _ => Some "{}";
     hex_encode := fun _ => "9b" |}.
#[local] Existing Instance demo_sync_env.

Definition demo_coord : Coordinator :=
  let (tx, net) := unbounded_channel mpsc_empty in set_proofs_tx tx (set_c_proofs_net net new_coordinator).
Definition sync_runs (os : list sync_op) : Sync :=
  foldl (fun s o => sync_run 0 o s) (sync_init demo_coord demo_db) os.

Lemma sync_runs_reachable os : sync_reachable 0 demo_coord demo_db (sync_runs os).
Proof.
  unfold sync_runs. rewrite <- (rev_involutive os). induction (rev os) as [|o l IH]; cbn; [constructor|].
  rewrite foldl_app. by apply sync_step.
Qed.

(** A poll that claims both rows; then the proof ["p1"] fails while the API is
    down; then the claims of a second poll. *)
Definition demo_claims : list sync_op :=
  [PollStart 100; PollPage (Served Healthy) true; ClaimOne; ClaimInsert; ClaimOne; ClaimInsert; ClaimDone 100; Sweep].
Definition demo_lost : list sync_op :=
  demo_claims ++ [CoordOp (FailProof "p1" None true None); StatusRecv;
                  StatusAttempt (Refused (mkStatus Unavailable "")) false].
Definition demo_second : list sync_op :=
  demo_lost ++ [PollStart 200; PollPage (Served Healthy) true; ClaimOne; ClaimOne; ClaimDone 200].

Definition demo_write : ProofRequestUpdateRequest := demo_completion "p1" PrFailed.

Lemma demo_lost_map : y_map (sync_runs demo_lost) !! "p1" = Some (Terminal demo_write).
Proof. vm_compute. reflexivity. Qed.

Lemma completion_never_forgotten_witness :
  (exists u', y_map (sync_run 0 StatusStop (sync_runs demo_lost)) !! "p1" = Some (Terminal u')) \/
  settled_row (y_db (sync_run 0 StatusStop (sync_runs demo_lost))) "p1".
Proof.
  apply (completion_never_forgotten 0 demo_coord demo_db (sync_runs demo_lost) _ "p1" demo_write demo_db_wf).
  - apply sync_runs_reachable.
  - apply demo_lost_map.
  - apply rtc_once. by exists StatusStop.
Defined.

Lemma live_row_never_failed_witness :
  is_Some (y_map (sync_run 0 (ClaimDone 100) (sync_runs demo_claims)) !! "p1") /\
  no_verdict 5000 "p1" (sync_run 0 (ClaimDone 100) (sync_runs demo_claims)).
Proof.
  apply (live_row_never_failed 0 5000 demo_coord demo_db (sync_runs demo_claims) _ "p1" demo_db_wf).
  - apply sync_runs_reachable.
  - vm_compute. exact I.
  - exists Pending. vm_compute. reflexivity.
  - apply rtc_once. exists (ClaimDone 100). split; [vm_compute; congruence|]. split; [|done].
    eexists. split; [vm_compute; reflexivity|]. vm_compute. repeat split; congruence.
Defined.

Lemma lost_write_recovered_witness :
  exists i ph, y_reissues (sync_run 0 Sweep (sync_runs demo_second)) !! i = Some ("p1", ph) /\
    ("p1" ∉ y_inflight (sync_runs demo_second) ->
     let s' := foldl (fun s o => sync_run 0 o s) (sync_runs demo_second)
                 [Sweep; ReissueAttempt i (Served Healthy) true; ReissueSettle i] in
     y_db s' = (proof_request_update Healthy demo_write (y_db (sync_runs demo_second))).2 /\
     y_map s' !! "p1" = None /\ settled_row (y_db s') "p1").
Proof.
  apply (lost_write_recovered 0 demo_coord demo_db (sync_runs demo_second) 200 "p1" demo_write true demo_db_wf).
  - apply sync_runs_reachable.
  - vm_compute. reflexivity.
  - vm_compute. reflexivity.
Defined.

(** The claimer records a claimed proof only after [create_proof] has
    returned, so a result that arrives in between is thrown away: here the proof
    has failed and its result has been taken off the channel, yet the proof is
    tracked as still proving, the coordinator no longer has it, and its row is
    still [Pending] and would be listed again. *)
Theorem early_result_is_dropped :
  let s := sync_runs [PollStart 100; PollPage (Served Healthy) true; ClaimOne;
                      CoordOp (FailProof "p1" None true None); StatusRecv; ClaimInsert] in
  y_map s !! "p1" = Some Pending /\ s_proofs (c_state (y_coord s)) !! "p1" = None /\
  y_status s = Receiving 1 /\ length (sent_results 0 (y_coord s)) = 1%nat /\
  (is_pending <$> y_db s !! "p1") = Some true.
Proof. vm_compute. repeat split. Qed.
