(* ===== verification/Bidder.v ===== *)
(** * The bidder

    [bin/bidder/src/lib.rs] and [requirements.rs]: the pass that reads the
    network's open requests, sizes them against the load the cluster already
    carries and bids on those it admits, with the price it bids and the caches
    the pass reads. The admission and pricing rules live in the [spn-bidding] and
    [spn-pricing] crates, which the source only calls: they are the fields of
    [BidEnv]. What the network answers is the input of a pass. *)
From Stdlib Require String.
From stdpp Require Import base gmap strings list sorting.
From S2P Require Import Prelude Proto.
Local Open Scope string_scope.
Local Open Scope list_scope.
Local Open Scope Z_scope.
Local Open Scope handler_scope.

Module Bid.

Abbreviation bytes := (list Z).
Abbreviation Resolved := (gmap bytes (option Z)).
Definition U256_MAX : Z := 2 ^ 256 - 1.

Inductive ProofMode := Groth16 | Plonk | OtherMode.

(** The fields of the network's [ProofRequest] the bidder reads. *)
Record ProofRequest := mkRequest {
  request_id : bytes;
  vk_hash : bytes;
  mode : ProofMode;
  gas_limit : Z;
  cycle_limit : Z;
  created_at : Z;
  deadline : Z;
  min_auction_period : Z;
  floor_price_per_pgu : option string;
  max_price_per_pgu : option string;
}.

Inductive AdmissionOutcome := AdmitLoaded | RejectCap | RejectInfeasible | RejectLoad.
Inductive EstimateLookup := Hit (estimate : Z) | KnownAbsent | Miss.

Record UsdBidConfig := mkUsdBid { target : Z; refresh_interval_secs : Z; staleness_max_secs : Z }.
Record ProvePrice := mkPrice { usd_micros : Z; as_of : Z }.
Record PerformanceRequirementsWire := mkWire { min_mgas_per_second : string; floor_latency_seconds : Z }.

(** [ClusterState] and [RequestDemand] of [spn-bidding]; [F] is [f64]. *)
Record ClusterState (F : Type) := mkCluster {
  throughput_mgas : F;
  cpu_worker_max_weights : list Z;
  active_proofs : Z;
  committed_gas : Z;
  active_wraps : Z;
}.
Arguments mkCluster {F} _ _ _ _ _.
Arguments throughput_mgas {F} _.
Arguments cpu_worker_max_weights {F} _.
Arguments active_proofs {F} _.
Arguments committed_gas {F} _.
Arguments active_wraps {F} _.

Record RequestDemand (F : Type) := mkDemand {
  d_expected_gas : Z;
  d_deadline_secs : Z;
  d_buffer_secs : F;
  d_wrap_secs : F;
  d_wrap_weight : Z;
}.
Arguments mkDemand {F} _ _ _ _ _.

(** The crates the bidder calls. *)
Class BidEnv := {
  f64 : Type;
  f64_of_u64 : Z -> f64;
  f64_finite_positive : f64 -> bool;
  weights : Weights;
  Instant : Type;
  EstimateCache : Type;
  cache_lookup : EstimateCache -> bytes -> Instant -> EstimateLookup;
  cache_store : bytes -> option Z -> Instant -> EstimateCache -> EstimateCache;
  PendingBids : Type;
  pending_record : bytes -> Z -> bool -> Z -> Instant -> PendingBids -> PendingBids;
  pending_reconcile : PendingBids -> ClusterState f64 -> list bytes -> Instant -> PendingBids * ClusterState f64;
  expected_gas : option Z -> Z -> Z -> f64 -> Z;
  admission_outcome : ClusterState f64 -> RequestDemand f64 -> AdmissionOutcome;
  admits : AdmissionOutcome -> bool;
  prove_price_parse : string -> Z -> result ProvePrice;
  PerformanceRequirements : Type;
  from_parts : string -> Z -> option PerformanceRequirements;
  perf_deadline : Z -> Z -> PerformanceRequirements -> Z;
  compute_max_price_per_pgu_wei : Z -> Z -> option Z;
  round_down_to_tick : Z -> Z -> Z;
  parse_u256 : string -> option Z;
  hex_encode : bytes -> string;
  hex_decode : string -> option bytes;
}.

(** The sum of the nodes' capacities, saturating as the source folds it. *)
Definition controller_slots (ws : list Z) : Z := foldl (fun acc w => Int.sat_add u32 acc w) 0 ws.

(** What the bidder relies on: admission holds the number of concurrent proofs
    to the summed capacity, prices are unsigned and rounded down to the tick, and
    the ledger only adds to the load; hex decodes what it encodes. *)
Class BidEnvOk (E : BidEnv) : Prop := {
  admission_cap : forall cl d, admits (admission_outcome cl d) = true ->
    active_proofs cl < controller_slots (cpu_worker_max_weights cl);
  round_down_spec : forall wei tick, 0 < tick -> 0 <= wei ->
    0 <= round_down_to_tick wei tick <= wei /\ (tick | round_down_to_tick wei tick);
  price_nonneg : forall t p wei, compute_max_price_per_pgu_wei t p = Some wei -> 0 <= wei;
  reconcile_adds : forall p cl ids now, let cl' := (pending_reconcile p cl ids now).2 in
    active_proofs cl <= active_proofs cl' /\ cpu_worker_max_weights cl' = cpu_worker_max_weights cl;
  hex_roundtrip : forall b, Forall (fun x => 0 <= x < 256) b -> hex_decode (hex_encode b) = Some b;
}.

Section bidder.
Context {E : BidEnv}.

(** [Bidder]: configuration and caches. *)
Record Bidder := mkBidder {
  b_throughput_mgas : f64;
  b_bid_amount : Z;
  b_buffer_sec : Z;
  b_groth16_buffer_sec : Z;
  b_plonk_buffer_sec : Z;
  b_groth16_enabled : bool;
  b_plonk_enabled : bool;
  b_aggressive_mode : bool;
  b_min_deadline_secs : option Z;
  b_gas_estimate_multiplier : f64;
  b_cpu_worker_max_weights : list Z;
  b_usd_bid : option UsdBidConfig;
  b_tick_size : Z;
  b_estimate_cache : EstimateCache;
  b_pending_bids : PendingBids;
  b_prove_usd_cache : option ProvePrice;
  b_requirements : option PerformanceRequirements;
  b_suspended_until : Z;
}.

Definition set_b_tick_size (v : Z) (b : Bidder) : Bidder :=
  mkBidder (b_throughput_mgas b) (b_bid_amount b) (b_buffer_sec b) (b_groth16_buffer_sec b)
    (b_plonk_buffer_sec b) (b_groth16_enabled b) (b_plonk_enabled b) (b_aggressive_mode b)
    (b_min_deadline_secs b) (b_gas_estimate_multiplier b) (b_cpu_worker_max_weights b) (b_usd_bid b) v
    (b_estimate_cache b) (b_pending_bids b) (b_prove_usd_cache b) (b_requirements b) (b_suspended_until b).
Definition set_b_estimate_cache (v : EstimateCache) (b : Bidder) : Bidder :=
  mkBidder (b_throughput_mgas b) (b_bid_amount b) (b_buffer_sec b) (b_groth16_buffer_sec b)
    (b_plonk_buffer_sec b) (b_groth16_enabled b) (b_plonk_enabled b) (b_aggressive_mode b)
    (b_min_deadline_secs b) (b_gas_estimate_multiplier b) (b_cpu_worker_max_weights b) (b_usd_bid b)
    (b_tick_size b) v (b_pending_bids b) (b_prove_usd_cache b) (b_requirements b) (b_suspended_until b).
Definition set_b_pending_bids (v : PendingBids) (b : Bidder) : Bidder :=
  mkBidder (b_throughput_mgas b) (b_bid_amount b) (b_buffer_sec b) (b_groth16_buffer_sec b)
    (b_plonk_buffer_sec b) (b_groth16_enabled b) (b_plonk_enabled b) (b_aggressive_mode b)
    (b_min_deadline_secs b) (b_gas_estimate_multiplier b) (b_cpu_worker_max_weights b) (b_usd_bid b)
    (b_tick_size b) (b_estimate_cache b) v (b_prove_usd_cache b) (b_requirements b) (b_suspended_until b).
Definition set_b_prove_usd_cache (v : option ProvePrice) (b : Bidder) : Bidder :=
  mkBidder (b_throughput_mgas b) (b_bid_amount b) (b_buffer_sec b) (b_groth16_buffer_sec b)
    (b_plonk_buffer_sec b) (b_groth16_enabled b) (b_plonk_enabled b) (b_aggressive_mode b)
    (b_min_deadline_secs b) (b_gas_estimate_multiplier b) (b_cpu_worker_max_weights b) (b_usd_bid b)
    (b_tick_size b) (b_estimate_cache b) (b_pending_bids b) v (b_requirements b) (b_suspended_until b).
Definition set_b_requirements (v : option PerformanceRequirements) (b : Bidder) : Bidder :=
  mkBidder (b_throughput_mgas b) (b_bid_amount b) (b_buffer_sec b) (b_groth16_buffer_sec b)
    (b_plonk_buffer_sec b) (b_groth16_enabled b) (b_plonk_enabled b) (b_aggressive_mode b)
    (b_min_deadline_secs b) (b_gas_estimate_multiplier b) (b_cpu_worker_max_weights b) (b_usd_bid b)
    (b_tick_size b) (b_estimate_cache b) (b_pending_bids b) (b_prove_usd_cache b) v (b_suspended_until b).
Definition set_b_suspended_until (v : Z) (b : Bidder) : Bidder :=
  mkBidder (b_throughput_mgas b) (b_bid_amount b) (b_buffer_sec b) (b_groth16_buffer_sec b)
    (b_plonk_buffer_sec b) (b_groth16_enabled b) (b_plonk_enabled b) (b_aggressive_mode b)
    (b_min_deadline_secs b) (b_gas_estimate_multiplier b) (b_cpu_worker_max_weights b) (b_usd_bid b)
    (b_tick_size b) (b_estimate_cache b) (b_pending_bids b) (b_prove_usd_cache b) (b_requirements b) v.

(** ** Prices *)
Inductive BidAmountOutcome := Static (v : Z) | Dynamic (v : Z).

(** [bid_amount_outcome]. *)
Definition bid_amount_outcome (usd_bid : option UsdBidConfig) (cache_snapshot : option (Z * Z))
    (static_bid tick_size : Z) : BidAmountOutcome :=
  match usd_bid, cache_snapshot with
  | Some cfg, Some (prove_usd_micros, age_secs) =>
      if staleness_max_secs cfg <=? age_secs then Static static_bid
      else
        match compute_max_price_per_pgu_wei (target cfg) prove_usd_micros with
        | Some wei =>
            let aligned := round_down_to_tick wei tick_size in
            if aligned =? 0 then Static static_bid else Dynamic aligned
        | None => Static static_bid
        end
  | _, _ => Static static_bid
  end.

(** [effective_bid_amount]: [now] is the wall clock in seconds. *)
Definition effective_bid_amount (now : Z) (b : Bidder) : Z :=
  let snapshot := (fun c => (usd_micros c, Z.max (now - as_of c) 0)) <$> b_prove_usd_cache b in
  match bid_amount_outcome (b_usd_bid b) snapshot (b_bid_amount b) (b_tick_size b) with
  | Static v => v
  | Dynamic v => v
  end.

(** [parse]. *)
Definition parse (value : option string) : option Z :=
  match value with
  | None => None
  | Some s => if decide (s = "") then None else parse_u256 s
  end.

Definition DEFAULT_TICK_SIZE : Z := 10000000.

(** [fetch_tick_size], of the network's answer. *)
Definition fetch_tick_size (resp : result Z) : result Z :=
  let^ tick_size := resp in inr (if tick_size =? 0 then DEFAULT_TICK_SIZE else tick_size).

(** [validate_bid_amount]: [U256] remainder by zero panics. *)
Definition validate_bid_amount (value tick : Z) : outcome (result unit) :=
  if value =? 0 then Ok (inl (Msg "must be > 0"))
  else if tick =? 0 then Panic
  else if negb (value mod tick =? 0) then Ok (inl (Msg "not a multiple of tick_size"))
  else Ok (inr tt).

(** ** Performance requirements and suspension *)

(** [requirements::from_response]. *)
Definition from_response (resp : option PerformanceRequirementsWire) : option PerformanceRequirements :=
  match resp with
  | None => None
  | Some w => from_parts (min_mgas_per_second w) (floor_latency_seconds w)
  end.

(** [sync_requirements], [sync_prover_status] and [sync_performance_policy]. *)
Definition sync_requirements (resp : result (option PerformanceRequirementsWire)) (b : Bidder) : Bidder :=
  match resp with
  | inr r => set_b_requirements (from_response r) b
  | inl _ => b
  end.

Definition sync_prover_status (resp : result (option Z)) (b : Bidder) : Bidder :=
  match resp with
  | inr until => set_b_suspended_until (default 0 until) b
  | inl _ => b
  end.

Definition sync_performance_policy (req : result (option PerformanceRequirementsWire))
    (status : result (option Z)) (b : Bidder) : Bidder :=
  sync_prover_status status (sync_requirements req b).

(** [fetch_and_cache_prove_usd]. *)
Definition fetch_and_cache_prove_usd (resp : result ProvePrice) (b : Bidder) : result Z * Bidder :=
  match resp with
  | inr price => (inr (usd_micros price), set_b_prove_usd_cache (Some price) b)
  | inl e => (inl e, b)
  end.

(** ** Startup: the checks of [run] before its loop *)
Definition startup (tick : result Z) (b : Bidder) : outcome (result Bidder) :=
  match fetch_tick_size tick with
  | inl e => Ok (inl e)
  | inr t =>
      let b := set_b_tick_size t b in
      match validate_bid_amount (b_bid_amount b) (b_tick_size b) with
      | Ok (inl e) => Ok (inl e)
      | Ok (inr _) =>
          if negb (f64_finite_positive (b_gas_estimate_multiplier b))
          then Ok (inl (Msg "gas_estimate_multiplier must be finite and positive"))
          else if negb (f64_finite_positive (b_throughput_mgas b))
          then Ok (inl (Msg "throughput_mgas must be finite and positive"))
          else Ok (inr b)
      | Err e => Err e
      | Panic => Panic
      | Fuel => Fuel
      end
  end.

(** ** Admission *)

(** [mode_enabled] and [mode_wrap_demand]. *)
Definition mode_enabled (b : Bidder) (m : ProofMode) : bool :=
  match m with
  | Groth16 => b_groth16_enabled b
  | Plonk => b_plonk_enabled b
  | OtherMode => true
  end.

Definition mode_wrap_demand (b : Bidder) (m : ProofMode) : f64 * Z :=
  match m with
  | Groth16 => (f64_of_u64 (b_groth16_buffer_sec b), Int.wrap u32 (GROTH16_WRAP_WEIGHT weights))
  | Plonk => (f64_of_u64 (b_plonk_buffer_sec b), Int.wrap u32 (PLONK_WRAP_WEIGHT weights))
  | OtherMode => (f64_of_u64 0, 0)
  end.

(** [clamped_request_duration] and [effective_request_duration]. *)
Definition clamped_request_duration (now deadline : Z) (perf_deadline : option Z) : Z * bool :=
  match perf_deadline with
  | None => (Int.sat_sub deadline now, false)
  | Some perf => (Int.sat_sub (Z.min perf deadline) now, perf <? deadline)
  end.

Definition effective_request_duration (now : Z) (r : ProofRequest) (gas : Z)
    (requirements : option PerformanceRequirements) : Z :=
  (clamped_request_duration now (deadline r)
     ((fun req => perf_deadline (created_at r) gas req) <$> requirements)).1.

Definition reserve (expected wrap_weight : Z) (cl : ClusterState f64) : ClusterState f64 :=
  mkCluster (throughput_mgas cl) (cpu_worker_max_weights cl)
    (Int.wadd u32 (active_proofs cl) 1) (Int.sat_add u64 (committed_gas cl) expected)
    (if 0 <? wrap_weight then Int.wadd u32 (active_wraps cl) 1 else active_wraps cl).

(** [admit_request]: the verdict, the load with the request in it and the
    ledger with its bid. *)
Definition admit_request (r : ProofRequest) (estimate : option Z)
    (requirements : option PerformanceRequirements) (now : Z) (instant : Instant)
    (cl : ClusterState f64) (b : Bidder) : bool * ClusterState f64 * Bidder :=
  if negb (mode_enabled b (mode r)) then (false, cl, b)
  else
    let expected := expected_gas estimate (gas_limit r) (cycle_limit r) (b_gas_estimate_multiplier b) in
    let deadline_secs := effective_request_duration now r expected requirements in
    let (wrap_secs, wrap_weight) := mode_wrap_demand b (mode r) in
    let outcome := admission_outcome cl
      (mkDemand expected deadline_secs (f64_of_u64 (b_buffer_sec b)) wrap_secs wrap_weight) in
    if negb (admits outcome) then (false, cl, b)
    else
      (true, reserve expected wrap_weight cl,
       set_b_pending_bids
         (pending_record (request_id r) expected (0 <? wrap_weight) (min_auction_period r) instant
            (b_pending_bids b)) b).

(** ** Gas estimates *)
Fixpoint bytes_leb (a b : bytes) : bool :=
  match a, b with
  | [], _ => true
  | _ :: _, [] => false
  | x :: a, y :: b => if x <? y then true else if y <? x then false else bytes_leb a b
  end.
Definition bytes_le (a b : bytes) : Prop := bytes_leb a b = true.
#[export] Instance bytes_le_dec : RelDecision bytes_le.
Proof. unfold bytes_le. intros a b. apply _. Defined.

(** [Vec::dedup]: runs of equal neighbours collapse. *)
Fixpoint dedup (l : list bytes) : list bytes :=
  match l with
  | [] => []
  | x :: l => match l with
              | [] => [x]
              | y :: _ => if decide (x = y) then dedup l else x :: dedup l
              end
  end.

Definition ESTIMATES_BATCH_LIMIT : nat := 256.

(** The cached part of [resolve_gas_estimates]: what is resolved and the misses. *)
Definition lookup_cached (cache : EstimateCache) (now : Instant) (acc : Resolved * list bytes) (vk : bytes)
  : Resolved * list bytes :=
  match cache_lookup cache vk now with
  | Hit e => (<[vk := Some e]> acc.1, acc.2)
  | KnownAbsent => (<[vk := None]> acc.1, acc.2)
  | Miss => (acc.1, acc.2 ++ [vk])
  end.

(** One chunk of misses: the answer collected into a map (a later entry for the
    same program replaces an earlier one), each estimate taken from it once. *)
Definition resolve_chunk (fetch : list bytes -> result (list (bytes * Z))) (now : Instant)
    (acc : Resolved * EstimateCache) (chunk : list bytes) : Resolved * EstimateCache :=
  match fetch chunk with
  | inr estimates =>
      let by_vk : gmap bytes Z := foldl (fun m e => <[e.1 := e.2]> m) ∅ estimates in
      (foldl (fun (acc : Resolved * EstimateCache * gmap bytes Z) vk =>
                let '(resolved, cache, by_vk) := acc in
                let estimate := by_vk !! vk in
                (<[vk := estimate]> resolved, cache_store vk estimate now cache, delete vk by_vk))
             (acc, by_vk) chunk).1
  | inl _ => (foldl (fun resolved vk => <[vk := None]> resolved) acc.1 chunk, acc.2)
  end.

(** The programs of a pass, each once, looked up in the cache: what is resolved
    and the batches still to ask for. *)
Definition lookup_estimates (now : Instant) (requests assigned : list ProofRequest) (cache : EstimateCache)
  : Resolved * list (list bytes) :=
  let vks := dedup (merge_sort bytes_le (vk_hash <$> (requests ++ assigned))) in
  let '(resolved, misses) := foldl (lookup_cached cache now) (∅, []) vks in
  (resolved, chunks ESTIMATES_BATCH_LIMIT misses).

(** The batches in order; [fetch i] is what the network answers to the [i]th call. *)
Fixpoint resolve_chunks (fetch : nat -> list bytes -> result (list (bytes * Z))) (now : Instant) (i : nat)
    (batches : list (list bytes)) (acc : Resolved * EstimateCache) : Resolved * EstimateCache :=
  match batches with
  | [] => acc
  | chunk :: batches => resolve_chunks fetch now (S i) batches (resolve_chunk (fetch i) now acc chunk)
  end.

(** [resolve_gas_estimates]. *)
Definition resolve_gas_estimates (fetch : nat -> list bytes -> result (list (bytes * Z))) (now : Instant)
    (requests assigned : list ProofRequest) (b : Bidder) : Resolved * Bidder :=
  let '(resolved, batches) := lookup_estimates now requests assigned (b_estimate_cache b) in
  let '(resolved, cache) := resolve_chunks fetch now 0 batches (resolved, b_estimate_cache b) in
  (resolved, set_b_estimate_cache cache b).

Definition estimate_for (gas_estimates : Resolved) (vk : bytes) : option Z :=
  match gas_estimates !! vk with Some e => e | None => None end.

(** ** The load already assigned *)
Definition REQUEST_LIMIT : Z := 100.

(** [fetch_assigned_requests]: [fetch] is the network's page of assigned
    requests. *)
Fixpoint fetch_assigned_from (fuel : nat) (fetch : Z -> result (list ProofRequest)) (slots page : Z)
    (assigned : list ProofRequest) : outcome (result (list ProofRequest)) :=
  match fuel with
  | O => Fuel
  | S fuel =>
      match fetch page with
      | inl e => Ok (inl e)
      | inr batch =>
          let full_page := Int.wrap u32 (Z.of_nat (length batch)) =? REQUEST_LIMIT in
          let assigned := assigned ++ batch in
          if negb full_page || (slots <? Int.wrap u32 (Z.of_nat (length assigned)))
          then Ok (inr assigned)
          else fetch_assigned_from fuel fetch slots (Int.wadd u32 page 1) assigned
      end
  end.

(** One page per [REQUEST_LIMIT] slots, and one more to see the count pass them. *)
Definition assigned_fuel (b : Bidder) : nat :=
  S (Z.to_nat (controller_slots (b_cpu_worker_max_weights b) / REQUEST_LIMIT)).

Definition fetch_assigned_requests (fetch : Z -> result (list ProofRequest)) (b : Bidder)
  : outcome (result (list ProofRequest)) :=
  fetch_assigned_from (assigned_fuel b) fetch (controller_slots (b_cpu_worker_max_weights b)) 1 [].

(** ** A pass *)

(** What a pass reads from outside: the network's answers and the clocks. The
    cache is looked up at [in_lookup], the ledger reconciled at [in_reconcile], and
    the [k]th request of the loop judged at [in_clock k]. *)
Record PassInput := mkInput {
  in_now : Z;
  in_now_utc : Z;
  in_lookup : Instant;
  in_reconcile : Instant;
  in_clock : nat -> Z * Instant;
  in_requests : result (list ProofRequest);
  in_assigned : Z -> result (list ProofRequest);
  in_estimates : nat -> list bytes -> result (list (bytes * Z));
}.

Definition is_wrap_mode (m : ProofMode) : bool := match m with Groth16 | Plonk => true | OtherMode => false end.

(** The load the assigned requests make. *)
Definition assigned_load (b : Bidder) (gas_estimates : Resolved) (assigned : list ProofRequest) : ClusterState f64 :=
  let gas := (fun r => expected_gas (estimate_for gas_estimates (vk_hash r)) (gas_limit r) (cycle_limit r)
                         (b_gas_estimate_multiplier b)) <$> assigned in
  mkCluster (b_throughput_mgas b) (b_cpu_worker_max_weights b)
    (Int.wrap u32 (Z.of_nat (length assigned)))
    (foldl (fun acc g => Int.sat_add u64 acc g) 0 gas)
    (Int.wrap u32 (Z.of_nat (length (filter (fun r => is_wrap_mode (mode r) = true) assigned)))).

(** [reconcile_pending_bids]. *)
Definition reconcile_pending_bids (cl : ClusterState f64) (biddable assigned : list ProofRequest)
    (now : Instant) (b : Bidder) : ClusterState f64 * Bidder :=
  let '(pending, cl) := pending_reconcile (b_pending_bids b) cl (request_id <$> (biddable ++ assigned)) now in
  (cl, set_b_pending_bids pending b).

(** The guards of the request loop's body: whether request [k] is bid on. *)
Definition consider (clock : nat -> Z * Instant) (gas_estimates : Resolved) (requirements : option PerformanceRequirements)
    (k : nat) (r : ProofRequest) (cl : ClusterState f64) (b : Bidder) : bool * ClusterState f64 * Bidder :=
  if b_aggressive_mode b
  then
    match b_min_deadline_secs b with
    | Some min_deadline =>
        (negb (effective_request_duration (clock k).1 r (gas_limit r) requirements <? min_deadline), cl, b)
    | None => (true, cl, b)
    end
  else admit_request r (estimate_for gas_estimates (vk_hash r)) requirements (clock k).1
         (clock k).2 cl b.

(** The request loop: the bids it spawns, in order, with their amounts. *)
Fixpoint bid_loop (clock : nat -> Z * Instant) (gas_estimates : Resolved) (requirements : option PerformanceRequirements)
    (bid_amount : Z) (k : nat) (requests : list ProofRequest) (cl : ClusterState f64) (b : Bidder)
  : list (ProofRequest * Z) * ClusterState f64 * Bidder :=
  match requests with
  | [] => ([], cl, b)
  | r :: requests =>
      let floor := default 0 (parse (floor_price_per_pgu r)) in
      let ceiling := default U256_MAX (parse (max_price_per_pgu r)) in
      let amount := Z.max bid_amount floor in
      if ceiling <? amount
      then bid_loop clock gas_estimates requirements bid_amount (S k) requests cl b
      else
        let '(go, cl, b) := consider clock gas_estimates requirements k r cl b in
        let '(bids, cl, b) := bid_loop clock gas_estimates requirements bid_amount (S k) requests cl b in
        (if go then (r, amount) :: bids else bids, cl, b)
  end.

(** The load a pass starts from: assigned requests and outstanding bids. *)
Definition pass_load (inp : PassInput) (requests assigned : list ProofRequest) (b : Bidder)
  : Resolved * ClusterState f64 * Bidder :=
  let '(gas_estimates, b) := resolve_gas_estimates (in_estimates inp) (in_lookup inp) requests assigned b in
  let '(cl, b) :=
    reconcile_pending_bids (assigned_load b gas_estimates assigned) requests assigned (in_reconcile inp) b in
  (gas_estimates, cl, b).

(** [bid_requests] up to the joined submissions: the bids it makes and the
    bidder it leaves. *)
Definition bid_requests (inp : PassInput) (b : Bidder) : outcome (result (list (ProofRequest * Z))) * Bidder :=
  if in_now inp <? b_suspended_until b then (Ok (inr []), b)
  else
    match in_requests inp with
    | inl e => (Ok (inl e), b)
    | inr requests =>
        match fetch_assigned_requests (in_assigned inp) b with
        | Ok (inr assigned) =>
            let '(gas_estimates, cl, b) := pass_load inp requests assigned b in
            match requests with
            | [] => (Ok (inr []), b)
            | _ =>
                let '(bids, _, b) :=
                  bid_loop (in_clock inp) gas_estimates (b_requirements b) (effective_bid_amount (in_now_utc inp) b) 0
                    requests cl b in
                (Ok (inr bids), b)
            end
        | Ok (inl e) => (Ok (inl e), b)
        | Err e => (Err e, b)
        | Panic => (Panic, b)
        | Fuel => (Fuel, b)
        end
    end.

(** [bid_request]: the body that is signed and sent. *)
Record BidRequestBody := mkBody {
  body_nonce : Z;
  body_request_id : bytes;
  body_amount : Z;
  body_prover : bytes;
}.

Definition bid_request (nonce : result Z) (prover : bytes) (id : string) (amount : Z) : result BidRequestBody :=
  let^ n := nonce in
  match hex_decode id with
  | Some rid => inr (mkBody n rid amount prover)
  | None => inl (Msg "failed to decode request_id")
  end.

(** [is_expected_bid_rejection]. *)
Definition is_expected_bid_rejection (e : Error) : bool :=
  match e with
  | Rpc s =>
      match code s with
      | InvalidArgument | Aborted => true
      | Unavailable => contains "failed nonce verification" (message s)
      | _ => false
      end
  | Msg _ => false
  end.

End bidder.

(** ** Lemmas *)
Section facts.
Context {E : BidEnv} {EO : BidEnvOk E}.

(** What no pass or refresh changes. *)
Record same_config (b b' : Bidder) : Prop := {
  sc_bid : b_bid_amount b' = b_bid_amount b;
  sc_tick : b_tick_size b' = b_tick_size b;
  sc_mode : mode_enabled b' = mode_enabled b;
  sc_aggressive : b_aggressive_mode b' = b_aggressive_mode b;
  sc_weights : b_cpu_worker_max_weights b' = b_cpu_worker_max_weights b;
}.

#[export] Instance same_config_preorder : PreOrder same_config.
Proof. split; [by constructor|]. intros a b c [] []. constructor; congruence. Qed.

Lemma consider_config ck g req k r cl b : same_config b (consider ck g req k r cl b).2.
Proof.
  unfold consider, admit_request. repeat case_match; by constructor.
Qed.

Lemma pass_load_config inp rs assigned b : same_config b (pass_load inp rs assigned b).2.
Proof. unfold pass_load, resolve_gas_estimates, reconcile_pending_bids. repeat case_match; simplify_eq; by constructor. Qed.

Lemma bid_loop_config ck g req amt k rs cl b : same_config b (bid_loop ck g req amt k rs cl b).2.
Proof.
  revert k cl b. induction rs as [|r rs IH]; intros k cl b; cbn [bid_loop]; [done|].
  case_match; [apply IH|]. pose proof (consider_config ck g req k r cl b) as Hc.
  destruct (consider _ _ _ _ _ _ _) as [[go cl1] b1]. pose proof (IH (S k) cl1 b1) as Hl.
  destruct (bid_loop _ _ _ _ _ _ _ _) as [[bids cl2] b2]. by etrans.
Qed.

Lemma bid_requests_config inp b : same_config b (bid_requests inp b).2.
Proof.
  unfold bid_requests. case_match; [done|]. destruct (in_requests inp) as [|rs]; [done|].
  destruct (fetch_assigned_requests _ _) as [[|assigned]| | |]; try done.
  pose proof (pass_load_config inp rs assigned b) as Hp.
  destruct (pass_load _ _ _ _) as [[g cl] b1]. destruct rs as [|r rs]; [done|].
  pose proof (bid_loop_config (in_clock inp) g (b_requirements b1) (effective_bid_amount (in_now_utc inp) b1) 0 (r :: rs) cl b1).
  destruct (bid_loop _ _ _ _ _ _ _ _) as [[bids cl2] b2]. by etrans.
Qed.

(** A bidder past its startup checks. *)
Definition priced (b : Bidder) : Prop :=
  0 < b_tick_size b /\ b_bid_amount b <> 0 /\ (b_tick_size b | b_bid_amount b).

Lemma startup_priced tick b0 b :
  (forall t, tick = inr t -> 0 <= t) -> startup tick b0 = Ok (inr b) -> priced b.
Proof.
  intros Ht. unfold startup, fetch_tick_size. destruct tick as [|t]; [done|]. cbn [bind_result].
  specialize (Ht t eq_refl). set (tk := if t =? 0 then DEFAULT_TICK_SIZE else t).
  assert (0 < tk) by (unfold tk, DEFAULT_TICK_SIZE; destruct (Z.eqb_spec t 0); lia).
  unfold validate_bid_amount. cbn [set_b_tick_size b_tick_size b_bid_amount].
  destruct (Z.eqb_spec (b_bid_amount b0) 0) as [|Hb]; [done|].
  destruct (Z.eqb_spec tk 0); [lia|]. destruct (Z.eqb_spec (b_bid_amount b0 mod tk) 0) as [Hm|]; [|done].
  cbn [negb]. case_match; [done|]. case_match; [done|]. intros [= <-].
  split; [done|]. split; [done|]. by apply (Z.mod_divide (b_bid_amount b0) tk).
Qed.

Lemma effective_bid_aligned now b :
  priced b -> (b_tick_size b | effective_bid_amount now b) /\ effective_bid_amount now b <> 0.
Proof.
  intros (Ht & Hne & Hdiv). unfold effective_bid_amount, bid_amount_outcome.
  repeat case_match; simplify_eq; try done.
  match goal with H : compute_max_price_per_pgu_wei _ _ = Some _ |- _ => apply price_nonneg in H as Hw end.
  split; [by apply round_down_spec|]. by apply Z.eqb_neq.
Qed.
End facts.
End Bid.
