(* ===== verification/BidderProps.v ===== *)
(** * The bidder: properties

    What a pass may bid and on what, that a burst of requests is never admitted
    past the cluster's capacity, and that reading the assigned requests ends. *)
From stdpp Require Import base gmap strings list.
From S2P Require Import Prelude Proto Bidder.
Local Open Scope string_scope.
Local Open Scope list_scope.
Local Open Scope Z_scope.
Import Bid.

Lemma foldl_sat_add_ge ws acc :
  0 <= acc <= Int.umax u32 -> Forall (fun w => 0 <= w) ws ->
  0 <= foldl (fun acc w => Int.sat_add u32 acc w) acc ws <= Int.umax u32.
Proof.
  intros Hacc Hws. revert acc Hacc. induction Hws as [|w ws Hw _ IH]; intros acc Hacc; [done|].
  cbn. apply IH. unfold Int.sat_add. lia.
Qed.

Section props.
Context {E : BidEnv} {EO : BidEnvOk E}.

Definition bid_floor (r : ProofRequest) : Z := default 0 (parse (floor_price_per_pgu r)).
Definition bid_ceiling (r : ProofRequest) : Z := default U256_MAX (parse (max_price_per_pgu r)).

Definition bid_ok (b : Bidder) (bid_amount : Z) (bid : ProofRequest * Z) : Prop :=
  bid.2 = Z.max bid_amount (bid_floor bid.1) /\ bid.2 <= bid_ceiling bid.1 /\
  (b_aggressive_mode b = false -> mode_enabled b (mode bid.1) = true).

Lemma consider_go ck g req k r cl b :
  (consider ck g req k r cl b).1.1 = true -> b_aggressive_mode b = false -> mode_enabled b (mode r) = true.
Proof.
  unfold consider, admit_request. intros Hgo Ha. rewrite Ha in Hgo. by destruct (mode_enabled b (mode r)).
Qed.

Lemma bid_ok_config b b' amt bid : same_config b b' -> bid_ok b' amt bid -> bid_ok b amt bid.
Proof. intros [_ _ Hm Ha _]. unfold bid_ok. by rewrite Hm, Ha. Qed.

Lemma bid_loop_bids ck g req amt k rs cl b :
  let bids := (bid_loop ck g req amt k rs cl b).1.1 in
  bids.*1 `sublist_of` rs /\ Forall (bid_ok b amt) bids.
Proof.
  revert k cl b. induction rs as [|r rs IH]; intros k cl b; cbn [bid_loop].
  { split; constructor. }
  destruct (Z.ltb_spec (default U256_MAX (parse (max_price_per_pgu r))) (Z.max amt (default 0 (parse (floor_price_per_pgu r))))).
  { destruct (IH (S k) cl b). split; [by apply sublist_cons|done]. }
  pose proof (consider_go ck g req k r cl b) as Hgo. pose proof (consider_config ck g req k r cl b) as Hc.
  destruct (consider _ _ _ _ _ _ _) as [[go cl1] b1]. cbn in Hgo, Hc. pose proof (IH (S k) cl1 b1) as [Hs Hf].
  destruct (bid_loop _ _ _ _ _ _ _ _) as [[bids cl2] b2]. cbn in *.
  assert (Hf' : Forall (bid_ok b amt) bids).
  { eapply Forall_impl; [done|]. intros bid. by apply bid_ok_config. }
  destruct go; [|by split; [apply sublist_cons|]]. split; [by apply sublist_skip|].
  constructor; [|done]. split; [done|]. split; [done|]. by apply Hgo.
Qed.

(** What admission does to the load, with the number of bids it made. *)
Definition load_after (cl cl' : ClusterState f64) (n : nat) : Prop :=
  cpu_worker_max_weights cl' = cpu_worker_max_weights cl /\
  active_proofs cl' = active_proofs cl + Z.of_nat n /\
  (n <> 0%nat -> active_proofs cl' <= controller_slots (cpu_worker_max_weights cl)).

Lemma consider_load ck g req k r cl b :
  b_aggressive_mode b = false -> 0 <= active_proofs cl ->
  Forall (fun w => 0 <= w) (cpu_worker_max_weights cl) ->
  let '(go, cl', _) := consider ck g req k r cl b in load_after cl cl' (if go then 1 else 0).
Proof.
  intros Ha Hn Hws. unfold consider, admit_request. rewrite Ha.
  destruct (mode_enabled b (mode r)); [|split; [done|split; [cbn; lia|done]]]. cbn [negb].
  destruct (mode_wrap_demand b (mode r)) as [wrap_secs wrap_weight].
  destruct (admits _) eqn:Hadm; [|split; [done|split; [cbn; lia|done]]].
  apply admission_cap in Hadm. assert (0 <= 0 <= Int.umax u32) as H0 by (vm_compute; split; congruence).
  pose proof (foldl_sat_add_ge _ 0 H0 Hws) as Hcap. fold (controller_slots (cpu_worker_max_weights cl)) in Hcap.
  assert (Hexact : Int.wadd u32 (active_proofs cl) 1 = active_proofs cl + 1).
  { apply Int.wadd_small. unfold Int.in_range. unfold Int.umax in Hcap. lia. }
  cbn. split; [done|]. cbn. rewrite Hexact. split; [done|]. lia.
Qed.

Lemma bid_loop_load ck g req amt k rs cl b :
  b_aggressive_mode b = false -> 0 <= active_proofs cl ->
  Forall (fun w => 0 <= w) (cpu_worker_max_weights cl) ->
  let '(bids, cl', _) := bid_loop ck g req amt k rs cl b in load_after cl cl' (length bids).
Proof.
  revert k cl b. induction rs as [|r rs IH]; intros k cl b Ha Hn Hws; cbn [bid_loop].
  { split; [done|]. cbn. split; [lia|done]. }
  destruct (_ <? _); [by apply IH|].
  pose proof (consider_load ck g req k r cl b Ha Hn Hws) as Hc.
  pose proof (consider_config ck g req k r cl b) as [_ _ _ Ha' _].
  destruct (consider _ _ _ _ _ _ _) as [[go cl1] b1]. destruct Hc as (Hw1 & Hn1 & Hcap1). cbn in Ha'.
  assert (0 <= active_proofs cl1) by (destruct go; lia).
  pose proof (IH (S k) cl1 b1 ltac:(congruence) ltac:(done) ltac:(by rewrite Hw1)) as Hl.
  destruct (bid_loop _ _ _ _ _ _ _ _) as [[bids cl2] b2]. destruct Hl as (Hw2 & Hn2 & Hcap2). rewrite Hw1 in Hcap2.
  split; [congruence|]. destruct go; cbn [length]; (split; [lia|]).
  - intros _. destruct bids; cbn in *; [|by apply Hcap2]. rewrite Hn2. specialize (Hcap1 ltac:(done)). lia.
  - intros Hb. by apply Hcap2.
Qed.

Lemma effective_bid_positive now b : priced b -> 0 <= b_bid_amount b -> 0 < effective_bid_amount now b.
Proof.
  intros Hp Hb. destruct (effective_bid_aligned now b Hp) as [_ Hne]. destruct Hp as (Ht & _ & _).
  cut (0 <= effective_bid_amount now b); [lia|]. unfold effective_bid_amount, bid_amount_outcome.
  repeat case_match; simplify_eq; try done.
  match goal with H : compute_max_price_per_pgu_wei _ _ = Some _ |- _ => apply price_nonneg in H as Hw end.
  by apply round_down_spec.
Qed.

Lemma priced_config b b' : same_config b b' -> priced b -> priced b'.
Proof. intros [Hb Ht _ _ _]. unfold priced. by rewrite Hb, Ht. Qed.

(** A pass with bids went through the loop. *)
Lemma bid_requests_loop inp b bids :
  (bid_requests inp b).1 = Ok (inr bids) -> bids <> [] ->
  b_suspended_until b <= in_now inp /\
  exists rs assigned, in_requests inp = inr rs /\ fetch_assigned_requests (in_assigned inp) b = Ok (inr assigned) /\
    let '(g, cl, b1) := pass_load inp rs assigned b in
    bids = (bid_loop (in_clock inp) g (b_requirements b1) (effective_bid_amount (in_now_utc inp) b1) 0 rs cl b1).1.1.
Proof.
  unfold bid_requests. intros H Hne. destruct (Z.ltb_spec (in_now inp) (b_suspended_until b)); [cbn in H; congruence|].
  split; [done|]. destruct (in_requests inp) as [|rs]; [done|]. exists rs.
  destruct (fetch_assigned_requests _ _) as [[|assigned]| | |]; cbn in H; try done. exists assigned.
  split; [done|]. split; [done|]. destruct (pass_load _ _ _ _) as [[g cl] b1].
  destruct rs as [|r rs]; [cbn in H; congruence|]. destruct (bid_loop _ _ _ _ _ _ _ _) as [[]]. cbn in *. congruence.
Qed.

(** Every bid of a pass is one the operator and the requester allow: the
    prover is not suspended, the bids answer distinct entries of the listing, and
    each amount is positive, lies between the requester's floor and ceiling, is a
    multiple of the auction tick whenever the floor is, and, outside aggressive
    mode, is for a proof mode the operator enabled. *)
Lemma pass_bids_sound (b : Bidder) (inp : PassInput) (bids : list (ProofRequest * Z)) :
  priced b -> 0 <= b_bid_amount b -> (bid_requests inp b).1 = Ok (inr bids) -> bids <> [] ->
  b_suspended_until b <= in_now inp /\
  (exists rs, in_requests inp = inr rs /\ bids.*1 `sublist_of` rs) /\
  Forall (fun bid =>
    0 < bid.2 /\ bid_floor bid.1 <= bid.2 <= bid_ceiling bid.1 /\
    ((b_tick_size b | bid_floor bid.1) -> (b_tick_size b | bid.2)) /\
    (b_aggressive_mode b = false -> mode_enabled b (mode bid.1) = true)) bids.
Proof.
  intros Hr Hb H Hne.
  destruct (bid_requests_loop inp b bids H Hne) as (Hs & rs & assigned & Hrs & _ & Hloop). split; [done|].
  pose proof (pass_load_config inp rs assigned b) as Hc. destruct (pass_load _ _ _ _) as [[g cl] b1]. cbn in Hc.
  set (amt := effective_bid_amount (in_now_utc inp) b1) in *.
  pose proof (bid_loop_bids (in_clock inp) g (b_requirements b1) amt 0 rs cl b1) as [Hsub Hok]. rewrite <- Hloop in Hsub, Hok.
  split; [by exists rs|]. assert (Hp1 : priced b1) by by eapply priced_config.
  destruct (effective_bid_aligned (in_now_utc inp) b1 Hp1) as [Hdiv _]. fold amt in Hdiv.
  assert (0 < amt) by (apply effective_bid_positive; [done|]; by rewrite (sc_bid _ _ Hc)).
  rewrite (sc_tick _ _ Hc) in Hdiv. eapply Forall_impl; [done|].
  intros bid (Ha & Hceil & Hmode)%(bid_ok_config b b1); [|done].
  rewrite Ha in *. split; [lia|]. split; [lia|]. split; [|done].
  intros Hf. destruct (Z.max_spec amt (bid_floor bid.1)) as [[_ ->]|[_ ->]]; done.
Qed.

(** C25. A pass outside aggressive mode never admits more than the cluster can
    run: counting the proofs already assigned and the bids still outstanding,
    what it bids on stays within the summed controller capacity, so a pass that
    starts at the cap bids on nothing. *)
Theorem pass_within_capacity (inp : PassInput) (b : Bidder) (bids : list (ProofRequest * Z)) rs assigned :
  b_aggressive_mode b = false -> Forall (fun w => 0 <= w) (b_cpu_worker_max_weights b) ->
  (bid_requests inp b).1 = Ok (inr bids) -> bids <> [] ->
  in_requests inp = inr rs -> fetch_assigned_requests (in_assigned inp) b = Ok (inr assigned) ->
  let load := (pass_load inp rs assigned b).1.2 in
  Int.wrap u32 (Z.of_nat (length assigned)) <= active_proofs load /\
  active_proofs load + Z.of_nat (length bids) <= controller_slots (b_cpu_worker_max_weights b).
Proof.
  intros Hag Hws H Hne Hrs Has.
  destruct (bid_requests_loop inp b bids H Hne) as (_ & rs' & assigned' & Hrs' & Has' & Hloop).
  rewrite Hrs in Hrs'. rewrite Has in Has'. simplify_eq.
  pose proof (pass_load_config inp rs' assigned' b) as Hc.
  unfold pass_load, reconcile_pending_bids in *.
  destruct (resolve_gas_estimates _ _ _ _ _) as [g b1] eqn:Hres.
  assert (Hw1 : b_cpu_worker_max_weights b1 = b_cpu_worker_max_weights b).
  { unfold resolve_gas_estimates in Hres. repeat case_match; by simplify_eq. }
  pose proof (reconcile_adds (b_pending_bids b1) (assigned_load b1 g assigned') (request_id <$> (rs' ++ assigned'))
    (in_reconcile inp)) as Hrec.
  destruct (pending_reconcile _ _ _ _) as [pending cl]. cbn in Hrec, Hc, Hloop |- *. destruct Hrec as [Hle Hw].
  split; [done|]. pose proof (Int.wrap_range u32 (Z.of_nat (length assigned')) ltac:(done)) as Hrange.
  pose proof (bid_loop_load (in_clock inp) g (b_requirements b1) (effective_bid_amount (in_now_utc inp) (set_b_pending_bids pending b1))
    0 rs' cl (set_b_pending_bids pending b1)) as Hl.
  cbn in Hl. destruct (bid_loop _ _ _ _ _ _ _ _) as [[bids' cl2] b2]. cbn in Hloop. subst bids'.
  destruct Hl as (_ & Hn & Hcap).
  - by rewrite <- Hag, <- (sc_aggressive _ _ Hc).
  - unfold Int.in_range in Hrange. lia.
  - by rewrite Hw, Hw1.
  - rewrite Hw, Hw1 in Hcap. rewrite <- Hn. apply Hcap. by destruct bids.
Qed.

(** The pages read so far were full and within capacity. *)
Lemma fetch_assigned_from_spec fetch slots fuel k assigned batches :
  (forall p l, fetch p = inr l -> Z.of_nat (length l) <= REQUEST_LIMIT) ->
  0 <= slots < 2 ^ 32 - REQUEST_LIMIT ->
  slots < Z.of_nat (k + fuel) * REQUEST_LIMIT ->
  length batches = k -> assigned = concat batches ->
  Z.of_nat (length assigned) = Z.of_nat k * REQUEST_LIMIT -> Z.of_nat (length assigned) <= slots ->
  (forall i l, batches !! i = Some l -> fetch (1 + Z.of_nat i) = inr l) ->
  let r := fetch_assigned_from fuel fetch slots (1 + Z.of_nat k) assigned in
  (exists p e, fetch p = inl e /\ r = Ok (inl e)) \/
  (exists batches, (forall i l, batches !! i = Some l -> fetch (1 + Z.of_nat i) = inr l) /\
     r = Ok (inr (concat batches)) /\
     (slots < Z.of_nat (length (concat batches)) \/
      exists l, last batches = Some l /\ Z.of_nat (length l) < REQUEST_LIMIT)).
Proof.
  intros Hpage Hslots. revert k assigned batches.
  induction fuel as [|fuel IH]; intros k assigned batches Hfuel Hk Has Hlen Hcap Hb; cbn [fetch_assigned_from].
  { unfold REQUEST_LIMIT in *. lia. }
  destruct (fetch (1 + Z.of_nat k)) as [e|batch] eqn:Hf; [left; by exists (1 + Z.of_nat k), e|].
  pose proof (Hpage _ _ Hf) as Hbl. unfold REQUEST_LIMIT in *.
  assert (Hall : forall i l, (batches ++ [batch]) !! i = Some l -> fetch (1 + Z.of_nat i) = inr l).
  { intros i l [Hi|[Hi Hl]]%lookup_app_Some; [by apply Hb|].
    apply list_lookup_singleton_Some in Hl as [? <-]. by replace i with k by lia. }
  assert (Hcat : assigned ++ batch = concat (batches ++ [batch])).
  { rewrite Has, concat_app. cbn. by rewrite app_nil_r. }
  assert (Hsum : Z.of_nat (length (assigned ++ batch)) = Z.of_nat k * 100 + Z.of_nat (length batch)).
  { rewrite length_app. lia. }
  unfold Int.wrap, Int.modulus. rewrite (Z.mod_small (Z.of_nat (length batch))) by lia.
  rewrite (Z.mod_small (Z.of_nat (length (assigned ++ batch)))) by lia.
  destruct (Z.eqb_spec (Z.of_nat (length batch)) 100) as [Hfull|Hshort]; cbn [negb orb].
  - destruct (Z.ltb_spec slots (Z.of_nat (length (assigned ++ batch)))) as [Hover|Hunder].
    + right. exists (batches ++ [batch]). split; [done|]. rewrite <- Hcat. auto.
    + replace (Int.wadd u32 (1 + Z.of_nat k) 1) with (1 + Z.of_nat (S k)).
      2: { rewrite Int.wadd_small; [lia|]. unfold Int.in_range, Int.modulus. lia. }
      apply (IH (S k) _ (batches ++ [batch])); try done; rewrite ?length_app; cbn [length]; lia.
  - right. exists (batches ++ [batch]). split; [done|]. rewrite Hcat. split; [done|].
    right. exists batch. rewrite last_snoc. split; [done|lia].
Qed.

(** Reading the assigned requests ends and is not truncated below capacity:
    with pages of at most a hundred entries and a capacity that leaves a page of
    [u32], the loop stops within one page more than the capacity holds, with the
    RPC's error or with every page up to the first short one or to a count past
    the capacity. *)
Theorem fetch_assigned_terminates (fetch : Z -> result (list ProofRequest)) (b : Bidder) :
  (forall p l, fetch p = inr l -> Z.of_nat (length l) <= REQUEST_LIMIT) ->
  0 <= controller_slots (b_cpu_worker_max_weights b) < 2 ^ 32 - REQUEST_LIMIT ->
  let r := fetch_assigned_requests fetch b in
  (exists p e, fetch p = inl e /\ r = Ok (inl e)) \/
  (exists batches, (forall i l, batches !! i = Some l -> fetch (1 + Z.of_nat i) = inr l) /\
     r = Ok (inr (concat batches)) /\
     (controller_slots (b_cpu_worker_max_weights b) < Z.of_nat (length (concat batches)) \/
      exists l, last batches = Some l /\ Z.of_nat (length l) < REQUEST_LIMIT)).
Proof.
  intros Hpage Hslots. apply (fetch_assigned_from_spec fetch _ _ 0 [] []); try done; [|cbn; lia].
  unfold assigned_fuel, REQUEST_LIMIT in *.
  pose proof (Z.mul_succ_div_gt (controller_slots (b_cpu_worker_max_weights b)) 100 ltac:(lia)). 
  assert (0 <= controller_slots (b_cpu_worker_max_weights b) / 100) by (apply Z.div_pos; lia). lia.
Qed.
End props.

(** ** A concrete bidder *)
Definition demo_digit (n : Z) : Ascii.ascii := Ascii.ascii_of_N (Z.to_N (if n <? 10 then 48 + n else 87 + n)).
Definition demo_value (c : Ascii.ascii) : Z := let n := Z.of_N (Ascii.N_of_ascii c) in if n <? 58 then n - 48 else n - 87.
Fixpoint demo_hex_encode (b : bytes) : string :=
  match b with
  | [] => ""
  | x :: b => String (demo_digit (x / 16)) (String (demo_digit (x mod 16)) (demo_hex_encode b))
  end.
Fixpoint demo_hex_decode (s : string) : bytes :=
  match s with
  | String hi (String lo s) => 16 * demo_value hi + demo_value lo :: demo_hex_decode s
  | _ => []
  end.

Lemma demo_digit_value n : 0 <= n < 16 -> demo_value (demo_digit n) = n.
Proof.
  intros Hn. assert (Hall : Forall (fun n => demo_value (demo_digit n) = n) (seqZ 0 16)) by repeat constructor.
  rewrite Forall_forall in Hall. apply Hall, elem_of_seqZ. lia.
Qed.

Lemma demo_hex_roundtrip b : Forall (fun x => 0 <= x < 256) b -> demo_hex_decode (demo_hex_encode b) = b.
Proof.
  induction 1 as [|x b Hx _ IH]; [done|]. cbn [demo_hex_encode demo_hex_decode].
  assert (0 <= x / 16 < 16) by (split; [apply Z.div_pos; lia|apply Z.div_lt_upper_bound; lia]).
  rewrite !demo_digit_value, IH, <- Z.div_mod; [done| |by apply Z.mod_pos_bound|done]. lia.
Qed.

Definition demo_bid_env : BidEnv := {|
  f64 := Z; f64_of_u64 := fun x => x; f64_finite_positive := fun x => 0 <? x; weights := default_weights;
  Instant := Z; EstimateCache := unit; cache_lookup := fun _ _ _ => Miss; cache_store := fun _ _ _ c => c;
  PendingBids := unit; pending_record := fun _ _ _ _ _ p => p; pending_reconcile := fun p cl _ _ => (p, cl);
  expected_gas := fun e g _ _ => default g e;
  admission_outcome := fun cl _ =>
    if active_proofs cl <? controller_slots (cpu_worker_max_weights cl) then AdmitLoaded else RejectCap;
  admits := fun o => match o with AdmitLoaded => true | _ => false end;
  prove_price_parse := fun _ _ => inl (Msg "price");
  PerformanceRequirements := unit; from_parts := fun _ _ => None; perf_deadline := fun _ _ _ => 0;
  compute_max_price_per_pgu_wei := fun _ _ => None;
  round_down_to_tick := fun wei tick => tick * (wei / tick);
  parse_u256 := fun s => if decide (s = "20") then Some 20 else None;
  hex_encode := demo_hex_encode;
  hex_decode := fun s => Some (demo_hex_decode s);
|}.
#[local] Existing Instance demo_bid_env.

#[local] Instance demo_bid_env_ok : BidEnvOk demo_bid_env.
Proof.
  split; cbn.
  - intros cl _. destruct (Z.ltb_spec (active_proofs cl) (controller_slots (cpu_worker_max_weights cl))); done.
  - intros wei tick Ht Hw. pose proof (Z.mul_div_le wei tick Ht). pose proof (Z.div_pos wei tick Hw Ht).
    split; [nia|apply Z.divide_factor_l].
  - done.
  - done.
  - intros b Hb. by rewrite demo_hex_roundtrip.
Qed.

Definition demo_bidder : Bidder :=
  mkBidder 1 10 30 30 80 true false false None 1 [1; 1] None 0 tt tt None None 0.
Definition demo_bidder1 : Bidder := set_b_tick_size 5 demo_bidder.
Definition demo_bid_request (id : Z) (m : ProofMode) : ProofRequest :=
  mkRequest [id] [7] m 1000 1000 0 600 10 (Some "20") None.
Definition demo_pass : PassInput :=
  mkInput 100 100 0 0 (fun _ => (100, 0))
    (inr [demo_bid_request 1 Plonk; demo_bid_request 2 Groth16; demo_bid_request 3 OtherMode])
    (fun _ => inr [demo_bid_request 9 OtherMode]) (fun _ _ => inl (Msg "down")).

(** Of three requests the first is for a disabled mode and the third is past the
    capacity of two. *)
Definition demo_bids : list (ProofRequest * Z) := [(demo_bid_request 2 Groth16, 20)].

Lemma pass_within_capacity_witness :
  let load := (pass_load demo_pass [demo_bid_request 1 Plonk; demo_bid_request 2 Groth16; demo_bid_request 3 OtherMode]
                 [demo_bid_request 9 OtherMode] demo_bidder1).1.2 in
  Int.wrap u32 1 <= active_proofs load /\ active_proofs load + 1 <= controller_slots [1; 1].
Proof.
  apply (pass_within_capacity demo_pass demo_bidder1 demo_bids
           [demo_bid_request 1 Plonk; demo_bid_request 2 Groth16; demo_bid_request 3 OtherMode]
           [demo_bid_request 9 OtherMode]); try (vm_compute; reflexivity); [|done].
  repeat constructor; done.
Defined.

Lemma fetch_assigned_terminates_witness :
  let fetch := fun _ => inr [demo_bid_request 9 OtherMode] in
  let r := fetch_assigned_requests fetch demo_bidder1 in
  (exists p e, fetch p = inl e /\ r = Ok (inl e)) \/
  (exists batches, (forall i l, batches !! i = Some l -> fetch (1 + Z.of_nat i) = inr l) /\
     r = Ok (inr (concat batches)) /\
     (2 < Z.of_nat (length (concat batches)) \/ exists l, last batches = Some l /\ Z.of_nat (length l) < REQUEST_LIMIT)).
Proof.
  apply (fetch_assigned_terminates (fun _ => inr [demo_bid_request 9 OtherMode]) demo_bidder1).
  - intros p l [= <-]. done.
  - vm_compute. split; congruence.
Defined.
