(* ===== verification/Manifest.v ===== *)
(** * The build manifest and the capacity report

    How a cluster's build identity and GPU capacity reach the network: the
    coordinator's [get_cluster_info] pushed by [spawn_manifest_push_task]
    ([bin/coordinator/src/cluster.rs]), the API's in-memory manifest
    ([bin/api/src/service.rs]) and the fulfiller's report
    ([crates/fulfillment/src/lib.rs] and [prover_info.rs]). *)
From stdpp Require Import base gmap strings list.
From S2P Require Import Prelude Proto TaskChannel CoordState Coordinator Capacity.
Local Open Scope string_scope.
Local Open Scope list_scope.
Local Open Scope Z_scope.

#[export] Instance ComponentInfo_eq_dec : EqDecision ComponentInfo.
Proof. solve_decision. Defined.

(** [ClusterComponentManifest] and its default. *)
Record ClusterComponentManifest := mkManifest {
  mf_components : list ComponentInfo;
  mf_updated_at : Z;
  mf_capacity : option CapacitySnapshot;
}.
Definition empty_manifest : ClusterComponentManifest := mkManifest [] 0 None.

(** The API: [set_cluster_component_info] and [get_cluster_component_info];
    [now] is its clock in seconds, [None] before the epoch. *)
Definition set_cluster_component_info (now : option Z) (components : list ComponentInfo)
    (capacity : option CapacitySnapshot) (m : ClusterComponentManifest)
  : outcome unit * ClusterComponentManifest :=
  match now with
  | None => (Err (mkStatus Internal "system time before unix epoch"), m)
  | Some updated_at => (Ok tt, mkManifest components updated_at capacity)
  end.

Definition get_cluster_component_info (m : ClusterComponentManifest) : outcome ClusterComponentManifest := Ok m.

(** [MANIFEST_PUSH_INTERVAL], and one turn of [spawn_manifest_push_task]: a
    failed push ([delivered] is [false]) leaves the API as it was. *)
Definition MANIFEST_PUSH_INTERVAL : Z := 240.

Definition push_manifest {E : ClusterEnv} {PT : PolicyTypes} (delivered : bool) (now : option Z)
    (version git_sha image_tag : string) (c : Coordinator) (m : ClusterComponentManifest)
  : Coordinator * ClusterComponentManifest :=
  let '((components, capacity), c) := get_cluster_info version git_sha image_tag c in
  if delivered then (c, (set_cluster_component_info now components (Some capacity) m).2) else (c, m).

(** ** The fulfiller's report *)
Definition MAX_MANIFEST_AGE_SECS : Z := 5 * 60.

(** [fresh_manifest_components]. *)
Definition fresh_manifest_components (m : ClusterComponentManifest) (now : Z) : result (list ComponentInfo) :=
  if mf_updated_at m =? 0 then inl (Msg "cluster API has no component manifest yet")
  else if MAX_MANIFEST_AGE_SECS <? Int.sat_sub now (mf_updated_at m)
  then inl (Msg "cluster component manifest is stale")
  else inr (mf_components m).

Definition FULFILLER_COMPONENT : string := "fulfiller".

Record BuildIdentity := mkBuild { bi_version : string; bi_git_sha : string; bi_image_tag : string }.

(** [fulfiller_component], [component_from_cluster] and [capacity_from_cluster]:
    the public types have the fields of the cluster's. *)
Definition fulfiller_component (i : BuildIdentity) : ComponentInfo :=
  mkComponent FULFILLER_COMPONENT (bi_version i) (bi_git_sha i) (bi_image_tag i).
Definition component_from_cluster (c : ComponentInfo) : ComponentInfo :=
  mkComponent (ci_component c) (ci_version c) (ci_git_sha c) (ci_image_tag c).
Definition gpu_class_count (g : GpuClassCount) : GpuClassCount :=
  mkGpuClass (gc_name g) (gc_memory_total_bytes g) (gc_node_count g).
Definition capacity_from_cluster (c : CapacitySnapshot) : CapacitySnapshot :=
  mkCapacity (cs_observed_at c) (cs_counters_since c) (cs_gpu_nodes c) (cs_gpu_available_ms_total c)
    (cs_gpu_busy_ms_total c) (gpu_class_count <$> cs_gpus c).

(** The dedup of [assemble_components]: [seen] and the components pushed. *)
Fixpoint dedup_builds (seen : list ComponentInfo) (cs : list ComponentInfo) : list ComponentInfo :=
  match cs with
  | [] => []
  | c :: cs =>
      let mapped := component_from_cluster c in
      if decide (mapped ∈ seen) then dedup_builds seen cs else mapped :: dedup_builds (mapped :: seen) cs
  end.

Definition count_component (name : string) (cs : list ComponentInfo) : nat :=
  length (filter (fun c => ci_component c = name) cs).

(** [assemble_components]. *)
Definition assemble_components (identity : BuildIdentity) (cluster_components : list ComponentInfo)
  : result (list ComponentInfo) :=
  let components := fulfiller_component identity :: dedup_builds [] cluster_components in
  if (1 <? count_component FULFILLER_COMPONENT components)%nat
  then inl (Msg "manifest reported several fulfiller builds")
  else if negb (count_component COORDINATOR_COMPONENT components =? 1)%nat
  then inl (Msg "cluster manifest must report exactly one coordinator build")
  else inr components.

(** [report_prover_info]: the body it sends, [None] where it skips the report. *)
Definition report_prover_info (identity : BuildIdentity) (fetched : outcome ClusterComponentManifest) (now : Z)
  : option (list ComponentInfo * option CapacitySnapshot) :=
  match fetched with
  | Ok m =>
      let capacity := capacity_from_cluster <$> mf_capacity m in
      match fresh_manifest_components m now with
      | inl _ => None
      | inr components =>
          match assemble_components identity components with
          | inl _ => None
          | inr components => Some (components, capacity)
          end
      end
  | _ => None
  end.

(** [spawn_report_prover_info]: nothing is reported with fulfillment disabled. *)
Definition spawn_report_prover_info (disable_fulfillment : bool) (identity : BuildIdentity)
    (fetched : outcome ClusterComponentManifest) (now : Z) : option (list ComponentInfo * option CapacitySnapshot) :=
  if disable_fulfillment then None else report_prover_info identity fetched now.

(** ** Lemmas *)
Lemma component_from_cluster_id c : component_from_cluster c = c.
Proof. by destruct c. Qed.

Lemma capacity_from_cluster_id c : capacity_from_cluster c = c.
Proof.
  destruct c as [? ? ? ? ? gpus]. unfold capacity_from_cluster. cbn. f_equal.
  induction gpus as [|[] gpus IH]; cbn; [done|]. by rewrite IH.
Qed.

Lemma dedup_builds_spec seen cs :
  NoDup (dedup_builds seen cs) /\ (forall c, c ∈ dedup_builds seen cs <-> c ∈ cs /\ c ∉ seen).
Proof.
  revert seen. induction cs as [|c cs IH]; intros seen; cbn [dedup_builds].
  { split; [constructor|]. set_solver. }
  rewrite component_from_cluster_id. destruct (decide (c ∈ seen)) as [Hin|Hnin].
  - destruct (IH seen) as [Hnd Hin']. split; [done|]. intros x. rewrite Hin', elem_of_cons. naive_solver.
  - destruct (IH (c :: seen)) as [Hnd Hin']. split.
    + constructor; [|done]. rewrite Hin'. intros [_ H]. apply H. by left.
    + intros x. rewrite !elem_of_cons, Hin', elem_of_cons. destruct (decide (x = c)) as [->|]; naive_solver.
Qed.

Lemma count_component_zero name cs : Forall (fun c => ci_component c <> name) cs -> count_component name cs = 0%nat.
Proof.
  unfold count_component. induction 1 as [|c cs Hc _ IH]; [done|]. by rewrite filter_cons_False.
Qed.

Lemma dedup_builds_Forall (P : ComponentInfo -> Prop) seen cs : Forall P cs -> Forall P (dedup_builds seen cs).
Proof. rewrite !Forall_forall. intros H c [Hc _]%dedup_builds_spec. auto. Qed.

(** A manifest whose first entry is the coordinator and whose others are worker
    builds is accepted. *)
Lemma assemble_worker_builds identity coord workers :
  ci_component coord = COORDINATOR_COMPONENT ->
  Forall (fun c => ci_component c <> COORDINATOR_COMPONENT /\ ci_component c <> FULFILLER_COMPONENT) workers ->
  assemble_components identity (coord :: workers) =
  inr (fulfiller_component identity :: coord :: dedup_builds [coord] workers).
Proof.
  intros Hcoord Hws. unfold assemble_components. cbn [dedup_builds].
  rewrite component_from_cluster_id. rewrite decide_False by set_solver.
  assert (Hrest : Forall (fun c => ci_component c <> COORDINATOR_COMPONENT /\ ci_component c <> FULFILLER_COMPONENT)
                    (dedup_builds [coord] workers)) by by apply dedup_builds_Forall.
  pose proof (count_component_zero COORDINATOR_COMPONENT (dedup_builds [coord] workers)) as Hc.
  pose proof (count_component_zero FULFILLER_COMPONENT (dedup_builds [coord] workers)) as Hf.
  unfold count_component in *. cbn [fulfiller_component].
  rewrite !filter_cons. cbn [ci_component]. rewrite !Hcoord.
  rewrite !(decide_True (P := FULFILLER_COMPONENT = FULFILLER_COMPONENT)) by done.
  rewrite (decide_False (P := COORDINATOR_COMPONENT = FULFILLER_COMPONENT)) by done.
  rewrite (decide_False (P := FULFILLER_COMPONENT = COORDINATOR_COMPONENT)) by done.
  rewrite (decide_True (P := COORDINATOR_COMPONENT = COORDINATOR_COMPONENT)) by done.
  cbn [length]. rewrite Hc, Hf; [done|eapply Forall_impl; [done|naive_solver]..].
Qed.

Lemma worker_component_names {PT : PolicyTypes} (w : Worker) c :
  worker_component w = Some c -> ci_component c <> COORDINATOR_COMPONENT /\ ci_component c <> FULFILLER_COMPONENT.
Proof.
  unfold worker_component. destruct (w_worker_type w); cbn; intros [= <-]; done.
Qed.
