(* ===== verification/ManifestProps.v ===== *)
(** * The build manifest and the capacity report: properties *)
From stdpp Require Import base gmap strings list.
From S2P Require Import Prelude Proto TaskChannel CoordState Coordinator DefaultPolicy Capacity Demo Manifest.
Local Open Scope string_scope.
Local Open Scope list_scope.
Local Open Scope Z_scope.

(** C33. What the coordinator pushes is what the network is told: a push that the
    API stored is reported by every fulfiller that reads it within five minutes,
    with the fulfiller's own build first, the coordinator's second, each worker
    build once whatever the number of nodes on it, and the capacity snapshot
    unchanged by that deduplication. *)
Theorem pushed_manifest_reported {E : ClusterEnv} {PT : PolicyTypes}
    (version git_sha image_tag : string) (c : Coordinator) (m : ClusterComponentManifest)
    (pushed now : Z) (identity : BuildIdentity) :
  pushed <> 0 -> now - pushed <= MAX_MANIFEST_AGE_SECS ->
  let stored := (push_manifest true (Some pushed) version git_sha image_tag c m).2 in
  let info := (get_cluster_info version git_sha image_tag c).1 in
  let coordinator := mkComponent COORDINATOR_COMPONENT version git_sha image_tag in
  exists workers,
    report_prover_info identity (get_cluster_component_info stored) now =
      Some (fulfiller_component identity :: coordinator :: workers, Some info.2) /\
    NoDup workers /\
    (forall build, build ∈ workers <-> build ∈ info.1 /\ build <> coordinator).
Proof.
  intros Hp Hage. cbn zeta. unfold push_manifest.
  destruct (get_cluster_info version git_sha image_tag c) as [[components capacity] c'] eqn:Hinfo.
  unfold get_cluster_info in Hinfo. destruct (unix_now c) as [observed c1]. injection Hinfo as <- <- <-. cbn [fst snd].
  set (coord := mkComponent COORDINATOR_COMPONENT version git_sha image_tag).
  set (ws := omap worker_component _).
  assert (Hws : Forall (fun x => ci_component x <> COORDINATOR_COMPONENT /\ ci_component x <> FULFILLER_COMPONENT) ws).
  { apply Forall_forall. intros x (w & _ & Hw)%list_elem_of_omap. by eapply worker_component_names. }
  exists (dedup_builds [coord] ws). destruct (dedup_builds_spec [coord] ws) as [Hnd Hin].
  split; [|split; [done|]].
  - unfold report_prover_info, get_cluster_component_info, fresh_manifest_components.
    cbn [set_cluster_component_info snd mf_updated_at mf_components mf_capacity].
    destruct (Z.eqb_spec pushed 0); [done|].
    destruct (Z.ltb_spec MAX_MANIFEST_AGE_SECS (Int.sat_sub now pushed)) as [Hl|_].
    { unfold Int.sat_sub, MAX_MANIFEST_AGE_SECS in *. lia. }
    rewrite (assemble_worker_builds identity coord ws eq_refl Hws). cbn [fmap option_fmap option_map].
    by rewrite capacity_from_cluster_id.
  - intros x. rewrite Hin, elem_of_cons. destruct (decide (x = coord)) as [->|]; set_solver.
Qed.

(** A report is never sent from a missing, stale or malformed manifest:
    whatever the API answers, a report that goes out has the API's components
    from at most five minutes ago, exactly one coordinator and one fulfiller
    build, and no duplicate among the cluster's builds. *)
Theorem report_only_when_sound (identity : BuildIdentity) (fetched : outcome ClusterComponentManifest) (now : Z)
    (components : list ComponentInfo) (capacity : option CapacitySnapshot) :
  report_prover_info identity fetched now = Some (components, capacity) ->
  exists m builds, fetched = Ok m /\ mf_updated_at m <> 0 /\ now - mf_updated_at m <= MAX_MANIFEST_AGE_SECS /\
    capacity = mf_capacity m /\
    components = fulfiller_component identity :: builds /\ NoDup builds /\
    (forall build, build ∈ builds <-> build ∈ mf_components m) /\
    count_component COORDINATOR_COMPONENT components = 1%nat /\
    count_component FULFILLER_COMPONENT components = 1%nat.
Proof.
  unfold report_prover_info. destruct fetched as [m| | |]; try done. unfold fresh_manifest_components.
  destruct (Z.eqb_spec (mf_updated_at m) 0) as [|Hu]; [done|].
  destruct (Z.ltb_spec MAX_MANIFEST_AGE_SECS (Int.sat_sub now (mf_updated_at m))) as [|Hage]; [done|].
  unfold assemble_components. destruct (Nat.ltb_spec 1 (count_component FULFILLER_COMPONENT
    (fulfiller_component identity :: dedup_builds [] (mf_components m)))) as [|Hf]; [done|].
  destruct (Nat.eqb_spec (count_component COORDINATOR_COMPONENT
    (fulfiller_component identity :: dedup_builds [] (mf_components m))) 1) as [Hc|]; [|done].
  cbn [negb]. intros [= <- <-]. exists m, (dedup_builds [] (mf_components m)).
  destruct (dedup_builds_spec [] (mf_components m)) as [Hnd Hin].
  split; [done|]. split; [done|]. split; [unfold Int.sat_sub in Hage; lia|]. split.
  { destruct (mf_capacity m); cbn; [|done]. by rewrite capacity_from_cluster_id. }
  split; [done|]. split; [done|]. split; [set_solver|]. split; [done|].
  unfold count_component in *. rewrite filter_cons_True in Hf |- * by done. cbn [length] in *. lia.
Qed.

#[local] Existing Instance demo_env.
#[local] Existing Instance Default.types.
#[local] Existing Instance Default.policy.

Definition demo_build : BuildIdentity := mkBuild "1" "sha" "tag".

Lemma pushed_manifest_reported_witness :
  exists workers,
    report_prover_info demo_build
      (get_cluster_component_info (push_manifest true (Some 1000) "2" "csha" "ctag" demo2 empty_manifest).2) 1200 =
      Some (fulfiller_component demo_build :: mkComponent COORDINATOR_COMPONENT "2" "csha" "ctag" :: workers,
            Some (get_cluster_info "2" "csha" "ctag" demo2).1.2) /\
    NoDup workers /\
    (forall build, build ∈ workers <->
       build ∈ (get_cluster_info "2" "csha" "ctag" demo2).1.1 /\
       build <> mkComponent COORDINATOR_COMPONENT "2" "csha" "ctag").
Proof.
  apply (pushed_manifest_reported "2" "csha" "ctag" demo2 empty_manifest 1000 1200 demo_build); done.
Defined.

Lemma report_only_when_sound_witness :
  exists m builds, Ok (mkManifest [mkComponent COORDINATOR_COMPONENT "2" "csha" "ctag"] 1000 None) = Ok m /\
    mf_updated_at m <> 0 /\ 1200 - mf_updated_at m <= MAX_MANIFEST_AGE_SECS /\ None = mf_capacity m /\
    [fulfiller_component demo_build; mkComponent COORDINATOR_COMPONENT "2" "csha" "ctag"] =
      fulfiller_component demo_build :: builds /\ NoDup builds /\
    (forall build, build ∈ builds <-> build ∈ mf_components m) /\
    count_component COORDINATOR_COMPONENT
      [fulfiller_component demo_build; mkComponent COORDINATOR_COMPONENT "2" "csha" "ctag"] = 1%nat /\
    count_component FULFILLER_COMPONENT
      [fulfiller_component demo_build; mkComponent COORDINATOR_COMPONENT "2" "csha" "ctag"] = 1%nat.
Proof.
  apply (report_only_when_sound demo_build
           (Ok (mkManifest [mkComponent COORDINATOR_COMPONENT "2" "csha" "ctag"] 1000 None)) 1200).
  vm_compute. reflexivity.
Defined.
