(* ===== verification/Fulfillment.v ===== *)
(** * The fulfiller

    [crates/fulfillment/src/lib.rs]: the loop that carries proof requests from the
    network to the cluster's table and their results back. The network it serves
    is the interface [FulfillmentNetwork] ([network.rs]), which Mainnet.v
    implements; the artifact store is the interface [ArtifactClient]. The table is
    the one of ApiStore.v, reached through the retrying client. Requests of one
    batch run concurrently: they are taken one after the other in the order
    [order] gives, which is any permutation. *)
From Stdlib Require Import Ascii.
From stdpp Require Import base gmap strings list pretty.
From S2P Require Import Prelude ApiStore.
Local Open Scope string_scope.
Local Open Scope list_scope.
Local Open Scope Z_scope.

Abbreviation bytes := (list Z).

Inductive ArtifactType := ProgramArtifact | StdinArtifact | PrivateStdinArtifact | ProofArtifact.

(** [CancelableKind]. *)
Inductive CancelableKind := Unexecutable | Unfulfillable | Fulfilled.
Definition should_fail_fulfillment (k : CancelableKind) : bool :=
  match k with Unexecutable => true | _ => false end.
Definition gated_on_in_flight (k : CancelableKind) : bool :=
  match k with Fulfilled => true | _ => false end.

(** [NetworkRequest]: the trait's getters. *)
Record NetworkRequest := mkNetworkRequest {
  n_request_id : string;
  n_program_uri : string;
  n_stdin_uri : string;
  n_deadline : Z;
  n_cycle_limit : Z;
  n_gas_limit : Z;
  n_requester : bytes;
  n_mode : Z;
  n_program_public_uri : string;
  n_stdin_public_uri : string;
  n_stdin_private : bool;
}.

(** [FulfillmentNetwork]. *)
Class FulfillmentNetwork := {
  Net : Type;
  net_submit_request : ProofRequest -> option bytes -> Net -> result unit * Net;
  net_fail_request : ProofRequest -> Net -> result unit * Net;
  net_fail_request_with_error : string -> option Z -> option bytes -> Net -> result unit * Net;
  net_cancel_request : string -> Net -> result unit * Net;
  net_schedulable : list bytes -> Z -> Z -> Net -> result (list NetworkRequest);
  net_cancelable : list bytes -> Z -> Z -> Net -> result (list (NetworkRequest * CancelableKind));
  net_download_artifact : string -> string -> ArtifactType -> Net -> result bytes;
  net_fetch_stdin_uri : NetworkRequest -> Net -> result string * Net;
  should_download_proofs : bool;
}.

(** [ArtifactClient] and [CompressedUpload]. *)
Class ArtifactClient := {
  Store : Type;
  store_download_raw : string -> ArtifactType -> Store -> result bytes;
  store_try_delete : string -> ArtifactType -> Store -> result unit * Store;
  store_exists : string -> ArtifactType -> Store -> result bool;
  store_upload_raw_compressed : string -> ArtifactType -> bytes -> Store -> result unit * Store;
  store_create_artifact : Store -> result string * Store;
}.

(** The serialisers, what became of each API call's attempts, and the order in
    which the requests of a batch get to run. *)
Class FulfillEnv := {
  attempts : nat -> Attempt * list Attempt;
  page_attempts : nat -> Z -> Attempt * list Attempt;
  order : forall {A}, nat -> list A -> list A;
  is_hex : string -> bool;
  debug_text : Error -> string;
  execution_failure_cause : string -> option Z;
  is_proving_failure : string -> bool;
  ExecutionFailure_i32 : Z;
  ProvingFailure_i32 : Z;
}.

Class FulfillEnvOk (F : FulfillEnv) : Prop := {
  order_perm : forall A n (l : list A), order n l ≡ₚ l;
}.

Module Fulfill.
Section fulfiller.
Context {AE : ApiEnv} {F : FulfillEnv} {N : FulfillmentNetwork} {A : ArtifactClient}.

(** [Fulfiller]: its configuration. [request_probability] is used as the two
    values derived from it, [= 1.0] and [(p * 100.0) as u64]. *)
Record Fulfiller := mkFulfiller {
  addresses : option (list bytes);
  copy_artifacts : bool;
  disable_fulfillment : bool;
  process_all : bool;
  process_percent : Z;
  name : option string;
}.

Record World := mkWorld {
  w_db : Db;
  w_net : Net;
  w_store : Store;
  w_calls : nat;
}.

(** Computations on the world. *)
Definition M (T : Type) : Type := World -> result T * World.
Definition ret {T} (x : T) : M T := fun w => (inr x, w).
Definition throw {T} (e : Error) : M T := fun w => (inl e, w).
Definition bindM {T U} (m : M T) (k : T -> M U) : M U :=
  fun w => match m w with (inr x, w) => k x w | (inl e, w) => (inl e, w) end.
Definition on_net {T} (f : Net -> result T * Net) : M T :=
  fun w => let (r, n) := f (w_net w) in (r, mkWorld (w_db w) n (w_store w) (w_calls w)).
Definition on_store {T} (f : Store -> result T * Store) : M T :=
  fun w => let (r, s) := f (w_store w) in (r, mkWorld (w_db w) (w_net w) s (w_calls w)).
Definition read_net {T} (f : Net -> result T) : M T := fun w => (f (w_net w), w).
Definition read_store {T} (f : Store -> result T) : M T := fun w => (f (w_store w), w).
End fulfiller.

Declare Scope fulfill_scope.
Notation "'let*' x := m 'in' k" := (bindM m (fun x => k))
  (at level 10, x name, m at level 100, k at level 200) : fulfill_scope.
Notation "m ;;; k" := (bindM m (fun _ => k)) (at level 100, right associativity) : fulfill_scope.
Local Open Scope fulfill_scope.

Section operations.
Context {AE : ApiEnv} {F : FulfillEnv} {N : FulfillmentNetwork} {A : ArtifactClient}.

(** One call of the cluster client with its retries. *)
Definition api_call {T} (call : Fault -> Db -> outcome T * Db) : M T := fun w =>
  let '(a, more) := attempts (w_calls w) in
  let (o, db) := retry_call a more call (w_db w) in
  (match o with Ok x => inr x | Err e => inl (Rpc e) | _ => inl (Msg "panicked") end,
   mkWorld db (w_net w) (w_store w) (S (w_calls w))).

(** [map_err(|e| anyhow!(..))]: the status is folded into a message. *)
Definition context {T} (msg : string) (m : M T) : M T := fun w =>
  match m w with (inl _, w) => (inl (Msg msg), w) | r => r end.

Definition update_proof_request (req : ProofRequestUpdateRequest) : M unit :=
  api_call (fun f db => proof_request_update f req db).
Definition cancel_proof_request (id : string) : M unit :=
  api_call (fun f db => proof_request_cancel f id db).
Definition create_proof_request (now : Z) (req : ProofRequestCreateRequest) : M unit :=
  api_call (fun f db => proof_request_create f now req db).

(** [get_all_proof_requests]: every page is a call of its own. *)
Definition list_proof_requests (req : ProofRequestListRequest) : M (list ProofRequest) := fun w =>
  let page r :=
    let '(a, more) := page_attempts (w_calls w) (default 0 (ls_offset r)) in
    (retry_call a more (fun f db => (proof_request_list f r db, db)) (w_db w)).1 in
  (match get_all_proof_requests page req with
   | Ok rows => inr rows
   | Err e => inl (Rpc e)
   | _ => inl (Msg "panicked")
   end, mkWorld (w_db w) (w_net w) (w_store w) (S (w_calls w))).

(** A batch: every request is handled whatever becomes of the others. *)
Definition for_each {T} (f : T -> M unit) (l : list T) : M unit := fun w =>
  (inr tt, foldl (fun w x => (f x w).2) w (order (w_calls w) l)).

(** ** Submitting results *)
Definition handled_update (id : string) : ProofRequestUpdateRequest :=
  mkUpdateRequest id None (Some true) None None None None.

Definition mark_handled (id : string) : M unit :=
  context "failed to update proof request status" (update_proof_request (handled_update id)).

(** [submit_request]. *)
Definition submit_request (fu : Fulfiller) (q : ProofRequest) : M unit :=
  let* proof_bytes :=
    match q_proof_artifact_id q with
    | Some id =>
        if should_download_proofs
        then let* b := read_store (store_download_raw id ProofArtifact) in ret (Some b)
        else ret None
    | None => ret None
    end in
  if negb (is_hex (q_id q)) then mark_handled (q_id q)
  else
    (if disable_fulfillment fu then ret tt else on_net (net_submit_request q proof_bytes)) ;;;
    mark_handled (q_id q) ;;;
    match q_proof_artifact_id q with
    | Some id => on_store (store_try_delete id ProofArtifact)
    | None => ret tt
    end.

Definition VK_MISMATCH_STRINGS : list string :=
  ["InvalidPowWitness"; "sp1 vk hash mismatch"; "vk hash from syscall does not match vkey from input"].
Definition VK_MISMATCH_ERROR : Z := 2.

(** The work [submit_requests] spawns for one request. *)
Definition submit_work (fu : Fulfiller) (q : ProofRequest) : M unit := fun w =>
  match submit_request fu q w with
  | (inr _, w) => (inr tt, w)
  | (inl e, w) =>
      if existsb (fun s => contains s (debug_text e)) VK_MISMATCH_STRINGS
      then (inr tt, (on_net (net_fail_request_with_error (q_id q) (Some VK_MISMATCH_ERROR) None) w).2)
      else (inr tt, w)
  end.

(** The listings: rows of status [st], unhandled, in time, and, for a named
    fulfiller, scheduled by it. *)
Definition own_filter (fu : Fulfiller) (now : Z) (st : ProofRequestStatus) : ProofRequestListRequest :=
  mkListRequest [status_i32 st] [] (Some now) (Some false) (name fu) None None.

(** [submit_requests]. *)
Definition submit_requests (fu : Fulfiller) (now : Z) : M unit :=
  let* requests := context "failed to get requests" (list_proof_requests (own_filter fu now PrCompleted)) in
  for_each (submit_work fu) requests.

(** ** Failing requests *)

(** [request_error_from_extra_data]. *)
Definition request_error_from_extra_data (extra_data : option string) : option Z :=
  match extra_data with
  | None => None
  | Some s =>
      let proving := if is_proving_failure s then Some ProvingFailure_i32 else None in
      match execution_failure_cause s with
      | Some cause => if negb (cause =? 0) then Some ExecutionFailure_i32 else proving
      | None => proving
      end
  end.

(** [fail_request] and [fail_requests]. *)
Definition fail_request (fu : Fulfiller) (q : ProofRequest) : M unit :=
  (if disable_fulfillment fu then ret tt else on_net (net_fail_request q)) ;;;
  mark_handled (q_id q).

Definition fail_requests (fu : Fulfiller) (now : Z) : M unit :=
  let* requests := context "failed to get requests" (list_proof_requests (own_filter fu now PrFailed)) in
  for_each (fail_request fu) requests.

(** ** Cancelling *)
Definition fulfiller_addresses (fu : Fulfiller) (prover : bytes) : list bytes := default [prover] (addresses fu).

Definition FETCH_LIMIT : Z := 1000.

Definition cancel_on_network (fu : Fulfiller) (id : string) : M unit :=
  if disable_fulfillment fu then ret tt else on_net (net_cancel_request id).
Definition cancel_on_cluster (id : string) : M unit :=
  context "failed to update proof request status" (cancel_proof_request id).

Definition cancel_work (fu : Fulfiller) (rk : NetworkRequest * CancelableKind) : M unit :=
  let id := n_request_id rk.1 in
  (if should_fail_fulfillment rk.2 then cancel_on_network fu id else ret tt) ;;;
  cancel_on_cluster id.

Definition in_flight_filter (now : Z) : ProofRequestListRequest :=
  mkListRequest [status_i32 PrPending] [] (Some now) None None None None.

(** [cancel_requests]. *)
Definition cancel_requests (fu : Fulfiller) (prover : bytes) (now : Z) : M unit :=
  let* requests := read_net (net_cancelable (fulfiller_addresses fu prover) now FETCH_LIMIT) in
  let* in_flight :=
    if existsb (fun rk => gated_on_in_flight rk.2) requests
    then let* rows := context "failed to get requests" (list_proof_requests (in_flight_filter now)) in
         ret (list_to_set (q_id <$> rows) : gset string)
    else ret ∅ in
  for_each (cancel_work fu)
    (filter (fun rk => ~ (gated_on_in_flight rk.2 = true /\ n_request_id rk.1 ∉ in_flight)) requests).

(** ** Scheduling *)

(** [extract_artifact_name]: what follows the last slash. *)
Fixpoint after_last_slash (acc s : string) : string :=
  match s with
  | EmptyString => acc
  | String c s => if Ascii.eqb c "/" then after_last_slash "" s
                  else after_last_slash (acc +:+ String c EmptyString) s
  end.
Definition extract_artifact_name (url : string) : result string := inr (after_last_slash "" url).

(** [copy_artifact]. *)
Definition copy_artifact (id uri : string) (ty : ArtifactType) : M unit :=
  let* present := read_store (store_exists id ty) in
  if negb present
  then let* b := read_net (net_download_artifact id uri ty) in
       on_store (store_upload_raw_compressed id ty b)
  else ret tt.

Inductive ScheduleOutcome := Created | AlreadyInCluster.

Definition lift {T} (r : result T) : M T := fun w => (r, w).

(** [schedule_request]; [now] is the row's creation time. *)
Definition schedule_request (fu : Fulfiller) (now : Z) (r : NetworkRequest) : M ScheduleOutcome :=
  let* program_artifact_id := lift (extract_artifact_name (n_program_uri r)) in
  let* stdin_artifact_id := lift (extract_artifact_name (n_stdin_uri r)) in
  let* proof_artifact_id := on_store store_create_artifact in
  (if copy_artifacts fu
   then
     copy_artifact program_artifact_id (n_program_public_uri r) ProgramArtifact ;;;
     let* stdin_fetch_uri := on_net (net_fetch_stdin_uri r) in
     copy_artifact stdin_artifact_id stdin_fetch_uri
       (if n_stdin_private r then PrivateStdinArtifact else StdinArtifact)
   else ret tt) ;;;
  (fun w =>
     match create_proof_request now
             (mkCreateRequest (n_request_id r) (n_requester r) stdin_artifact_id program_artifact_id
                (Some (pretty (n_mode r))) (Some proof_artifact_id) (n_cycle_limit r) (n_deadline r)
                (n_gas_limit r) (name fu) (n_stdin_private r)) w with
     | (inr _, w) => (inr Created, w)
     | (inl (Rpc s), w) =>
         if decide (code s = AlreadyExists) then (inr AlreadyInCluster, w)
         else (inl (Msg "failed to create proof request"), w)
     | (inl (Msg _), w) => (inl (Msg "failed to create proof request"), w)
     end).

(** The sampling of [schedule_given_requests]: a byte sum modulo 100. *)
Fixpoint byte_sum (acc : Z) (s : string) : Z :=
  match s with
  | EmptyString => acc
  | String c s => byte_sum (Int.wadd u64 acc (Z.of_N (Ascii.N_of_ascii c))) s
  end.

Definition should_process (fu : Fulfiller) (cluster_requests : gset string) (r : NetworkRequest) : bool :=
  if decide (n_request_id r ∈ cluster_requests) then false
  else process_all fu || (byte_sum 0 (n_request_id r) mod 100 <? process_percent fu).

(** [schedule_given_requests]: the counts of requests seen and scheduled. *)
Definition schedule_given_requests (fu : Fulfiller) (now : Z) (address : bytes) (cluster_requests : gset string)
  : M (nat * nat) :=
  let* network_requests := read_net (net_schedulable [address] now FETCH_LIMIT) in
  let requests := filter (fun r => should_process fu cluster_requests r = true) (rev network_requests) in
  for_each (fun r => let* _o := schedule_request fu now r in ret tt) requests ;;;
  ret (length network_requests, length requests).

Definition cluster_filter (now : Z) : ProofRequestListRequest :=
  mkListRequest [] [] (Some now) None None None None.

(** The batches of [schedule_requests], one per address, in the order they end:
    the first error drops the task set, and with it the batches that have not
    started their work. *)
Fixpoint schedule_batches (fu : Fulfiller) (now : Z) (seen : gset string) (l : list bytes) : M (nat * nat) :=
  match l with
  | [] => ret (0, 0)%nat
  | address :: l =>
      let* counts := schedule_given_requests fu now address seen in
      let* rest := schedule_batches fu now seen l in
      ret (counts.1 + rest.1, counts.2 + rest.2)%nat
  end.

(** [schedule_requests]. *)
Definition schedule_requests (fu : Fulfiller) (prover : bytes) (now : Z) : M unit :=
  let* rows := context "failed to get requests" (list_proof_requests (cluster_filter now)) in
  let seen : gset string := list_to_set (q_id <$> rows) in
  let* _totals := (fun w => schedule_batches fu now seen (order (w_calls w) (fulfiller_addresses fu prover)) w) in
  ret tt.

(** One turn of [run]'s loop: the four steps, each with its own reading of the
    clock and its errors logged. *)
Definition turn (fu : Fulfiller) (prover : bytes) (now : nat -> Z) (w : World) : World :=
  let w := (submit_requests fu (now 0%nat) w).2 in
  let w := (fail_requests fu (now 1%nat) w).2 in
  let w := (cancel_requests fu prover (now 2%nat) w).2 in
  (schedule_requests fu prover (now 3%nat) w).2.
End operations.

(** ** Lemmas *)
Section facts.
Context {AE : ApiEnv} {AEO : ApiEnvOk AE} {F : FulfillEnv} {FO : FulfillEnvOk F} {N : FulfillmentNetwork} {A : ArtifactClient}.

(** What every attempt preserves, the retried call preserves. *)
Lemma retry_call_rel (R : relation Db) `{!PreOrder R} {T} a more (call : Fault -> Db -> outcome T * Db) db :
  (forall f db, R db (call f db).2) -> R db (retry_call a more call db).2.
Proof.
  intros Hcall. assert (Hatt : forall a db, R db (with_timeout a call db).2).
  { intros [f|e|[f|]] d; cbn; [apply Hcall|done|apply Hcall|done]. }
  revert a db. induction more as [|a' more IH]; intros a db; cbn [retry_call];
    specialize (Hatt a db); destruct (with_timeout a call db) as [[] d]; try done.
  destruct (is_transient _); [|done]. etrans; [exact Hatt|apply IH].
Qed.

(** A retried read returns what some read of the table returned. *)
Lemma retry_read {T} a more (call : Fault -> Db -> outcome T) db x :
  (retry_call a more (fun f db => (call f db, db)) db).1 = Ok x -> exists f, call f db = Ok x.
Proof.
  assert (Hatt : forall a, (with_timeout a (fun f db => (call f db, db)) db).2 = db).
  { by intros [f|e|[f|]]. }
  revert a. induction more as [|a' more IH]; intros a; cbn [retry_call].
  - intros H. destruct a as [f|e|[f|]]; cbn in H; try done; [|by exists f..].
    destruct (call f db) eqn:Hc; cbn in H; simplify_eq. eauto.
  - specialize (Hatt a). destruct (with_timeout a _ db) as [o d] eqn:Ha. cbn in Hatt. subst d.
    destruct o as [y|e| |]; cbn; try done.
    + intros [= ->]. destruct a as [f|e|[f|]]; cbn in Ha; simplify_eq. eauto.
    + destruct (is_transient (code e)); [apply IH|done].
Qed.

(** Tables that differ in the row of [id] at most. *)
Definition only_row (id : string) : relation Db := fun db db' => forall k, k <> id -> db' !! k = db !! k.
#[export] Instance only_row_preorder id : PreOrder (only_row id).
Proof. split; [by intros db k|]. intros a b c H1 H2 k Hk. rewrite H2 by done. auto. Qed.

Lemma update_where_only id g f db : only_row id db (update_where id g f db).2.
Proof. intros k Hk. unfold update_where. repeat case_match; try done. cbn. by rewrite lookup_insert_ne. Qed.

Lemma execute_only {T} id fault (stmt : Db -> T * Db) db :
  only_row id db (stmt db).2 -> only_row id db (execute fault stmt db).2.
Proof. by destruct fault. Qed.

Lemma update_only f req db : only_row (up_proof_id req) db (proof_request_update f req db).2.
Proof.
  unfold proof_request_update. destruct (decide _); [done|].
  pose proof (execute_only (up_proof_id req) f
    (update_where (up_proof_id req) (fun r => if guard_pending req then is_pending r else true) (apply_update req)) db
    (update_where_only _ _ _ _)) as H.
  destruct (execute _ _ _) as [[[]|] ?]; [destruct (guard_pending req)| |]; exact H.
Qed.

Lemma api_call_world {T} (call : Fault -> Db -> outcome T * Db) w :
  w_net (api_call call w).2 = w_net w /\ w_store (api_call call w).2 = w_store w /\
  exists a more, w_db (api_call call w).2 = (retry_call a more call (w_db w)).2.
Proof.
  unfold api_call. destruct (attempts (w_calls w)) as [a more].
  destruct (retry_call a more call (w_db w)) as [o db] eqn:Hr. cbn. repeat split; try done. exists a, more. by rewrite Hr.
Qed.

Lemma context_world {T} msg (m : M T) w : (context msg m w).2 = (m w).2.
Proof. unfold context. by destruct (m w) as [[] ?]. Qed.

Lemma mark_handled_world id w :
  w_net (mark_handled id w).2 = w_net w /\ only_row id (w_db w) (w_db (mark_handled id w).2).
Proof.
  unfold mark_handled. rewrite context_world. unfold update_proof_request.
  destruct (api_call_world (fun f db => proof_request_update f (handled_update id) db) w) as (Hn & _ & a & more & Hdb).
  split; [done|]. rewrite Hdb. apply retry_call_rel; [apply _|]. intros f db. apply (update_only f (handled_update id)).
Qed.

Lemma for_each_rel (R : relation World) `{!PreOrder R} {T} (f : T -> M unit) l w :
  (forall x w, x ∈ l -> R w (f x w).2) -> R w (for_each f l w).2.
Proof.
  intros Hf. unfold for_each. cbn.
  assert (Hin : forall x w, x ∈ order (w_calls w) l -> x ∈ l) by (intros x w'; by rewrite order_perm).
  assert (Hall : forall ys w, (forall x, x ∈ ys -> x ∈ l) -> R w (foldl (fun w x => (f x w).2) w ys)); [|eauto].
  intros ys. induction ys as [|y ys IH]; intros w0 Hys; [done|]. cbn.
  etrans; [apply Hf, Hys; left|]. apply IH. intros x Hx. apply Hys. by right.
Qed.

(** A listed request is the conversion of a row that matches the filter. *)
Definition listed (req : ProofRequestListRequest) (db : Db) (q : ProofRequest) : Prop :=
  exists r id, db !! id = Some r /\ list_match req r = true /\ into_proto r = Ok q.

Lemma list_page_listed f req offset db page :
  proof_request_list f (page_request req offset) db = Ok page -> Forall (listed req db) page.
Proof.
  unfold proof_request_list. destruct f; cbn; try done. intros Hc.
  assert (Hin : Forall (fun r => r ∈ matching_rows (page_request req offset) db) (list_page (page_request req offset) db)).
  { apply Forall_take, Forall_drop, Forall_forall. done. }
  revert page Hc. induction Hin as [|r rows Hr _ IH]; intros page Hc; cbn in Hc; [by simplify_eq|].
  destruct (into_proto r) as [q| | |] eqn:Hq; try done.
  destruct (collect into_proto rows) as [qs| | |]; try done. simplify_eq. constructor; [|by apply IH].
  apply elem_of_matching_rows in Hr as [Hm [id Hid]]. by exists r, id.
Qed.

Lemma drain_from_Forall {T} (P : T -> Prop) size fetch k pages all l :
  (forall off page, fetch off = Ok page -> Forall P page) -> Forall P all ->
  drain_from size fetch k pages all = Ok l -> Forall P l.
Proof.
  intros Hf. revert k all. induction pages as [|pages IH]; intros k all Hall; cbn [drain_from]; [by intros [= <-]|].
  destruct (fetch _) as [page| | |] eqn:Hp; try done. apply Hf in Hp as Hpage.
  case_match; [apply IH|intros [= <-]]; by apply Forall_app.
Qed.

Lemma list_proof_requests_spec req w :
  w_db (list_proof_requests req w).2 = w_db w /\ w_net (list_proof_requests req w).2 = w_net w /\
  (forall qs, (list_proof_requests req w).1 = inr qs -> Forall (listed req (w_db w)) qs).
Proof.
  split; [done|]. split; [done|]. intros qs. unfold list_proof_requests. cbn.
  destruct (get_all_proof_requests _ req) as [rows| | |] eqn:Hg; try done. intros [= <-].
  unfold get_all_proof_requests, drain_pages in Hg.
  destruct (drain_from _ _ _ _ _) as [all| | |] eqn:Hd; try done. injection Hg as <-.
  eapply drain_from_Forall in Hd; [|clear Hd|constructor].
  - rewrite Forall_forall in Hd |- *. intros q Hq. apply Hd.
    by destruct (dedup_from_ids ∅ all) as [_ [_ ?]%(fun H => H q Hq)].
  - intros off page. cbn beta. destruct (page_attempts _ _) as [a more]. intros [f Hf]%retry_read.
    by eapply list_page_listed.
Qed.

(** ** Rows a batch may touch *)
Definition rows_kept (P : string -> Prop) : relation World := fun w w' =>
  forall id, P id -> w_db w' !! id = w_db w !! id.
#[export] Instance rows_kept_preorder P : PreOrder (rows_kept P).
Proof. split; [by intros w id|]. intros a b c H1 H2 id Hid. rewrite H2 by done. auto. Qed.

Lemma on_net_db {T} (f : Net -> result T * Net) w : w_db (on_net f w).2 = w_db w.
Proof. unfold on_net. by destruct (f (w_net w)). Qed.
Lemma on_store_db {T} (f : Store -> result T * Store) w : w_db (on_store f w).2 = w_db w.
Proof. unfold on_store. by destruct (f (w_store w)). Qed.

Lemma bindM_rel (R : relation World) `{!PreOrder R} {T U} (m : M T) (k : T -> M U) w :
  R w (m w).2 -> (forall x w, R w (k x w).2) -> R w (bindM m k w).2.
Proof. intros Hm Hk. unfold bindM. destruct (m w) as [[e|x] w1]; [done|]. etrans; [exact Hm|apply Hk]. Qed.

Lemma mark_handled_kept (P : string -> Prop) id w : ~ P id -> rows_kept P w (mark_handled id w).2.
Proof. intros Hid k Hk. destruct (mark_handled_world id w) as [_ Ho]. apply Ho. by intros ->. Qed.

Lemma same_db_kept P w w' : w_db w' = w_db w -> rows_kept P w w'.
Proof. intros H id _. by rewrite H. Qed.

Lemma submit_request_kept P fu q w : ~ P (q_id q) -> rows_kept P w (submit_request fu q w).2.
Proof.
  intros Hq. unfold submit_request. apply bindM_rel; [apply _| |].
  - repeat case_match; try done. apply bindM_rel; [apply _|done|done].
  - intros b w1. case_match; [by apply mark_handled_kept|]. apply bindM_rel; [apply _| |].
    + case_match; [done|]. apply same_db_kept, on_net_db.
    + intros _ w2. apply bindM_rel; [apply _|by apply mark_handled_kept|].
      intros _ w3. case_match; [|done]. apply same_db_kept, on_store_db.
Qed.

Lemma submit_work_kept P fu q w : ~ P (q_id q) -> rows_kept P w (submit_work fu q w).2.
Proof.
  intros Hq. pose proof (submit_request_kept P fu q w Hq) as H. unfold submit_work.
  destruct (submit_request fu q w) as [[e|[]] w1]; [|done]. case_match; [|done].
  intros id Hid. unfold snd at 1. rewrite on_net_db. by apply H.
Qed.

Lemma fail_request_kept P fu q w : ~ P (q_id q) -> rows_kept P w (fail_request fu q w).2.
Proof.
  intros Hq. unfold fail_request. apply bindM_rel; [apply _| |intros _ w1; by apply mark_handled_kept].
  case_match; [done|]. apply same_db_kept, on_net_db.
Qed.

(** A batch over a listing only touches the rows that were listed. *)
Lemma batch_kept (P : string -> Prop) req (f : ProofRequest -> M unit) w :
  (forall q, listed req (w_db w) q -> ~ P (q_id q)) ->
  (forall q w, ~ P (q_id q) -> rows_kept P w (f q w).2) ->
  rows_kept P w (bindM (context "failed to get requests" (list_proof_requests req)) (for_each f) w).2.
Proof.
  intros Hp Hf. destruct (list_proof_requests_spec req w) as (Hdb & _ & Hl). unfold bindM, context.
  destruct (list_proof_requests req w) as [[e|qs] w1]; cbn in Hdb; [by apply same_db_kept|].
  specialize (Hl qs eq_refl). rewrite Forall_forall in Hl. etrans; [by apply same_db_kept|].
  apply for_each_rel; [apply _|]. intros q w2 Hq. apply Hf, Hp. auto.
Qed.

Lemma listed_own fu now st db q s :
  db_wf db -> name fu = Some s -> listed (own_filter fu now st) db q ->
  exists r, db !! q_id q = Some r /\ r_scheduled_by r = Some s.
Proof.
  intros Hwf Hname (r & id & Hr & Hm & Hq). destruct (Hwf id r Hr) as [Hid _].
  exists r. rewrite (into_proto_id r q Hq), Hid. split; [done|].
  unfold list_match, own_filter in Hm. cbn [ls_scheduled_by] in Hm. rewrite Hname in Hm.
  apply andb_prop in Hm as [_ Hm]. by apply bool_decide_eq_true in Hm.
Qed.
End facts.
End Fulfill.
