(* ===== verification/Mainnet.v ===== *)
(** * The mainnet network

    [bin/fulfiller/src/mainnet.rs]: the implementation of the fulfiller's
    [FulfillmentNetwork] by calls of the prover network's RPC service, which is
    the interface [Ledger]; and the [nonce_lock] under which the fulfiller makes
    its signed submissions ([crates/fulfillment/src/lib.rs]). *)
From stdpp Require Import base gmap strings list relations.
From S2P Require Import Prelude ApiStore Fulfillment.
Local Open Scope string_scope.
Local Open Scope list_scope.
Local Open Scope Z_scope.

(** The network's [ProofRequest], as far as the fulfiller reads it. *)
Record NetworkProofRequest := mkNetProof {
  np_request_id : bytes;
  np_program_uri : string;
  np_stdin_uri : string;
  np_deadline : Z;
  np_cycle_limit : Z;
  np_gas_limit : Z;
  np_requester : bytes;
  np_mode : Z;
  np_program_public_uri : string;
  np_stdin_public_uri : string;
  np_stdin_private : bool;
}.

(** The filters of [get_filtered_proof_requests] the fulfiller uses: assigned,
    assigned and unexecutable, unfulfillable; for one address. *)
Inductive QueryKind := Assigned | AssignedUnexecutable | UnfulfillableAny.
Record Query := mkQuery { qr_kind : QueryKind; qr_fulfiller : bytes; qr_minimum_deadline : Z; qr_limit : Z }.

(** The RPC service and the crates around it. *)
Class Ledger := {
  Chain : Type;
  get_nonce : Chain -> result Z;
  sign_message : Chain -> result unit;
  fulfill_proof : Z -> bytes -> bytes -> Chain -> option Status * Chain;
  fail_fulfillment : Z -> bytes -> option Z -> option bytes -> Chain -> option Status * Chain;
  get_filtered_proof_requests : Query -> Chain -> result (list NetworkProofRequest);
  get_stdin_uri : Z -> bytes -> Chain -> result string * Chain;
  error_trace_of : ProofRequest -> option bytes;
  download_from_uri : string -> string -> ArtifactType -> Chain -> result bytes;
  hex_encode : bytes -> string;
  hex_decode : string -> option bytes;
}.

Module Mainnet.
Section network.
Context {L : Ledger} {F : FulfillEnv}.

Definition decode_id (id : string) : result bytes :=
  match hex_decode id with Some b => inr b | None => inl (Msg "failed to decode request_id") end.

(** [NetworkRequest for NetworkProofRequest]. *)
Definition network_request (p : NetworkProofRequest) : NetworkRequest :=
  mkNetworkRequest (hex_encode (np_request_id p)) (np_program_uri p) (np_stdin_uri p) (np_deadline p)
    (np_cycle_limit p) (np_gas_limit p) (np_requester p) (np_mode p) (np_program_public_uri p)
    (np_stdin_public_uri p) (np_stdin_private p).

(** [submit_request]. *)
Definition submit_request (q : ProofRequest) (proof_bytes : option bytes) (c : Chain) : result unit * Chain :=
  match get_nonce c with
  | inl e => (inl e, c)
  | inr nonce =>
      match decode_id (q_id q) with
      | inl e => (inl e, c)
      | inr id =>
          match proof_bytes with
          | None => (inl (Msg "no proof bytes"), c)
          | Some proof =>
              match sign_message c with
              | inl e => (inl e, c)
              | inr _ =>
                  match fulfill_proof nonce id proof c with
                  | (None, c) => (inr tt, c)
                  | (Some s, c) => (inl (Rpc s), c)
                  end
              end
          end
      end
  end.

(** The rejections of [fail_fulfillment] that leave nothing to do. *)
Definition fail_rejected (c : Code) : bool :=
  match c with PermissionDenied | FailedPrecondition | NotFound | InvalidArgument => true | _ => false end.

(** [fail_request_with_error], [fail_request] and [cancel_request]. *)
Definition fail_request_with_error (id : string) (error : option Z) (trace : option bytes) (c : Chain)
  : result unit * Chain :=
  match get_nonce c with
  | inl e => (inl e, c)
  | inr nonce =>
      match decode_id id with
      | inl e => (inl e, c)
      | inr rid =>
          match sign_message c with
          | inl e => (inl e, c)
          | inr _ =>
              match fail_fulfillment nonce rid error trace c with
              | (None, c) => (inr tt, c)
              | (Some s, c) => if fail_rejected (code s) then (inr tt, c) else (inl (Rpc s), c)
              end
          end
      end
  end.

Definition fail_request (q : ProofRequest) (c : Chain) : result unit * Chain :=
  fail_request_with_error (q_id q) (Fulfill.request_error_from_extra_data (q_extra_data q)) (error_trace_of q) c.

Definition cancel_request (id : string) (c : Chain) : result unit * Chain :=
  fail_request_with_error id None None c.

(** The answers of several queries, or the first error among them. *)
Fixpoint first_error {T} (rs : list (result T)) : result (list T) :=
  match rs with
  | [] => inr []
  | inl e :: _ => inl e
  | inr x :: rs => match first_error rs with inl e => inl e | inr xs => inr (x :: xs) end
  end.

(** [get_schedulable_requests]. *)
Definition get_schedulable_requests (addresses : list bytes) (minimum_deadline limit : Z) (c : Chain)
  : result (list NetworkRequest) :=
  match first_error ((fun a => get_filtered_proof_requests (mkQuery Assigned a minimum_deadline limit) c) <$> addresses) with
  | inl e => inl e
  | inr pages => inr (network_request <$> concat pages)
  end.

(** The dedup of [get_cancelable_requests]: the first query that lists a request
    decides its kind. *)
Fixpoint dedup_kinds (seen : gset bytes) (l : list (NetworkProofRequest * CancelableKind))
  : list (NetworkRequest * CancelableKind) :=
  match l with
  | [] => []
  | (p, k) :: l =>
      if decide (np_request_id p ∈ seen) then dedup_kinds seen l
      else (network_request p, k) :: dedup_kinds ({[np_request_id p]} ∪ seen) l
  end.

(** [get_cancelable_requests]. *)
Definition cancel_queries (address : bytes) (minimum_deadline limit : Z) : list (Query * CancelableKind) :=
  [(mkQuery AssignedUnexecutable address minimum_deadline limit, Unexecutable);
   (mkQuery UnfulfillableAny address minimum_deadline limit, Unfulfillable)].

Definition get_cancelable_requests (addresses : list bytes) (minimum_deadline limit : Z) (c : Chain)
  : result (list (NetworkRequest * CancelableKind)) :=
  let queries := a ← addresses; cancel_queries a minimum_deadline limit in
  match first_error ((fun qk => match get_filtered_proof_requests qk.1 c with
                                | inl e => inl e
                                | inr ps => inr ((., qk.2) <$> ps)
                                end) <$> queries) with
  | inl e => inl e
  | inr pages => inr (dedup_kinds ∅ (concat pages))
  end.

(** [fetch_stdin_uri]. *)
Definition fetch_stdin_uri (r : NetworkRequest) (c : Chain) : result string * Chain :=
  if negb (n_stdin_private r) then (inr (n_stdin_public_uri r), c)
  else
    match get_nonce c with
    | inl e => (inl e, c)
    | inr nonce =>
        match decode_id (n_request_id r) with
        | inl e => (inl e, c)
        | inr id =>
            match sign_message c with
            | inl e => (inl e, c)
            | inr _ => get_stdin_uri nonce id c
            end
        end
    end.

(** [FulfillmentNetwork for MainnetFulfiller]. *)
Definition network : FulfillmentNetwork := {|
  Net := Chain;
  net_submit_request := submit_request;
  net_fail_request := fail_request;
  net_fail_request_with_error := fail_request_with_error;
  net_cancel_request := cancel_request;
  net_schedulable := get_schedulable_requests;
  net_cancelable := get_cancelable_requests;
  net_download_artifact := download_from_uri;
  net_fetch_stdin_uri := fetch_stdin_uri;
  should_download_proofs := true;
|}.
End network.

(** ** The nonce lock

    The fulfiller's signed submissions run as separate tasks: each takes the
    lock, reads the signer's nonce, signs, and submits, and lets the lock go. The
    ledger takes a submission whose nonce is the account's and moves on to the
    next, and refuses any other. *)
Inductive Phase := Waiting | Locked | Signed (nonce : Z) | Done (accepted : bool).

Record Submissions := mkSubmissions { account_nonce : Z; lock_free : bool; tasks : list Phase }.

Inductive nonce_step : Submissions -> Submissions -> Prop :=
  | lock_taken n ts i :
      ts !! i = Some Waiting -> nonce_step (mkSubmissions n true ts) (mkSubmissions n false (<[i := Locked]> ts))
  | nonce_read n l ts i :
      ts !! i = Some Locked -> nonce_step (mkSubmissions n l ts) (mkSubmissions n l (<[i := Signed n]> ts))
  | submitted n l ts i m :
      ts !! i = Some (Signed m) ->
      nonce_step (mkSubmissions n l ts)
        (mkSubmissions (if m =? n then n + 1 else n) true (<[i := Done (m =? n)]> ts)).

(** The lock's invariant: whoever is past it holds it alone, and a signed nonce
    is the account's. *)
Definition past_lock (p : Phase) : bool := match p with Locked | Signed _ => true | _ => false end.

Record nonce_inv (s : Submissions) : Prop := {
  ni_holder : forall i p, tasks s !! i = Some p -> past_lock p = true -> lock_free s = false;
  ni_alone : forall i j p q, tasks s !! i = Some p -> tasks s !! j = Some q ->
    past_lock p = true -> past_lock q = true -> i = j;
  ni_nonce : forall i m, tasks s !! i = Some (Signed m) -> m = account_nonce s;
  ni_done : forall i b, tasks s !! i = Some (Done b) -> b = true;
}.

Lemma insert_lookup_cases {A} (l : list A) i j x y :
  <[i := x]> l !! j = Some y -> (i = j /\ y = x) \/ (i <> j /\ l !! j = Some y).
Proof. rewrite list_lookup_insert_Some. naive_solver. Qed.

Lemma nonce_step_inv s s' : nonce_inv s -> nonce_step s s' -> nonce_inv s'.
Proof.
  intros [Hh Ha Hn Hd] Hs. destruct Hs as [n ts i Hi|n l ts i Hi|n l ts i m Hi]; cbn in *.
  - assert (Hno : forall j p, ts !! j = Some p -> past_lock p = true -> False) by (intros j p ? ?; by eapply Hh in H).
    constructor; cbn.
    + done.
    + intros j k p q [[<- ->]|[_ Hj]]%insert_lookup_cases [[<- ->]|[_ Hk]]%insert_lookup_cases ? ?; [done|exfalso; eauto..].
    + intros j m [[_ ?]|[_ Hj]]%insert_lookup_cases; [done|]. exfalso. eauto.
    + intros j b [[_ ?]|[_ Hj]]%insert_lookup_cases; [done|eauto].
  - assert (Hme : forall j p, ts !! j = Some p -> past_lock p = true -> j = i) by (intros j p ? ?; by eapply Ha).
    constructor; cbn.
    + intros _ _ _ _. by eapply Hh.
    + intros j k p q [[<- ->]|[_ Hj]]%insert_lookup_cases [[<- ->]|[_ Hk]]%insert_lookup_cases ? ?; [done| | |].
      * symmetry. eauto.
      * eauto.
      * eauto.
    + intros j m [[_ [= ->]]|[_ Hj]]%insert_lookup_cases; [done|eauto].
    + intros j b [[_ ?]|[_ Hj]]%insert_lookup_cases; [done|eauto].
  - assert (Hme : forall j p, ts !! j = Some p -> past_lock p = true -> j = i) by (intros j p ? ?; by eapply Ha).
    assert (Hno : forall j p, i <> j -> ts !! j = Some p -> past_lock p = true -> False).
    { intros j p Hne ? ?. apply Hne. symmetry. eauto. }
    apply Hn in Hi as ->. rewrite Z.eqb_refl. constructor; cbn.
    + intros j p [[_ ->]|[? Hj]]%insert_lookup_cases ?; [done|]. exfalso. eauto.
    + intros j k p q [[<- ->]|[? Hj]]%insert_lookup_cases [[<- ->]|[? Hk]]%insert_lookup_cases ? ?; try done; exfalso; eauto.
    + intros j m [[_ ?]|[? Hj]]%insert_lookup_cases; [done|]. exfalso. eauto.
    + intros j b [[_ [= ->]]|[_ Hj]]%insert_lookup_cases; [done|eauto].
Qed.

Lemma nonce_start_inv n k : nonce_inv (mkSubmissions n true (replicate k Waiting)).
Proof.
  assert (Hw : forall i p, replicate k Waiting !! i = Some p -> p = Waiting) by (by intros i p [-> _]%lookup_replicate).
  constructor; cbn.
  - by intros i p ->%Hw.
  - by intros i j p q ->%Hw.
  - by intros i m ?%Hw.
  - by intros i b ?%Hw.
Qed.
End Mainnet.
