(* ===== verification/FulfillProps.v ===== *)
(** * The fulfiller: properties

    When a row is marked handled, whose rows a named fulfiller touches, and what
    scheduling adds to the table. *)
From stdpp Require Import base gmap strings list pretty sorting relations.
From S2P Require Import Prelude Proto CoordState ApiStore ClusterSync SyncProps Fulfillment Mainnet.
Local Open Scope string_scope.
Local Open Scope list_scope.
Local Open Scope Z_scope.
Import Fulfill.

Section props.
Context {AE : ApiEnv} {AEO : ApiEnvOk AE} {F : FulfillEnv} {FO : FulfillEnvOk F}.
Context {N : FulfillmentNetwork} {A : ArtifactClient}.

(** The row [id] turned handled between the two worlds. *)
Definition became_handled (id : string) (w w' : World) : Prop :=
  exists r r', w_db w !! id = Some r /\ r_handled r = false /\ w_db w' !! id = Some r' /\ r_handled r' = true.

Lemma became_handled_same id w w' : w_db w' = w_db w -> ~ became_handled id w w'.
Proof. intros Hdb (r & r' & Hr & Hf & Hr' & Ht). rewrite Hdb in Hr'. congruence. Qed.

Lemma became_handled_row id fu q w : became_handled id w (submit_work fu q w).2 -> id = q_id q.
Proof.
  intros (r & r' & Hr & Hf & Hr' & Ht). destruct (decide (id = q_id q)) as [|Hne]; [done|].
  rewrite (submit_work_kept (fun k => k <> q_id q) fu q w) in Hr' by naive_solver. congruence.
Qed.

(** A submission the network did not accept leaves the table alone. *)
Lemma submit_request_table fu q w :
  is_hex (q_id q) = true -> disable_fulfillment fu = false ->
  w_db (submit_request fu q w).2 = w_db w \/ exists b, (net_submit_request q b (w_net w)).1 = inr tt.
Proof.
  intros Hhex Hen. unfold submit_request, bindM.
  assert (Hdl : exists r, (match q_proof_artifact_id q with
    | Some id => if should_download_proofs
                 then fun w => match read_store (store_download_raw id ProofArtifact) w with
                               | (inr b, w) => ret (Some b) w | (inl e, w) => (inl e, w) end
                 else ret None
    | None => ret None end : M (option (list Z))) w = (r, w)).
  { unfold read_store, ret. repeat case_match; simplify_eq; eauto. }
  destruct Hdl as [r ->]. destruct r as [e|b]; [by left|]. rewrite Hhex, Hen. cbn [negb].
  destruct (net_submit_request q b (w_net w)) as [[e|[]] n] eqn:Hn.
  - left. unfold on_net. by rewrite Hn.
  - right. exists b. by rewrite Hn.
Qed.

Lemma submit_work_db fu q w : w_db (submit_work fu q w).2 = w_db (submit_request fu q w).2.
Proof.
  unfold submit_work. destruct (submit_request fu q w) as [[] w1]; [|done]. case_match; [|done].
  unfold snd at 1. by rewrite on_net_db.
Qed.

Lemma fail_request_table fu q w :
  disable_fulfillment fu = false ->
  w_db (fail_request fu q w).2 = w_db w \/ (net_fail_request q (w_net w)).1 = inr tt.
Proof.
  intros Hen. unfold fail_request, bindM. rewrite Hen. unfold on_net.
  destruct (net_fail_request q (w_net w)) as [[e|[]] n]; [by left|by right].
Qed.

Lemma became_handled_fail id fu q w : became_handled id w (fail_request fu q w).2 -> id = q_id q.
Proof.
  intros (r & r' & Hr & Hf & Hr' & Ht). destruct (decide (id = q_id q)) as [|Hne]; [done|].
  rewrite (fail_request_kept (fun k => k <> q_id q) fu q w) in Hr' by naive_solver. congruence.
Qed.

(** C32. A request is marked handled only once the network has taken its result:
    if working on a request turns any row handled, it is that request's row, and
    the network accepted the submission (or, for a failed proof, the failure) in
    the state the work found it, unless fulfillment is disabled or the id is no
    network id. *)
Theorem handled_only_after_network (fu : Fulfiller) (q : ProofRequest) (id : string) (w : World) :
  (became_handled id w (submit_work fu q w).2 ->
   id = q_id q /\ (is_hex id = false \/ disable_fulfillment fu = true \/
                   exists b, (net_submit_request q b (w_net w)).1 = inr tt)) /\
  (became_handled id w (fail_request fu q w).2 ->
   id = q_id q /\ (disable_fulfillment fu = true \/ (net_fail_request q (w_net w)).1 = inr tt)).
Proof.
  split; intros Hb.
  - assert (id = q_id q) as -> by by eapply became_handled_row. split; [done|].
    destruct (is_hex (q_id q)) eqn:Hhex; [|by left]. destruct (disable_fulfillment fu) eqn:Hen; [by right; left|].
    destruct (submit_request_table fu q w Hhex Hen) as [Hdb|Hok]; [|by right; right].
    exfalso. eapply became_handled_same; [|exact Hb]. by rewrite submit_work_db.
  - assert (id = q_id q) as -> by by eapply became_handled_fail. split; [done|].
    destruct (disable_fulfillment fu) eqn:Hen; [by left|].
    destruct (fail_request_table fu q w Hen) as [Hdb|Hok]; [|by right].
    exfalso. by eapply became_handled_same.
Qed.

(** Named fulfillers do not touch each other's requests: submitting and
    failing leave every row that another fulfiller scheduled, or none did,
    exactly as it was. *)
Theorem named_fulfiller_isolated (fu : Fulfiller) (s : string) (now : Z) (w : World) (id : string) (r : DbProofRequest) :
  name fu = Some s -> db_wf (w_db w) -> w_db w !! id = Some r -> r_scheduled_by r <> Some s ->
  w_db (submit_requests fu now w).2 !! id = Some r /\ w_db (fail_requests fu now w).2 !! id = Some r.
Proof.
  intros Hname Hwf Hr Hs. rewrite <- Hr.
  assert (Hq : forall st q, listed (own_filter fu now st) (w_db w) q -> ~ (q_id q = id)).
  { intros st q Hl <-. destruct (listed_own fu now st (w_db w) q s Hwf Hname Hl) as (r' & Hr' & Hs'). congruence. }
  split.
  - unfold submit_requests. apply (batch_kept (fun k => k = id)); [intros q; apply Hq| |done]. intros; by apply submit_work_kept.
  - unfold fail_requests. apply (batch_kept (fun k => k = id)); [intros q; apply Hq| |done]. intros; by apply fail_request_kept.
Qed.

(** ** Scheduling *)

(** A fresh row of this fulfiller. *)
Definition fresh_row (fu : Fulfiller) (r : DbProofRequest) : Prop :=
  r_proof_status r = status_i32 PrPending /\ r_handled r = false /\ r_scheduled_by r = name fu.

Definition adds_only (fu : Fulfiller) : relation Db := fun db db' =>
  (forall id r, db !! id = Some r -> db' !! id = Some r) /\
  (forall id r, db' !! id = Some r -> db !! id = None -> fresh_row fu r).

#[local] Instance adds_only_preorder fu : PreOrder (adds_only fu).
Proof.
  split; [split; [done|congruence]|]. intros a b c [Hk1 Hn1] [Hk2 Hn2]. split; [auto|].
  intros id r Hr Hnone. destruct (b !! id) as [r'|] eqn:Hb; [|eauto].
  apply Hk2 in Hb as Hb'. assert (r' = r) as -> by congruence. eauto.
Qed.

Definition world_adds (fu : Fulfiller) : relation World := fun w w' => adds_only fu (w_db w) (w_db w').
#[local] Instance world_adds_preorder fu : PreOrder (world_adds fu).
Proof.
  unfold world_adds. split; [intros w; reflexivity|]. intros a b c H1 H2. etrans; [exact H1|exact H2].
Qed.

Lemma world_adds_same fu w w' : w_db w' = w_db w -> world_adds fu w w'.
Proof. unfold world_adds. by intros ->. Qed.

Lemma create_adds fu f now req db : cr_scheduled_by req = name fu -> adds_only fu db (proof_request_create f now req db).2.
Proof.
  intros Hs. assert (Hi : adds_only fu db (insert_row now req db).2).
  { unfold insert_row. destruct (db !! cr_proof_id req) eqn:Hnew; [done|]. split; cbn.
    - intros id r Hr. rewrite lookup_insert_ne; [done|]. congruence.
    - intros id r. rewrite lookup_insert_Some. intros [[<- <-]|[_ ?]] ?; [done|congruence]. }
  unfold proof_request_create. destruct f; cbn [execute]; [| |].
  - destruct (insert_row now req db) as [[] ?]; exact Hi.
  - done.
  - exact Hi.
Qed.

Lemma copy_artifact_adds fu id uri ty w : world_adds fu w (copy_artifact id uri ty w).2.
Proof.
  unfold copy_artifact. apply bindM_rel; [apply _|done|]. intros [] w1; cbn [negb]; [done|].
  apply bindM_rel; [apply _|done|]. intros b w2. apply world_adds_same, on_store_db.
Qed.

Lemma schedule_request_adds fu now r w : world_adds fu w (schedule_request fu now r w).2.
Proof.
  unfold schedule_request. apply bindM_rel; [apply _|done|]. intros program w1.
  apply bindM_rel; [apply _|done|]. intros stdin w2.
  apply bindM_rel; [apply _|apply world_adds_same, on_store_db|]. intros proof w3.
  apply bindM_rel; [apply _| |].
  { destruct (copy_artifacts fu); [|done]. apply bindM_rel; [apply _|apply copy_artifact_adds|]. intros _ w4.
    apply bindM_rel; [apply _|apply world_adds_same, on_net_db|]. intros uri w5. apply copy_artifact_adds. }
  intros _ w4. set (req := mkCreateRequest _ _ _ _ _ _ _ _ _ _ _).
  assert (Hc : world_adds fu w4 (create_proof_request now req w4).2).
  { unfold create_proof_request, world_adds.
    destruct (api_call_world (fun f db => proof_request_create f now req db) w4) as (_ & _ & a & more & ->).
    apply retry_call_rel; [apply _|]. intros f db. by apply create_adds. }
  destruct (create_proof_request now req w4) as [[[]|] w5]; try done. by destruct (decide _).
Qed.

Lemma schedule_batches_adds fu now seen l w : world_adds fu w (schedule_batches fu now seen l w).2.
Proof.
  revert w. induction l as [|address l IH]; intros w; cbn [schedule_batches]; [done|].
  apply bindM_rel; [apply _| |].
  - unfold schedule_given_requests. apply bindM_rel; [apply _|done|]. intros rs w1.
    apply bindM_rel; [apply _| |done]. apply for_each_rel; [apply _|]. intros r w2 _.
    apply bindM_rel; [apply _|apply schedule_request_adds|done].
  - intros counts w1. apply bindM_rel; [apply _|apply IH|done].
Qed.

(** Scheduling only adds: whatever the network lists and however the API's
    attempts fare, every row already in the table is left as it is, and each new
    row is [Pending], unhandled and tagged with this fulfiller's name. *)
Theorem scheduling_only_adds (fu : Fulfiller) (prover : bytes) (now : Z) (w : World) :
  let w' := (schedule_requests fu prover now w).2 in
  (forall id r, w_db w !! id = Some r -> w_db w' !! id = Some r) /\
  (forall id r, w_db w' !! id = Some r -> w_db w !! id = None -> fresh_row fu r).
Proof.
  change (world_adds fu w (schedule_requests fu prover now w).2). unfold schedule_requests.
  apply bindM_rel; [apply _| |].
  - rewrite context_world. by apply world_adds_same.
  - intros rows w1. apply bindM_rel; [apply _| |done]. apply schedule_batches_adds.
Qed.
End props.

(** The nonce lock does its job: however the fulfiller's concurrent
    submissions interleave, every one that reaches the ledger carries the
    account's current nonce and is accepted. *)
Theorem nonce_lock_serialises (n : Z) (k : nat) (s : Mainnet.Submissions) :
  rtc Mainnet.nonce_step (Mainnet.mkSubmissions n true (replicate k Mainnet.Waiting)) s ->
  (forall i b, Mainnet.tasks s !! i = Some (Mainnet.Done b) -> b = true) /\
  (forall i m, Mainnet.tasks s !! i = Some (Mainnet.Signed m) -> m = Mainnet.account_nonce s).
Proof.
  intros Hs. assert (HI : Mainnet.nonce_inv s); [|by destruct HI].
  assert (H0 := Mainnet.nonce_start_inv n k). induction Hs as [|? ? ? Hstep _ IH]; [done|].
  by eapply IH, Mainnet.nonce_step_inv.
Qed.

Lemma nonce_lock_serialises_witness :
  let s := Mainnet.mkSubmissions 8 true [Mainnet.Done true; Mainnet.Waiting] in
  (forall i b, Mainnet.tasks s !! i = Some (Mainnet.Done b) -> b = true) /\
  (forall i m, Mainnet.tasks s !! i = Some (Mainnet.Signed m) -> m = Mainnet.account_nonce s).
Proof.
  apply (nonce_lock_serialises 7 2).
  eapply rtc_l; [apply (Mainnet.lock_taken 7 [Mainnet.Waiting; Mainnet.Waiting] 0); reflexivity|].
  eapply rtc_l; [apply (Mainnet.nonce_read 7 false [Mainnet.Locked; Mainnet.Waiting] 0); reflexivity|].
  apply rtc_once, (Mainnet.submitted 7 false [Mainnet.Signed 7; Mainnet.Waiting] 0 7). reflexivity.
Defined.

(** ** A concrete fulfiller on a concrete ledger *)
Definition demo_ledger : Ledger := {|
  Chain := Z;
  get_nonce := fun n => inr n;
  sign_message := fun _ => inr tt;
  fulfill_proof := fun m _ _ n => if m =? n then (None, n + 1) else (Some (mkStatus Aborted "nonce"), n);
  fail_fulfillment := fun m _ _ _ n => if m =? n then (None, n + 1) else (Some (mkStatus Aborted "nonce"), n);
  get_filtered_proof_requests := fun q _ =>
    match qr_kind q with
    | Assigned => inr [mkNetProof [171] "s3://b/prog" "s3://b/stdin" 5000 10 10 [1] 2 "" "" false]
    | _ => inr []
    end;
  get_stdin_uri := fun _ _ n => (inr "", n);
  error_trace_of := fun _ => None;
  download_from_uri := fun _ _ _ _ => inr [];
  hex_encode := fun _ => "ab";
  hex_decode := fun _ => Some [171];
|}.
#[local] Existing Instance demo_ledger.

Definition demo_fulfill_env : FulfillEnv := {|
  attempts := fun _ => (Served Healthy, []);
  page_attempts := fun _ _ => (Served Healthy, []);
  order := fun _ _ l => l;
  is_hex := fun _ => true;
  debug_text := fun _ => "";
  execution_failure_cause := fun _ => None;
  is_proving_failure := fun _ => false;
  ExecutionFailure_i32 := 3;
  ProvingFailure_i32 := 4;
|}.
#[local] Existing Instance demo_fulfill_env.
#[local] Instance demo_fulfill_env_ok : FulfillEnvOk demo_fulfill_env.
Proof. by constructor. Qed.
#[local] Existing Instance Mainnet.network.

Definition demo_store : ArtifactClient := {|
  Store := unit;
  store_download_raw := fun _ _ _ => inr [];
  store_try_delete := fun _ _ s => (inr tt, s);
  store_exists := fun _ _ _ => inr true;
  store_upload_raw_compressed := fun _ _ _ s => (inr tt, s);
  store_create_artifact := fun s => (inr "artifact", s);
|}.
#[local] Existing Instance demo_store.

Definition demo_fulfiller : Fulfiller := mkFulfiller None true false true 100 (Some "f1").

(** The proof ["p1"] is completed; nobody scheduled it. *)
Definition demo_world : World := mkWorld (landed (demo_completion "p1" PrCompleted) demo_db) 7 tt 0.
Definition demo_q : ProofRequest :=
  mkProofRequest "p1" 2 [155] None "stdin" "program" (Some "proof") (Some "options") (Some 1000) (Some 0) 5000
    false "null" 7 7 None None false.

Lemma demo_world_wf : db_wf (w_db demo_world).
Proof. eapply db_step_wf; [apply landed_step, demo_completes|apply demo_db_wf]. Qed.

Lemma handled_only_after_network_witness :
  became_handled "p1" demo_world (submit_work demo_fulfiller demo_q demo_world).2 /\
  exists b, (net_submit_request demo_q b (w_net demo_world)).1 = inr tt.
Proof.
  assert (Hb : became_handled "p1" demo_world (submit_work demo_fulfiller demo_q demo_world).2).
  { eexists _, _. split; [vm_compute; reflexivity|]. split; [vm_compute; reflexivity|].
    split; [vm_compute; reflexivity|vm_compute; reflexivity]. }
  split; [exact Hb|].
  destruct (handled_only_after_network demo_fulfiller demo_q "p1" demo_world) as [Hs _].
  destruct (Hs Hb) as [_ [H|[H|H]]]; [vm_compute in H; discriminate|vm_compute in H; discriminate|exact H].
Defined.

Lemma named_fulfiller_isolated_witness :
  exists r, w_db demo_world !! "p1" = Some r /\
    w_db (submit_requests demo_fulfiller 100 demo_world).2 !! "p1" = Some r /\
    w_db (fail_requests demo_fulfiller 100 demo_world).2 !! "p1" = Some r.
Proof.
  destruct (w_db demo_world !! "p1") as [r|] eqn:Hr; [|vm_compute in Hr; discriminate].
  exists r. split; [done|]. apply (named_fulfiller_isolated demo_fulfiller "f1" 100 demo_world "p1" r).
  - reflexivity.
  - apply demo_world_wf.
  - exact Hr.
  - vm_compute in Hr. injection Hr as <-. discriminate.
Defined.

Lemma scheduling_only_adds_witness :
  is_Some (w_db (schedule_requests demo_fulfiller [1] 100 demo_world).2 !! "ab") /\
  let w' := (schedule_requests demo_fulfiller [1] 100 demo_world).2 in
  (forall id r, w_db demo_world !! id = Some r -> w_db w' !! id = Some r) /\
  (forall id r, w_db w' !! id = Some r -> w_db demo_world !! id = None -> fresh_row demo_fulfiller r).
Proof.
  split; [eexists; vm_compute; reflexivity|]. apply (scheduling_only_adds demo_fulfiller [1] 100 demo_world).
Defined.
