(* ===== verification/Redis.v ===== *)
(** * The Redis artifact store

    [crates/artifact/src/redis.rs]. The Redis server is an interface: the commands the
    client sends, with their documented effect on the keys as laws; a key holds a
    string, a hash or a set with an optional time to live, and each [MULTI] block or
    server-side script is one atomic step. On top of the commands: routing of an artifact to a node, the inline and the two-phase chunked
    upload, the download, reference counts, batch deletion and the admission control.
    The last part interleaves any number of uploads, downloads, deletions and
    expirations command by command. *)
From Stdlib Require Import Ascii SpecFloat.
From stdpp Require Import base gmap strings list pretty.
From S2P Require Import Prelude.
Local Open Scope string_scope.
Local Open Scope list_scope.
Local Open Scope Z_scope.
Local Open Scope handler_scope.

Module Redis.

Abbreviation bytes := (list Z).

(** ** Key space *)

(** The fields of a chunk hash: chunks under their decimal index, and the count
    under [CHUNK_COUNT_FIELD], which is not a decimal index. *)
Record Hash := mkHash { h_chunks : gmap nat bytes; h_count : option nat }.

Inductive RVal :=
  | RString (data : bytes)
  | RHash (h : Hash)
  | RSet (members : gset string).

(** A value and its remaining time to live in seconds, [None] when it persists. *)
Record Entry := mkEntry { e_val : RVal; e_ttl : option Z }.

Definition WRONGTYPE : Error := Msg "WRONGTYPE".
Definition NO_SUCH_KEY : Error := Msg "ERR no such key".

(** The commands of a Redis server that write, and [view], what reading a key finds. *)
Class RedisServer := {
  Keyspace : Type;
  no_keys : Keyspace;
  view : Keyspace -> string -> option Entry;
  set_options : Keyspace -> string -> bytes -> option Z -> Keyspace;  (* SET key value [EX secs] *)
  unlink : Keyspace -> string -> Keyspace;  (* UNLINK key, DEL key *)
  hset_chunk : Keyspace -> string -> nat -> bytes -> result Keyspace;  (* HSET key idx chunk *)
  hset_count : Keyspace -> string -> nat -> result Keyspace;  (* HSET key __n count *)
  expire : Keyspace -> string -> Z -> Keyspace;  (* EXPIRE key secs *)
  persist : Keyspace -> string -> Keyspace;  (* PERSIST key *)
  rename : Keyspace -> string -> string -> result Keyspace;  (* RENAME src dst *)
  sadd : Keyspace -> string -> string -> result Keyspace;  (* SADD key member *)
  srem : Keyspace -> string -> string -> result Keyspace;  (* SREM key member *)
}.

(** ** The documented effect of each command on the keys *)

Definition View := string -> option Entry.
Definition vset (k : string) (o : option Entry) (v : View) : View := fun k' => if decide (k' = k) then o else v k'.

Definition put_chunk (i : nat) (c : bytes) (h : Hash) : Hash := mkHash (<[i := c]> (h_chunks h)) (h_count h).
Definition put_count (n : nat) (h : Hash) : Hash := mkHash (h_chunks h) (Some n).
Definition with_ttl (ttl : option Z) (e : Entry) : Entry := mkEntry (e_val e) ttl.

(** A write into the hash at [k]: it keeps the time to live of an existing hash, a new
    one has none, and another type is refused. *)
Definition hash_write (f : Hash -> Hash) (k : string) (v : View) : result (option Entry) :=
  match v k with
  | None => inr (Some (mkEntry (RHash (f (mkHash ∅ None))) None))
  | Some (mkEntry (RHash h) ttl) => inr (Some (mkEntry (RHash (f h)) ttl))
  | Some _ => inl WRONGTYPE
  end.

(** The same for a set; an emptied set is removed. *)
Definition set_write (f : gset string -> gset string) (k : string) (v : View) : result (option Entry) :=
  let update m ttl := if decide (f m = ∅) then None else Some (mkEntry (RSet (f m)) ttl) in
  match v k with
  | None => inr (update ∅ None)
  | Some (mkEntry (RSet m) ttl) => inr (update m ttl)
  | Some _ => inl WRONGTYPE
  end.

(** [r] fails as [spec] does, or leaves [o] at [k] where [spec] gives [o]. *)
Definition writes {Srv : RedisServer} (ks : Keyspace) (k : string) (spec : result (option Entry)) (r : result Keyspace) : Prop :=
  match spec, r with
  | inl e, inl e' => e = e'
  | inr o, inr ks' => forall k', view ks' k' = vset k o (view ks) k'
  | _, _ => False
  end.

Class RedisServerOk (Srv : RedisServer) := {
  view_no_keys k : view no_keys k = None;
  view_set_options ks k d ttl k' : view (set_options ks k d ttl) k' = vset k (Some (mkEntry (RString d) ttl)) (view ks) k';
  view_unlink ks k k' : view (unlink ks k) k' = vset k None (view ks) k';
  hset_chunk_spec ks k i c : writes ks k (hash_write (put_chunk i c) k (view ks)) (hset_chunk ks k i c);
  hset_count_spec ks k n : writes ks k (hash_write (put_count n) k (view ks)) (hset_count ks k n);
  view_expire ks k secs k' : view (expire ks k secs) k' = vset k (with_ttl (Some secs) <$> view ks k) (view ks) k';
  view_persist ks k k' : view (persist ks k) k' = vset k (with_ttl None <$> view ks k) (view ks) k';
  rename_spec ks src dst :
    match view ks src, rename ks src dst with
    | None, inl e => e = NO_SUCH_KEY
    | Some e, inr ks' => forall k', view ks' k' = vset dst (Some e) (vset src None (view ks)) k'
    | _, _ => False
    end;
  sadd_spec ks k member : writes ks k (set_write (fun m => {[member]} ∪ m) k (view ks)) (sadd ks k member);
  srem_spec ks k member : writes ks k (set_write (fun m => m ∖ {[member]}) k (view ks)) (srem ks k member);
}.

(** ** Configuration *)

Definition DEFAULT_CHUNK_SIZE : Z := 32 * 1024 * 1024.
Definition DEFAULT_ARTIFACT_TIMEOUT_SECONDS : Z := 6 * 60 * 60.
Definition DEFAULT_SHARD_MAX_BYTES : Z := 20 * 1024 * 1024.
Definition ADMISSION_BYPASS_BYTES : Z := DEFAULT_SHARD_MAX_BYTES / 10.
Definition MIN_PERMITS_PER_NODE : Z := 4.
Definition ADMISSION_MAX_WAIT : Z := 2 * 60 * 1000.
Definition TRANSFER_TIMEOUT : Z := 60.
Definition STAGING_TTL_SECONDS : Z := 2 * TRANSFER_TIMEOUT.

(** What the process takes from outside: the parsed environment variables, the
    unique suffixes of [create_type_id], and the zstd codec. *)
Class RedisEnv := {
  ARTIFACT_CHUNK_SIZE_BYTES : option Z;
  ARTIFACT_TIMEOUT_VAR : option Z;
  PROVE_SHARD_MAX_BYTES : option Z;
  create_type_id : nat -> string;
  zstd_encode : bytes -> result bytes;
  zstd_decode : bytes -> result bytes;
}.

(** Type ids never repeat, and zstd decodes what it encoded. *)
Class RedisEnvOk (E : RedisEnv) := {
  create_type_id_inj : Inj (=) (=) create_type_id;
  zstd_round_trip d c : zstd_encode d = inr c -> zstd_decode c = inr d;
}.

Section Client.
Context {Srv : RedisServer} {E : RedisEnv}.

Definition CHUNK_SIZE : Z :=
  match ARTIFACT_CHUNK_SIZE_BYTES with
  | Some v => if decide (0 < v) then v else DEFAULT_CHUNK_SIZE
  | None => DEFAULT_CHUNK_SIZE
  end.
Definition ARTIFACT_TIMEOUT_SECONDS : Z :=
  match ARTIFACT_TIMEOUT_VAR with
  | Some v => if decide (0 < v /\ v <= 2 ^ 63 - 1) then v else DEFAULT_ARTIFACT_TIMEOUT_SECONDS
  | None => DEFAULT_ARTIFACT_TIMEOUT_SECONDS
  end.

(** ** Keys and routing *)

Definition hash_string (s : string) : Z :=
  foldl (fun hash c => Int.wadd u64 (Int.wrap u64 (hash * 16777619)) (Z.of_nat (nat_of_ascii c))) 0 (String.list_ascii_of_string s).

(** [hash % num_redis_nodes]: panics without nodes. *)
Definition get_connection_idx (id : string) (num_redis_nodes : nat) : option nat :=
  if decide (num_redis_nodes = 0%nat) then None
  else Some (Z.to_nat (hash_string id `mod` Z.of_nat num_redis_nodes)).

Definition chunk_key (id : string) : string := id +:+ ":chunks".
Definition staging_chunk_key (id : string) (n : nat) : string := chunk_key id +:+ ":" +:+ create_type_id n.
Definition refs_key (id : string) : string := "refs:" +:+ id.

(** ** Reads *)

(** The hash at a key; an absent key reads as no hash. *)
Definition hash_at (ks : Keyspace) (k : string) : result (option Hash) :=
  match view ks k with
  | None => inr None
  | Some (mkEntry (RHash h) _) => inr (Some h)
  | Some _ => inl WRONGTYPE
  end.

(** [HGET key __n]. *)
Definition hget_count (ks : Keyspace) (k : string) : result (option nat) :=
  let^ h := hash_at ks k in inr (h ≫= h_count).

(** [HGET key idx]. *)
Definition hget_chunk (ks : Keyspace) (k : string) (i : nat) : result (option bytes) :=
  let^ h := hash_at ks k in inr (h ≫= fun h => h_chunks h !! i).

(** [HLEN key]: the count field is a field like the others. *)
Definition hash_len (h : Hash) : nat :=
  (size (h_chunks h) + match h_count h with Some _ => 1 | None => 0 end)%nat.
Definition hlen (ks : Keyspace) (k : string) : result nat :=
  let^ h := hash_at ks k in inr (from_option hash_len 0%nat h).

(** [GET key]. *)
Definition get (ks : Keyspace) (k : string) : result (option bytes) :=
  match view ks k with
  | None => inr None
  | Some (mkEntry (RString d) _) => inr (Some d)
  | Some _ => inl WRONGTYPE
  end.

(** [SCARD key]. *)
Definition members_at (ks : Keyspace) (k : string) : result (gset string) :=
  match view ks k with
  | None => inr ∅
  | Some (mkEntry (RSet m) _) => inr m
  | Some _ => inl WRONGTYPE
  end.
Definition scard (ks : Keyspace) (k : string) : result nat :=
  let^ m := members_at ks k in inr (size m).

(** ** Errors of one attempt *)

(** [backoff::Error]: whether the backoff policy may try again. *)
Inductive BackoffError := Transient (e : Error) | Permanent (e : Error).

Definition transient {A} (r : result A) : BackoffError + A :=
  match r with inl e => inl (Transient e) | inr a => inr a end.

(** ** Download *)

Definition disappeared (i : nat) (id : string) : Error := Msg ("chunk " +:+ pretty i +:+ " of artifact " +:+ id +:+ " disappeared").

(** One [HGET] per chunk, joined in index order. *)
Fixpoint fetch_chunks (ks : Keyspace) (id : string) (idxs : list nat) : BackoffError + bytes :=
  match idxs with
  | [] => inr []
  | i :: idxs =>
      let^ c := transient (hget_chunk ks (chunk_key id) i) in
      match c with
      | None => inl (Transient (disappeared i id))
      | Some c => let^ rest := fetch_chunks ks id idxs in inr (c ++ rest)
      end
  end.

Definition not_found (id : string) : Error := Msg ("artifact not found: " +:+ id).

(** A download during which nobody writes; the interleaved one is [read_step]. *)
Definition par_download_file (ks : Keyspace) (id : string) : BackoffError + bytes :=
  let k := chunk_key id in
  let^ declared := transient (hget_count ks k) in
  let^ total := match declared with Some n => inr n | None => transient (hlen ks k) end in
  if decide (total = 0%nat) then
    let^ inline := transient (get ks id) in
    match inline with
    | Some d => inr d
    | None =>
        let^ again := transient (hget_count ks k) in
        if decide (default 0%nat again = 0%nat) then inl (Permanent (not_found id))
        else fetch_chunks ks id (seq 0 (default 0%nat again))
    end
  else fetch_chunks ks id (seq 0 total).

Definition exists_artifact (ks : Keyspace) (id : string) : result bool :=
  let^ count := hget_count ks (chunk_key id) in
  inr (bool_decide (is_Some (view ks id)) || bool_decide (is_Some count)).

(** ** Upload *)

(** [matches!(artifact_type, ArtifactType::Program)] decides the retention. *)
Definition retention (program : bool) : option Z :=
  if program then None else Some ARTIFACT_TIMEOUT_SECONDS.
Definition retention_seconds (program : bool) : Z := if program then 0 else ARTIFACT_TIMEOUT_SECONDS.

Definition upload_inline (ks : Keyspace) (program : bool) (id : string) (data : bytes) : Keyspace :=
  unlink (set_options ks id data (retention program)) (chunk_key id).

(** [HSET] and [EXPIRE] in one [MULTI]; both run even if the first fails. *)
Definition stage_chunk (ks : Keyspace) (staging : string) (i : nat) (c : bytes) : Keyspace * result unit :=
  match hset_chunk ks staging i c with
  | inl e => (expire ks staging STAGING_TTL_SECONDS, inl e)
  | inr ks' => (expire ks' staging STAGING_TTL_SECONDS, inr tt)
  end.

(** [PUBLISH_SCRIPT] with its [KEYS] and [ARGV]: an error of a call ends the
    script and keeps what ran before it. *)
Definition publish_script (ks : Keyspace) (staging final inline : string) (count : nat) (secs : Z) :
    Keyspace * result Z :=
  match hget_count ks final with
  | inl e => (ks, inl e)
  | inr (Some _) => (unlink (unlink ks staging) inline, inr 2)
  | inr None =>
      match hlen ks staging with
      | inl e => (ks, inl e)
      | inr n =>
          if decide (n <> count) then (unlink ks staging, inr 0) else
          match hset_count ks staging count with
          | inl e => (ks, inl e)
          | inr ks1 =>
              let ks2 := unlink ks1 final in
              match rename ks2 staging final with
              | inl e => (ks2, inl e)
              | inr ks3 =>
                  let ks4 := if decide (0 < secs) then expire ks3 final secs else persist ks3 final in
                  (unlink ks4 inline, inr 1)
              end
          end
      end
  end.

(** What happens to one command: it runs and is answered, it never runs, or it
    runs and its reply is lost. *)
Inductive Reply := Done | NotSent (e : Error) | Lost (e : Error).

Definition send {A} (r : Reply) (ks : Keyspace) (run : Keyspace -> Keyspace * result A) : Keyspace * result A :=
  match r with
  | Done => run ks
  | NotSent e => (ks, inl e)
  | Lost e => (fst (run ks), inl e)
  end.

Definition publish_staged (r : Reply) (ks : Keyspace) (program : bool) (id staging : string) (count : nat) :
    Keyspace * (BackoffError + unit) :=
  match send r ks (fun ks => publish_script ks staging (chunk_key id) id count (retention_seconds program)) with
  | (ks, inl e) => (ks, inl (Transient e))
  | (ks, inr z) =>
      if decide (z = 2 \/ z = 1) then (ks, inr tt)
      else (ks, inl (Transient (Msg ("staging hash " +:+ staging +:+ " incomplete or missing at publish"))))
  end.

(** The faults of one upload attempt: the order in which the chunk writes reach the
    server, what happens to each, whether the attempt ends early (no connection, or
    [TRANSFER_TIMEOUT]) after some of them and with what error, whether the reclaim runs, and what
    happens to the final command. *)
Record Faults := mkFaults {
  f_order : list nat;
  f_chunk : nat -> Reply;
  f_abort : option (nat * Error);
  f_reclaim : bool;
  f_final : Reply;
}.

Definition send_chunk (f : Faults) (staging : string) (cs : list bytes) (acc : Keyspace * option Error) (i : nat) :
    Keyspace * option Error :=
  match send (f_chunk f i) acc.1 (fun ks => stage_chunk ks staging i (cs !!! i)) with
  | (ks, inr _) => (ks, acc.2)
  | (ks, inl e) => (ks, Some (default e acc.2))
  end.

Definition stage_chunks (f : Faults) (ks : Keyspace) (staging : string) (data : bytes) : Keyspace * (BackoffError + unit) :=
  let cs := chunks (Z.to_nat CHUNK_SIZE) data in
  match f_abort f with
  | Some (k, e) => (fst (foldl (send_chunk f staging cs) (ks, None) (take k (f_order f))), inl (Transient e))
  | None =>
      match foldl (send_chunk f staging cs) (ks, None) (f_order f) with
      | (ks, None) => (ks, inr tt)
      | (ks, Some e) => (if f_reclaim f then unlink ks staging else ks, inl (Transient e))
      end
  end.

Definition upload_chunked (f : Faults) (n : nat) (ks : Keyspace) (program : bool) (id : string) (data : bytes) :
    Keyspace * (BackoffError + unit) :=
  let staging := staging_chunk_key id n in
  let chunk_count := div_ceil (length data) (Z.to_nat CHUNK_SIZE) in
  match stage_chunks f ks staging data with
  | (ks, inl e) => (ks, inl e)
  | (ks, inr _) => publish_staged (f_final f) ks program id staging chunk_count
  end.

Definition par_upload_file (f : Faults) (n : nat) (ks : Keyspace) (program : bool) (id : string) (data : bytes) :
    Keyspace * (BackoffError + unit) :=
  if decide (Z.of_nat (length data) <= CHUNK_SIZE) then
    match send (f_final f) ks (fun ks => (upload_inline ks program id data, inr tt)) with
    | (ks, inl e) => (ks, inl (Transient e))
    | (ks, inr _) => (ks, inr tt)
    end
  else upload_chunked f n ks program id data.

(** [backoff_retry] over the attempts the backoff budget allows, each with a fresh
    staging suffix. *)
Fixpoint upload_attempts (fs : list Faults) (n : nat) (ks : Keyspace) (program : bool) (id : string) (data : bytes) :
    Keyspace * result unit :=
  match fs with
  | [] => (ks, inl (Msg EmptyString))
  | f :: fs =>
      match par_upload_file f n ks program id data with
      | (ks, inr _) => (ks, inr tt)
      | (ks, inl (Permanent e)) => (ks, inl e)
      | (ks, inl (Transient e)) =>
          match fs with [] => (ks, inl e) | _ => upload_attempts fs (S n) ks program id data end
      end
  end.

Definition error_text (e : Error) : string := match e with Msg m => m | Rpc s => message s end.

Definition upload_to_transport (admission : result unit) (fs : list Faults) (n : nat) (ks : Keyspace)
    (program : bool) (id : string) (data : bytes) : Keyspace * result unit :=
  match admission with
  | inl e => (ks, inl e)
  | inr _ =>
      match upload_attempts fs n ks program id data with
      | (ks, inr _) => (ks, inr tt)
      | (ks, inl e) =>
          (ks, inl (Msg (if contains "timed out" (error_text e)
                         then "Upload operation timed out after all retries for artifact: " +:+ id +:+ " (timeout: 60s per attempt)"
                         else "Upload failed for artifact " +:+ id +:+ ": " +:+ error_text e)))
      end
  end.

Definition upload_raw (admission : result unit) (fs : list Faults) (n : nat) (ks : Keyspace)
    (program : bool) (id : string) (data : bytes) : Keyspace * result unit :=
  match zstd_encode data with
  | inl e => (ks, inl (Msg ("Failed to compress artifact: " +:+ error_text e)))
  | inr compressed => upload_to_transport admission fs n ks program id compressed
  end.

Definition download_raw (ks : Keyspace) (id : string) : result bytes :=
  match par_download_file ks id with
  | inl (Transient e) | inl (Permanent e) =>
      inl (Msg (if contains "timed out" (error_text e)
                then "Download operation timed out after all retries for artifact: " +:+ id +:+ " (timeout: 60s per attempt)"
                else "Download failed for artifact " +:+ id +:+ ": " +:+ error_text e))
  | inr compressed =>
      match zstd_decode compressed with
      | inl e => inl (Msg ("Failed to decompress artifact: " +:+ error_text e))
      | inr d => inr d
      end
  end.

(** ** Deletion *)

Definition delete_artifact (ks : Keyspace) (id : string) : Keyspace :=
  unlink (unlink ks id) (chunk_key id).

(** The keys of a batch, grouped by node. [None] is the panic of a client without
    nodes. *)
Fixpoint node_groups (num : nat) (ids : list string) (groups : gmap nat (list string)) : option (gmap nat (list string)) :=
  match ids with
  | [] => Some groups
  | id :: ids =>
      match get_connection_idx id num with
      | None => None
      | Some idx => node_groups num ids (<[idx := default [] (groups !! idx) ++ [id; chunk_key id]]> groups)
      end
  end.

(** One [UNLINK] of many keys per node; the nodes are independent. *)
Definition delete_batch (nodes : list Keyspace) (ids : list string) : option (list Keyspace) :=
  if decide (ids = []) then Some nodes else
  match node_groups (length nodes) ids ∅ with
  | None => None
  | Some groups => Some (imap (fun idx ks => foldl unlink ks (default [] (groups !! idx))) nodes)
  end.

(** ** References *)

Definition add_ref (ks : Keyspace) (id key : string) : result Keyspace :=
  let^ ks := sadd ks (refs_key id) key in
  inr (expire ks (refs_key id) ARTIFACT_TIMEOUT_SECONDS).

(** [remove_ref] is a sequence of commands that do not form a transaction; the last
    one, [try_delete], is the trait's own wrapper of [delete]. *)
Definition remove_ref_check (ks : Keyspace) (id key : string) : result (Keyspace * bool) :=
  let^ ks := srem ks (refs_key id) key in
  let^ count := scard ks (refs_key id) in
  inr (ks, bool_decide (Z.of_nat count <= 0)).
Definition remove_ref_cleanup (try_delete : Keyspace -> string -> Keyspace) (ks : Keyspace) (id : string) : Keyspace :=
  try_delete (unlink ks (refs_key id)) id.
Definition remove_ref (try_delete : Keyspace -> string -> Keyspace) (ks : Keyspace) (id key : string) : result (Keyspace * bool) :=
  let^ r := remove_ref_check ks id key in
  inr (if r.2 then remove_ref_cleanup try_delete r.1 id else r.1, r.2).

(** ** Admission control *)

(** The binary64 operations of [(max as f64 * fraction) as u64]. *)
Definition f64_of_u64 (n : Z) : spec_float := binary_normalize 53 1024 n 0 false.
Definition u64_of_f64 (f : spec_float) : Z :=
  match f with
  | S754_finite false m e => Z.min (Int.umax u64) (if decide (0 <= e) then Z.pos m * 2 ^ e else Z.pos m / 2 ^ (- e))
  | S754_infinity false => Int.umax u64
  | _ => 0
  end.

(** 0.80 and 0.50 as the compiler rounds them. *)
Definition MEMORY_BUDGET_FRACTION : spec_float := S754_finite false 7205759403792794 (-53).
Definition INPUT_BUDGET_FRACTION : spec_float := S754_finite false 4503599627370496 (-53).

Definition budget (max : Z) : Z := u64_of_f64 (SFmul 53 1024 (f64_of_u64 max) MEMORY_BUDGET_FRACTION).

(** The outcome of [query_memory] under its timeout. *)
Abbreviation MemoryInfo := (result (option Z * option Z)).

Definition max_shard_bytes : Z :=
  match PROVE_SHARD_MAX_BYTES with
  | Some v => if decide (0 < v) then v else DEFAULT_SHARD_MAX_BYTES
  | None => DEFAULT_SHARD_MAX_BYTES
  end.
Definition input_budget (maxmemory : Z) : Z := u64_of_f64 (SFmul 53 1024 (f64_of_u64 maxmemory) INPUT_BUDGET_FRACTION).

Definition compute_permits_for_node (query : MemoryInfo) : Z :=
  match query with
  | inr (_, Some maxmemory) =>
      if decide (0 < maxmemory) then Z.max (input_budget maxmemory / max_shard_bytes) MIN_PERMITS_PER_NODE
      else MIN_PERMITS_PER_NODE
  | _ => MIN_PERMITS_PER_NODE
  end.

(** [validate_config]: every node must report a positive [maxmemory]. *)
Fixpoint validate_config (idx : nat) (queries : list MemoryInfo) : result unit :=
  match queries with
  | [] => inr tt
  | inl e :: _ => inl e
  | inr (_, maxmemory) :: queries =>
      if decide (0 < default 0 maxmemory) then validate_config (S idx) queries
      else inl (Msg ("Redis shard " +:+ pretty idx +:+ ": maxmemory is unset (0). Set it (e.g. `CONFIG SET maxmemory <N>gb`, `--maxmemory <N>gb`, or `REDIS_EXTRA_FLAGS=--maxmemory <N>gb` on Bitnami images). Size below the host/cgroup limit to leave allocator headroom."))
  end.

(** The state of one node, with the reservations of the live guards. *)
Record Admission := mkAdmission { in_flight : Z; guards : list Z }.

Inductive Verdict := Noop | Reserved | Blocked | Expired.

(** One round of [check_admission] under the [decide] lock. *)
Definition check_admission (a : Admission) (incoming : Z) (query : MemoryInfo) (elapsed_ms : Z) : Admission * Verdict :=
  if decide (incoming <= ADMISSION_BYPASS_BYTES) then (a, Noop) else
  match query with
  | inr (Some used, Some max) =>
      if decide (0 < max) then
        let projected := Int.sat_add u64 (Int.sat_add u64 used (in_flight a)) incoming in
        if decide (projected <= budget max)
        then (mkAdmission (Int.wadd u64 (in_flight a) incoming) (incoming :: guards a), Reserved)
        else (a, if decide (ADMISSION_MAX_WAIT < elapsed_ms) then Expired else Blocked)
      else (a, Noop)
  | _ => (a, Noop)
  end.

(** [AdmissionGuard::drop] of the [i]-th live guard. *)
Definition drop_guard (a : Admission) (i : nat) : Admission :=
  match guards a !! i with
  | Some n => mkAdmission (Int.wsub u64 (in_flight a) n) (delete i (guards a))
  | None => a
  end.

Inductive admission_op :=
  | APoll (incoming : Z) (query : MemoryInfo) (elapsed_ms : Z)
  | ADrop (i : nat).
Definition admission_step (a : Admission) (o : admission_op) : Admission :=
  match o with
  | APoll n q t => fst (check_admission a n q t)
  | ADrop i => drop_guard a i
  end.
Definition admission_run (ops : list admission_op) : Admission := foldl admission_step (mkAdmission 0 []) ops.

(** ** Interleaved uploads and downloads

    Every command is one step. A chunked upload is an [Attempt]: its chunk writes may
    reach the server in any order, late, or after the attempt has given up; it goes
    on to publish only when every write has been joined without an error. *)
Record Attempt := mkAttempt {
  a_id : string;
  a_program : bool;
  a_data : bytes;
  a_written : gset nat;  (* chunk writes the server has run *)
  a_joined : gset nat;  (* chunk tasks joined *)
  a_failed : bool;  (* first_error is set *)
  a_over : bool;  (* published, reclaimed or cancelled *)
}.

Definition a_chunks (a : Attempt) : list bytes := chunks (Z.to_nat CHUNK_SIZE) (a_data a).
Definition a_count (a : Attempt) : nat := div_ceil (length (a_data a)) (Z.to_nat CHUNK_SIZE).

(** A download, by the next command it sends. *)
Inductive ReadPhase :=
  | ReadCount
  | ReadLen
  | ReadInline
  | ReadAgain
  | ReadChunks (total : nat) (got : gmap nat bytes)
  | ReadDone (r : BackoffError + bytes).
Record Reader := mkReader { r_id : string; r_phase : ReadPhase }.

(** The node, the attempts and the readers so far, and every upload ever begun. *)
Record Store := mkStore {
  s_keys : Keyspace;
  s_attempts : list Attempt;
  s_readers : list Reader;
  s_uploads : list (string * bytes);
}.
Definition with_keys (s : Store) (ks : Keyspace) : Store := mkStore ks (s_attempts s) (s_readers s) (s_uploads s).
Definition with_attempts (s : Store) (l : list Attempt) : Store := mkStore (s_keys s) l (s_readers s) (s_uploads s).

Definition write_chunk (s : Store) (n i : nat) : Store :=
  match s_attempts s !! n with
  | None => s
  | Some a =>
      match a_chunks a !! i with
      | None => s
      | Some c =>
          mkStore (fst (stage_chunk (s_keys s) (staging_chunk_key (a_id a) n) i c))
            (<[n := mkAttempt (a_id a) (a_program a) (a_data a) ({[i]} ∪ a_written a) (a_joined a) (a_failed a) (a_over a)]>
               (s_attempts s))
            (s_readers s) (s_uploads s)
      end
  end.

(** [join_next] of chunk [i]; it is [Ok] only for a write that ran. *)
Definition join_chunk (s : Store) (n i : nat) (ok : bool) : Store :=
  match s_attempts s !! n with
  | None => s
  | Some a =>
      if negb (a_over a) && bool_decide (i < a_count a)%nat && (negb ok || bool_decide (i ∈ a_written a)) then
        with_attempts s
          (<[n := mkAttempt (a_id a) (a_program a) (a_data a) (a_written a) ({[i]} ∪ a_joined a) (a_failed a || negb ok) (a_over a)]>
             (s_attempts s))
      else s
  end.

Definition end_attempt (a : Attempt) : Attempt :=
  mkAttempt (a_id a) (a_program a) (a_data a) (a_written a) (a_joined a) (a_failed a) true.

(** After the drain: publish, or reclaim when a write failed. *)
Definition finish_attempt (s : Store) (n : nat) : Store :=
  match s_attempts s !! n with
  | None => s
  | Some a =>
      if negb (a_over a) && bool_decide (a_joined a = set_seq 0 (a_count a)) then
        let staging := staging_chunk_key (a_id a) n in
        let ks :=
          if a_failed a then unlink (s_keys s) staging
          else fst (publish_script (s_keys s) staging (chunk_key (a_id a)) (a_id a) (a_count a) (retention_seconds (a_program a))) in
        mkStore ks (<[n := end_attempt a]> (s_attempts s)) (s_readers s) (s_uploads s)
      else s
  end.

Definition cancel_attempt (s : Store) (n : nat) : Store :=
  match s_attempts s !! n with
  | None => s
  | Some a => with_attempts s (<[n := end_attempt a]> (s_attempts s))
  end.

(** Where the download goes once it knows the number of chunks. *)
Definition read_total (n : nat) (if_none : ReadPhase) : ReadPhase :=
  if decide (n = 0%nat) then if_none else ReadChunks n ∅.
Definition read_fail (e : Error) : ReadPhase := ReadDone (inl (Transient e)).

Definition read_step (ks : Keyspace) (r : Reader) (i : nat) : ReadPhase :=
  let k := chunk_key (r_id r) in
  match r_phase r with
  | ReadCount =>
      match hget_count ks k with
      | inl e => read_fail e
      | inr (Some n) => read_total n ReadInline
      | inr None => ReadLen
      end
  | ReadLen => match hlen ks k with inl e => read_fail e | inr n => read_total n ReadInline end
  | ReadInline =>
      match get ks (r_id r) with
      | inl e => read_fail e
      | inr (Some d) => ReadDone (inr d)
      | inr None => ReadAgain
      end
  | ReadAgain =>
      match hget_count ks k with
      | inl e => read_fail e
      | inr c => read_total (default 0%nat c) (ReadDone (inl (Permanent (not_found (r_id r)))))
      end
  | ReadChunks total got =>
      if decide ((i < total)%nat /\ got !! i = None) then
        match hget_chunk ks k i with
        | inl e => read_fail e
        | inr None => read_fail (disappeared i (r_id r))
        | inr (Some c) =>
            let got := <[i := c]> got in
            if decide (size got = total)
            then ReadDone (inr (concat (map (fun i => default [] (got !! i)) (seq 0 total))))
            else ReadChunks total got
        end
      else r_phase r
  | ReadDone _ => r_phase r
  end.

Inductive store_op :=
  | OInline (id : string) (program : bool) (data : bytes)  (* upload_inline *)
  | OStart (id : string) (program : bool) (data : bytes)  (* a chunked attempt begins *)
  | OWrite (n i : nat)  (* the server runs a chunk write *)
  | OJoin (n i : nat) (ok : bool)  (* the client joins it *)
  | OFinish (n : nat)  (* publish or reclaim *)
  | OCancel (n : nat)  (* timeout or crash *)
  | OUnlinkInline (id : string)  (* the two halves of delete *)
  | OUnlinkChunks (id : string)
  | OExpire (k : string)  (* a key reaches its time to live *)
  | OReadStart (id : string)
  | ORead (r i : nat).

Definition store_step (s : Store) (o : store_op) : Store :=
  match o with
  | OInline id program data =>
      if decide (Z.of_nat (length data) <= CHUNK_SIZE)
      then mkStore (upload_inline (s_keys s) program id data) (s_attempts s) (s_readers s) ((id, data) :: s_uploads s)
      else s
  | OStart id program data =>
      if decide (Z.of_nat (length data) <= CHUNK_SIZE) then s
      else mkStore (s_keys s) (s_attempts s ++ [mkAttempt id program data ∅ ∅ false false]) (s_readers s)
             ((id, data) :: s_uploads s)
  | OWrite n i => write_chunk s n i
  | OJoin n i ok => join_chunk s n i ok
  | OFinish n => finish_attempt s n
  | OCancel n => cancel_attempt s n
  | OUnlinkInline id => with_keys s (unlink (s_keys s) id)
  | OUnlinkChunks id => with_keys s (unlink (s_keys s) (chunk_key id))
  | OExpire k => if decide (is_Some (view (s_keys s) k ≫= e_ttl)) then with_keys s (unlink (s_keys s) k) else s
  | OReadStart id => mkStore (s_keys s) (s_attempts s) (s_readers s ++ [mkReader id ReadCount]) (s_uploads s)
  | ORead r i =>
      mkStore (s_keys s) (s_attempts s)
        (alter (fun r => mkReader (r_id r) (read_step (s_keys s) r i)) r (s_readers s)) (s_uploads s)
  end.

Definition store_run (s : Store) (ops : list store_op) : Store := foldl store_step s ops.
Definition empty_store : Store := mkStore no_keys [] [] [].

End Client.
End Redis.
