(* ===== verification/RedisFacts.v ===== *)
(** * Facts about the Redis artifact store

    Key disjointness, the effect of the publish script, and the invariant of the
    interleaved store. *)
From Stdlib Require Import Ascii.
From stdpp Require Import base gmap strings list fin_maps.
From S2P Require Import Prelude Redis.
Import Redis.
Local Open Scope string_scope.
Local Open Scope list_scope.
Local Open Scope Z_scope.

(** ** Keys *)

(** Artifact ids are type ids, which contain no colon. *)
Fixpoint no_colon (s : string) : Prop :=
  match s with EmptyString => True | String c s => c <> ":"%char /\ no_colon s end.

#[export] Instance no_colon_dec s : Decision (no_colon s).
Proof. induction s; cbn; apply _. Defined.

Lemma split_colon a b x y :
  no_colon a -> no_colon b -> a +:+ String ":" x = b +:+ String ":" y -> a = b /\ x = y.
Proof.
  revert b. induction a as [|c a IH]; intros [|c' b]; cbn; intros Ha Hb Heq; simplify_eq; try naive_solver.
Qed.

Lemma no_colon_app a x : ~ no_colon (a +:+ String ":" x).
Proof. induction a as [|c a IH]; cbn; naive_solver. Qed.

Lemma str_app_assoc (a b c : string) : (a +:+ b) +:+ c = a +:+ (b +:+ c).
Proof. induction a as [|x a IH]; [done|]. exact (f_equal (String x) IH). Qed.

(** ** Views *)

Lemma vset_eq k o v : vset k o v k = o.
Proof. unfold vset. by rewrite decide_True. Qed.

Lemma vset_ne k o v k' : k <> k' -> vset k o v k' = v k'.
Proof. intros Hk. unfold vset. by rewrite decide_False. Qed.

Lemma vset_ext k o v v' k' : (forall k, v k = v' k) -> vset k o v k' = vset k o v' k'.
Proof. intros Hv. unfold vset. by case_decide. Qed.

Section Keys.
Context {Srv : RedisServer} {E : RedisEnv}.

Lemma chunk_key_inj a b : no_colon a -> no_colon b -> chunk_key a = chunk_key b -> a = b.
Proof. intros Ha Hb Heq. by destruct (split_colon a b "chunks" "chunks" Ha Hb Heq). Qed.

Lemma chunk_key_not_id a b : no_colon b -> chunk_key a <> b.
Proof. intros Hb <-. by apply (no_colon_app a "chunks"). Qed.

Lemma staging_as_split a n : staging_chunk_key a n = a +:+ String ":" ("chunks:" +:+ create_type_id n).
Proof. unfold staging_chunk_key, chunk_key. by rewrite str_app_assoc. Qed.

Lemma staging_not_id a n b : no_colon b -> staging_chunk_key a n <> b.
Proof. rewrite staging_as_split. intros Hb <-. by apply (no_colon_app a ("chunks:" +:+ create_type_id n)). Qed.

Lemma staging_not_chunk_key a n b : no_colon a -> no_colon b -> staging_chunk_key a n <> chunk_key b.
Proof.
  rewrite staging_as_split. intros Ha Hb Heq.
  by destruct (split_colon a b ("chunks:" +:+ create_type_id n) "chunks" Ha Hb Heq).
Qed.

Lemma staging_inj `{!RedisEnvOk E} a n b m :
  no_colon a -> no_colon b -> staging_chunk_key a n = staging_chunk_key b m -> a = b /\ n = m.
Proof.
  rewrite !staging_as_split. intros Ha Hb Heq. apply split_colon in Heq as [-> Heq]; [|done..].
  cbn in Heq. simplify_eq. split; [done|]. by apply create_type_id_inj.
Qed.

(** ** Chunks *)

Definition chunks_of (d : bytes) : list bytes := chunks (Z.to_nat CHUNK_SIZE) d.
Definition chunk_map (d : bytes) : gmap nat bytes := map_seq 0 (chunks_of d).

(** The hash of a completed upload. *)
Definition published (d : bytes) : Hash := mkHash (chunk_map d) (Some (length (chunks_of d))).

Lemma CHUNK_SIZE_pos : 0 < CHUNK_SIZE.
Proof. unfold CHUNK_SIZE, DEFAULT_CHUNK_SIZE. repeat case_match; lia. Qed.

Lemma chunks_of_length d : div_ceil (length d) (Z.to_nat CHUNK_SIZE) = length (chunks_of d).
Proof. symmetry. apply length_chunks. pose proof CHUNK_SIZE_pos. lia. Qed.

Lemma chunks_of_concat d : concat (chunks_of d) = d.
Proof. apply concat_chunks. pose proof CHUNK_SIZE_pos. lia. Qed.

Lemma chunks_of_nonzero d : CHUNK_SIZE < Z.of_nat (length d) -> length (chunks_of d) <> 0%nat.
Proof.
  intros Hd Hz. pose proof (chunks_of_concat d) as Hc. apply nil_length_inv in Hz. rewrite Hz in Hc.
  subst d. cbn in Hd. pose proof CHUNK_SIZE_pos. lia.
Qed.

Lemma chunk_map_lookup d i : chunk_map d !! i = chunks_of d !! i.
Proof. unfold chunk_map. rewrite lookup_map_seq. case_guard; [|lia]. by rewrite Nat.sub_0_r. Qed.

Lemma chunk_map_size d : size (chunk_map d) = length (chunks_of d).
Proof. unfold chunk_map. rewrite <- size_dom, dom_seq_L. apply size_set_seq. Qed.

Lemma full_chunk_map d m : m ⊆ chunk_map d -> size m = length (chunks_of d) -> m = chunk_map d.
Proof. intros Hm Hs. apply map_subseteq_size_eq; [done|]. rewrite Hs. by rewrite chunk_map_size. Qed.

(** Reading all of a published hash in order gives back the data. *)
Lemma fetch_chunks_gen ks id h ttl cs off :
  view ks (chunk_key id) = Some (mkEntry (RHash h) ttl) ->
  (forall i, (i < length cs)%nat -> h_chunks h !! (off + i)%nat = cs !! i) ->
  fetch_chunks ks id (seq off (length cs)) = inr (concat cs).
Proof.
  intros Hk. revert off. induction cs as [|c cs IH]; intros off Hl; cbn [seq length fetch_chunks concat]; [done|].
  unfold hget_chunk, hash_at. rewrite Hk. cbn.
  pose proof (Hl 0%nat ltac:(cbn; lia)) as H0. rewrite Nat.add_0_r in H0. rewrite H0. cbn.
  rewrite IH; [done|]. intros i Hi. specialize (Hl (S i) ltac:(cbn; lia)). cbn in Hl.
  by rewrite Nat.add_succ_r in Hl.
Qed.

Lemma fetch_published ks id d ttl :
  view ks (chunk_key id) = Some (mkEntry (RHash (published d)) ttl) ->
  fetch_chunks ks id (seq 0 (length (chunks_of d))) = inr d.
Proof.
  intros Hk. rewrite (fetch_chunks_gen _ _ _ _ _ _ Hk), chunks_of_concat; [done|].
  intros i _. apply (chunk_map_lookup d).
Qed.

Lemma download_published ks id d ttl :
  CHUNK_SIZE < Z.of_nat (length d) ->
  view ks (chunk_key id) = Some (mkEntry (RHash (published d)) ttl) ->
  par_download_file ks id = inr d /\ exists_artifact ks id = inr true.
Proof.
  intros Hd Hk. unfold par_download_file, exists_artifact, hget_count, hash_at. rewrite Hk. cbn.
  rewrite decide_False by (by apply chunks_of_nonzero). split; [by eapply fetch_published|].
  by rewrite orb_true_r.
Qed.

Lemma download_inline ks id d ttl :
  view ks (chunk_key id) = None -> view ks id = Some (mkEntry (RString d) ttl) ->
  par_download_file ks id = inr d /\ exists_artifact ks id = inr true.
Proof.
  intros Hk Hi. unfold par_download_file, exists_artifact, hget_count, hlen, hash_at, get. rewrite Hk, Hi. cbn. done.
Qed.

(** ** Publishing *)

Lemma ARTIFACT_TIMEOUT_pos : 0 < ARTIFACT_TIMEOUT_SECONDS.
Proof. unfold ARTIFACT_TIMEOUT_SECONDS, DEFAULT_ARTIFACT_TIMEOUT_SECONDS. repeat case_match; lia. Qed.

(** A staging hash holds chunks of its attempt only, no marker, and expires soon. *)
Definition staged (d : bytes) (e : Entry) : Prop :=
  exists m, e = mkEntry (RHash (mkHash m None)) (Some STAGING_TTL_SECONDS) /\ m ⊆ chunk_map d.

Definition is_published (ks : Keyspace) (k : string) : Prop :=
  exists h ttl, view ks k = Some (mkEntry (RHash h) ttl) /\ is_Some (h_count h).

Definition is_full (ks : Keyspace) (k : string) (d : bytes) : Prop :=
  view ks k = Some (mkEntry (RHash (mkHash (chunk_map d) None)) (Some STAGING_TTL_SECONDS)).

Context `{!RedisServerOk Srv}.

(** The script publishes exactly a complete staging hash onto an unpublished key,
    and otherwise only reclaims. *)
Lemma publish_cases ks staging final inline d program oh :
  staging <> final ->
  length (chunks_of d) <> 0%nat ->
  hash_at ks final = inr oh ->
  (forall e, view ks staging = Some e -> staged d e) ->
  exists ks' z,
    publish_script ks staging final inline (length (chunks_of d)) (retention_seconds program) = (ks', inr z) /\
    ((z = 2 /\ is_Some (oh ≫= h_count) /\ forall k, view ks' k = vset inline None (vset staging None (view ks)) k) \/
     (z = 0 /\ oh ≫= h_count = None /\ ~ is_full ks staging d /\ forall k, view ks' k = vset staging None (view ks) k) \/
     (z = 1 /\ oh ≫= h_count = None /\ is_full ks staging d /\
      forall k, view ks' k =
        vset inline None (vset final (Some (mkEntry (RHash (published d)) (retention program))) (vset staging None (view ks))) k)).
Proof.
  intros Hne Hn Hfin Hst. unfold publish_script, hget_count. rewrite Hfin. cbn [bind_result].
  destruct (oh ≫= h_count) as [c|] eqn:Hc.
  { eexists _, _; split; [done|]. left. split_and!; [done|by eauto|]. intros k. rewrite view_unlink. apply vset_ext, view_unlink. }
  unfold hlen, hash_at. destruct (view ks staging) as [e|] eqn:Hs; cbn [bind_result from_option].
  2:{ rewrite decide_True by done. eexists _, _; split; [done|]. right; left. unfold is_full. rewrite Hs.
      split_and!; try done. apply view_unlink. }
  destruct (Hst e eq_refl) as (m & -> & Hm). cbn [bind_result from_option]. unfold hash_len. cbn [h_chunks h_count].
  rewrite Nat.add_0_r. destruct (decide (size m <> length (chunks_of d))) as [Hsz|Hsz].
  { eexists _, _; split; [done|]. right; left. split_and!; [done..| |apply view_unlink]. unfold is_full. rewrite Hs.
    intros [= ->]. by rewrite chunk_map_size in Hsz. }
  apply dec_stable in Hsz. pose proof (full_chunk_map d m Hm Hsz) as ->.
  pose proof (hset_count_spec ks staging (length (chunks_of d))) as Hset. unfold writes, hash_write in Hset. rewrite Hs in Hset.
  destruct (hset_count ks staging _) as [e1|ks1]; [done|].
  pose proof (rename_spec (unlink ks1 final) staging final) as Hren.
  rewrite view_unlink, vset_ne, Hset, vset_eq in Hren by done.
  destruct (rename _ _ _) as [e2|ks3]; [done|].
  eexists _, _; split; [done|]. right; right. split_and!; [done..|]. intros k. rewrite view_unlink. apply vset_ext. intros k'.
  transitivity (vset final (with_ttl (retention program) <$> view ks3 final) (view ks3) k').
  { unfold retention, retention_seconds. pose proof ARTIFACT_TIMEOUT_pos.
    destruct program; [rewrite decide_False by lia; apply view_persist|rewrite decide_True by lia; apply view_expire]. }
  destruct (decide (final = k')) as [<-|Hf]; [by rewrite Hren, !vset_eq|]. rewrite (vset_ne final), Hren by done.
  rewrite !(vset_ne final) by done. destruct (decide (staging = k')) as [<-|Hk]; [by rewrite !vset_eq|].
  by rewrite !(vset_ne staging), view_unlink, vset_ne, Hset, vset_ne by done.
Qed.

(** ** The invariant of the interleaved store *)

Definition op_ids_ok (o : store_op) : Prop :=
  match o with
  | OInline id _ _ | OStart id _ _ | OUnlinkInline id | OUnlinkChunks id => no_colon id
  | _ => True
  end.

Record StoreOk (s : Store) : Prop := {
  so_attempt n a : s_attempts s !! n = Some a ->
    no_colon (a_id a) /\ CHUNK_SIZE < Z.of_nat (length (a_data a)) /\ (a_id a, a_data a) ∈ s_uploads s;
  so_inline id e : no_colon id -> view (s_keys s) id = Some e ->
    exists d ttl, e = mkEntry (RString d) ttl /\ (id, d) ∈ s_uploads s;
  so_final id e : no_colon id -> view (s_keys s) (chunk_key id) = Some e ->
    exists d program, e = mkEntry (RHash (published d)) (retention program) /\
      CHUNK_SIZE < Z.of_nat (length d) /\ (id, d) ∈ s_uploads s;
  so_staging id n e : no_colon id -> view (s_keys s) (staging_chunk_key id n) = Some e ->
    exists a, s_attempts s !! n = Some a /\ a_id a = id /\ staged (a_data a) e;
}.

Lemma empty_store_ok : StoreOk empty_store.
Proof. split; cbn; intros *; rewrite ?view_no_keys; done. Qed.

Definition subkeys (ks' ks : Keyspace) : Prop := forall k e, view ks' k = Some e -> view ks k = Some e.

#[local] Instance subkeys_refl : Reflexive subkeys.
Proof. by intros ks k e. Qed.

(** Removing keys, as the commands do it. *)
Lemma subkeys_removed ks' ks k : (forall k', view ks' k' = vset k None (view ks) k') -> subkeys ks' ks.
Proof. intros Hv k' e. rewrite Hv. unfold vset. by case_decide. Qed.

Lemma subkeys_unlink ks k : subkeys (unlink ks k) ks.
Proof. apply (subkeys_removed _ _ k), view_unlink. Qed.

Hint Resolve subkeys_unlink subkeys_refl : core.

(** Fewer keys, more uploads, other readers and attempts of the same data keep it. *)
Lemma store_ok_weaken s s' :
  StoreOk s ->
  subkeys (s_keys s') (s_keys s) ->
  s_uploads s ⊆ s_uploads s' ->
  (forall n a', s_attempts s' !! n = Some a' ->
     (exists a, s_attempts s !! n = Some a /\ a_id a' = a_id a /\ a_data a' = a_data a) \/
     (no_colon (a_id a') /\ CHUNK_SIZE < Z.of_nat (length (a_data a')) /\ (a_id a', a_data a') ∈ s_uploads s')) ->
  (forall n a, s_attempts s !! n = Some a ->
     exists a', s_attempts s' !! n = Some a' /\ a_id a' = a_id a /\ a_data a' = a_data a) ->
  StoreOk s'.
Proof.
  intros Hok Hk Hu Hback Hfwd. split.
  - intros n a' Ha. destruct (Hback n a' Ha) as [(a & Ha' & -> & ->)|]; [|done].
    destruct (so_attempt _ Hok _ _ Ha') as (? & ? & ?). eauto.
  - intros id e Hid He%Hk. destruct (so_inline _ Hok _ _ Hid He) as (d & ttl & -> & ?). eauto.
  - intros id e Hid He%Hk. destruct (so_final _ Hok _ _ Hid He) as (d & p & -> & ? & ?). eauto 10.
  - intros id n e Hid He%Hk. destruct (so_staging _ Hok _ _ _ Hid He) as (a & Ha & <- & Hst).
    destruct (Hfwd _ _ Ha) as (a' & ? & ? & Hd). exists a'. by rewrite Hd.
Qed.

(** Replacing the bookkeeping of one attempt. *)
Lemma store_ok_attempt s ks n a a' :
  StoreOk s -> s_attempts s !! n = Some a -> a_id a' = a_id a -> a_data a' = a_data a -> subkeys ks (s_keys s) ->
  StoreOk (mkStore ks (<[n := a']> (s_attempts s)) (s_readers s) (s_uploads s)).
Proof.
  intros Hok Ha Hid Hd Hks. apply (store_ok_weaken s); cbn; [done..| |].
  - intros m b Hb. destruct (decide (m = n)) as [->|Hne].
    + rewrite list_lookup_insert_eq in Hb by (by eapply lookup_lt_Some). simplify_eq. eauto.
    + rewrite list_lookup_insert_ne in Hb by done. eauto.
  - intros m b Hb. destruct (decide (m = n)) as [->|Hne].
    + rewrite list_lookup_insert_eq by (by eapply lookup_lt_Some). simplify_eq. eauto.
    + rewrite list_lookup_insert_ne by done. eauto.
Qed.

(** Only the keys shrink. *)
Lemma store_ok_keys s ks rs :
  StoreOk s -> subkeys ks (s_keys s) -> StoreOk (mkStore ks (s_attempts s) rs (s_uploads s)).
Proof. intros Hok Hks. apply (store_ok_weaken s); cbn; eauto. Qed.

(** A write to one key that satisfies the invariant's clause for that key. *)
Lemma store_ok_insert s ks k e :
  StoreOk s ->
  (forall k' e', view ks k' = Some e' -> vset k (Some e) (view (s_keys s)) k' = Some e') ->
  (forall id, no_colon id -> k = id -> exists d ttl, e = mkEntry (RString d) ttl /\ (id, d) ∈ s_uploads s) ->
  (forall id, no_colon id -> k = chunk_key id -> exists d program, e = mkEntry (RHash (published d)) (retention program) /\
      CHUNK_SIZE < Z.of_nat (length d) /\ (id, d) ∈ s_uploads s) ->
  (forall id n, no_colon id -> k = staging_chunk_key id n ->
      exists a, s_attempts s !! n = Some a /\ a_id a = id /\ staged (a_data a) e) ->
  StoreOk (with_keys s ks).
Proof.
  intros Hok Hv Hi Hf Hs.
  assert (Hcase : forall k' e', view ks k' = Some e' -> k = k' /\ e = e' \/ view (s_keys s) k' = Some e').
  { intros k' e' He%Hv. unfold vset in He. case_decide; naive_solver. }
  split; cbn.
  - apply (so_attempt _ Hok).
  - intros id e' Hid [[-> <-]|He]%Hcase; eauto using so_inline.
  - intros id e' Hid [[-> <-]|He]%Hcase; [eauto|by eapply so_final].
  - intros id n e' Hid [[-> <-]|He]%Hcase; [eauto|by eapply so_staging].
Qed.

Lemma stage_chunk_staged ks st d i c :
  (forall e, view ks st = Some e -> staged d e) -> chunks_of d !! i = Some c ->
  exists ks' m, stage_chunk ks st i c = (ks', inr tt) /\
    (forall k, view ks' k = vset st (Some (mkEntry (RHash (mkHash (<[i := c]> m) None)) (Some STAGING_TTL_SECONDS))) (view ks) k) /\
    <[i := c]> m ⊆ chunk_map d /\
    (m = ∅ /\ view ks st = None \/ view ks st = Some (mkEntry (RHash (mkHash m None)) (Some STAGING_TTL_SECONDS))).
Proof.
  intros Hst Hc. unfold stage_chunk. pose proof (hset_chunk_spec ks st i c) as Hset. unfold writes, hash_write in Hset.
  assert (exists m, (m = ∅ /\ view ks st = None \/ view ks st = Some (mkEntry (RHash (mkHash m None)) (Some STAGING_TTL_SECONDS))) /\
    m ⊆ chunk_map d) as (m & Hm & Hsub).
  { destruct (view ks st) as [e|]; [|exists ∅; split; [auto|apply map_empty_subseteq]].
    destruct (Hst e eq_refl) as (m & -> & ?). eauto. }
  assert (<[i := c]> m ⊆ chunk_map d) by (apply insert_subseteq_l; [by rewrite chunk_map_lookup|done]).
  destruct (hset_chunk ks st i c) as [e|ks1]; [by destruct Hm as [[_ Hm]|Hm]; rewrite Hm in Hset|].
  exists (expire ks1 st STAGING_TTL_SECONDS), m. split_and!; [done| |done|done]. intros k. rewrite view_expire.
  destruct Hm as [[-> Hm]|Hm]; rewrite Hm in Hset; destruct (decide (st = k)) as [<-|Hk];
    rewrite ?vset_eq, ?vset_ne by done; rewrite Hset, ?vset_eq, ?vset_ne by done; done.
Qed.

Context `{!RedisEnvOk E}.

Lemma store_ok_staging_insert s ks n a e :
  StoreOk s -> s_attempts s !! n = Some a -> staged (a_data a) e ->
  (forall k, view ks k = vset (staging_chunk_key (a_id a) n) (Some e) (view (s_keys s)) k) ->
  StoreOk (with_keys s ks).
Proof.
  intros Hok Ha He Hv. destruct (so_attempt _ Hok _ _ Ha) as (Hid & _ & _).
  apply (store_ok_insert s ks (staging_chunk_key (a_id a) n) e); [done|intros *; by rewrite Hv|..].
  - intros id Hid' Heq. by destruct (staging_not_id (a_id a) n id Hid').
  - intros id Hid' Heq. by destruct (staging_not_chunk_key (a_id a) n id Hid Hid').
  - intros id m Hid' Heq. destruct (staging_inj _ _ _ _ Hid Hid' Heq) as [<- <-]. eauto.
Qed.

Lemma store_ok_final_insert s ks id d program :
  StoreOk s -> no_colon id -> CHUNK_SIZE < Z.of_nat (length d) -> (id, d) ∈ s_uploads s ->
  (forall k e, view ks k = Some e ->
     vset (chunk_key id) (Some (mkEntry (RHash (published d)) (retention program))) (view (s_keys s)) k = Some e) ->
  StoreOk (with_keys s ks).
Proof.
  intros Hok Hid Hd Hu Hv. apply (store_ok_insert _ _ _ _ Hok Hv).
  - intros id' Hid' Heq. by destruct (chunk_key_not_id id id' Hid').
  - intros id' Hid' Heq. apply chunk_key_inj in Heq as <-; eauto 10.
  - intros id' n Hid' Heq. by destruct (staging_not_chunk_key id' n id Hid' Hid).
Qed.

(** The server's view after a chunk write of an attempt. *)
Lemma attempt_stage s n a i c :
  StoreOk s -> s_attempts s !! n = Some a -> a_chunks a !! i = Some c ->
  exists ks' e, stage_chunk (s_keys s) (staging_chunk_key (a_id a) n) i c = (ks', inr tt) /\ staged (a_data a) e /\
    forall k, view ks' k = vset (staging_chunk_key (a_id a) n) (Some e) (view (s_keys s)) k.
Proof.
  intros Hok Ha Hc. destruct (so_attempt _ Hok _ _ Ha) as (Hid & _ & _).
  destruct (stage_chunk_staged (s_keys s) (staging_chunk_key (a_id a) n) (a_data a) i c) as (ks' & m & Heq & Hv & Hm & _); [|done|].
  { intros e He. destruct (so_staging _ Hok _ _ _ Hid He) as (a' & Ha' & _ & Hst). by simplify_eq. }
  eexists ks', _. split_and!; [done| |done]. by eexists.
Qed.

Lemma write_chunk_ok s n i : StoreOk s -> StoreOk (write_chunk s n i).
Proof.
  intros Hok. unfold write_chunk. destruct (s_attempts s !! n) as [a|] eqn:Ha; [|done].
  destruct (a_chunks a !! i) as [c|] eqn:Hc; [|done].
  destruct (attempt_stage s n a i c Hok Ha Hc) as (ks' & e & -> & He & Hv).
  by eapply (store_ok_attempt (with_keys s ks')), subkeys_refl; cbn; [eapply store_ok_staging_insert|..].
Qed.

(** What the publish of an attempt does to a sound store. *)
Lemma publish_attempt_cases s n a :
  StoreOk s -> s_attempts s !! n = Some a ->
  exists ks' z, let staging := staging_chunk_key (a_id a) n in
    publish_script (s_keys s) staging (chunk_key (a_id a)) (a_id a) (a_count a) (retention_seconds (a_program a)) = (ks', inr z) /\
    ((forall k, view ks' k = vset (a_id a) None (vset staging None (view (s_keys s))) k) \/
     (forall k, view ks' k = vset staging None (view (s_keys s)) k) \/
     view (s_keys s) (chunk_key (a_id a)) = None /\
     (forall k, view ks' k = vset (a_id a) None (vset (chunk_key (a_id a))
        (Some (mkEntry (RHash (published (a_data a))) (retention (a_program a)))) (vset staging None (view (s_keys s)))) k)).
Proof.
  intros Hok Ha. destruct (so_attempt _ Hok _ _ Ha) as (Hid & Hlen & Hu). unfold a_count. rewrite chunks_of_length.
  assert (exists oh, hash_at (s_keys s) (chunk_key (a_id a)) = inr oh /\
            (oh ≫= h_count = None -> view (s_keys s) (chunk_key (a_id a)) = None)) as (oh & Hoh & Hnone).
  { unfold hash_at. destruct (view (s_keys s) (chunk_key (a_id a))) as [e|] eqn:He; [|eauto].
    destruct (so_final _ Hok _ _ Hid He) as (d & p & -> & _). by eexists. }
  destruct (publish_cases (s_keys s) (staging_chunk_key (a_id a) n) (chunk_key (a_id a)) (a_id a) (a_data a) (a_program a) oh)
    as (ks' & z & Heq & Hcases); [by apply staging_not_chunk_key|by apply chunks_of_nonzero|done| |].
  { intros e He. destruct (so_staging _ Hok _ _ _ Hid He) as (a' & Ha' & _ & Hst). by simplify_eq. }
  exists ks', z. split; [done|]. naive_solver.
Qed.

Lemma finish_attempt_ok s n : StoreOk s -> StoreOk (finish_attempt s n).
Proof.
  intros Hok. unfold finish_attempt. destruct (s_attempts s !! n) as [a|] eqn:Ha; [|done].
  destruct (negb (a_over a) && _); [|done]. destruct (so_attempt _ Hok _ _ Ha) as (Hid & Hlen & Hu).
  destruct (a_failed a); [by eapply store_ok_attempt, subkeys_unlink|].
  destruct (publish_attempt_cases s n a Hok Ha) as (ks' & z & -> & Hcases).
  cbn [fst]. destruct Hcases as [Hv|[Hv|[_ Hv]]].
  - eapply store_ok_attempt; [done..|]. intros k e. rewrite Hv. unfold vset. by repeat case_decide.
  - eapply store_ok_attempt; [done..|]. by eapply subkeys_removed.
  - eapply (store_ok_attempt (with_keys s ks')); cbn; [|done..].
    eapply store_ok_final_insert; [done..|]. intros k e. rewrite Hv. unfold vset. by repeat case_decide.
Qed.

Lemma upload_inline_ok s program id d :
  StoreOk s -> no_colon id ->
  StoreOk (mkStore (upload_inline (s_keys s) program id d) (s_attempts s) (s_readers s) ((id, d) :: s_uploads s)).
Proof.
  intros Hok Hid. set (s1 := mkStore (s_keys s) (s_attempts s) (s_readers s) ((id, d) :: s_uploads s)).
  assert (StoreOk s1) as Hok1 by (apply (store_ok_weaken s); cbn; [done..|set_solver| |]; eauto).
  assert (StoreOk (with_keys s1 (set_options (s_keys s1) id d (retention program)))) as Hok2.
  { eapply store_ok_insert; [done|intros k e; by rewrite view_set_options|..].
    - intros id' _ <-. eexists _, _. split; [done|]. cbn. set_solver.
    - intros id' _ ->. by destruct (chunk_key_not_id id' _ Hid).
    - intros id' n _ ->. by destruct (staging_not_id id' n _ Hid). }
  by eapply (store_ok_keys _ _ _ Hok2), subkeys_unlink.
Qed.

Lemma store_step_ok s o : StoreOk s -> op_ids_ok o -> StoreOk (store_step s o).
Proof.
  intros Hok Hids. destruct o; cbn in *.
  - case_decide; [|done]. by apply upload_inline_ok.
  - case_decide; [done|]. apply (store_ok_weaken s); cbn; [done..|set_solver| |].
    + intros n a' [Ha|[Hn Ha]]%lookup_app_Some; [eauto|].
      apply list_lookup_singleton_Some in Ha as [_ <-]. right. cbn. split_and!; [done|lia|set_solver].
    + intros n a Ha. exists a. split; [by apply lookup_app_l_Some|done].
  - by apply write_chunk_ok.
  - unfold join_chunk. destruct (s_attempts s !! n) as [a|] eqn:Ha; [|done]. case_match; [|done].
    by eapply store_ok_attempt.
  - by apply finish_attempt_ok.
  - unfold cancel_attempt. destruct (s_attempts s !! n) as [a|] eqn:Ha; [|done]. by eapply store_ok_attempt.
  - by apply store_ok_keys, subkeys_unlink.
  - by apply store_ok_keys, subkeys_unlink.
  - case_decide; [|done]. by apply store_ok_keys, subkeys_unlink.
  - by apply store_ok_keys.
  - by apply store_ok_keys.
Qed.

Lemma store_run_ok s ops : StoreOk s -> Forall op_ids_ok ops -> StoreOk (store_run s ops).
Proof.
  intros Hok Hops. revert s Hok. induction Hops as [|o ops Ho _ IH]; intros s Hok; [done|].
  cbn. apply IH. by apply store_step_ok.
Qed.

End Keys.
