(* ===== verification/RedisProps.v ===== *)
(** * Properties of the Redis artifact store

    What a reader can see under any interleaving of uploads, the round trip through
    failing attempts, and the admission bound. *)
From Stdlib Require Import Ascii.
From stdpp Require Import base gmap strings list fin_maps pretty.
From S2P Require Import Prelude Redis RedisFacts.
Import Redis.
Local Open Scope string_scope.
Local Open Scope list_scope.
Local Open Scope Z_scope.

Section Readers.
Context {Srv : RedisServer} {E : RedisEnv} `{!RedisServerOk Srv} `{!RedisEnvOk E}.

Lemma store_ok_download s id :
  StoreOk s -> no_colon id ->
  (exists d, par_download_file (s_keys s) id = inr d /\ exists_artifact (s_keys s) id = inr true /\ (id, d) ∈ s_uploads s) \/
  (par_download_file (s_keys s) id = inl (Permanent (not_found id)) /\ exists_artifact (s_keys s) id = inr false).
Proof.
  intros Hok Hid. destruct (view (s_keys s) (chunk_key id)) as [e|] eqn:He.
  - destruct (so_final _ Hok _ _ Hid He) as (d & p & -> & Hd & Hu).
    destruct (download_published _ _ _ _ Hd He). left. eauto.
  - destruct (view (s_keys s) id) as [e|] eqn:Hi.
    + destruct (so_inline _ Hok _ _ Hid Hi) as (d & ttl & -> & Hu).
      destruct (download_inline _ _ _ _ He Hi). left. eauto.
    + right. unfold par_download_file, exists_artifact, hget_count, hlen, hash_at, get. by rewrite He, Hi.
Qed.

(** The operations that neither delete, nor overwrite inline, nor expire the chunk
    hash of [id]. *)
Definition keeps_published (id : string) (o : store_op) : Prop :=
  match o with
  | OInline id' _ _ | OUnlinkChunks id' => id' <> id
  | OExpire k => k <> chunk_key id
  | _ => True
  end.

(** A published hash is immutable. *)
Lemma published_kept s o id e :
  StoreOk s -> op_ids_ok o -> no_colon id -> keeps_published id o ->
  view (s_keys s) (chunk_key id) = Some e -> view (s_keys (store_step s o)) (chunk_key id) = Some e.
Proof.
  intros Hok Hids Hid Hkeep He. destruct o; cbn in *; try done.
  - case_decide; [|done]. cbn. unfold upload_inline. rewrite view_unlink, vset_ne, view_set_options, vset_ne; [done|..].
    + intros Heq. by apply (chunk_key_not_id id id0).
    + intros Heq. by apply chunk_key_inj in Heq.
  - by case_decide.
  - unfold write_chunk. destruct (s_attempts s !! n) as [a|] eqn:Ha; [|done].
    destruct (a_chunks a !! i) as [c|] eqn:Hc; [|done].
    destruct (so_attempt _ Hok _ _ Ha) as (Hid' & _ & _).
    destruct (attempt_stage s n a i c Hok Ha Hc) as (ks' & e' & -> & _ & Hv).
    cbn. rewrite Hv, vset_ne; [done|]. by apply staging_not_chunk_key.
  - unfold join_chunk. destruct (s_attempts s !! n) as [a|]; [|done]. by case_match.
  - unfold finish_attempt. destruct (s_attempts s !! n) as [a|] eqn:Ha; [|done].
    destruct (negb (a_over a) && _); [|done]. destruct (so_attempt _ Hok _ _ Ha) as (Hid' & _ & _). cbn.
    assert (staging_chunk_key (a_id a) n <> chunk_key id) as Hne by (by apply staging_not_chunk_key).
    assert (a_id a <> chunk_key id) as Hne' by (intros Heq; by apply (chunk_key_not_id id (a_id a))).
    destruct (a_failed a); [by rewrite view_unlink, vset_ne|].
    destruct (publish_attempt_cases s n a Hok Ha) as (ks' & z & -> & Hcases).
    cbn [fst]. destruct Hcases as [Hv|[Hv|[Hnone Hv]]]; rewrite Hv, !vset_ne; try done.
    intros Heq. apply chunk_key_inj in Heq; [|done..]. subst id. by rewrite He in Hnone.
  - unfold cancel_attempt. by destruct (s_attempts s !! n).
  - rewrite view_unlink, vset_ne; [done|]. intros Heq. by apply (chunk_key_not_id id id0).
  - rewrite view_unlink, vset_ne; [done|]. intros Heq. by apply chunk_key_inj in Heq.
  - case_decide; [|done]. cbn. by rewrite view_unlink, vset_ne.
Qed.

Lemma uploads_grow s o : s_uploads s ⊆ s_uploads (store_step s o).
Proof.
  destruct o; cbn; repeat case_decide; cbn; try set_solver; unfold write_chunk, join_chunk, finish_attempt, cancel_attempt;
    repeat case_match; cbn; set_solver.
Qed.

(** What a download of [id] has seen so far is part of one upload. *)
Definition phase_ok (s : Store) (id : string) (ph : ReadPhase) : Prop :=
  match ph with
  | ReadChunks total got =>
      exists d ttl, view (s_keys s) (chunk_key id) = Some (mkEntry (RHash (published d)) ttl) /\
        (id, d) ∈ s_uploads s /\ (length (chunks_of d) <= total)%nat /\ got ⊆ chunk_map d
  | ReadDone (inr d) => (id, d) ∈ s_uploads s
  | _ => True
  end.

Lemma phase_ok_kept s o id ph :
  StoreOk s -> op_ids_ok o -> no_colon id -> keeps_published id o ->
  phase_ok s id ph -> phase_ok (store_step s o) id ph.
Proof.
  intros Hok Hids Hid Hkeep. pose proof (uploads_grow s o) as Hu. destruct ph as [| | | |total got|[e|d]]; cbn; try done.
  - intros (d & ttl & Hk & Hin & Hle & Hgot). exists d, ttl. split_and!; [by apply published_kept|set_solver|done|done].
  - set_solver.
Qed.

(** Finding the number of chunks. *)
Lemma phase_ok_total s id n ph :
  StoreOk s -> no_colon id -> phase_ok s id ph ->
  (forall e, view (s_keys s) (chunk_key id) = Some e -> exists h ttl, e = mkEntry (RHash h) ttl /\ (size (h_chunks h) <= n)%nat) ->
  (view (s_keys s) (chunk_key id) = None -> n = 0%nat) ->
  phase_ok s id (read_total n ph).
Proof.
  intros Hok Hid Hph Hn Hz. unfold read_total. case_decide; [done|].
  destruct (view (s_keys s) (chunk_key id)) as [e|] eqn:He; [|by destruct H; apply Hz].
  destruct (so_final _ Hok _ _ Hid He) as (d & p & -> & Hd & Hin).
  destruct (Hn _ eq_refl) as (h & ttl & [= <- <-] & Hle). cbn in Hle. rewrite chunk_map_size in Hle.
  exists d, (retention p). split_and!; [done..|]. apply map_empty_subseteq.
Qed.

Lemma read_all d got total :
  got ⊆ chunk_map d -> size got = total -> (length (chunks_of d) <= total)%nat ->
  concat (map (fun i => default [] (got !! i)) (seq 0 total)) = d.
Proof.
  intros Hgot <- Hle. pose proof (map_subseteq_size _ _ Hgot) as Hsz. rewrite chunk_map_size in Hsz.
  rewrite (full_chunk_map d got Hgot) by lia. rewrite chunk_map_size. etrans; [|apply chunks_of_concat]. f_equal.
  apply list_eq; intros i. rewrite list_lookup_fmap. destruct (decide (i < length (chunks_of d))%nat) as [Hi|Hi].
  - rewrite lookup_seq_lt by done. cbn. rewrite chunk_map_lookup.
    destruct (lookup_lt_is_Some_2 _ _ Hi) as [c Hc]. by rewrite Hc.
  - rewrite lookup_seq_ge, lookup_ge_None_2 by lia. done.
Qed.

Lemma read_step_ok s id ph i :
  StoreOk s -> no_colon id -> phase_ok s id ph -> phase_ok s id (read_step (s_keys s) (mkReader id ph) i).
Proof.
  intros Hok Hid Hph. unfold read_step. cbn [r_id r_phase].
  assert (Hhash : hash_at (s_keys s) (chunk_key id) = inr None /\ view (s_keys s) (chunk_key id) = None \/
                  exists d p, view (s_keys s) (chunk_key id) = Some (mkEntry (RHash (published d)) (retention p)) /\
                    hash_at (s_keys s) (chunk_key id) = inr (Some (published d))).
  { unfold hash_at. destruct (view (s_keys s) (chunk_key id)) as [e|] eqn:He; [right|by left].
    destruct (so_final _ Hok _ _ Hid He) as (d & p & -> & _). eauto. }
  unfold hget_count, hlen, hget_chunk.
  destruct ph as [| | | |total got|r]; try done.
  - destruct Hhash as [[-> Hk]|(d & p & Hk & ->)]; cbn; [done|].
    apply phase_ok_total; try done; rewrite Hk; [|done]. intros e [= <-]. eexists _, _. split; [done|]. cbn. by rewrite chunk_map_size.
  - destruct Hhash as [[-> Hk]|(d & p & Hk & ->)]; cbn [bind_result from_option].
    + apply phase_ok_total; try done. by rewrite Hk.
    + apply phase_ok_total; try done; rewrite Hk; [|done]. intros e [= <-]. eexists _, _. split; [done|]. unfold hash_len. lia.
  - unfold get. destruct (view (s_keys s) id) as [e|] eqn:He; [|done].
    destruct (so_inline _ Hok _ _ Hid He) as (d & ttl & -> & Hin). done.
  - destruct Hhash as [[-> Hk]|(d & p & Hk & ->)]; cbn.
    + apply phase_ok_total; try done. by rewrite Hk.
    + apply phase_ok_total; try done; rewrite Hk; [|done]. intros e [= <-]. eexists _, _. split; [done|]. cbn. by rewrite chunk_map_size.
  - destruct Hph as (d & ttl & Hk & Hin & Hle & Hgot). case_decide; [|by exists d, ttl].
    unfold hash_at. rewrite Hk. cbn [bind_result]. cbn [mbind option_bind h_chunks published].
    destruct (chunk_map d !! i) as [c|] eqn:Hc; [|done].
    assert (<[i:=c]> got ⊆ chunk_map d) as Hgot' by (by apply insert_subseteq_l). cbv zeta.
    case_decide as Hsz; [|exists d, ttl; done]. cbn. by rewrite (read_all d).
Qed.

Lemma reader_run s ops r id ph :
  StoreOk s -> Forall op_ids_ok ops -> Forall (keeps_published id) ops -> no_colon id ->
  s_readers s !! r = Some (mkReader id ph) -> phase_ok s id ph ->
  exists ph', s_readers (store_run s ops) !! r = Some (mkReader id ph') /\ phase_ok (store_run s ops) id ph'.
Proof.
  intros Hok Hids Hkeep Hid. revert s ph Hok. induction ops as [|o ops IH]; intros s ph Hok Hr Hph; [by exists ph|].
  apply Forall_cons in Hids as [Ho Hids], Hkeep as [Hk Hkeep]. cbn.
  assert (exists ph', s_readers (store_step s o) !! r = Some (mkReader id ph') /\ phase_ok s id ph') as (ph' & Hr' & Hph').
  { destruct o; cbn; unfold write_chunk, join_chunk, finish_attempt, cancel_attempt;
      repeat (first [case_decide|case_match]; cbn; try by exists ph); try by exists ph.
    - exists ph. split; [by apply lookup_app_l_Some|done].
    - destruct (decide (r = r0)) as [<-|Hne].
      + rewrite list_lookup_alter_eq, Hr. cbn. eexists. split; [done|]. by apply read_step_ok.
      + rewrite list_lookup_alter_ne by done. by exists ph. }
  apply (IH Hids Hkeep _ ph'); [by apply store_step_ok|done|]. by apply phase_ok_kept.
Qed.

(** However uploads, deletions, expirations and downloads interleave, command by
    command, a node never serves part of an artifact: for every artifact a download
    of the current contents either returns the bytes of one upload of it in full, in
    which case [exists] answers true, or reports a permanent not-found, in which case
    [exists] answers false. A hash at the final key carries the artifact's own
    retention, and every staging hash carries the short staging lifetime and no
    marker, whatever became of its attempt. *)
Theorem store_serves_whole_artifacts ops id :
  Forall op_ids_ok ops -> no_colon id ->
  let s := store_run empty_store ops in
  ((exists d, par_download_file (s_keys s) id = inr d /\ exists_artifact (s_keys s) id = inr true /\ (id, d) ∈ s_uploads s) \/
   (par_download_file (s_keys s) id = inl (Permanent (not_found id)) /\ exists_artifact (s_keys s) id = inr false)) /\
  (forall e, view (s_keys s) (chunk_key id) = Some e -> exists program, e_ttl e = retention program) /\
  (forall n e, view (s_keys s) (staging_chunk_key id n) = Some e ->
     e_ttl e = Some STAGING_TTL_SECONDS /\ exists h, e_val e = RHash h /\ h_count h = None).
Proof.
  intros Hids Hid s. pose proof (store_run_ok _ _ empty_store_ok Hids) as Hok. fold s in Hok. split_and!.
  - by apply store_ok_download.
  - intros e He. destruct (so_final _ Hok _ _ Hid He) as (d & p & -> & _). by exists p.
  - intros n e He. destruct (so_staging _ Hok _ _ _ Hid He) as (a & _ & _ & m & -> & _). cbn. eauto.
Qed.

(** C26. A download that overlaps any number of uploads never mixes them. If, from the
    moment it begins, its artifact's chunk hash is not deleted, expired or replaced
    inline, then whatever it returns is the whole of one upload: a publish that lands
    between its commands makes it fail and retry at worst. *)
Theorem readers_never_mix before during id d :
  Forall op_ids_ok before -> Forall op_ids_ok during -> no_colon id -> Forall (keeps_published id) during ->
  let s := store_run empty_store before in
  let s' := store_run s (OReadStart id :: during) in
  s_readers s' !! length (s_readers s) = Some (mkReader id (ReadDone (inr d))) -> (id, d) ∈ s_uploads s'.
Proof.
  intros Hb Hd Hid Hkeep s s' Hr. pose proof (store_run_ok _ _ empty_store_ok Hb) as Hok. fold s in Hok.
  destruct (reader_run (store_step s (OReadStart id)) during (length (s_readers s)) id ReadCount) as (ph & Hr' & Hph);
    [by apply store_step_ok|done..| |done|].
  { cbn. rewrite lookup_app_r, Nat.sub_diag by lia. done. }
  change (store_run (store_step s (OReadStart id)) during) with s' in Hr', Hph. by simplify_eq.
Qed.

End Readers.

(** ** Round trip through failing attempts *)
Section RoundTrip.
Context {Srv : RedisServer} {E : RedisEnv} `{!RedisServerOk Srv} `{!RedisEnvOk E}.

Definition has_chunk (ks : Keyspace) (st : string) (i : nat) : Prop :=
  exists m ttl, view ks st = Some (mkEntry (RHash (mkHash m None)) ttl) /\ is_Some (m !! i).

Definition only_at (st : string) (ks' ks : Keyspace) : Prop := forall k, st <> k -> view ks' k = view ks k.

Lemma send_chunk_spec f st d ks err i ks' err' :
  (forall e, view ks st = Some e -> staged d e) -> (i < length (chunks_of d))%nat ->
  send_chunk f st (chunks_of d) (ks, err) i = (ks', err') ->
  (forall e, view ks' st = Some e -> staged d e) /\ only_at st ks' ks /\
  (forall j, has_chunk ks st j -> has_chunk ks' st j) /\
  (f_chunk f i = Done -> err' = err /\ has_chunk ks' st i).
Proof.
  intros Hst Hi. destruct (lookup_lt_is_Some_2 _ _ Hi) as [c Hc].
  destruct (stage_chunk_staged ks st d i c Hst Hc) as (ks1 & m & Heq & Hv & Hm & Hold).
  unfold send_chunk, send. cbn [fst snd]. rewrite (list_lookup_total_correct _ _ _ Hc), Heq.
  pose proof (Hv st) as Hvst. rewrite vset_eq in Hvst.
  assert (Hran : (forall e, view ks1 st = Some e -> staged d e) /\ only_at st ks1 ks /\ (forall j, has_chunk ks st j -> has_chunk ks1 st j)).
  { split_and!.
    - intros e. rewrite Hvst. intros [= <-]. by eexists.
    - intros k Hk. by rewrite Hv, vset_ne.
    - intros j (m' & ttl & Hk & Hj). eexists _, _. split; [done|].
      destruct Hold as [[_ Hn]|Hs]; [congruence|]. rewrite Hs in Hk. simplify_eq. by apply lookup_insert_is_Some'; right. }
  destruct Hran as (H1 & H2 & H3).
  destruct (f_chunk f i) eqn:Hf; intros [= <- <-]; split_and!; try done.
  intros _. split; [done|]. eexists _, _. split; [done|]. rewrite lookup_insert_eq. eauto.
Qed.

Lemma send_chunks_spec f st d order ks err ks' err' :
  (forall e, view ks st = Some e -> staged d e) -> Forall (fun i => i < length (chunks_of d))%nat order ->
  foldl (send_chunk f st (chunks_of d)) (ks, err) order = (ks', err') ->
  (forall e, view ks' st = Some e -> staged d e) /\ only_at st ks' ks /\
  (forall j, has_chunk ks st j -> has_chunk ks' st j) /\
  ((forall i, f_chunk f i = Done) -> err' = err /\ Forall (has_chunk ks' st) order).
Proof.
  revert ks err. induction order as [|i order IH]; intros ks err Hst Ho Hfold; cbn in Hfold.
  { simplify_eq. by split_and!; auto; intros k. }
  apply Forall_cons in Ho as [Hi Ho].
  destruct (send_chunk f st (chunks_of d) (ks, err) i) as [ks1 err1] eqn:H1.
  destruct (send_chunk_spec _ _ _ _ _ _ _ _ Hst Hi H1) as (Hst1 & Hd1 & Hk1 & Hdone1).
  destruct (IH ks1 err1 Hst1 Ho Hfold) as (Hst' & Hd' & Hk' & Hdone').
  split_and!; [done|intros k Hk; by rewrite Hd', Hd1|auto|]. intros Hall.
  destruct (Hdone1 (Hall i)) as [-> Hi1], (Hdone' Hall) as [-> Ho']. split; [done|]. constructor; auto.
Qed.

(** A staging hash that has every chunk is complete. *)
Lemma all_chunks_full ks st d :
  (forall e, view ks st = Some e -> staged d e) -> length (chunks_of d) <> 0%nat ->
  Forall (has_chunk ks st) (seq 0 (length (chunks_of d))) -> is_full ks st d.
Proof.
  intros Hst Hn Hall. rewrite Forall_forall in Hall.
  destruct (Hall 0%nat) as (m & ttl & Hk & _); [rewrite elem_of_seq; lia|].
  destruct (Hst _ Hk) as (m' & [= -> ->] & Hm). unfold is_full. rewrite Hk. do 4 f_equal.
  apply (anti_symm (⊆)); [done|]. apply map_subseteq_spec. intros i c Hc.
  destruct (Hall i) as (m & ttl & Hk' & [c' Hc']).
  { rewrite chunk_map_lookup in Hc. apply lookup_lt_Some in Hc. rewrite elem_of_seq. lia. }
  rewrite Hk in Hk'. simplify_eq. rewrite Hc'. pose proof (lookup_weaken _ _ _ _ Hc' Hm). congruence.
Qed.

(** Between attempts: staging keys from [n] on are free, and a large artifact is
    unpublished or published with these very bytes. *)
Definition ready (ks : Keyspace) (id : string) (n : nat) (program : bool) (d : bytes) : Prop :=
  (forall m, (n <= m)%nat -> view ks (staging_chunk_key id m) = None) /\
  (CHUNK_SIZE < Z.of_nat (length d) ->
     (exists oh, hash_at ks (chunk_key id) = inr oh /\ oh ≫= h_count = None) \/
     view ks (chunk_key id) = Some (mkEntry (RHash (published d)) (retention program))).

(** The artifact is stored in full. *)
Definition stored (ks : Keyspace) (id : string) (program : bool) (d : bytes) : Prop :=
  if decide (Z.of_nat (length d) <= CHUNK_SIZE)
  then view ks id = Some (mkEntry (RString d) (retention program)) /\ view ks (chunk_key id) = None
  else view ks (chunk_key id) = Some (mkEntry (RHash (published d)) (retention program)).

Lemma stored_download ks id program d :
  stored ks id program d -> par_download_file ks id = inr d /\ exists_artifact ks id = inr true.
Proof.
  unfold stored. case_decide; [intros [Hi Hk]; by eapply download_inline|].
  intros Hk. eapply download_published; [lia|done].
Qed.

(** An attempt's chunk writes are those of the artifact, each sent once. *)
Definition order_ok (d : bytes) (f : Faults) : Prop := f_order f ≡ₚ seq 0 (length (chunks_of d)).
Definition faultless (f : Faults) : Prop := (forall i, f_chunk f i = Done) /\ f_abort f = None /\ f_final f = Done.

Lemma stage_chunks_spec f ks st d ks' r :
  order_ok d f -> view ks st = None -> length (chunks_of d) <> 0%nat ->
  stage_chunks f ks st d = (ks', r) ->
  (forall e, view ks' st = Some e -> staged d e) /\ only_at st ks' ks /\
  (forall e, r <> inl (Permanent e)) /\ (faultless f -> r = inr tt /\ is_full ks' st d).
Proof.
  intros Ho Hk Hn. unfold stage_chunks. fold (chunks_of d).
  assert (Forall (fun i => i < length (chunks_of d))%nat (f_order f)) as Hlt.
  { rewrite Ho. apply Forall_forall. intros i Hi%elem_of_seq. lia. }
  assert (forall e, view ks st = Some e -> staged d e) as Hst by (rewrite Hk; done).
  destruct (f_abort f) as [[k e]|] eqn:Hab.
  { destruct (foldl _ _ _) as [ks1 err1] eqn:Hf. intros [= <- <-].
    destruct (send_chunks_spec _ _ _ _ _ _ _ _ Hst (Forall_take _ _ _ Hlt) Hf) as (H1 & H2 & _). cbn.
    split_and!; [done..|]. intros (_ & ? & _). congruence. }
  destruct (foldl _ _ _) as [ks1 err1] eqn:Hf.
  destruct (send_chunks_spec _ _ _ _ _ _ _ _ Hst Hlt Hf) as (H1 & H2 & _ & H4).
  destruct err1 as [e1|]; intros [= <- <-].
  - split_and!; [| |done|].
    + destruct (f_reclaim f); [|done]. by rewrite view_unlink, vset_eq.
    + intros k Hne. destruct (f_reclaim f); [rewrite view_unlink, vset_ne by done|]; by apply H2.
    + intros (Hall & _). by destruct (H4 Hall).
  - split_and!; [done..|]. intros (Hall & _). destruct (H4 Hall) as [_ Hhas]. split; [done|].
    apply all_chunks_full; [done..|]. by rewrite <- Ho.
Qed.

(** Publishing from a complete or incomplete staging hash. *)
Lemma publish_staged_spec rep ks program id n d ks' r :
  no_colon id -> CHUNK_SIZE < Z.of_nat (length d) ->
  ready ks id (S n) program d ->
  (forall e, view ks (staging_chunk_key id n) = Some e -> staged d e) ->
  publish_staged rep ks program id (staging_chunk_key id n) (length (chunks_of d)) = (ks', r) ->
  ready ks' id (S n) program d /\ (forall e, r <> inl (Permanent e)) /\ (r = inr tt -> stored ks' id program d) /\
  (rep = Done -> is_full ks (staging_chunk_key id n) d -> r = inr tt).
Proof.
  intros Hid Hd [Hfree Hfin] Hst. specialize (Hfin Hd). unfold publish_staged.
  set (st := staging_chunk_key id n) in *.
  assert (st <> chunk_key id) as Hne by (by apply staging_not_chunk_key).
  assert (id <> chunk_key id) as Hne' by (intros Heq; by apply (chunk_key_not_id id id)).
  assert (exists oh, hash_at ks (chunk_key id) = inr oh) as [oh Hoh].
  { destruct Hfin as [(oh & ? & _)|Hp]; [eauto|]. unfold hash_at. rewrite Hp. eauto. }
  destruct (publish_cases ks st (chunk_key id) id d program oh Hne (chunks_of_nonzero d Hd) Hoh Hst) as (ks1 & z & Hscript & Hcases).
  assert (Hkeep : forall m, (S n <= m)%nat -> view ks1 (staging_chunk_key id m) = None).
  { intros m Hm. specialize (Hfree m Hm). assert (staging_chunk_key id m <> chunk_key id) by (by apply staging_not_chunk_key).
    destruct Hcases as [(_ & _ & Hv)|[(_ & _ & _ & Hv)|(_ & _ & _ & Hv)]]; rewrite Hv; unfold vset; by repeat case_decide. }
  assert (Hout : (z = 2 \/ z = 1) /\ view ks1 (chunk_key id) = Some (mkEntry (RHash (published d)) (retention program)) \/
                 z = 0 /\ ~ is_full ks st d /\ view ks1 (chunk_key id) = view ks (chunk_key id) /\ oh ≫= h_count = None).
  { destruct Hcases as [(-> & Hm & Hv)|[(-> & Hm & Hnf & Hv)|(-> & Hm & _ & Hv)]]; rewrite Hv, !vset_ne by done.
    - left. split; [auto|]. destruct Hfin as [(oh' & Hoh' & Hm')|Hp]; [|done].
      rewrite Hoh in Hoh'. simplify_eq. rewrite Hm' in Hm. by apply is_Some_None in Hm.
    - by right.
    - left. split; [auto|]. apply vset_eq. }
  assert (Hready : ready ks1 id (S n) program d).
  { split; [done|]. intros _. destruct Hout as [[_ Hp]|(_ & _ & Hp & Hm)]; [by right|]. left. exists oh.
    unfold hash_at. rewrite Hp. done. }
  assert (Hstored : z = 2 \/ z = 1 -> stored ks1 id program d).
  { intros Hz. unfold stored. rewrite decide_False by lia. destruct Hout as [[_ Hp]|[-> _]]; [done|]. lia. }
  unfold send. destruct rep; rewrite ?Hscript; cbn [fst].
  - case_decide as Hz; intros [= <- <-]; (split_and!; [done..| |]); try done; auto.
    intros _ Hfull. destruct Hout as [[Hz' _]|(_ & Hnf & _)]; done.
  - intros [= <- <-]. split_and!; try done.
  - intros [= <- <-]. split_and!; try done.
Qed.

Lemma upload_inline_stored ks id n program d :
  no_colon id -> Z.of_nat (length d) <= CHUNK_SIZE -> ready ks id n program d ->
  ready (upload_inline ks program id d) id (S n) program d /\ stored (upload_inline ks program id d) id program d.
Proof.
  intros Hid Hd [Hfree _]. unfold upload_inline, stored, ready. rewrite decide_True by done.
  assert (chunk_key id <> id) as Hne by (by apply chunk_key_not_id).
  split; [split; [|lia]|].
  - intros m Hm. rewrite view_unlink, vset_ne, view_set_options, vset_ne; [apply Hfree; lia|..].
    + intros Heq. by apply (staging_not_id id m id).
    + intros Heq. by apply (staging_not_chunk_key id m id).
  - by rewrite !view_unlink, vset_eq, vset_ne, view_set_options, vset_eq.
Qed.

Lemma par_upload_file_spec f n ks program id d ks' r :
  no_colon id -> order_ok d f -> ready ks id n program d ->
  par_upload_file f n ks program id d = (ks', r) ->
  ready ks' id (S n) program d /\ (forall e, r <> inl (Permanent e)) /\ (r = inr tt -> stored ks' id program d) /\
  (faultless f -> r = inr tt).
Proof.
  intros Hid Ho Hready. unfold par_upload_file. case_decide as Hd.
  { destruct (upload_inline_stored ks id n program d Hid Hd Hready) as [Hr Hs]. unfold send.
    destruct (f_final f) eqn:Hf; cbn; intros [= <- <-]; split_and!; try done; try (intros (_ & _ & ?); congruence).
    destruct Hready as [Hfree Hfin]. split; [intros m Hm; apply Hfree; lia|done]. }
  apply Z.nle_gt in Hd. pose proof (chunks_of_nonzero d Hd) as Hn. destruct Hready as [Hfree Hfin].
  unfold upload_chunked. rewrite chunks_of_length. cbv zeta.
  destruct (stage_chunks f ks (staging_chunk_key id n) d) as [ks1 r1] eqn:Hstage.
  destruct (stage_chunks_spec _ _ _ _ _ _ Ho (Hfree n ltac:(lia)) Hn Hstage) as (Hst & Hdel & Hperm & Hgood).
  assert (ready ks1 id (S n) program d) as Hready1.
  { assert (staging_chunk_key id n <> chunk_key id) by (by apply staging_not_chunk_key). split.
    - intros m Hm. rewrite Hdel; [apply Hfree; lia|].
      intros Heq. apply staging_inj in Heq as [_ ?]; [lia|done..].
    - intros _. unfold hash_at. rewrite Hdel by done. by apply Hfin. }
  destruct r1 as [e1|[]].
  - intros [= <- <-]. split_and!; try done. intros Hf. by destruct (Hgood Hf).
  - intros Hpub. destruct (publish_staged_spec _ _ _ _ _ _ _ _ Hid Hd Hready1 Hst Hpub) as (? & ? & ? & Hlast).
    split_and!; try done. intros Hf. destruct (Hgood Hf), Hf as (_ & _ & ?). by apply Hlast.
Qed.

Lemma upload_attempts_spec fs f n ks program id d :
  no_colon id -> Forall (order_ok d) (fs ++ [f]) -> faultless f -> ready ks id n program d ->
  exists ks', upload_attempts (fs ++ [f]) n ks program id d = (ks', inr tt) /\ stored ks' id program d.
Proof.
  intros Hid Ho Hf. revert n ks. induction fs as [|g fs IH]; intros n ks Hready; cbn;
    apply Forall_cons in Ho as [Hg Ho]; destruct (par_upload_file _ n ks program id d) as [ks1 r1] eqn:Hup;
    destruct (par_upload_file_spec _ _ _ _ _ _ _ _ Hid Hg Hready Hup) as (Hr1 & Hperm & Hs & Hclean).
  - specialize (Hclean Hf). subst r1. eauto.
  - destruct r1 as [[e|e]|[]]; [|by destruct (Hperm e)|eauto].
    destruct (IH Ho (S n) ks1 Hr1) as (ks' & Hrest & Hst). exists ks'. split; [|done]. by destruct (fs ++ [f]) eqn:?; [destruct fs|].
Qed.

(** C27. An upload that gets through is read back byte for byte. Whatever happened to
    the earlier attempts (chunk writes lost, reordered or executed without a reply, a
    timeout in the middle, a publish whose reply never came), once an attempt meets no
    fault [upload_raw] returns success, [download_raw] returns exactly the uploaded
    bytes and [exists] is true; the artifact may replace an inline copy, or debris an
    interrupted writer left, whenever no other complete copy was published first. *)
Theorem upload_download_round_trip fs f n ks program id data c :
  no_colon id -> zstd_encode data = inr c -> Forall (order_ok c) (fs ++ [f]) -> faultless f -> ready ks id n program c ->
  exists ks', upload_raw (inr tt) (fs ++ [f]) n ks program id data = (ks', inr tt) /\
    download_raw ks' id = inr data /\ exists_artifact ks' id = inr true.
Proof.
  intros Hid Hz Ho Hf Hready. destruct (upload_attempts_spec fs f n ks program id c Hid Ho Hf Hready) as (ks' & Hup & Hst).
  exists ks'. destruct (stored_download _ _ _ _ Hst) as [Hdown Hex].
  unfold upload_raw, upload_to_transport, download_raw. rewrite Hz, Hup, Hdown. by rewrite (zstd_round_trip _ _ Hz).
Qed.

End RoundTrip.

(** ** Admission *)

Definition reserved (a : Admission) : Z := list_Zsum id (guards a).

(** Sizes fit a [u64], and the budget of a reported [maxmemory] is below its top. *)
Definition poll_ok (o : admission_op) : Prop :=
  match o with
  | APoll incoming query _ =>
      0 <= incoming /\
      match query with inr (Some used, Some max) => 0 <= used /\ budget max < Int.umax u64 | _ => True end
  | ADrop _ => True
  end.

Definition admission_ok (a : Admission) : Prop :=
  in_flight a = reserved a /\ in_flight a < Int.umax u64 /\ Forall (fun n => 0 <= n) (guards a).

Lemma reserved_nonneg a : Forall (fun n => 0 <= n) (guards a) -> 0 <= reserved a.
Proof. intros H. apply list_Zsum_nonneg. by apply Forall_forall. Qed.

Lemma check_admission_ok a incoming query t a' v :
  admission_ok a -> poll_ok (APoll incoming query t) -> check_admission a incoming query t = (a', v) ->
  admission_ok a' /\
  (v = Reserved -> exists used max, query = inr (Some used, Some max) /\ used + reserved a' <= budget max /\
     reserved a' = reserved a + incoming) /\
  (v <> Reserved -> a' = a).
Proof.
  intros (Hin & Hlt & Hpos) [Hinc Hq]. pose proof (reserved_nonneg a Hpos) as Hr. unfold check_admission.
  case_decide; [intros [= <- <-]; done|].
  destruct query as [e|[[used|] [max|]]]; try (intros [= <- <-]; done).
  case_decide; [|intros [= <- <-]; done]. destruct Hq as [Hused Hbudget].
  case_decide as Hproj; [|intros [= <- <-]; split_and!; try done; by case_decide].
  unfold Int.sat_add in Hproj. assert (used + in_flight a + incoming <= budget max) as Hle by lia.
  assert (Int.wadd u64 (in_flight a) incoming = in_flight a + incoming) as Hadd.
  { apply Int.wadd_small. unfold Int.in_range, Int.umax in *. lia. }
  intros [= <- <-]. unfold admission_ok, reserved, list_Zsum, id in *. cbn. rewrite Hadd. split_and!; [lia|lia|by constructor| |done].
  intros _. exists used, max. split_and!; [done|lia|lia].
Qed.

Lemma list_Zsum_delete {A} (f : A -> Z) l i x : l !! i = Some x -> list_Zsum f l = f x + list_Zsum f (delete i l).
Proof. intros Hi. rewrite (list_Zsum_perm f l (x :: delete i l)); [done|]. by apply delete_Permutation. Qed.

Lemma drop_guard_ok a i : admission_ok a -> admission_ok (drop_guard a i).
Proof.
  intros (Hin & Hlt & Hpos). unfold drop_guard. destruct (guards a !! i) as [n|] eqn:Hi; [|done].
  pose proof (Forall_lookup_1 _ _ _ _ Hpos Hi) as Hn. assert (Forall (fun n => 0 <= n) (delete i (guards a))) as Hpos' by (by apply Forall_delete).
  pose proof (reserved_nonneg (mkAdmission 0 _) Hpos') as Hr. unfold admission_ok, reserved, id in *. cbn in *.
  rewrite (list_Zsum_delete _ _ _ _ Hi) in Hin. cbv beta in Hin. unfold list_Zsum in *.
  rewrite Int.wsub_small by (unfold Int.in_range, Int.umax in *; lia). split_and!; [lia..|done].
Qed.

Lemma admission_run_ok ops : Forall poll_ok ops -> admission_ok (admission_run ops).
Proof.
  unfold admission_run. intros Hops. assert (admission_ok (mkAdmission 0 [])) as H0 by (split_and!; done).
  revert H0. generalize (mkAdmission 0 []). induction Hops as [|o ops Ho _ IH]; intros a Ha; [done|]. cbn. apply IH.
  destruct o as [n q t|i]; cbn; [|by apply drop_guard_ok].
  destruct (check_admission a n q t) as [a' v] eqn:Hc. by destruct (check_admission_ok _ _ _ _ _ _ Ha Ho Hc).
Qed.

(** C28. Admission never over-commits a node. After any sequence of admission rounds
    and dropped guards the [in_flight] counter is exactly the sum of the reservations
    still held, without overflow; and a round that reserves leaves the reported memory
    plus every reservation, the new one included, within the node's budget, while any
    other round reserves nothing. *)
Theorem admission_never_overcommits ops incoming query t :
  Forall poll_ok ops -> poll_ok (APoll incoming query t) ->
  let a := admission_run ops in
  let '(a', v) := check_admission a incoming query t in
  in_flight a' = reserved a' /\ 0 <= in_flight a' < Int.umax u64 /\
  (v = Reserved -> exists used max, query = inr (Some used, Some max) /\ used + reserved a' <= budget max /\
     reserved a' = reserved a + incoming) /\
  (v <> Reserved -> a' = a).
Proof.
  intros Hops Hq a. pose proof (admission_run_ok ops Hops) as Ha. fold a in Ha.
  destruct (check_admission a incoming query t) as [a' v] eqn:Hc.
  destruct (check_admission_ok _ _ _ _ _ _ Ha Hq Hc) as ((Hin & Hlt & Hpos) & Hres & Hother).
  pose proof (reserved_nonneg a' Hpos). split_and!; [done|lia|done..].
Qed.

Definition demo_admission : list admission_op :=
  [APoll 30000000 (inr (Some 10000000, Some 100000000)) 0; APoll 30000000 (inr (Some 10000000, Some 100000000)) 0;
   APoll 30000000 (inr (Some 10000000, Some 100000000)) 0; ADrop 1].

Lemma admission_never_overcommits_witness :
  let a := admission_run demo_admission in
  let '(a', v) := check_admission a 30000000 (inr (Some 20000000, Some 100000000)) 0 in
  v = Reserved /\ 20000000 + reserved a' <= budget 100000000.
Proof.
  pose proof (admission_never_overcommits demo_admission 30000000 (inr (Some 20000000, Some 100000000)) 0) as H.
  cbv zeta in *. assert (check_admission (admission_run demo_admission) 30000000 (inr (Some 20000000, Some 100000000)) 0
    = (mkAdmission 60000000 [30000000; 30000000], Reserved)) as Heq by (vm_compute; reflexivity).
  rewrite Heq in *. destruct H as (_ & _ & Hres & _).
  { repeat constructor; done. }
  { by repeat constructor. }
  destruct (Hres eq_refl) as (used & max & [= <- <-] & Hle & _). split; [reflexivity|exact Hle].
Defined.

(** ** A concrete server: the key space as a finite map *)

Definition demo_write (ks : gmap string Entry) (k : string) (spec : result (option Entry)) : result (gmap string Entry) :=
  match spec with inl e => inl e | inr o => inr (partial_alter (fun _ => o) k ks) end.

#[export] Instance demo_server : RedisServer := {
  Keyspace := gmap string Entry;
  no_keys := ∅;
  view ks k := ks !! k;
  set_options ks k d ttl := <[k := mkEntry (RString d) ttl]> ks;
  unlink ks k := delete k ks;
  hset_chunk ks k i c := demo_write ks k (hash_write (put_chunk i c) k (fun k => ks !! k));
  hset_count ks k n := demo_write ks k (hash_write (put_count n) k (fun k => ks !! k));
  expire ks k secs := alter (with_ttl (Some secs)) k ks;
  persist ks k := alter (with_ttl None) k ks;
  rename ks src dst := match ks !! src with None => inl NO_SUCH_KEY | Some e => inr (<[dst := e]> (delete src ks)) end;
  sadd ks k m := demo_write ks k (set_write (fun s => {[m]} ∪ s) k (fun k => ks !! k));
  srem ks k m := demo_write ks k (set_write (fun s => s ∖ {[m]}) k (fun k => ks !! k));
}.

Lemma vset_lookup (ks : gmap string Entry) k o k' :
  vset k o (fun k => ks !! k) k' = partial_alter (fun _ => o) k ks !! k'.
Proof. unfold vset. case_decide as Hk; [subst; by rewrite lookup_partial_alter_eq|by rewrite lookup_partial_alter_ne]. Qed.

Lemma alter_partial_alter (f : Entry -> Entry) (ks : gmap string Entry) k :
  alter f k ks = partial_alter (fun _ => f <$> ks !! k) k ks.
Proof. apply partial_alter_ext. intros o Ho. by rewrite Ho. Qed.

Lemma demo_write_spec (ks : gmap string Entry) k spec : writes (Srv := demo_server) ks k spec (demo_write ks k spec).
Proof. destruct spec as [e|o]; cbn; [done|]. intros k'. by rewrite vset_lookup. Qed.

Lemma demo_rename_spec (ks : gmap string Entry) src dst :
  match ks !! src, rename (RedisServer := demo_server) ks src dst with
  | None, inl e => e = NO_SUCH_KEY
  | Some e, inr ks' => forall k', view ks' k' = vset dst (Some e) (vset src None (fun k => ks !! k)) k'
  | _, _ => False
  end.
Proof.
  cbn. destruct (ks !! src) as [e|] eqn:He; [|done]. intros k'. unfold vset.
  destruct (decide (k' = dst)) as [->|]; [by rewrite lookup_insert_eq|]. rewrite lookup_insert_ne by done.
  case_decide; [subst; by rewrite lookup_delete_eq|by rewrite lookup_delete_ne].
Qed.

#[export] Instance demo_server_ok : RedisServerOk demo_server.
Proof.
  split; try (intros; apply demo_write_spec); intros *; cbn; rewrite ?vset_lookup; try done.
  - by rewrite <- alter_partial_alter.
  - by rewrite <- alter_partial_alter.
  - apply demo_rename_spec.
Qed.

(** ** A concrete environment: chunks of two bytes and the identity codec *)
#[export] Instance demo_redis : RedisEnv := {
  ARTIFACT_CHUNK_SIZE_BYTES := Some 2;
  ARTIFACT_TIMEOUT_VAR := None;
  PROVE_SHARD_MAX_BYTES := None;
  create_type_id n := pretty n;
  zstd_encode d := inr d;
  zstd_decode d := inr d;
}.

#[export] Instance demo_redis_ok : RedisEnvOk demo_redis.
Proof. split; [apply _|naive_solver]. Qed.

(** The whole life of a chunked upload: begin, write and join each chunk, publish. *)
Definition upload_ops (n : nat) (id : string) (d : bytes) (cs : list nat) : list store_op :=
  [OStart id false d] ++ map (OWrite n) cs ++ map (fun i => OJoin n i true) cs ++ [OFinish n].

Definition demo_before : list store_op :=
  upload_ops 0 "a" [1; 2; 3] [1; 0]%nat ++ [OStart "a" false [4; 5; 6]].
Definition demo_during : list store_op :=
  [OWrite 1 0; ORead 0 0; ORead 0 1; OJoin 1 0 true; OWrite 1 1; OJoin 1 1 true; OFinish 1; ORead 0 0].

Lemma store_serves_whole_artifacts_witness :
  let s := store_run empty_store (demo_before ++ [OWrite 1 0]) in
  par_download_file (s_keys s) "a" = inr [1; 2; 3] /\
  (exists program, view (s_keys s) (chunk_key "a") ≫= e_ttl = retention program) /\
  is_Some (view (s_keys s) (staging_chunk_key "a" 1)).
Proof.
  pose proof (store_serves_whole_artifacts (demo_before ++ [OWrite 1 0]) "a") as H.
  destruct H as (_ & Hf & _); [repeat constructor; done|done|].
  split; [vm_compute; reflexivity|]. split; [|vm_compute; eauto].
  destruct (Hf (mkEntry (RHash (published [1; 2; 3])) (Some 21600))) as [p Hp]; [vm_compute; reflexivity|].
  exists p. rewrite <- Hp. vm_compute. reflexivity.
Defined.

Lemma readers_never_mix_witness :
  let s' := store_run (store_run empty_store demo_before) (OReadStart "a" :: demo_during) in
  ("a", [1; 2; 3]) ∈ s_uploads s'.
Proof.
  apply (readers_never_mix demo_before demo_during "a" [1; 2; 3]);
    [repeat constructor; done..|vm_compute; reflexivity].
Defined.

(** The condition on the overlapping operations is needed: a hash that is deleted and
    published again between two reads of one download gives a mix of the two. *)
Lemma republish_under_a_reader_mixes :
  exists ops d, Forall op_ids_ok ops /\
    s_readers (store_run empty_store ops) !! 0%nat = Some (mkReader "a" (ReadDone (inr d))) /\
    ("a", d) ∉ s_uploads (store_run empty_store ops).
Proof.
  exists (upload_ops 0 "a" [1; 2; 3] [0; 1]%nat ++ [OReadStart "a"; ORead 0 0; ORead 0 0; OUnlinkChunks "a"] ++
          upload_ops 1 "a" [4; 5; 6] [0; 1]%nat ++ [ORead 0 1]), [1; 2; 6].
  split; [repeat constructor; done|]. split; [vm_compute; reflexivity|].
  vm_compute. intros Hin. repeat (apply elem_of_cons in Hin as [|Hin]; [done|]). by apply elem_of_nil in Hin.
Qed.

Definition clean_attempt : Faults := mkFaults [0; 1]%nat (fun _ => Done) None true Done.
Definition lossy_attempt : Faults := mkFaults [1; 0]%nat (fun i => if decide (i = 0%nat) then Lost (Msg "reset") else Done) None false Done.
Definition cut_attempt : Faults := mkFaults [1; 0]%nat (fun _ => Done) (Some (1%nat, Msg "timed out")) true Done.
Definition silent_attempt : Faults := mkFaults [0; 1]%nat (fun _ => Done) None true (Lost (Msg "reset")).

Lemma upload_download_round_trip_witness :
  exists ks', upload_raw (inr tt) ([lossy_attempt; cut_attempt; silent_attempt] ++ [clean_attempt]) 0
    (set_options no_keys "a" [7] None) false "a" [1; 2; 3] = (ks', inr tt) /\
    download_raw ks' "a" = inr [1; 2; 3] /\ exists_artifact ks' "a" = inr true.
Proof.
  apply (upload_download_round_trip _ _ _ _ _ _ _ [1; 2; 3]); [done|done| |done|].
  - repeat constructor; unfold order_ok; vm_compute; solve [reflexivity|apply Permutation_swap].
  - split; [|intros _; left; exists None; by vm_compute].
    intros m _. rewrite view_set_options, vset_ne; [apply view_no_keys|]. intros Heq. by apply (staging_not_id "a" m "a").
Defined.

(** ** Reference counts *)

(** [remove_ref]'s commands are not a transaction: a reference added between its
    [SCARD] and its [DEL] is erased, and the artifact deleted under its holder. *)
Lemma remove_ref_race :
  exists ks ks1 ks2, add_ref (set_options no_keys "a" [7] None) "a" "t1" = inr ks /\
    remove_ref_check ks "a" "t1" = inr (ks1, true) /\ add_ref ks1 "a" "t2" = inr ks2 /\
    members_at ks2 (refs_key "a") = inr {[ "t2" ]} /\
    exists_artifact (remove_ref_cleanup delete_artifact ks2 "a") "a" = inr false /\
    members_at (remove_ref_cleanup delete_artifact ks2 "a") (refs_key "a") = inr ∅.
Proof.
  set (inline := mkEntry (RString [7]) None). set (refs := fun t : string => mkEntry (RSet {[ t ]}) (Some 21600)).
  exists {[ "a" := inline; "refs:a" := refs "t1" ]}, {[ "a" := inline ]}, {[ "a" := inline; "refs:a" := refs "t2" ]}.
  split_and!; vm_compute; reflexivity.
Qed.

(** ** Batch deletion and routing *)
Section Batch.
Context {Srv : RedisServer} `{!RedisServerOk Srv}.

Lemma get_connection_idx_lt id num idx : get_connection_idx id num = Some idx -> (idx < num)%nat.
Proof.
  unfold get_connection_idx. case_decide; [done|]. intros [= <-].
  pose proof (Z.mod_pos_bound (hash_string id) (Z.of_nat num) ltac:(lia)). lia.
Qed.

(** The keys of the batch's artifacts that live on node [idx]. *)
Definition batch_key (num idx : nat) (ids : list string) (k : string) : Prop :=
  exists id, id ∈ ids /\ get_connection_idx id num = Some idx /\ (k = id \/ k = chunk_key id).

Lemma node_groups_spec num ids groups :
  num <> 0%nat -> exists groups', node_groups num ids groups = Some groups' /\
    forall idx k, k ∈ default [] (groups' !! idx) <-> k ∈ default [] (groups !! idx) \/ batch_key num idx ids k.
Proof.
  intros Hnum. revert groups. induction ids as [|id ids IH]; intros groups; cbn.
  { exists groups. split; [done|]. unfold batch_key. set_solver. }
  assert (exists i, get_connection_idx id num = Some i) as [i Hi].
  { unfold get_connection_idx. rewrite decide_False by done. eauto. }
  rewrite Hi. destruct (IH (<[i := default [] (groups !! i) ++ [id; chunk_key id]]> groups)) as (groups' & -> & Hspec).
  exists groups'. split; [done|]. intros idx k. rewrite Hspec. unfold batch_key.
  destruct (decide (i = idx)) as [->|Hne]; [rewrite lookup_insert_eq|rewrite lookup_insert_ne by done]; cbn; set_solver.
Qed.

Lemma foldl_unlink l ks k : view (foldl unlink ks l) k = if decide (k ∈ l) then None else view ks k.
Proof.
  revert ks. induction l as [|x l IH]; intros ks; cbn; [done|]. rewrite IH, view_unlink. unfold vset.
  repeat case_decide; set_solver.
Qed.

(** A batch deletion returns, keeps the nodes, and on each node removes exactly the
    keys of the batch's artifacts that are routed there. *)
Lemma delete_batch_exact nodes ids :
  nodes <> [] -> exists nodes', delete_batch nodes ids = Some nodes' /\ length nodes' = length nodes /\
    forall idx ks, nodes !! idx = Some ks -> exists ks', nodes' !! idx = Some ks' /\
      forall k, (batch_key (length nodes) idx ids k -> view ks' k = None) /\
                (~ batch_key (length nodes) idx ids k -> view ks' k = view ks k).
Proof.
  intros Hnodes. unfold delete_batch. case_decide as Hids.
  { subst ids. exists nodes. split_and!; [done..|]. intros idx ks Hks. exists ks. split; [done|]. intros k. unfold batch_key. set_solver. }
  destruct (node_groups_spec (length nodes) ids ∅) as (groups & -> & Hspec); [by destruct nodes|].
  eexists. split_and!; [done|by rewrite length_imap|]. intros idx ks Hks. rewrite list_lookup_imap, Hks. cbn.
  eexists. split; [done|]. intros k. rewrite foldl_unlink. specialize (Hspec idx k). rewrite lookup_empty in Hspec. cbn in Hspec.
  case_decide; set_solver.
Qed.

(** [hash_string] is documented as FNV-1a, which folds [(hash xor byte) * prime] from
    a non-zero offset basis; the code folds [hash * prime + byte] from zero. *)
Definition fnv1a (width basis prime : Z) (s : string) : Z :=
  foldl (fun hash c => Int.wrap width (Z.lxor hash (Z.of_nat (nat_of_ascii c)) * prime)) basis (String.list_ascii_of_string s).

Lemma hash_string_is_not_fnv1a :
  hash_string "a" = 97 /\ fnv1a 32 2166136261 16777619 "a" = 3826002220 /\
  fnv1a 64 14695981039346656037 1099511628211 "a" = 12638187200555641996.
Proof. split_and!; vm_compute; reflexivity. Qed.

End Batch.
