(* ===== verification/ProgramStore.v ===== *)
(** * The gateway's program registry

    [bin/network-gateway/src/program_store.rs]: the trait [ProgramStore], its
    in-memory implementation, and the filesystem one, whose [put] writes a
    temporary file and renames it into place. The filesystem is modelled down to
    inodes and file offsets, because a writer keeps writing to the inode it opened
    whatever becomes of the name. A [put] is a sequence of steps between which
    other puts run, an I/O error may come back, and the process may stop.

    [hex::encode] is the class [HexCodec]. *)
From Stdlib Require Import Ascii String.
From stdpp Require Import base gmap strings list.
From S2P Require Import Prelude.
Local Open Scope string_scope.
Local Open Scope list_scope.
Local Open Scope Z_scope.

(** [Vec<u8>] is a list of bytes; a Rust [String] is the string of its UTF-8
    bytes, which [as_bytes] and [String::from_utf8] pass between. *)
Abbreviation bytes := (list ascii).
Definition as_bytes (s : string) : bytes := list_ascii_of_string s.
Definition of_bytes (b : bytes) : string := string_of_list_ascii b.

Lemma of_bytes_as_bytes s : of_bytes (as_bytes s) = s.
Proof. apply string_of_list_ascii_of_string. Qed.
Lemma as_bytes_of_bytes b : as_bytes (of_bytes b) = b.
Proof. apply list_ascii_of_string_of_list_ascii. Qed.

Lemma as_bytes_app a b : as_bytes (a +:+ b) = as_bytes a ++ as_bytes b.
Proof.
  unfold as_bytes. induction a as [|c a IH]; [done|].
  change (String c a +:+ b) with (String c (a +:+ b)). cbn [list_ascii_of_string app]. by rewrite IH.
Qed.

Class HexCodec := { hex_encode : bytes -> string }.

Definition is_hex_digit (c : ascii) : bool :=
  let n := N_of_ascii c in ((48 <=? n) && (n <=? 57) || (97 <=? n) && (n <=? 102))%N.

Class HexCodecOk (H : HexCodec) : Prop := {
  hex_encode_inj :: Inj (=) (=) hex_encode;
  hex_encode_nil : hex_encode [] = "";
  hex_encode_digits : forall h, forallb is_hex_digit (as_bytes (hex_encode h)) = true;
}.

(** ** The interface

    Every call carries a number, so that an implementation may fail on one and
    not on the next. [ps_view] is the registry a store stands for. A [put] that
    fails may have taken effect. *)
Class ProgramStore := {
  PS : Type;
  ps_put : nat -> bytes -> bytes -> bytes -> PS -> result unit * PS;
  ps_get : nat -> bytes -> PS -> result (option (bytes * bytes));
  ps_exists : nat -> bytes -> PS -> result bool;
}.

Definition Registry := bytes -> option (bytes * bytes).
Definition reg_insert (h : bytes) (p : bytes * bytes) (v : Registry) : Registry :=
  fun h' => if decide (h' = h) then Some p else v h'.

Class ProgramStoreOk (P : ProgramStore) := {
  ps_inv : PS -> Prop;
  ps_view : PS -> Registry;
  ps_put_ok : forall n h vk elf s s',
    ps_inv s -> ps_put n h vk elf s = (inr tt, s') ->
    ps_inv s' /\ forall h', ps_view s' h' = reg_insert h (vk, elf) (ps_view s) h';
  ps_put_err : forall n h vk elf s s' e,
    ps_inv s -> ps_put n h vk elf s = (inl e, s') ->
    ps_inv s' /\ ((forall h', ps_view s' h' = ps_view s h') \/
                  (forall h', ps_view s' h' = reg_insert h (vk, elf) (ps_view s) h'));
  ps_get_sound : forall n h s r, ps_inv s -> ps_get n h s = inr r -> r = ps_view s h;
}.

(** ** [InMemoryProgramStore] *)
Definition mem_put (h vk elf : bytes) (m : gmap bytes (bytes * bytes)) : result unit * gmap bytes (bytes * bytes) :=
  (inr tt, <[h := (vk, elf)]> m).
Definition mem_get (h : bytes) (m : gmap bytes (bytes * bytes)) : result (option (bytes * bytes)) := inr (m !! h).
Definition mem_exists (h : bytes) (m : gmap bytes (bytes * bytes)) : result bool := inr (bool_decide (is_Some (m !! h))).

Definition InMemoryProgramStore : ProgramStore :=
  {| PS := gmap bytes (bytes * bytes); ps_put := fun _ => mem_put; ps_get := fun _ => mem_get; ps_exists := fun _ => mem_exists |}.

#[export] Instance in_memory_ok : ProgramStoreOk InMemoryProgramStore.
Proof.
  refine (@Build_ProgramStoreOk InMemoryProgramStore (fun _ => True) (fun (m : gmap bytes (bytes * bytes)) h => m !! h) _ _ _).
  - cbn. unfold mem_put. intros n h vk elf s s' _ [= <-]. split; [done|]. intros h'. unfold reg_insert.
    destruct (decide (h' = h)) as [->|Hne]; [apply lookup_insert_eq|by apply lookup_insert_ne].
  - done.
  - cbn. unfold mem_get. by intros n h s r _ [= <-].
Defined.

(** ** The filesystem *)

(** Paths under and beside the store's directory: joining an empty name gives
    the directory itself. *)
Inductive Path := StoreDir | Beside (name : string) | Entry (name : string).

#[export] Instance Path_eq_dec : EqDecision Path.
Proof. solve_decision. Defined.
#[export] Instance Path_countable : Countable Path.
Proof.
  refine (inj_countable' (fun p => match p with StoreDir => inl tt | Beside n => inr (inl n) | Entry n => inr (inr n) end)
    (fun x => match x with inl _ => StoreDir | inr (inl n) => Beside n | inr (inr n) => Entry n end) _).
  by intros [].
Defined.

(** [Path::with_extension]: what follows the last dot of the file name is
    replaced, except that a leading dot starts no extension. *)
Fixpoint before_last_dot (s : string) : option string :=
  match s with
  | EmptyString => None
  | String c s' =>
      match before_last_dot s' with
      | Some b => Some (String c b)
      | None => if decide (c = "."%char) then Some EmptyString else None
      end
  end.
Definition file_stem (name : string) : string :=
  match before_last_dot name with Some EmptyString | None => name | Some b => b end.
Definition with_extension (p : Path) (ext : string) : Path :=
  match p with
  | StoreDir => Beside ext
  | Beside n => Beside (file_stem n +:+ "." +:+ ext)
  | Entry n => Entry (file_stem n +:+ "." +:+ ext)
  end.

Record Fs := mkFs {
  fs_dir : gmap Path nat;
  fs_data : gmap nat bytes;
  fs_next : nat;
}.
Definition empty_fs : Fs := mkFs ∅ ∅ 0.

Definition content (fs : Fs) (i : nat) : bytes := default [] (fs_data fs !! i).

(** [File::create]: an existing file is truncated, its inode kept. *)
Definition create_file (p : Path) (fs : Fs) : option (nat * Fs) :=
  match p with
  | StoreDir => None
  | _ =>
      match fs_dir fs !! p with
      | Some i => Some (i, mkFs (fs_dir fs) (<[i := []]> (fs_data fs)) (fs_next fs))
      | None =>
          let i := fs_next fs in
          Some (i, mkFs (<[p := i]> (fs_dir fs)) (<[i := []]> (fs_data fs)) (S i))
      end
  end.

(** A write at an offset, past the end leaving a hole of zeros. *)
Definition write_at (i off : nat) (data : bytes) (fs : Fs) : Fs :=
  let old := content fs i in
  let base := take off old ++ replicate (off - length old) "000"%char in
  mkFs (fs_dir fs) (<[i := base ++ data ++ drop (off + length data) old]> (fs_data fs)) (fs_next fs).

(** [rename]: replaces a file at the target; a directory there is an error. *)
Definition rename (src dst : Path) (fs : Fs) : option Fs :=
  match dst, fs_dir fs !! src with
  | StoreDir, _ => None
  | _, None => None
  | _, Some i => Some (mkFs (<[dst := i]> (delete src (fs_dir fs))) (fs_data fs) (fs_next fs))
  end.

Inductive ReadError := NoSuchFile | OtherError.
Definition read_file (p : Path) (fs : Fs) : ReadError + bytes :=
  match p, fs_dir fs !! p with
  | StoreDir, _ => inl OtherError
  | _, None => inl NoSuchFile
  | _, Some i => inr (content fs i)
  end.

(** ** Records *)
Definition le_byte (k : nat) (n : Z) : ascii := ascii_of_N (Z.to_N (n / 256 ^ Z.of_nat k mod 256)).
Definition to_le_bytes (n : Z) : bytes := [le_byte 0 n; le_byte 1 n; le_byte 2 n; le_byte 3 n].
Definition byte_Z (c : ascii) : Z := Z.of_N (N_of_ascii c).
Definition from_le_bytes (b : bytes) : Z := foldr (fun c acc => byte_Z c + 256 * acc) 0 b.

(** The file a [put] writes. *)
Definition encode_record (vk elf : bytes) : bytes := to_le_bytes (Z.of_nat (length vk)) ++ vk ++ elf.

Section store.
Context {H : HexCodec}.

(** [FilesystemProgramStore::path]. *)
Definition path (vk_hash : bytes) : Path :=
  match hex_encode vk_hash with EmptyString => StoreDir | n => Entry n end.

(** [get]'s reading of a file's bytes. *)
Definition decode_record (b : bytes) : result (bytes * bytes) :=
  if (length b <? 4)%nat then inl (Msg "program record truncated")
  else
    let vk_len := Z.to_nat (from_le_bytes (take 4 b)) in
    if (length b <? 4 + vk_len)%nat then inl (Msg "program record truncated")
    else inr (take vk_len (drop 4 b), drop (4 + vk_len) b).

(** [FilesystemProgramStore::get]: [io] is an I/O error of the read. *)
Definition fs_get (io : bool) (vk_hash : bytes) (fs : Fs) : result (option (bytes * bytes)) :=
  if io then inl (Msg "read")
  else
    match read_file (path vk_hash) fs with
    | inl NoSuchFile => inr None
    | inl OtherError => inl (Msg "read")
    | inr b => match decode_record b with inr p => inr (Some p) | inl e => inl e end
    end.

(** [FilesystemProgramStore::exists]. *)
Definition fs_exists (io : bool) (vk_hash : bytes) (fs : Fs) : result bool :=
  if io then inl (Msg "metadata")
  else
    match path vk_hash with
    | StoreDir => inr true
    | p => inr (bool_decide (is_Some (fs_dir fs !! p)))
    end.

(** ** [FilesystemProgramStore::put], step by step

    [Io] is what the next system call does: succeed, or fail, a write having
    put [k] of its bytes on the file first. *)
Inductive Io := IoOk | IoFail (k : nat).

Inductive PutPhase :=
  | PutStart
  | PutLen (i : nat)
  | PutVk (i off : nat)
  | PutElf (i off : nat)
  | PutSync (i : nat)
  | PutRename (i : nat)
  | PutDone (r : result unit).

Record Put := mkPut { p_hash : bytes; p_vk : bytes; p_elf : bytes; p_phase : PutPhase }.
Definition tmp_path (h : bytes) : Path := with_extension (path h) "tmp".

Definition put_write (io : Io) (i off : nat) (data : bytes) (next : PutPhase) (fs : Fs) : PutPhase * Fs :=
  match io with
  | IoOk => (next, write_at i off data fs)
  | IoFail k => (PutDone (inl (Msg "write")), write_at i off (take k data) fs)
  end.

Definition put_phase (io : Io) (h vk elf : bytes) (ph : PutPhase) (fs : Fs) : PutPhase * Fs :=
  match ph with
  | PutStart =>
      if 2 ^ 32 <=? Z.of_nat (length vk) then (PutDone (inl (Msg "vk too large for u32 length prefix")), fs)
      else
        match io, create_file (tmp_path h) fs with
        | IoOk, Some (i, fs) => (PutLen i, fs)
        | _, _ => (PutDone (inl (Msg "create")), fs)
        end
  | PutLen i => put_write io i 0 (to_le_bytes (Z.of_nat (length vk))) (PutVk i 4) fs
  | PutVk i off => put_write io i off vk (PutElf i (off + length vk)) fs
  | PutElf i off => put_write io i off elf (PutSync i) fs
  | PutSync i => match io with IoOk => (PutRename i, fs) | IoFail _ => (PutDone (inl (Msg "sync")), fs) end
  | PutRename i =>
      match io, rename (tmp_path h) (path h) fs with
      | IoOk, Some fs => (PutDone (inr tt), fs)
      | _, _ => (PutDone (inl (Msg "rename")), fs)
      end
  | PutDone r => (PutDone r, fs)
  end.

Definition put_step (io : Io) (p : Put) (fs : Fs) : Put * Fs :=
  let (ph, fs) := put_phase io (p_hash p) (p_vk p) (p_elf p) (p_phase p) fs in
  (mkPut (p_hash p) (p_vk p) (p_elf p) ph, fs).

(** A [put] run alone: every step moves on or ends it, the sixth at the latest. *)
Fixpoint put_run (fuel : nat) (ios : nat -> Io) (h vk elf : bytes) (ph : PutPhase) (fs : Fs) : option (result unit) * Fs :=
  match ph, fuel with
  | PutDone r, _ => (Some r, fs)
  | _, O => (None, fs)
  | _, S fuel => let (ph, fs) := put_phase (ios fuel) h vk elf ph fs in put_run fuel ios h vk elf ph fs
  end.
Definition PUT_STEPS : nat := 6.
Definition fs_put (ios : nat -> Io) (h vk elf : bytes) (fs : Fs) : option (result unit) * Fs :=
  put_run PUT_STEPS ios h vk elf PutStart fs.

(** The store as the gateway uses it: [ios] and [reads] are the I/O errors each
    call meets. *)
Definition FilesystemProgramStore (ios : nat -> nat -> Io) (reads : nat -> bool) : ProgramStore :=
  {| PS := Fs;
     ps_put := fun n h vk elf fs =>
       match fs_put (ios n) h vk elf fs with
       | (Some r, fs) => (r, fs)
       | (None, fs) => (inl (Msg "unfinished"), fs)
       end;
     ps_get := fun n => fs_get (reads n);
     ps_exists := fun n => fs_exists (reads n) |}.

(** ** Concurrent puts

    The calls in progress share the directory; one step of one of them at a
    time. *)
Record Shared := mkShared { sh_fs : Fs; sh_puts : list Put }.
Definition shared_step (s : Shared) (o : nat * Io) : Shared :=
  match sh_puts s !! o.1 with
  | Some p => let (p, fs) := put_step o.2 p (sh_fs s) in mkShared fs (<[o.1 := p]> (sh_puts s))
  | None => s
  end.
Definition shared_run (s : Shared) (sched : list (nat * Io)) : Shared := foldl shared_step s sched.

Definition new_put (h vk elf : bytes) : Put := mkPut h vk elf PutStart.
End store.
