(* ===== verification/ProgramStoreProps.v ===== *)
(** * What the program registry guarantees

    Facts about the record format and the paths of ProgramStore.v, then the puts:
    one alone stores what it was given, several on different programs never show
    a reader a half-written record whenever they are stopped, and two on the same
    program can. *)
From Stdlib Require Import Ascii String.
From stdpp Require Import base gmap strings list.
From S2P Require Import Prelude ProgramStore.
Local Open Scope string_scope.
Local Open Scope list_scope.
Local Open Scope Z_scope.

(** ** The record format *)
Lemma byte_Z_le_byte k n : byte_Z (le_byte k n) = n / 256 ^ Z.of_nat k mod 256.
Proof.
  unfold byte_Z, le_byte. pose proof (Z.mod_pos_bound (n / 256 ^ Z.of_nat k) 256 ltac:(lia)).
  rewrite N_ascii_embedding by lia. lia.
Qed.

Lemma from_to_le_bytes n : 0 <= n < 2 ^ 32 -> from_le_bytes (to_le_bytes n) = n.
Proof.
  intros Hn. unfold from_le_bytes, to_le_bytes. cbn [foldr]. rewrite !byte_Z_le_byte.
  change (256 ^ Z.of_nat 0) with 1. change (256 ^ Z.of_nat 1) with 256.
  change (256 ^ Z.of_nat 2) with (256 * 256). change (256 ^ Z.of_nat 3) with (256 * 256 * 256).
  rewrite <- !Z.div_div, Z.div_1_r by lia.
  rewrite (Z.mod_small (n / 256 / 256 / 256)) by (split; [repeat apply Z.div_pos; lia|rewrite !Z.div_div by lia; apply Z.div_lt_upper_bound; lia]).
  pose proof (Z.div_mod n 256 ltac:(lia)). pose proof (Z.div_mod (n / 256) 256 ltac:(lia)).
  pose proof (Z.div_mod (n / 256 / 256) 256 ltac:(lia)). lia.
Qed.

Lemma length_encode_record vk elf : length (encode_record vk elf) = (4 + length vk + length elf)%nat.
Proof. unfold encode_record. rewrite !length_app. cbn. lia. Qed.

Lemma decode_encode_record vk elf :
  Z.of_nat (length vk) < 2 ^ 32 -> decode_record (encode_record vk elf) = inr (vk, elf).
Proof.
  intros Hvk. unfold decode_record. rewrite length_encode_record.
  destruct (Nat.ltb_spec (4 + length vk + length elf) 4) as [|_]; [lia|].
  assert (Hlen : take 4 (encode_record vk elf) = to_le_bytes (Z.of_nat (length vk))) by done.
  rewrite Hlen, from_to_le_bytes, Nat2Z.id by lia.
  destruct (Nat.ltb_spec (4 + length vk + length elf) (4 + length vk)) as [|_]; [lia|].
  change (drop 4 (encode_record vk elf)) with (vk ++ elf). rewrite take_app_length.
  rewrite <- drop_drop. change (drop 4 (encode_record vk elf)) with (vk ++ elf). by rewrite drop_app_length.
Qed.

(** ** Paths *)
Section paths.
Context `{HO : HexCodecOk}.

Lemma no_dot_stem n : forallb is_hex_digit (as_bytes n) = true -> file_stem n = n.
Proof.
  intros Hn. assert (Hb : before_last_dot n = None).
  { induction n as [|c n IH]; [done|]. cbn in Hn. apply andb_true_iff in Hn as [Hc Hn].
    cbn [before_last_dot]. rewrite IH by done. destruct (decide (c = "."%char)) as [->|]; [done|done]. }
  unfold file_stem. by rewrite Hb.
Qed.

Lemma hex_nonempty h : h <> [] -> hex_encode h <> "".
Proof. rewrite <- hex_encode_nil. intros Hh Heq. by apply Hh, hex_encode_inj. Qed.

Lemma path_entry h : h <> [] -> path h = Entry (hex_encode h).
Proof. intros Hh%hex_nonempty. unfold path. by destruct (hex_encode h). Qed.

Lemma path_nil : path [] = StoreDir.
Proof. unfold path. by rewrite hex_encode_nil. Qed.

Lemma tmp_path_entry h : h <> [] -> tmp_path h = Entry (hex_encode h +:+ ".tmp").
Proof.
  intros Hh. unfold tmp_path. rewrite path_entry by done. cbn [with_extension].
  by rewrite no_dot_stem by apply hex_encode_digits.
Qed.

Lemma tmp_path_nil : tmp_path [] = Beside "tmp".
Proof. unfold tmp_path. by rewrite path_nil. Qed.

Lemma tmp_not_hex n : forallb is_hex_digit (as_bytes (n +:+ ".tmp")) = false.
Proof.
  induction n as [|c n IH]; [done|]. change (as_bytes (String c n +:+ ".tmp")) with (c :: as_bytes (n +:+ ".tmp")).
  cbn [forallb]. by rewrite IH, andb_false_r.
Qed.

Lemma path_inj h h' : path h = path h' -> h = h'.
Proof.
  destruct (decide (h = [])) as [->|Hh], (decide (h' = [])) as [->|Hh'];
    rewrite ?path_nil, ?path_entry by done; try done. by intros [= ?%hex_encode_inj].
Qed.

Lemma app_string_inj (a b c : string) : a +:+ c = b +:+ c -> a = b.
Proof.
  intros Heq%(f_equal as_bytes). rewrite !as_bytes_app in Heq. apply (inj (.++ _)) in Heq.
  apply (f_equal of_bytes) in Heq. by rewrite !of_bytes_as_bytes in Heq.
Qed.

Lemma tmp_path_inj h h' : tmp_path h = tmp_path h' -> h = h'.
Proof.
  destruct (decide (h = [])) as [->|Hh], (decide (h' = [])) as [->|Hh'];
    rewrite ?tmp_path_nil, ?tmp_path_entry by done; try done.
  by intros [= ?%app_string_inj%hex_encode_inj].
Qed.

Lemma tmp_path_ne h h' : tmp_path h <> path h'.
Proof.
  destruct (decide (h = [])) as [->|Hh], (decide (h' = [])) as [->|Hh'];
    rewrite ?path_nil, ?path_entry, ?tmp_path_nil, ?tmp_path_entry by done; try done.
  intros [= Heq]. pose proof (tmp_not_hex (hex_encode h)) as Hn. by rewrite Heq, hex_encode_digits in Hn.
Qed.

Lemma tmp_path_file h : tmp_path h <> StoreDir.
Proof.
  destruct (decide (h = [])) as [->|Hh]; rewrite ?tmp_path_nil, ?tmp_path_entry by done; done.
Qed.
End paths.

(** ** Files *)

(** No inode has two names, and new inodes are new. *)
Record fs_ok (fs : Fs) : Prop := {
  fs_inj : forall p q i, fs_dir fs !! p = Some i -> fs_dir fs !! q = Some i -> p = q;
  fs_fresh : forall p i, fs_dir fs !! p = Some i -> (i < fs_next fs)%nat;
}.

Lemma empty_fs_ok : fs_ok empty_fs.
Proof. by constructor. Qed.

(** The name [p] is inode [i], which holds [b]. *)
Definition at_path (fs : Fs) (p : Path) (i : nat) (b : bytes) : Prop := fs_dir fs !! p = Some i /\ content fs i = b.

(** Only the file [p] may differ. *)
Record touches (p : Path) (fs fs' : Fs) : Prop := {
  t_ok : fs_ok fs';
  t_dir : forall q, q <> p -> fs_dir fs' !! q = fs_dir fs !! q;
  t_data : forall q i, q <> p -> fs_dir fs !! q = Some i -> content fs' i = content fs i;
}.

Lemma touches_refl p fs : fs_ok fs -> touches p fs fs.
Proof. by constructor. Qed.

Lemma touches_at p fs fs' q i b : touches p fs fs' -> q <> p -> at_path fs q i b -> at_path fs' q i b.
Proof.
  intros [_ Hd Hc] Hq [Hi Hb]. split; [by rewrite Hd|]. by rewrite (Hc q i Hq Hi).
Qed.

Lemma touches_read p fs fs' q : touches p fs fs' -> q <> p -> read_file q fs' = read_file q fs.
Proof.
  intros [_ Hd Hc] Hq. unfold read_file.
  destruct q; [done| |]; rewrite Hd by done; destruct (fs_dir fs !! _) as [i|] eqn:Hi; try done; by rewrite (Hc _ i Hq Hi).
Qed.

Lemma create_file_touches p fs i fs' :
  fs_ok fs -> create_file p fs = Some (i, fs') -> touches p fs fs' /\ at_path fs' p i [].
Proof.
  intros [Hinj Hfresh] Hc. unfold create_file in Hc.
  assert (Hc' : match fs_dir fs !! p with
    | Some i => Some (i, mkFs (fs_dir fs) (<[i := []]> (fs_data fs)) (fs_next fs))
    | None => Some (fs_next fs, mkFs (<[p := fs_next fs]> (fs_dir fs)) (<[fs_next fs := []]> (fs_data fs)) (S (fs_next fs)))
    end = Some (i, fs')) by (by destruct p). clear Hc.
  destruct (fs_dir fs !! p) as [j|] eqn:Hj; simplify_eq.
  - split; [split; cbn|split; [done|unfold content; cbn; by rewrite lookup_insert_eq]]; try done.
    intros q j Hq Hqj. unfold content. cbn. rewrite lookup_insert_ne; [done|]. intros ->. by apply Hq, (Hinj q p j).
  - split; [split; cbn|split; cbn; [by rewrite lookup_insert_eq|unfold content; cbn; by rewrite lookup_insert_eq]].
    + constructor; cbn; [intros q r j|intros q j].
      * destruct (decide (q = p)) as [->|Hq], (decide (r = p)) as [->|Hr];
          rewrite ?lookup_insert_eq, ?lookup_insert_ne by congruence; try done; [| |apply Hinj].
        -- intros [= <-] Hlt%Hfresh. lia.
        -- intros Hlt%Hfresh [= <-]. lia.
      * destruct (decide (q = p)) as [->|Hq]; rewrite ?lookup_insert_eq, ?lookup_insert_ne by congruence.
        -- intros [= <-]. lia.
        -- intros ?%Hfresh. lia.
    + intros q Hq. by rewrite lookup_insert_ne.
    + intros q j Hq Hqj. unfold content. cbn. rewrite lookup_insert_ne; [done|]. apply Hfresh in Hqj. lia.
Qed.

Lemma write_at_touches p fs i b data :
  fs_ok fs -> at_path fs p i b ->
  touches p fs (write_at i (length b) data fs) /\ at_path (write_at i (length b) data fs) p i (b ++ data).
Proof.
  intros Hok [Hi Hb]. split.
  - split; [by destruct Hok; constructor|done|].
    intros q j Hq Hqj. unfold content, write_at. cbn. rewrite lookup_insert_ne; [done|].
    intros ->. by apply Hq, (fs_inj _ Hok q p j).
  - split; [done|]. unfold content, write_at. cbn. rewrite lookup_insert_eq. cbn. rewrite Hb.
    rewrite Nat.sub_diag, take_ge, drop_ge by lia. cbn. by rewrite !app_nil_r.
Qed.

Lemma rename_spec src dst fs fs' i b :
  fs_ok fs -> src <> dst -> at_path fs src i b -> rename src dst fs = Some fs' ->
  fs_ok fs' /\ at_path fs' dst i b /\ dst <> StoreDir /\
  (forall q, q <> src -> q <> dst -> fs_dir fs' !! q = fs_dir fs !! q) /\ (forall j, content fs' j = content fs j).
Proof.
  intros [Hinj Hfresh] Hne [Hi Hb] Hr. unfold rename in Hr. rewrite Hi in Hr.
  assert (Hd : dst <> StoreDir) by (by destruct dst).
  assert (Hfs : fs' = mkFs (<[dst := i]> (delete src (fs_dir fs))) (fs_data fs) (fs_next fs)) by (destruct dst; congruence).
  subst fs'. clear Hr. split; [|split; [split; [apply lookup_insert_eq|done]|split; [done|split; [|done]]]].
  - assert (Hlook : forall q j, (<[dst := i]> (delete src (fs_dir fs))) !! q = Some j ->
      fs_dir fs !! q = Some j /\ q <> src /\ q <> dst \/ q = dst /\ j = i).
    { intros q j. destruct (decide (q = dst)) as [->|Hq]; [rewrite lookup_insert_eq; intros [= <-]; by right|].
      rewrite lookup_insert_ne by done. intros [? ?]%lookup_delete_Some. by left. }
    constructor; cbn.
    + intros p q j [(Hp & Hps & _)|[-> ->]]%Hlook [(Hq & Hqs & _)|[-> Heq]]%Hlook; try done; [by eapply Hinj| |].
      * subst j. by destruct Hps; eapply Hinj.
      * by destruct Hqs; eapply Hinj.
    + intros p j [(Hp & _)|[-> ->]]%Hlook; by eapply Hfresh.
  - intros q Hq Hq'. cbn. by rewrite lookup_insert_ne, lookup_delete_ne by congruence.
Qed.

(** ** One step of a put *)
Section puts.
Context `{HO : HexCodecOk}.

Definition fits (vk : bytes) : Prop := Z.of_nat (length vk) < 2 ^ 32.

(** The temporary file holds what the put has written of its record. *)
Definition phase_ok (fs : Fs) (h vk elf : bytes) (ph : PutPhase) : Prop :=
  match ph with
  | PutStart => True
  | PutLen i => fits vk /\ at_path fs (tmp_path h) i []
  | PutVk i off => fits vk /\ off = 4%nat /\ at_path fs (tmp_path h) i (to_le_bytes (Z.of_nat (length vk)))
  | PutElf i off =>
      fits vk /\ off = (4 + length vk)%nat /\ at_path fs (tmp_path h) i (to_le_bytes (Z.of_nat (length vk)) ++ vk)
  | PutSync i | PutRename i => fits vk /\ at_path fs (tmp_path h) i (encode_record vk elf)
  | PutDone (inr _) => fits vk
  | PutDone (inl _) => True
  end.

Definition published_phase (ph : PutPhase) : bool := match ph with PutDone (inr _) => true | _ => false end.

(** A step writes the put's own temporary file, or publishes the record. *)
Record put_effect (h vk elf : bytes) (ph ph' : PutPhase) (fs fs' : Fs) : Prop := {
  pe_ok : fs_ok fs';
  pe_phase : phase_ok fs' h vk elf ph';
  pe_dir : forall q, q <> tmp_path h -> q <> path h -> fs_dir fs' !! q = fs_dir fs !! q;
  pe_data : forall q i, q <> tmp_path h -> fs_dir fs !! q = Some i -> content fs' i = content fs i;
  pe_read : read_file (path h) fs' =
    if published_phase ph' && negb (published_phase ph) then inr (encode_record vk elf) else read_file (path h) fs;
  pe_keep : published_phase ph = true -> published_phase ph' = true;
}.

Lemma touch_effect h vk elf ph ph' fs fs' :
  touches (tmp_path h) fs fs' -> phase_ok fs' h vk elf ph' -> published_phase ph' = published_phase ph ->
  put_effect h vk elf ph ph' fs fs'.
Proof.
  intros Ht Hp Heq. pose proof (tmp_path_ne h h). constructor; [apply Ht|done| |apply Ht| |congruence].
  - intros q Hq _. by apply Ht.
  - rewrite Heq. destruct (published_phase ph); by apply (touches_read _ _ _ _ Ht).
Qed.

Lemma put_write_effect io h vk elf ph fs i b data next :
  fs_ok fs -> at_path fs (tmp_path h) i b -> published_phase ph = false -> published_phase next = false ->
  (forall fs', at_path fs' (tmp_path h) i (b ++ data) -> phase_ok fs' h vk elf next) ->
  let '(ph', fs') := put_write io i (length b) data next fs in put_effect h vk elf ph ph' fs fs'.
Proof.
  intros Hok Hat Hph Hnext Hn. destruct io as [|k]; cbn [put_write].
  - destruct (write_at_touches _ fs i b data Hok Hat). apply touch_effect; [done|auto|congruence].
  - destruct (write_at_touches _ fs i b (take k data) Hok Hat). by apply touch_effect.
Qed.

Lemma rename_effect h vk elf fs fs' i :
  fs_ok fs -> fits vk -> at_path fs (tmp_path h) i (encode_record vk elf) -> rename (tmp_path h) (path h) fs = Some fs' ->
  put_effect h vk elf (PutRename i) (PutDone (inr tt)) fs fs'.
Proof.
  intros Hok Hfit Hat Hr. destruct (rename_spec _ _ _ _ _ _ Hok (tmp_path_ne h h) Hat Hr) as (Hok' & [Hd Hc] & Hdir & Hq & Hc').
  constructor; cbn; auto. unfold read_file. destruct (path h); [done| |]; by rewrite Hd, Hc.
Qed.

Lemma put_phase_effect io h vk elf ph fs :
  fs_ok fs -> phase_ok fs h vk elf ph ->
  let '(ph', fs') := put_phase io h vk elf ph fs in put_effect h vk elf ph ph' fs fs'.
Proof.
  intros Hok Hp.
  assert (Hfail : forall e, published_phase ph = false -> put_effect h vk elf ph (PutDone (inl e)) fs fs).
  { intros e Hph. by apply touch_effect; [apply touches_refl| |]. }
  destruct ph as [|i|i off|i off|i|i|r]; cbn [put_phase].
  - destruct (Z.leb_spec (2 ^ 32) (Z.of_nat (length vk))); [by apply Hfail|].
    destruct io; [|by apply Hfail]. destruct (create_file _ _) as [[i fs']|] eqn:Hc; [|by apply Hfail].
    destruct (create_file_touches _ _ _ _ Hok Hc). by apply touch_effect.
  - destruct Hp as [Hfit Hat]. by apply (put_write_effect io h vk elf (PutLen i) fs i []).
  - destruct Hp as (Hfit & -> & Hat).
    by apply (put_write_effect io h vk elf _ fs i (to_le_bytes (Z.of_nat (length vk)))).
  - destruct Hp as (Hfit & -> & Hat).
    replace (4 + length vk)%nat with (length (to_le_bytes (Z.of_nat (length vk)) ++ vk)) by (by rewrite length_app).
    apply (put_write_effect io h vk elf _ fs i (to_le_bytes (Z.of_nat (length vk)) ++ vk)); try done.
  - destruct Hp as [Hfit Hat]. destruct io; [|by apply Hfail]. by apply touch_effect; [apply touches_refl| |].
  - destruct Hp as [Hfit Hat]. destruct io; [|by apply Hfail].
    destruct (rename _ _ _) as [fs'|] eqn:Hr; [|by apply Hfail]. by apply rename_effect with (i := i).
  - apply touch_effect; [by apply touches_refl|done|done].
Qed.

(** ** Alone *)
Lemma effect_other h vk elf ph ph' fs fs' h' :
  put_effect h vk elf ph ph' fs fs' -> h' <> h -> read_file (path h') fs' = read_file (path h') fs.
Proof.
  intros [_ _ Hd Hc _ _] Hne. assert (Hp : path h' <> path h) by (by intros ?%path_inj).
  pose proof (tmp_path_ne h h') as Ht. unfold read_file.
  destruct (path h') eqn:E; [done| |]; rewrite Hd by congruence;
    (destruct (fs_dir fs !! _) as [i|] eqn:Hi; [by rewrite (Hc _ i (not_eq_sym Ht) Hi)|done]).
Qed.

Definition phase_rank (ph : PutPhase) : nat :=
  match ph with
  | PutStart => 6 | PutLen _ => 5 | PutVk _ _ => 4 | PutElf _ _ => 3 | PutSync _ => 2 | PutRename _ => 1 | PutDone _ => 0
  end.

Lemma put_phase_rank io h vk elf ph fs :
  phase_rank ph <> 0%nat -> (phase_rank (put_phase io h vk elf ph fs).1 < phase_rank ph)%nat.
Proof.
  intros Hr. destruct ph, io; cbn [put_phase put_write fst phase_rank] in *; repeat case_match; cbn [fst phase_rank]; lia.
Qed.

(** What a put leaves, run to its end from the phase [ph]. *)
Lemma put_run_spec fuel ios h vk elf ph fs :
  fs_ok fs -> phase_ok fs h vk elf ph -> published_phase ph = false -> (phase_rank ph <= fuel)%nat ->
  exists r fs', put_run fuel ios h vk elf ph fs = (Some r, fs') /\ fs_ok fs' /\
    (forall h', h' <> h -> read_file (path h') fs' = read_file (path h') fs) /\
    match r with
    | inr _ => fits vk /\ read_file (path h) fs' = inr (encode_record vk elf)
    | inl _ => read_file (path h) fs' = read_file (path h) fs
    end.
Proof.
  revert ph fs. induction fuel as [|fuel IH]; intros ph fs Hok Hp Hpub Hrank.
  { destruct ph as [| | | | | |[e|[]]]; cbn in Hrank, Hpub; try lia; try done. exists (inl e), fs. cbn. auto. }
  destruct (decide (phase_rank ph = 0%nat)) as [H0|H0].
  { destruct ph as [| | | | | |[e|[]]]; try done. exists (inl e), fs. cbn. auto. }
  pose proof (put_phase_rank (ios fuel) h vk elf ph fs H0) as Hlt.
  pose proof (put_phase_effect (ios fuel) h vk elf ph fs Hok Hp) as Heff.
  assert (Hrun : put_run (S fuel) ios h vk elf ph fs =
    let (ph, fs) := put_phase (ios fuel) h vk elf ph fs in put_run fuel ios h vk elf ph fs) by (by destruct ph).
  rewrite Hrun. destruct (put_phase _ _ _ _ _ _) as [ph' fs']. cbn [fst] in Hlt.
  pose proof (pe_read _ _ _ _ _ _ _ Heff) as Hread. rewrite Hpub in Hread.
  destruct (published_phase ph') eqn:Hpub'.
  - destruct ph' as [| | | | | |[e|[]]]; try done. exists (inr tt), fs'.
    split; [by destruct fuel|]. destruct (Heff) as [Hok' Hp' _ _ _ _]. split; [done|].
    split; [intros h' Hne; by eapply effect_other|]. done.
  - destruct (IH ph' fs') as (r & fs2 & Hr & Hok2 & Ho & Hread2); [apply Heff|apply Heff|done|lia|].
    exists r, fs2. split; [done|]. split; [done|]. cbn [andb] in Hread.
    split; [intros h' Hne; rewrite Ho by done; by eapply effect_other|]. destruct r; congruence || done.
Qed.

Lemma put_phase_ok_io h vk elf ph fs :
  h <> [] -> fits vk -> phase_ok fs h vk elf ph -> match ph with PutDone (inl _) => False | _ => True end ->
  match (put_phase IoOk h vk elf ph fs).1 with PutDone (inl _) => False | _ => True end.
Proof.
  intros Hh Hfit Hp Hph. unfold fits in Hfit. destruct ph as [|i|i off|i off|i|i|r]; cbn [put_phase put_write fst]; try done.
  - destruct (Z.leb_spec (2 ^ 32) (Z.of_nat (length vk))); [lia|].
    unfold create_file. rewrite tmp_path_entry by done. by destruct (fs_dir fs !! _).
  - destruct Hp as [_ [Hd _]]. unfold rename. rewrite path_entry, Hd by done. done.
Qed.

Lemma put_run_ok fuel h vk elf ph fs :
  h <> [] -> fits vk -> fs_ok fs -> phase_ok fs h vk elf ph -> match ph with PutDone (inl _) => False | _ => True end ->
  (phase_rank ph <= fuel)%nat -> (put_run fuel (fun _ => IoOk) h vk elf ph fs).1 = Some (inr tt).
Proof.
  intros Hh Hfit. revert ph fs. induction fuel as [|fuel IH]; intros ph fs Hok Hp Hph Hrank.
  { destruct ph as [| | | | | |[e|[]]]; cbn in Hrank; try lia; done. }
  destruct (decide (phase_rank ph = 0%nat)) as [H0|H0].
  { by destruct ph as [| | | | | |[e|[]]]. }
  assert (Hrun : put_run (S fuel) (fun _ => IoOk) h vk elf ph fs =
    let (ph, fs) := put_phase IoOk h vk elf ph fs in put_run fuel (fun _ => IoOk) h vk elf ph fs) by (by destruct ph).
  rewrite Hrun. pose proof (put_phase_rank IoOk h vk elf ph fs H0). pose proof (put_phase_effect IoOk h vk elf ph fs Hok Hp) as Heff.
  pose proof (put_phase_ok_io h vk elf ph fs Hh Hfit Hp Hph). destruct (put_phase _ _ _ _ _ _) as [ph' fs'].
  apply IH; [apply Heff|apply Heff|done|cbn in *; lia].
Qed.

Lemma fs_get_read h fs b : read_file (path h) fs = inr b ->
  fs_get false h fs = match decode_record b with inr p => inr (Some p) | inl e => inl e end.
Proof. intros Hr. unfold fs_get. by rewrite Hr. Qed.

Lemma fs_get_ext h fs fs' : read_file (path h) fs' = read_file (path h) fs -> fs_get false h fs' = fs_get false h fs.
Proof. intros Hr. unfold fs_get. by rewrite Hr. Qed.

Lemma fs_get_encoded h fs vk elf : fits vk -> read_file (path h) fs = inr (encode_record vk elf) ->
  fs_get false h fs = inr (Some (vk, elf)).
Proof. intros Hfit Hr. by rewrite (fs_get_read _ _ _ Hr), decode_encode_record. Qed.

(** ** Together *)

(** While the puts on different programs run: a program of a put that has
    returned holds its record, every other program what it held before. *)
Record SharedOk (fs0 : Fs) (s : Shared) : Prop := {
  so_fs : fs_ok (sh_fs s);
  so_hashes : NoDup (p_hash <$> sh_puts s);
  so_phase : forall n p, sh_puts s !! n = Some p -> phase_ok (sh_fs s) (p_hash p) (p_vk p) (p_elf p) (p_phase p);
  so_own : forall n p, sh_puts s !! n = Some p ->
    read_file (path (p_hash p)) (sh_fs s) =
    if published_phase (p_phase p) then inr (encode_record (p_vk p) (p_elf p)) else read_file (path (p_hash p)) fs0;
  so_other : forall h, h ∉ p_hash <$> sh_puts s -> read_file (path h) (sh_fs s) = read_file (path h) fs0;
}.

Lemma phase_ok_other h vk elf ph ph' fs fs' h' vk' elf' ph2 :
  put_effect h vk elf ph ph' fs fs' -> h' <> h -> phase_ok fs h' vk' elf' ph2 -> phase_ok fs' h' vk' elf' ph2.
Proof.
  intros [_ _ Hd Hc _ _] Hne Hp. assert (Ht : tmp_path h' <> tmp_path h) by (by intros ?%tmp_path_inj).
  assert (Hat : forall i b, at_path fs (tmp_path h') i b -> at_path fs' (tmp_path h') i b).
  { intros i b [Hi Hb]. split; [rewrite Hd; [done|done|apply tmp_path_ne]|]. by rewrite (Hc _ i Ht Hi). }
  destruct ph2; cbn in *; naive_solver.
Qed.

Lemma shared_step_ok fs0 s o : SharedOk fs0 s -> SharedOk fs0 (shared_step s o).
Proof.
  intros Hok. destruct o as [n io]. unfold shared_step. cbn [fst snd].
  destruct (sh_puts s !! n) as [p|] eqn:Hn; [|done]. unfold put_step.
  pose proof (put_phase_effect io _ _ _ _ _ (so_fs _ _ Hok) (so_phase _ _ Hok n p Hn)) as Heff.
  destruct (put_phase _ _ _ _ _ _) as [ph' fs']. set (p' := mkPut _ _ _ ph').
  assert (Hids : p_hash <$> <[n := p']> (sh_puts s) = p_hash <$> sh_puts s).
  { rewrite list_fmap_insert. apply list_insert_id. by rewrite list_lookup_fmap, Hn. }
  assert (Hother : forall m q, m <> n -> sh_puts s !! m = Some q -> p_hash q <> p_hash p).
  { intros m q Hm Hq Heq. apply Hm. eapply (NoDup_lookup _ m n (p_hash q) (so_hashes _ _ Hok));
      rewrite list_lookup_fmap; [by rewrite Hq|by rewrite Hn, Heq]. }
  assert (Hlen : (n < length (sh_puts s))%nat) by (by eapply lookup_lt_Some).
  constructor; cbn [sh_fs sh_puts]; [apply Heff|by rewrite Hids; apply Hok| | |].
  - intros m q. destruct (decide (m = n)) as [->|Hm].
    + rewrite list_lookup_insert_eq by done. intros [= <-]. apply Heff.
    + rewrite list_lookup_insert_ne by done. intros Hq. eapply phase_ok_other; [done|by eapply Hother|by apply (so_phase _ _ Hok m)].
  - intros m q. destruct (decide (m = n)) as [->|Hm].
    + rewrite list_lookup_insert_eq by done. intros [= <-]. cbn [p' p_hash p_vk p_elf p_phase].
      rewrite (pe_read _ _ _ _ _ _ _ Heff). pose proof (so_own _ _ Hok n p Hn) as Hown.
      pose proof (pe_keep _ _ _ _ _ _ _ Heff) as Hkeep.
      destruct (published_phase (p_phase p)), (published_phase ph'); cbn; try done. by specialize (Hkeep eq_refl).
    + rewrite list_lookup_insert_ne by done. intros Hq. rewrite (effect_other _ _ _ _ _ _ _ _ Heff) by (by eapply Hother).
      by apply (so_own _ _ Hok m).
  - intros h. rewrite Hids. intros Hh. rewrite (effect_other _ _ _ _ _ _ _ _ Heff); [by apply Hok|].
    intros ->. apply Hh. apply list_elem_of_fmap. exists p. split; [done|by eapply list_elem_of_lookup_2].
Qed.

Lemma shared_run_ok fs0 s sched : SharedOk fs0 s -> SharedOk fs0 (shared_run s sched).
Proof. revert s. induction sched as [|o sched IH]; intros s Hok; [done|]. by apply IH, shared_step_ok. Qed.

Lemma shared_run_hashes s sched : p_hash <$> sh_puts (shared_run s sched) = p_hash <$> sh_puts s.
Proof.
  revert s. induction sched as [|[n io] sched IH]; intros s; [done|].
  change (shared_run s ((n, io) :: sched)) with (shared_run (shared_step s (n, io)) sched). rewrite IH.
  unfold shared_step. cbn [fst snd]. destruct (sh_puts s !! n) as [p|] eqn:Hn; [|done].
  unfold put_step. destruct (put_phase _ _ _ _ _ _). cbn [sh_puts].
  rewrite list_fmap_insert. apply list_insert_id. by rewrite list_lookup_fmap, Hn.
Qed.

Lemma new_puts_ok fs l :
  fs_ok fs -> NoDup (l.*1 : list bytes) -> SharedOk fs (mkShared fs ((fun x => new_put x.1 x.2.1 x.2.2) <$> l)).
Proof.
  intros Hok Hnd. constructor; cbn [sh_fs sh_puts]; try done.
  - by rewrite <- list_fmap_compose.
  - intros n p. rewrite list_lookup_fmap_Some. by intros (? & -> & ?).
  - intros n p. rewrite list_lookup_fmap_Some. by intros (? & -> & ?).
Qed.
End puts.

(** ** The implementation meets the interface *)
Section instance.
Context `{HO : HexCodecOk}.

Definition fs_view (fs : Fs) : Registry := fun h => match fs_get false h fs with inr r => r | inl _ => None end.

Lemma fs_view_ext h fs fs' : read_file (path h) fs' = read_file (path h) fs -> fs_view fs' h = fs_view fs h.
Proof. intros Hr. unfold fs_view. by rewrite (fs_get_ext _ _ _ Hr). Qed.

Lemma fs_put_view ios h vk elf fs r fs' :
  fs_ok fs -> fs_put ios h vk elf fs = (Some r, fs') ->
  fs_ok fs' /\ match r with
  | inr _ => forall h', fs_view fs' h' = reg_insert h (vk, elf) (fs_view fs) h'
  | inl _ => forall h', fs_view fs' h' = fs_view fs h'
  end.
Proof.
  intros Hok Hput. destruct (put_run_spec PUT_STEPS ios h vk elf PutStart fs Hok I eq_refl ltac:(done)) as (r' & fs2 & Hr & Hok' & Ho & Hread).
  unfold fs_put in Hput. rewrite Hr in Hput. simplify_eq. split; [done|].
  destruct r as [e|[]]; intros h'; destruct (decide (h' = h)) as [->|Hne].
  - by apply fs_view_ext.
  - by apply fs_view_ext, Ho.
  - destruct Hread as [Hfit Hread]. unfold reg_insert. rewrite decide_True by done.
    unfold fs_view. by rewrite (fs_get_encoded _ _ _ _ Hfit Hread).
  - unfold reg_insert. rewrite decide_False by done. by apply fs_view_ext, Ho.
Qed.

#[export] Instance filesystem_ok ios reads : ProgramStoreOk (FilesystemProgramStore ios reads).
Proof.
  refine (@Build_ProgramStoreOk (FilesystemProgramStore ios reads) fs_ok fs_view _ _ _); cbn -[fs_put fs_get].
  - intros n h vk elf fs fs' Hok Hp. destruct (fs_put _ _ _ _ _) as [[r|] fs2] eqn:Hput; simplify_eq.
    by apply (fs_put_view _ _ _ _ _ _ _ Hok Hput).
  - intros n h vk elf fs fs' e Hok Hp. destruct (fs_put _ _ _ _ _) as [[r|] fs2] eqn:Hput; simplify_eq.
    + destruct (fs_put_view _ _ _ _ _ _ _ Hok Hput). auto.
    + destruct (put_run_spec PUT_STEPS (ios n) h vk elf PutStart fs Hok I eq_refl ltac:(done)) as (r' & fs3 & Hr & _).
      unfold fs_put in Hput. congruence.
  - intros n h fs r Hok. unfold fs_view. unfold fs_get at 1. destruct (reads n); [done|].
    intros Hr. change (fs_get false h fs = inr r) in Hr. by rewrite Hr.
Defined.
End instance.

(** ** Theorems *)

(** A program put on the filesystem store alone ends after its six steps
    whatever I/O errors it meets: on [Ok] exactly that program is registered, with
    the bytes given, on an error the registry is as it was; and without I/O errors
    it is [Ok] for every non-empty hash and every key that fits the length prefix. *)
Theorem fs_put_registers `{HO : HexCodecOk} (ios : nat -> Io) (h vk elf : bytes) (fs : Fs) (Hok : fs_ok fs) :
  exists r fs', fs_put ios h vk elf fs = (Some r, fs') /\
    (forall h', h' <> h -> fs_get false h' fs' = fs_get false h' fs) /\
    fs_get false h fs' = match r with inr _ => inr (Some (vk, elf)) | inl _ => fs_get false h fs end /\
    ((forall n, ios n = IoOk) -> h <> [] -> Z.of_nat (length vk) < 2 ^ 32 -> r = inr tt).
Proof.
  destruct (put_run_spec PUT_STEPS ios h vk elf PutStart fs Hok I eq_refl ltac:(done)) as (r & fs' & Hr & Hok' & Ho & Hread).
  exists r, fs'. split; [done|]. split; [intros h' Hne; by apply fs_get_ext, Ho|]. split.
  - destruct r as [e|[]]; [by apply fs_get_ext|]. destruct Hread. by apply fs_get_encoded.
  - intros Hio Hh Hfit. pose proof (put_run_ok PUT_STEPS h vk elf PutStart fs Hh Hfit Hok I I ltac:(done)) as Hrun.
    assert (Heq : put_run PUT_STEPS ios h vk elf PutStart fs = put_run PUT_STEPS (fun _ => IoOk) h vk elf PutStart fs).
    { clear - Hio. generalize PUT_STEPS PutStart fs. intros fuel.
      induction fuel as [|fuel IH]; intros ph fs'; destruct ph; cbn [put_run]; try done; rewrite Hio;
        destruct (put_phase _ _ _ _ _ _); apply IH. }
    rewrite <- Heq, Hr in Hrun. by simplify_eq/=.
Qed.

(** C22. Puts of different programs may interleave in any way, meet any I/O errors
    and be stopped at any point: every program whose put has returned [Ok] reads
    back exactly as given, and every other program, including those being
    written, reads as it did before, never as a torn record. *)
Theorem concurrent_puts_are_atomic `{HO : HexCodecOk} (fs : Fs) (programs : list (bytes * (bytes * bytes)))
    (sched : list (nat * Io)) (Hok : fs_ok fs) (Hdistinct : NoDup (programs.*1)) :
  let s := shared_run (mkShared fs ((fun x => new_put x.1 x.2.1 x.2.2) <$> programs)) sched in
  (forall n p, sh_puts s !! n = Some p ->
     fs_get false (p_hash p) (sh_fs s) =
     match p_phase p with
     | PutDone (inr _) => inr (Some (p_vk p, p_elf p))
     | _ => fs_get false (p_hash p) fs
     end) /\
  (forall h, h ∉ programs.*1 -> fs_get false h (sh_fs s) = fs_get false h fs).
Proof.
  intros s. assert (Hs : SharedOk fs s) by (by apply shared_run_ok, new_puts_ok). split.
  - intros n p Hn. pose proof (so_own _ _ Hs n p Hn) as Hown. pose proof (so_phase _ _ Hs n p Hn) as Hph.
    destruct (p_phase p) as [| | | | | |[e|[]]]; cbn in Hown, Hph; try (by apply fs_get_ext). by apply fs_get_encoded.
  - intros h Hh. apply fs_get_ext, (so_other _ _ Hs).
    assert (Hids : p_hash <$> sh_puts s = programs.*1); [|by rewrite Hids].
    unfold s. rewrite shared_run_hashes. cbn [sh_puts]. by rewrite <- list_fmap_compose.
Qed.

(** ** A concrete codec *)
Definition hex_digit (n : N) : ascii := ascii_of_N (if n <? 10 then 48 + n else 87 + n)%N.
Definition hex_value (c : ascii) : N := (let n := N_of_ascii c in if n <? 58 then n - 48 else n - 87)%N.
Definition hex_byte (c : ascii) : bytes := [hex_digit (N_of_ascii c / 16); hex_digit (N_of_ascii c mod 16)].
Fixpoint unhex (b : bytes) : bytes :=
  match b with
  | hi :: lo :: b => ascii_of_N (16 * hex_value hi + hex_value lo) :: unhex b
  | _ => []
  end.
Definition demo_hex : HexCodec := {| hex_encode := fun h => of_bytes (concat (hex_byte <$> h)) |}.

Lemma unhex_byte c : ascii_of_N (16 * hex_value (hex_digit (N_of_ascii c / 16)) + hex_value (hex_digit (N_of_ascii c mod 16))) = c.
Proof. by destruct c as [[] [] [] [] [] [] [] []]. Qed.

Lemma unhex_concat h : unhex (concat (hex_byte <$> h)) = h.
Proof. induction h as [|c h IH]; [done|]. cbn [fmap list_fmap concat hex_byte app unhex]. by rewrite unhex_byte, IH. Qed.

#[export] Instance demo_hex_ok : HexCodecOk demo_hex.
Proof.
  constructor; cbn [hex_encode demo_hex]; [|done|].
  - intros a b Heq%(f_equal as_bytes). rewrite !as_bytes_of_bytes in Heq.
    rewrite <- (unhex_concat a), <- (unhex_concat b). by rewrite Heq.
  - intros h. rewrite as_bytes_of_bytes. induction h as [|c h IH]; [done|].
    cbn [fmap list_fmap concat hex_byte app forallb]. rewrite IH.
    by destruct c as [[] [] [] [] [] [] [] []].
Qed.

Lemma fs_put_registers_witness :
  exists r fs', fs_put (H := demo_hex) (fun _ => IoOk) (as_bytes "hash") (as_bytes "vk") (as_bytes "elf") empty_fs = (Some r, fs') /\
    r = inr tt /\ fs_get (H := demo_hex) false (as_bytes "hash") fs' = inr (Some (as_bytes "vk", as_bytes "elf")).
Proof.
  destruct (fs_put_registers (H := demo_hex) (fun _ => IoOk) (as_bytes "hash") (as_bytes "vk") (as_bytes "elf") empty_fs empty_fs_ok)
    as (r & fs' & Hput & _ & Hget & Hr).
  specialize (Hr (fun _ => eq_refl) ltac:(done) ltac:(done)). subst r. by exists (inr tt), fs'.
Defined.

Definition demo_programs : list (bytes * (bytes * bytes)) :=
  [(as_bytes "one", (as_bytes "vk1", as_bytes "elf1")); (as_bytes "two", (as_bytes "vk2", as_bytes "elf2"))].
Definition demo_sched : list (nat * Io) :=
  (fun n => (n, IoOk)) <$> [0; 1; 0; 1; 1; 0; 0; 1; 0; 0; 1]%nat.
Definition demo_shared : Shared :=
  shared_run (H := demo_hex) (mkShared empty_fs ((fun x => new_put x.1 x.2.1 x.2.2) <$> demo_programs)) demo_sched.

Lemma concurrent_puts_are_atomic_witness :
  fs_get (H := demo_hex) false (as_bytes "one") (sh_fs demo_shared) = inr (Some (as_bytes "vk1", as_bytes "elf1")) /\
  fs_get (H := demo_hex) false (as_bytes "two") (sh_fs demo_shared) = inr None.
Proof.
  destruct (concurrent_puts_are_atomic (H := demo_hex) empty_fs demo_programs demo_sched empty_fs_ok ltac:(apply (bool_decide_unpack (NoDup (demo_programs.*1))); vm_compute; exact I)) as [Hown _].
  split; [exact (Hown 0%nat (mkPut (as_bytes "one") (as_bytes "vk1") (as_bytes "elf1") (PutDone (inr tt))) ltac:(vm_compute; reflexivity))|].
  exact (Hown 1%nat (mkPut (as_bytes "two") (as_bytes "vk2") (as_bytes "elf2") (PutRename 1)) ltac:(vm_compute; reflexivity)).
Defined.

(** Two puts of the same program share the temporary file. The first fills it;
    the second opens, and so empties, the same inode; the first renames it into
    place and the second goes on writing to it. A reader meets the torn record,
    and keeps meeting it if the process stops there; the second put then fails on
    its rename although its bytes are the ones in place. *)
Definition same_program_puts : list Put :=
  [new_put (as_bytes "one") (as_bytes "vk") (as_bytes "elf"); new_put (as_bytes "one") (as_bytes "vk") (as_bytes "elf")].
Definition tearing_sched : list (nat * Io) := (fun n => (n, IoOk)) <$> [0; 0; 0; 0; 0; 1; 1; 0]%nat.

Lemma same_program_puts_tear :
  let s := shared_run (H := demo_hex) (mkShared empty_fs same_program_puts) tearing_sched in
  (p_phase <$> sh_puts s) = [PutDone (inr tt); PutVk 0 4] /\
  fs_get (H := demo_hex) false (as_bytes "one") (sh_fs s) = inl (Msg "program record truncated") /\
  (p_phase <$> sh_puts (shared_run (H := demo_hex) s ((fun n => (n, IoOk)) <$> [1; 1; 1; 1]%nat))) =
    [PutDone (inr tt); PutDone (inl (Msg "rename"))].
Proof. by vm_compute. Qed.
