(* ===== verification/GatewayIds.v ===== *)
(** * The gateway's names, statuses and signatures

    [ids.rs], [status.rs] and [auth.rs] of [bin/network-gateway/src]: artifact
    types and URIs, request ids, the two status vocabularies, and the check of a
    request's signature. What the sources use of Rust's strings ([trim], [split],
    [parse], [from_utf8_lossy]) is written out; the generated enums' wire codes,
    the typeid generator and the signature library are the class [GatewayEnv]. *)
From Stdlib Require Import Ascii String.
From stdpp Require Import base gmap strings list.
From S2P Require Import Prelude ApiStore ProgramStore.
Local Open Scope string_scope.
Local Open Scope list_scope.
Local Open Scope Z_scope.

(** ** Strings *)

(** [trim_end_matches('/')]. *)
Fixpoint trim_end_slash (s : string) : string :=
  match s with
  | EmptyString => EmptyString
  | String c s =>
      match trim_end_slash s with
      | EmptyString => if decide (c = "/"%char) then EmptyString else String c EmptyString
      | t => String c t
      end
  end.

(** [split(sep)]: never empty. *)
Fixpoint split (sep : ascii) (s : string) : list string :=
  match s with
  | EmptyString => [EmptyString]
  | String c s =>
      let rest := split sep s in
      if decide (c = sep) then EmptyString :: rest
      else match rest with seg :: rest => String c seg :: rest | [] => [String c EmptyString] end
  end.

(** The UTF-8 encodings of the characters with the White_Space property. *)
Definition chr (n : N) : ascii := ascii_of_N n.
Definition white_space : list bytes :=
  ((fun n => [chr n]) <$> [9; 10; 11; 12; 13; 32]%N) ++
  [[chr 194; chr 133]; [chr 194; chr 160]; [chr 225; chr 154; chr 128]] ++
  ((fun n => [chr 226; chr 128; chr n]) <$> [128; 129; 130; 131; 132; 133; 134; 135; 136; 137; 138; 168; 169; 175]%N) ++
  [[chr 226; chr 129; chr 159]; [chr 227; chr 128; chr 128]].

Definition strip_any (pats : list bytes) (b : bytes) : option bytes :=
  head (omap (fun p => if decide (take (length p) b = p) then Some (drop (length p) b) else None) pats).
Fixpoint strip_all (fuel : nat) (pats : list bytes) (b : bytes) : bytes :=
  match fuel, strip_any pats b with
  | S fuel, Some b => strip_all fuel pats b
  | _, _ => b
  end.

(** [str::trim]. *)
Definition trim (s : string) : string :=
  let b := as_bytes s in
  let b := strip_all (length b) white_space b in
  of_bytes (reverse (strip_all (length b) (reverse <$> white_space) (reverse b))).

(** [i32]'s [Display] and [FromStr]. *)
Definition digit (n : Z) : ascii := chr (48 + Z.to_N n).
Fixpoint show_digits (fuel : nat) (n : Z) : string :=
  match fuel with
  | O => EmptyString
  | S fuel =>
      if n <? 10 then String (digit n) EmptyString
      else show_digits fuel (n / 10) +:+ String (digit (n mod 10)) EmptyString
  end.
Definition i32_to_string (n : Z) : string :=
  if n <? 0 then String "-" (show_digits 10 (- n)) else show_digits 10 n.

Fixpoint parse_digits (acc : Z) (s : string) : option Z :=
  match s with
  | EmptyString => Some acc
  | String c s =>
      let d := byte_Z c - 48 in
      if (0 <=? d) && (d <=? 9) then parse_digits (10 * acc + d) s else None
  end.
(** [FromStr] of the unsigned integers of [w] bits. *)
Definition parse_uint (w : Z) (s : string) : option Z :=
  let digits := match s with
                | String c EmptyString => Some s
                | String c s' => if decide (c = "+"%char) then Some s' else Some s
                | EmptyString => None
                end in
  match digits with
  | Some ds => match parse_digits 0 ds with Some n => if n <? 2 ^ w then Some n else None | None => None end
  | None => None
  end.

Definition parse_i32 (s : string) : option Z :=
  let sign_and_digits :=
    match s with
    | String c EmptyString => Some (1, s)
    | String c s' =>
        if decide (c = "+"%char) then Some (1, s')
        else if decide (c = "-"%char) then Some (-1, s') else Some (1, s)
    | EmptyString => None
    end in
  match sign_and_digits with
  | None => None
  | Some (sign, ds) =>
      match parse_digits 0 ds with
      | Some n => if (- 2 ^ 31 <=? sign * n) && (sign * n <? 2 ^ 31) then Some (sign * n) else None
      | None => None
      end
  end.

(** [String::from_utf8_lossy]: [utf8_step] is the length of the next character,
    or of the malformed bytes one replacement character stands for. *)
Definition is_cont (o : option ascii) : bool := match o with Some c => (N_of_ascii c / 64 =? 2)%N | None => false end.
Definition between (lo hi n : N) : bool := ((lo <=? n) && (n <=? hi))%N.
Definition second_ok (first : N) (o : option ascii) : bool :=
  match o with
  | None => false
  | Some c =>
      let n := N_of_ascii c in
      if (first =? 224)%N then between 160 191 n
      else if (first =? 237)%N then between 128 159 n
      else if (first =? 240)%N then between 144 191 n
      else if (first =? 244)%N then between 128 143 n
      else between 128 191 n
  end.
Definition utf8_step (c : ascii) (rest : bytes) : nat * bool :=
  let n := N_of_ascii c in
  if (n <? 128)%N then (1%nat, true)
  else if between 194 223 n then if is_cont (rest !! 0%nat) then (2%nat, true) else (1%nat, false)
  else if between 224 239 n then
    if second_ok n (rest !! 0%nat)
    then if is_cont (rest !! 1%nat) then (3%nat, true) else (2%nat, false)
    else (1%nat, false)
  else if between 240 244 n then
    if second_ok n (rest !! 0%nat)
    then if is_cont (rest !! 1%nat)
         then if is_cont (rest !! 2%nat) then (4%nat, true) else (3%nat, false)
         else (2%nat, false)
    else (1%nat, false)
  else (1%nat, false).

Definition REPLACEMENT : bytes := [chr 239; chr 191; chr 189].
Fixpoint lossy (fuel : nat) (b : bytes) : bytes :=
  match fuel, b with
  | S fuel, c :: rest =>
      let '(n, ok) := utf8_step c rest in
      (if ok then take n b else REPLACEMENT) ++ lossy fuel (drop n b)
  | _, _ => []
  end.
Definition from_utf8_lossy (b : bytes) : string := of_bytes (lossy (length b) b).

(** ** The environment *)
Inductive ExecutionStatus := ExUnexecuted | ExExecuted | ExFailed | ExCancelled.
Inductive SdkFulfillment :=
  | UnspecifiedFulfillmentStatus | Requested | Assigned | Fulfilled | Unfulfillable | Reverted | Expired.
Inductive SdkExecution := UnspecifiedExecutionStatus | Unexecuted | Executed | Unexecutable.
Inductive ArtifactType :=
  | UnspecifiedArtifactType | Program | Stdin | Proof | Groth16Circuit | PlonkCircuit | PrivateStdin.
Inductive ProtoArtifactType :=
  | PUnspecified | PProgram | PStdin | PProof | PPrivateStdin | PTransaction | PState | PExport.

#[export] Instance SdkFulfillment_eq_dec : EqDecision SdkFulfillment.
Proof. solve_decision. Defined.
#[export] Instance SdkExecution_eq_dec : EqDecision SdkExecution.
Proof. solve_decision. Defined.
#[export] Instance ArtifactType_eq_dec : EqDecision ArtifactType.
Proof. solve_decision. Defined.

(** [typeid n] is the [n]-th id the process mints. *)
Class GatewayEnv := {
  execution_i32 : ExecutionStatus -> Z;
  sdk_fulfillment_i32 : SdkFulfillment -> Z;
  sdk_execution_i32 : SdkExecution -> Z;
  proto_artifact_i32 : ProtoArtifactType -> Z;
  typeid : nat -> string;
  Address : Type;
  Address_eq_dec :: EqDecision Address;
  Address_countable :: Countable Address;
  ZERO : Address;
  to_vec : Address -> list Z;
  show_address : Address -> string;
  address_from_str : string -> string + Address;
  Signature : Type;
  signature_from_raw : bytes -> string + Signature;
  recover_address_from_msg : Signature -> bytes -> string + Address;
}.

Class GatewayEnvOk (G : GatewayEnv) : Prop := {
  execution_i32_inj :: Inj (=) (=) execution_i32;
  sdk_fulfillment_i32_inj :: Inj (=) (=) sdk_fulfillment_i32;
  sdk_execution_i32_inj :: Inj (=) (=) sdk_execution_i32;
  typeid_text : forall n,
    Forall (fun c => 0 < byte_Z c < 128) (as_bytes (typeid n)) /\ (0 < length (as_bytes (typeid n)) <= 32)%nat;
}.

(** ** [status.rs]

    The generated getters read an unknown code as the zero variant
    [Unspecified], here [None]. *)
Section status.
Context {E : ApiEnv} {G : GatewayEnv}.

Definition proof_status (z : Z) : option ProofRequestStatus :=
  head (filter (fun s => status_i32 s = z) [PrPending; PrCompleted; PrFailed; PrCancelled]).
Definition execution_status (z : Z) : option ExecutionStatus :=
  head (filter (fun s => execution_i32 s = z) [ExUnexecuted; ExExecuted; ExFailed; ExCancelled]).

Definition sdk_fulfillment_try_from (z : Z) : option SdkFulfillment :=
  head (filter (fun s => sdk_fulfillment_i32 s = z)
    [UnspecifiedFulfillmentStatus; Requested; Assigned; Fulfilled; Unfulfillable; Reverted; Expired]).
Definition sdk_execution_try_from (z : Z) : option SdkExecution :=
  head (filter (fun s => sdk_execution_i32 s = z) [UnspecifiedExecutionStatus; Unexecuted; Executed; Unexecutable]).

Definition fulfillment_from_cluster (status : option ProofRequestStatus) : SdkFulfillment :=
  match status with
  | None => UnspecifiedFulfillmentStatus
  | Some PrPending => Requested
  | Some PrCompleted => Fulfilled
  | Some PrFailed | Some PrCancelled => Unfulfillable
  end.

Definition execution_from_cluster (status : option ExecutionStatus) : SdkExecution :=
  match status with
  | None => UnspecifiedExecutionStatus
  | Some ExUnexecuted => Unexecuted
  | Some ExExecuted => Executed
  | Some ExFailed | Some ExCancelled => Unexecutable
  end.

Definition cluster_fulfillment_filter (status : SdkFulfillment) : option (list ProofRequestStatus) :=
  match status with
  | UnspecifiedFulfillmentStatus => None
  | Requested => Some [PrPending]
  | Assigned | Reverted | Expired => Some []
  | Fulfilled => Some [PrCompleted]
  | Unfulfillable => Some [PrFailed; PrCancelled]
  end.

Definition cluster_execution_filter (status : SdkExecution) : list ExecutionStatus :=
  match status with
  | UnspecifiedExecutionStatus => []
  | Unexecuted => [ExUnexecuted]
  | Executed => [ExExecuted]
  | Unexecutable => [ExFailed; ExCancelled]
  end.
End status.

(** ** [ids.rs] *)
Section ids.
Context {G : GatewayEnv} {H : HexCodec}.

Definition proto_to_cluster_type (proto : Z) : ArtifactType :=
  let known := [PUnspecified; PProgram; PStdin; PProof; PPrivateStdin; PTransaction; PState; PExport] in
  match default PUnspecified (head (filter (fun t => proto_artifact_i32 t = proto) known)) with
  | PProgram => Program
  | PStdin => Stdin
  | PProof => Proof
  | PPrivateStdin => PrivateStdin
  | PUnspecified | PTransaction | PState | PExport => UnspecifiedArtifactType
  end.

Definition artifact_type_segment (t : ArtifactType) : string :=
  match t with
  | UnspecifiedArtifactType => "unspecified"
  | Program => "program"
  | Stdin => "stdin"
  | Proof => "proof"
  | Groth16Circuit => "groth16"
  | PlonkCircuit => "plonk"
  | PrivateStdin => "private-stdin"
  end.

Definition parse_artifact_type_segment (seg : string) : option ArtifactType :=
  if decide (seg = "unspecified") then Some UnspecifiedArtifactType
  else if decide (seg = "program") then Some Program
  else if decide (seg = "stdin") then Some Stdin
  else if decide (seg = "proof") then Some Proof
  else if decide (seg = "groth16") then Some Groth16Circuit
  else if decide (seg = "plonk") then Some PlonkCircuit
  else if decide (seg = "private-stdin") then Some PrivateStdin
  else None.

Definition artifact_uri (public_base : string) (t : ArtifactType) (id : string) : string :=
  trim_end_slash public_base +:+ "/artifacts/" +:+ artifact_type_segment t +:+ "/" +:+ id.

(** The last path segment; [rsplit] always yields one. *)
Definition artifact_id_from_uri (uri : string) : option string :=
  match default EmptyString (last (split "/" uri)) with EmptyString => None | path => Some path end.

Definition program_artifact_id (vk_hash : bytes) : string := "program_" +:+ hex_encode vk_hash.

Definition REQUEST_ID_LEN : nat := 32.

(** [mint_request_id]: [None] is the failed [assert!]. *)
Definition mint_request_id (n : nat) : option bytes :=
  let buf := as_bytes (typeid n) in
  if (REQUEST_ID_LEN <? length buf)%nat then None
  else Some (buf ++ replicate (REQUEST_ID_LEN - length buf) "000"%char).

(** [rposition(|b| b != 0)], plus one. *)
Fixpoint end_of_id (b : bytes) : nat :=
  match b with
  | [] => 0
  | c :: b => match end_of_id b with O => if decide (c = "000"%char) then 0 else 1 | S n => S (S n) end
  end%nat.
Definition proof_id_from_request_id (request_id : bytes) : string :=
  from_utf8_lossy (take (end_of_id request_id) request_id).
End ids.

(** ** [auth.rs] *)
Inductive AuthMode := AuthNone | Verify | Allowlist.
#[export] Instance AuthMode_eq_dec : EqDecision AuthMode.
Proof. solve_decision. Defined.

Section auth.
Context {G : GatewayEnv}.

Record Auth := mkAuth { mode : AuthMode; allowlist : gset Address }.

Definition authorize (a : Auth) (msg signature : bytes) : outcome Address :=
  match mode a with
  | AuthNone => Ok ZERO
  | Verify | Allowlist =>
      match signature_from_raw signature with
      | inl e => Err (mkStatus Unauthenticated ("invalid signature bytes: " +:+ e))
      | inr sig =>
          match recover_address_from_msg sig msg with
          | inl e => Err (mkStatus Unauthenticated ("signature recovery failed: " +:+ e))
          | inr addr =>
              if decide (mode a = Allowlist /\ addr ∉ allowlist a)
              then Err (mkStatus PermissionDenied ("signer " +:+ show_address addr +:+ " not in allowlist"))
              else Ok addr
          end
      end
  end.

(** [collect] into a [Result]: the first bad address is the error. *)
Fixpoint collect_addresses (parts : list string) : string + gset Address :=
  match parts with
  | [] => inr ∅
  | s :: parts =>
      match address_from_str s with
      | inl e => inl ("invalid address " +:+ s +:+ ": " +:+ e)
      | inr a => match collect_addresses parts with inr X => inr ({[a]} ∪ X) | inl e => inl e end
      end
  end.

Definition parse_allowlist (input : string) : string + gset Address :=
  collect_addresses (filter (fun s => s <> EmptyString) (trim <$> split "," input)).

(** [build_auth] of [lib.rs]. *)
Definition build_auth (auth_mode : AuthMode) (auth_allowlist : option string) : result Auth :=
  match match auth_allowlist with Some s => parse_allowlist s | None => inr ∅ end with
  | inl e => inl (Msg ("GATEWAY_AUTH_ALLOWLIST: " +:+ e))
  | inr l =>
      if decide (auth_mode = Allowlist /\ l = ∅)
      then inl (Msg "GATEWAY_AUTH_MODE=allowlist requires GATEWAY_AUTH_ALLOWLIST")
      else inr (mkAuth auth_mode l)
  end.
End auth.
