(* ===== verification/GatewayFacts.v ===== *)
(** * Facts about the gateway's names and statuses

    Round trips of the text formats of GatewayIds.v (numbers, URIs, request ids,
    type segments), the correspondence of the two status vocabularies, and what
    the retried creation of a row leaves in the table. *)
From Stdlib Require Import Ascii String.
From stdpp Require Import base gmap strings list.
From S2P Require Import Prelude ApiStore ProgramStore GatewayIds.
Local Open Scope string_scope.
Local Open Scope list_scope.
Local Open Scope Z_scope.

(** ** Numbers *)
Lemma byte_Z_digit d : 0 <= d <= 9 -> byte_Z (digit d) = 48 + d.
Proof. intros Hd. unfold byte_Z, digit, chr. rewrite N_ascii_embedding by lia. lia. Qed.

Lemma parse_digits_snoc s acc d :
  0 <= d <= 9 ->
  parse_digits acc (s +:+ String (digit d) "") = (fun a => 10 * a + d) <$> parse_digits acc s.
Proof.
  intros Hd. revert acc. induction s as [|c s IH]; intros acc.
  - change ("" +:+ String (digit d) "") with (String (digit d) ""). cbn [parse_digits].
    rewrite byte_Z_digit by done. destruct (Z.leb_spec 0 (48 + d - 48)), (Z.leb_spec (48 + d - 48) 9); try lia.
    cbn. f_equal. lia.
  - change (String c s +:+ String (digit d) "") with (String c (s +:+ String (digit d) "")). cbn [parse_digits].
    destruct (_ && _); [apply IH|done].
Qed.

Lemma parse_show_digits fuel n : 0 <= n < 10 ^ Z.of_nat fuel -> fuel <> O -> parse_digits 0 (show_digits fuel n) = Some n.
Proof.
  revert n. induction fuel as [|fuel IH]; intros n Hn Hf; [done|]. cbn [show_digits].
  destruct (Z.ltb_spec n 10) as [Hlt|Hge].
  - change (String (digit n) "") with ("" +:+ String (digit n) ""). by rewrite parse_digits_snoc by lia.
  - rewrite Nat2Z.inj_succ, Z.pow_succ_r in Hn by lia.
    pose proof (Z.mod_pos_bound n 10 ltac:(lia)). pose proof (Z.div_mod n 10 ltac:(lia)).
    rewrite parse_digits_snoc by lia. rewrite IH; [cbn; f_equal; lia| |].
    + split; [apply Z.div_pos; lia|]. apply Z.div_lt_upper_bound; lia.
    + intros ->. cbn in Hn. lia.
Qed.

Lemma show_digits_head fuel n :
  0 <= n < 10 ^ Z.of_nat fuel -> fuel <> O -> exists c s, show_digits fuel n = String c s /\ 48 <= byte_Z c <= 57.
Proof.
  revert n. induction fuel as [|fuel IH]; intros n Hn Hf; [done|]. cbn [show_digits].
  destruct (Z.ltb_spec n 10) as [Hlt|Hge]; [exists (digit n), ""; rewrite byte_Z_digit; [split; [done|lia]|lia]|].
  rewrite Nat2Z.inj_succ, Z.pow_succ_r in Hn by lia.
  destruct (IH (n / 10)) as (c & s & -> & Hc).
  - split; [apply Z.div_pos; lia|]. apply Z.div_lt_upper_bound; lia.
  - intros ->. cbn in Hn. lia.
  - by exists c, (s +:+ String (digit (n mod 10)) "").
Qed.

Lemma parse_i32_to_string n : - 2 ^ 31 <= n < 2 ^ 31 -> parse_i32 (i32_to_string n) = Some n.
Proof.
  intros Hn. unfold i32_to_string. destruct (Z.ltb_spec n 0) as [Hneg|Hpos].
  - destruct (show_digits_head 10 (- n)) as (c & s & Hs & Hc); [cbn; lia|done|].
    pose proof (parse_show_digits 10 (- n) ltac:(cbn; lia) ltac:(done)) as Hp.
    unfold parse_i32. rewrite Hs in *. rewrite decide_False, decide_True by done. rewrite Hp.
    destruct (Z.leb_spec (- 2 ^ 31) (-1 * - n)), (Z.ltb_spec (-1 * - n) (2 ^ 31)); try lia. cbn [andb]. f_equal. lia.
  - destruct (show_digits_head 10 n) as (c & s & Hs & Hc); [cbn; lia|done|].
    pose proof (parse_show_digits 10 n ltac:(cbn; lia) ltac:(done)) as Hp.
    unfold parse_i32. rewrite Hs in *.
    assert (Hsign : c <> "+"%char /\ c <> "-"%char) by (split; intros ->; vm_compute in Hc; by destruct Hc).
    destruct Hsign. replace (match s with "" => Some (1, String c s) | _ => _ end) with (Some (1, String c s))
      by (destruct s; [done|by rewrite !decide_False by done]).
    rewrite Hp. destruct (Z.leb_spec (- 2 ^ 31) (1 * n)), (Z.ltb_spec (1 * n) (2 ^ 31)); try lia. cbn [andb]. f_equal. lia.
Qed.

(** ** URIs *)
Definition no_slash (s : string) : Prop := "/"%char ∉ as_bytes s.

Lemma split_no_sep sep s : sep ∉ as_bytes s -> split sep s = [s].
Proof.
  induction s as [|c s IH]; intros Hs; [done|]. change (as_bytes (String c s)) with (c :: as_bytes s) in Hs.
  apply not_elem_of_cons in Hs as [Hc Hs]. cbn [split]. by rewrite decide_False, IH by done.
Qed.

Lemma split_ne_nil sep s : split sep s <> [].
Proof. destruct s as [|c s]; [done|]. cbn [split]. destruct (decide _); [done|]. by destruct (split sep s). Qed.

Lemma split_app sep a b : exists pre, split sep (a +:+ String sep b) = pre ++ split sep b /\ pre <> [].
Proof.
  induction a as [|c a (pre & Hpre & Hne)].
  - exists [""]. change ("" +:+ String sep b) with (String sep b). cbn [split]. by rewrite decide_True by done.
  - change (String c a +:+ String sep b) with (String c (a +:+ String sep b)). cbn [split]. rewrite Hpre.
    destruct (decide _); [by exists ("" :: pre)|]. destruct pre as [|x pre]; [done|]. by exists (String c x :: pre).
Qed.

Lemma last_split_app sep a b : sep ∉ as_bytes b -> last (split sep (a +:+ String sep b)) = Some b.
Proof.
  intros Hb. destruct (split_app sep a b) as (pre & -> & _). rewrite (split_no_sep sep b Hb). by rewrite last_snoc.
Qed.

Lemma app_string_assoc (a b c : string) : (a +:+ b) +:+ c = a +:+ (b +:+ c).
Proof. rewrite <- (of_bytes_as_bytes ((a +:+ b) +:+ c)), <- (of_bytes_as_bytes (a +:+ (b +:+ c))). by rewrite !as_bytes_app, app_assoc. Qed.

Lemma artifact_uri_id base t id : no_slash id -> id <> "" -> artifact_id_from_uri (artifact_uri base t id) = Some id.
Proof.
  intros Hid Hne. unfold artifact_id_from_uri, artifact_uri.
  change ("/" +:+ id) with (String "/" id). rewrite <- !app_string_assoc, last_split_app by done. by destruct id.
Qed.

Lemma segment_round_trip t : parse_artifact_type_segment (artifact_type_segment t) = Some t.
Proof. by destruct t. Qed.

Lemma parse_segment_sound seg t : parse_artifact_type_segment seg = Some t -> seg = artifact_type_segment t.
Proof. unfold parse_artifact_type_segment. intros Hp. by repeat case_decide; simplify_eq. Qed.

(** ** Request ids *)
Lemma lossy_ascii fuel b : (length b <= fuel)%nat -> Forall (fun c => byte_Z c < 128) b -> lossy fuel b = b.
Proof.
  revert b. induction fuel as [|fuel IH]; intros [|c b] Hlen Hb; cbn [length] in Hlen; try lia; try done.
  apply Forall_cons in Hb as [Hc Hb]. cbn [lossy]. unfold utf8_step.
  unfold byte_Z in Hc. destruct (N.ltb_spec (N_of_ascii c) 128); [|lia]. cbn [take drop app skipn firstn]. f_equal. apply IH; [lia|done].
Qed.

Lemma end_of_zeros k : end_of_id (replicate k "000"%char) = 0%nat.
Proof. induction k as [|k IH]; [done|]. cbn [replicate end_of_id]. by rewrite IH. Qed.

Lemma end_of_padded b k : Forall (fun c => 0 < byte_Z c) b -> end_of_id (b ++ replicate k "000"%char) = length b.
Proof.
  induction 1 as [|c b Hc Hb IH]; [apply end_of_zeros|]. cbn [app end_of_id length]. rewrite IH.
  destruct b as [|d b]; [|done]. cbn [length]. rewrite decide_False; [done|]. intros ->. by vm_compute in Hc.
Qed.

Lemma padded_proof_id s k :
  Forall (fun c => 0 < byte_Z c < 128) (as_bytes s) ->
  proof_id_from_request_id (as_bytes s ++ replicate k "000"%char) = s.
Proof.
  intros Hs. unfold proof_id_from_request_id. rewrite end_of_padded, take_app_length.
  - unfold from_utf8_lossy. rewrite lossy_ascii; [apply of_bytes_as_bytes|done|].
    eapply Forall_impl; [exact Hs|]. cbn. lia.
  - eapply Forall_impl; [exact Hs|]. cbn. lia.
Qed.

Section ids.
Context {G : GatewayEnv} {GO : GatewayEnvOk G} {H : HexCodec} {HO : HexCodecOk H}.

Lemma mint_request_id_spec n : exists id,
  mint_request_id n = Some id /\ length id = REQUEST_ID_LEN /\ proof_id_from_request_id id = typeid n.
Proof.
  destruct (typeid_text n) as [Ht Hl]. unfold mint_request_id.
  destruct (Nat.ltb_spec REQUEST_ID_LEN (length (as_bytes (typeid n)))) as [Hlt|_]; [unfold REQUEST_ID_LEN in *; lia|].
  eexists. split; [done|]. split; [rewrite length_app, length_replicate; unfold REQUEST_ID_LEN; lia|]. by apply padded_proof_id.
Qed.

(** The ids the listing hands out are not padded; they still name the row. *)
Lemma listed_id_resolves n : proof_id_from_request_id (as_bytes (typeid n)) = typeid n.
Proof. rewrite <- (app_nil_r (as_bytes (typeid n))). apply (padded_proof_id _ 0). apply typeid_text. Qed.

Lemma program_artifact_id_inj h h' : program_artifact_id h = program_artifact_id h' -> h = h'.
Proof.
  unfold program_artifact_id. intros Heq%(f_equal as_bytes). rewrite !as_bytes_app in Heq.
  apply (inj (_ ++.)) in Heq. apply (f_equal of_bytes) in Heq. rewrite !of_bytes_as_bytes in Heq. by apply hex_encode_inj.
Qed.

End ids.

(** ** Statuses *)
Lemma find_code {T} `{!EqDecision T} (f : T -> Z) `{!Inj (=) (=) f} (l : list T) x :
  x ∈ l -> NoDup l -> head (filter (fun s => f s = f x) l) = Some x.
Proof.
  intros Hx Hnd. induction l as [|y l IH]; [by apply not_elem_of_nil in Hx|].
  apply NoDup_cons in Hnd as [Hy Hnd]. destruct (decide (f y = f x)) as [Hf|Hf].
  - rewrite filter_cons_True by done. cbn. f_equal. by apply (inj f).
  - rewrite filter_cons_False by done. apply IH; [|done]. apply elem_of_cons in Hx as [->|]; [done|done].
Qed.

Lemma find_code_sound {T} (f : T -> Z) (l : list T) z x : head (filter (fun s => f s = z) l) = Some x -> f x = z.
Proof.
  intros Hh. assert (Hin : x ∈ filter (fun s => f s = z) l) by (destruct (filter _ l); simplify_eq/=; left).
  by apply list_elem_of_filter in Hin as [? _].
Qed.

Section statuses.
Context {E : ApiEnv} {EO : ApiEnvOk E} {G : GatewayEnv} {GO : GatewayEnvOk G}.

Lemma proof_status_code s : proof_status (status_i32 s) = Some s.
Proof. apply (find_code status_i32); [destruct s; set_solver|]. by apply (bool_decide_unpack (NoDup _)). Qed.
Lemma proof_status_sound z s : proof_status z = Some s -> status_i32 s = z.
Proof. apply find_code_sound. Qed.
Lemma proof_status_iff z s : proof_status z = Some s <-> z = status_i32 s.
Proof. split; [intros <-%proof_status_sound; done|intros ->; apply proof_status_code]. Qed.

Lemma sdk_fulfillment_code s : sdk_fulfillment_try_from (sdk_fulfillment_i32 s) = Some s.
Proof. apply (find_code sdk_fulfillment_i32); [destruct s; set_solver|]. by apply (bool_decide_unpack (NoDup _)). Qed.

(** A filter keeps exactly the rows that are reported with its status. *)
Lemma fulfillment_filter_exact s c l :
  cluster_fulfillment_filter s = Some l ->
  (fulfillment_from_cluster c = s <-> exists x, c = Some x /\ x ∈ l).
Proof.
  intros Hl. destruct s; simplify_eq/=; split;
    try (intros (x & -> & Hx); destruct x; (done || set_solver));
    destruct c as [[]|]; intros Hc; try discriminate Hc; eexists; (split; [reflexivity|set_solver]).
Qed.

End statuses.

(** ** The table *)
Section table.
Context {E : ApiEnv} {EO : ApiEnvOk E}.

(** The transport itself never answers [ALREADY_EXISTS]. *)
Definition attempt_sane (a : Attempt) : Prop :=
  match a with Refused e => code e <> AlreadyExists | _ => True end.

Definition created (now : Z) (req : ProofRequestCreateRequest) (db : Db) : Db := <[cr_proof_id req := new_row now req]> db.

Lemma create_fresh f now req db :
  db !! cr_proof_id req = None ->
  proof_request_create f now req db =
  (match f with Healthy => Ok tt | _ => Err (mkStatus Internal "Failed to create proof request") end,
   match f with FailedBefore => db | _ => created now req db end).
Proof. intros Hn. unfold proof_request_create, insert_row. destruct f; cbn [execute]; by rewrite ?Hn. Qed.

Lemma create_again f now req db :
  is_Some (db !! cr_proof_id req) ->
  proof_request_create f now req db =
  (match f with
   | Healthy => Err (mkStatus AlreadyExists "proof request already exists")
   | _ => Err (mkStatus Internal "Failed to create proof request")
   end, db).
Proof. intros [r Hr]. unfold proof_request_create, insert_row. destruct f; cbn [execute]; by rewrite ?Hr. Qed.

Lemma retry_again a more now req db :
  is_Some (db !! cr_proof_id req) -> (retry_call a more (fun f db => proof_request_create f now req db) db).2 = db.
Proof.
  intros Hs. revert a. induction more as [|a' more IH]; intros a; cbn [retry_call];
    destruct a as [f|e|[f|]]; cbn [with_timeout]; rewrite ?create_again by done; cbn [snd];
    try destruct f; try case_match; cbn [is_transient code]; auto.
Qed.

(** The row is there when the caller is told so, and nothing but that row is ever added. *)
Definition says_created (o : outcome unit) : Prop := match o with Ok _ => True | Err e => code e = AlreadyExists | _ => False end.

Lemma retry_create a more now req db :
  db !! cr_proof_id req = None -> attempt_sane a -> Forall attempt_sane more ->
  let (o, db') := retry_call a more (fun f db => proof_request_create f now req db) db in
  (db' = db \/ db' = created now req db) /\ (says_created o -> db' = created now req db).
Proof.
  intros Hn Ha Hmore. assert (Hs : is_Some (created now req db !! cr_proof_id req)) by (unfold created; rewrite lookup_insert_eq; eauto).
  revert a Ha. induction Hmore as [|a' more Ha' Hmore IH]; intros a Ha; cbn [retry_call].
  - destruct a as [f|e|[f|]]; cbn [with_timeout]; rewrite ?create_fresh by done; try destruct f; cbn in *; naive_solver.
  - assert (Hl : let (o, db') := retry_call a' more (fun f db => proof_request_create f now req db) (created now req db) in
      (db' = db \/ db' = created now req db) /\ (says_created o -> db' = created now req db)).
    { pose proof (retry_again a' more now req _ Hs) as Hr. destruct (retry_call _ _ _ _) as [o db']. cbn in Hr. subst. auto. }
    destruct a as [f|e|[f|]]; cbn [with_timeout]; rewrite ?create_fresh by done; try destruct f; cbn [is_transient code snd];
      try exact Hl; try exact (IH a' Ha'); [by auto|].
    destruct (is_transient (code e)); [exact (IH a' Ha')|]. cbn in Ha |- *. naive_solver.
Qed.
End table.
