(* ===== verification/Gateway.v ===== *)
(** * The network gateway

    [bin/network-gateway/src]: the gRPC service [ProverNetworkImpl]
    ([service/prover_network.rs]), the service [ArtifactStoreImpl]
    ([service/artifact_store.rs]) and the HTTP proxy for artifact bytes
    ([artifact_http.rs]), through which the SDK drives the cluster.

    A handler is a computation on the world: the artifact store (the interface
    [ArtifactStore], implemented by Redis or S3), the program registry
    ([ProgramStore]), the cluster API's table (ApiStore.v, reached through the
    retrying client) and the nonces. Handlers run one at a time; every call of a
    store or of the API has a number, and may fail on one and not on the next. *)
From Stdlib Require Import Ascii String.
From stdpp Require Import base gmap strings list.
From S2P Require Import Prelude ApiStore ProgramStore GatewayIds.
Local Open Scope string_scope.
Local Open Scope list_scope.
Local Open Scope Z_scope.

(** ** The artifact store *)
Class ArtifactStore := {
  AS : Type;
  as_exists : nat -> string -> ArtifactType -> AS -> result bool;
  as_download_raw : nat -> string -> ArtifactType -> AS -> result bytes;
  as_upload_raw : nat -> string -> ArtifactType -> bytes -> AS -> result unit * AS;
  as_upload_raw_compressed : nat -> string -> ArtifactType -> bytes -> AS -> result unit * AS;
  as_try_delete : nat -> string -> ArtifactType -> AS -> result unit * AS;
  as_create_artifact : nat -> AS -> result string * AS;
}.

(** [as_view] is what a download would return. A write or delete touches no
    other id; when it fails the artifact may be as before, gone, or written. *)
Class ArtifactStoreOk (A : ArtifactStore) := {
  as_view : AS -> string -> ArtifactType -> option bytes;
  as_exists_sound : forall n id t s b, as_exists n id t s = inr b -> b = bool_decide (is_Some (as_view s id t));
  as_download_sound : forall n id t s d, as_download_raw n id t s = inr d -> as_view s id t = Some d;
  as_upload_view : forall n id t d s r s', as_upload_raw n id t d s = (r, s') ->
    (forall id' t', id' <> id -> as_view s' id' t' = as_view s id' t') /\
    (r = inr tt -> as_view s' id t = Some d) /\
    (as_view s' id t = as_view s id t \/ as_view s' id t = Some d \/ as_view s' id t = None);
  as_compressed_view : forall n id t d s r s', as_upload_raw_compressed n id t d s = (r, s') ->
    forall id' t', id' <> id -> as_view s' id' t' = as_view s id' t';
  as_delete_view : forall n id t s r s', as_try_delete n id t s = (r, s') ->
    (forall id' t', id' <> id -> as_view s' id' t' = as_view s id' t') /\
    (as_view s' id t = as_view s id t \/ as_view s' id t = None);
  as_create_view : forall n s r s', as_create_artifact n s = (r, s') -> forall id t, as_view s' id t = as_view s id t;
}.

(** ** Messages *)
Record RequestProofRequestBody := mkRequestProofBody {
  rb_nonce : Z;
  rb_vk_hash : bytes;
  rb_version : string;
  rb_mode : Z;
  rb_strategy : Z;
  rb_stdin_uri : string;
  rb_deadline : Z;
  rb_cycle_limit : Z;
  rb_gas_limit : Z;
  rb_min_auction_period : Z;
  rb_whitelist : list bytes;
  rb_stdin_private : bool;
}.
Record RequestProofRequest := mkRequestProof { rp_signature : bytes; rp_body : option RequestProofRequestBody }.

Record CreateProgramRequestBody := mkCreateProgramBody {
  pb_nonce : Z;
  pb_vk_hash : bytes;
  pb_vk : bytes;
  pb_program_uri : string;
}.
Record CreateProgramRequest := mkCreateProgram { cp_signature : bytes; cp_body : option CreateProgramRequestBody }.

Record SdkProofRequest := mkSdkProofRequest {
  s_request_id : bytes;
  s_vk_hash : bytes;
  s_version : string;
  s_mode : Z;
  s_strategy : Z;
  s_program_uri : string;
  s_stdin_uri : string;
  s_stdin_private : bool;
  s_deadline : Z;
  s_cycle_limit : Z;
  s_fulfillment_status : Z;
  s_execution_status : Z;
  s_requester : list Z;
  s_created_at : Z;
  s_updated_at : Z;
  s_tx_hash : bytes;
  s_cycles : option Z;
  s_public_values_hash : option (list Z);
  s_gas_limit : Z;
}.

Record ProofRequestStatusResponse := mkStatusResponse {
  sr_fulfillment_status : Z;
  sr_execution_status : Z;
  sr_request_tx_hash : bytes;
  sr_deadline : Z;
  sr_proof_uri : option string;
  sr_public_values_hash : option (list Z);
}.

Record FilteredRequest := mkFilteredRequest {
  fr_fulfillment_status : option Z;
  fr_execution_status : option Z;
  fr_minimum_deadline : option Z;
  fr_limit : option Z;
  fr_page : option Z;
}.

Record SdkProgram := mkSdkProgram {
  sp_vk_hash : bytes;
  sp_vk : bytes;
  sp_program_uri : string;
}.

(** What the handlers take from prost and the SDK's enums, the text of an
    error, and what becomes of each call of the cluster API. *)
Class GatewayIo := {
  encode_request_body : RequestProofRequestBody -> bytes;
  encode_program_body : CreateProgramRequestBody -> bytes;
  UnspecifiedProofMode_i32 : Z;
  Reserved_i32 : Z;
  display : Error -> string;
  attempts : nat -> Attempt * list Attempt;
}.

Definition ZERO_HASH : bytes := replicate 32 "000"%char.

Module Gw.
Section gateway.
Context {E : ApiEnv} {G : GatewayEnv} {H : HexCodec} {P : ProgramStore} {A : ArtifactStore} {Io : GatewayIo}.

(** [ProverNetworkImpl]'s configuration, shared with [ArtifactStoreImpl]. *)
Record Config := mkConfig {
  public_http_url : string;
  balance_amount : string;
  auth : Auth;
}.

(** [serve]: the balance reported when none is configured is [U256::MAX]. *)
Definition build_config (url : string) (balance : option string) (a : Auth) : Config :=
  mkConfig url (default (show_digits 78 (2 ^ 256 - 1)) balance) a.

Record World := mkWorld {
  w_store : AS;
  w_programs : PS;
  w_db : Db;
  w_nonces : gmap bytes Z;
  w_calls : nat;
  w_minted : nat;
}.

Definition M (T : Type) : Type := World -> outcome T * World.
Definition ret {T} (x : T) : M T := fun w => (Ok x, w).
Definition fail {T} (c : Code) (msg : string) : M T := fun w => (Err (mkStatus c msg), w).
Definition lift {T} (o : outcome T) : M T := fun w => (o, w).
Definition bindM {T U} (m : M T) (k : T -> M U) : M U := fun w => bind (m w) k.

(** [r.map_err(|e| Status::c(format!(.., e)))?]. *)
Definition or_status {T} (c : Code) (fmt : string -> string) (r : result T) : outcome T :=
  match r with inr x => Ok x | inl e => Err (mkStatus c (fmt (display e))) end.

Definition next_call (w : World) (s : AS) (p : PS) (db : Db) : World :=
  mkWorld s p db (w_nonces w) (S (w_calls w)) (w_minted w).

(** Calls of the stores. *)
Definition ask_store {T} (c : Code) (fmt : string -> string) (f : nat -> AS -> result T) : M T := fun w =>
  (or_status c fmt (f (w_calls w) (w_store w)), next_call w (w_store w) (w_programs w) (w_db w)).
Definition on_store {T} (c : Code) (fmt : string -> string) (f : nat -> AS -> result T * AS) : M T := fun w =>
  let (r, s) := f (w_calls w) (w_store w) in (or_status c fmt r, next_call w s (w_programs w) (w_db w)).
Definition ask_programs {T} (c : Code) (fmt : string -> string) (f : nat -> PS -> result T) : M T := fun w =>
  (or_status c fmt (f (w_calls w) (w_programs w)), next_call w (w_store w) (w_programs w) (w_db w)).
Definition on_programs {T} (c : Code) (fmt : string -> string) (f : nat -> PS -> result T * PS) : M T := fun w =>
  let (r, p) := f (w_calls w) (w_programs w) in (or_status c fmt r, next_call w (w_store w) p (w_db w)).

(** One call of the cluster client with its retries. *)
Definition api_call {T} (call : Fault -> Db -> outcome T * Db) : World -> result T * World := fun w =>
  let '(a, more) := attempts (w_calls w) in
  let (o, db) := retry_call a more call (w_db w) in
  (match o with Ok x => inr x | Err e => inl (Rpc e) | _ => inl (Msg "panicked") end,
   next_call w (w_store w) (w_programs w) db).
Definition on_cluster {T} (c : Code) (fmt : string -> string) (call : Fault -> Db -> outcome T * Db) : M T := fun w =>
  let (r, w) := api_call call w in (or_status c fmt r, w).
End gateway.

Declare Scope gateway_scope.
Notation "'let*' x := m 'in' k" := (bindM m (fun x => k))
  (at level 10, x name, m at level 100, k at level 200) : gateway_scope.
Notation "m ;;; k" := (bindM m (fun _ => k)) (at level 100, right associativity) : gateway_scope.
Local Open Scope gateway_scope.

Section handlers.
Context {E : ApiEnv} {G : GatewayEnv} {H : HexCodec} {P : ProgramStore} {A : ArtifactStore} {Io : GatewayIo}.

(** ** [ProverNetworkImpl] *)
Definition program_uri_for (cfg : Config) (vk_hash : bytes) : string :=
  trim_end_slash (public_http_url cfg) +:+ "/programs/" +:+ hex_encode vk_hash.

(** [next_nonce]: [fetch_add] on an [AtomicU64] returns the old value. *)
Definition next_nonce (address : bytes) : M Z := fun w =>
  let current := default 0 (w_nonces w !! address) in
  (Ok current,
   mkWorld (w_store w) (w_programs w) (w_db w) (<[address := Int.wrap u64 (current + 1)]> (w_nonces w)) (w_calls w) (w_minted w)).

Definition load_cluster_proof (proof_id : string) : M ProofRequest :=
  let* found := on_cluster Internal (String.append "cluster get_proof_request failed: ")
    (fun f db => (proof_request_get f proof_id db, db)) in
  match found with
  | Some q => ret q
  | None => fail NotFound ("proof request " +:+ proof_id +:+ " not found")
  end.

Definition sdk_execution (q : ProofRequest) : SdkExecution :=
  match q_execution_result q with
  | Some r => execution_from_cluster (execution_status (er_status r))
  | None => Unexecuted
  end.

Definition nonempty_hash (r : ExecutionResult) : option (list Z) :=
  match er_public_values_hash r with [] => None | h => Some h end.

(** [build_sdk_proof_request]; the fields it always leaves unset are left out. *)
Definition build_sdk_proof_request (cfg : Config) (request_id : bytes) (q : ProofRequest) : SdkProofRequest :=
  let stdin_artifact_type := if q_stdin_private q then PrivateStdin else Stdin in
  let parsed_mode := match q_options_artifact_id q with Some s => parse_i32 s | None => None end in
  mkSdkProofRequest request_id [] "" (default UnspecifiedProofMode_i32 parsed_mode) Reserved_i32
    (artifact_uri (public_http_url cfg) Program (q_program_artifact_id q))
    (artifact_uri (public_http_url cfg) stdin_artifact_type (q_stdin_artifact_id q))
    (q_stdin_private q) (q_deadline q) (default 0 (q_cycle_limit q))
    (sdk_fulfillment_i32 (fulfillment_from_cluster (proof_status (q_proof_status q))))
    (sdk_execution_i32 (sdk_execution q))
    (q_requester q) (q_created_at q) (q_updated_at q) ZERO_HASH
    (er_cycles <$> q_execution_result q)
    (match q_execution_result q with Some r => nonempty_hash r | None => None end)
    (default 0 (q_gas_limit q)).

(** The ELF is put in the artifact store unless it is there. *)
Definition warm_program (vk_hash : bytes) : M unit :=
  let* warm := ask_store Internal (String.append "artifact exists check failed: ")
    (fun n => as_exists n (program_artifact_id vk_hash) Program) in
  if warm then ret tt
  else
    let* found := ask_programs Internal (String.append "program store load failed: ") (fun n => ps_get n vk_hash) in
    match found with
    | None => fail FailedPrecondition ("program not registered for vk_hash " +:+ hex_encode vk_hash)
    | Some (_, elf_bytes) =>
        on_store Internal (String.append "upload program artifact failed: ")
          (fun n => as_upload_raw n (program_artifact_id vk_hash) Program elf_bytes)
    end.

Definition mint : M bytes := fun w =>
  (match mint_request_id (w_minted w) with Some id => Ok id | None => Panic end,
   mkWorld (w_store w) (w_programs w) (w_db w) (w_nonces w) (w_calls w) (S (w_minted w))).

(** The row [request_proof] asks for. *)
Definition proof_request_for (body : RequestProofRequestBody) (requester : Address) (request_id : bytes)
    (stdin_artifact_id proof_artifact_id : string) : ProofRequestCreateRequest :=
  mkCreateRequest (proof_id_from_request_id request_id) (to_vec requester) stdin_artifact_id
    (program_artifact_id (rb_vk_hash body)) (Some (i32_to_string (rb_mode body))) (Some proof_artifact_id)
    (rb_cycle_limit body) (rb_deadline body) (rb_gas_limit body) None (rb_stdin_private body).

(** Creating the row: one that exists already is an earlier attempt of the
    same call. [now] is when the row is inserted. *)
Definition create_row (now : Z) (create : ProofRequestCreateRequest) : M unit := fun w =>
  match api_call (fun f db => proof_request_create f now create db) w with
  | (inr _, w) => (Ok tt, w)
  | (inl (Rpc (mkStatus AlreadyExists _)), w) => (Ok tt, w)
  | (inl e, w) => (Err (mkStatus Internal ("cluster create_proof_request failed: " +:+ display e)), w)
  end.

Definition request_proof (cfg : Config) (now : Z) (req : RequestProofRequest) : M bytes :=
  match rp_body req with
  | None => fail InvalidArgument "request_proof: missing body"
  | Some body =>
      let* requester := lift (authorize (auth cfg) (encode_request_body body) (rp_signature req)) in
      match artifact_id_from_uri (rb_stdin_uri body) with
      | None => fail InvalidArgument ("invalid stdin_uri: " +:+ rb_stdin_uri body)
      | Some stdin_artifact_id =>
          warm_program (rb_vk_hash body) ;;;
          let* request_id := mint in
          let* proof_artifact_id := on_store Internal (String.append "create proof artifact failed: ") as_create_artifact in
          create_row now (proof_request_for body requester request_id stdin_artifact_id proof_artifact_id) ;;;
          ret request_id
      end
  end.

Definition get_proof_request_status (cfg : Config) (request_id : bytes) : M ProofRequestStatusResponse :=
  let* q := load_cluster_proof (proof_id_from_request_id request_id) in
  let fulfillment := fulfillment_from_cluster (proof_status (q_proof_status q)) in
  let proof_uri :=
    if decide (fulfillment = Fulfilled)
    then artifact_uri (public_http_url cfg) Proof <$> q_proof_artifact_id q
    else None in
  ret (mkStatusResponse (sdk_fulfillment_i32 fulfillment) (sdk_execution_i32 (sdk_execution q)) ZERO_HASH
    (q_deadline q) proof_uri
    (match q_execution_result q with Some r => nonempty_hash r | None => None end)).

Definition get_proof_request_details (cfg : Config) (request_id : bytes) : M SdkProofRequest :=
  let* q := load_cluster_proof (proof_id_from_request_id request_id) in
  ret (build_sdk_proof_request cfg request_id q).

(** The page asked for, as the cluster's [limit] and [offset] ([u32]). *)
Definition page_limit (req : FilteredRequest) : option Z := (fun l => Z.max 1 (Z.min l 100)) <$> fr_limit req.
Definition page_offset (req : FilteredRequest) : option Z :=
  match fr_page req, page_limit req with
  | Some page, Some lim => if 0 <? page then Some (Z.min ((page - 1) * lim) (2 ^ 32 - 1)) else None
  | _, _ => None
  end.

Definition fulfillment_filter (req : FilteredRequest) : option (list ProofRequestStatus) :=
  match fr_fulfillment_status req with
  | Some s => match sdk_fulfillment_try_from s with Some s => cluster_fulfillment_filter s | None => None end
  | None => None
  end.
Definition execution_filter (req : FilteredRequest) : list ExecutionStatus :=
  match fr_execution_status req with
  | Some s => match sdk_execution_try_from s with Some s => cluster_execution_filter s | None => [] end
  | None => []
  end.

Definition list_request (req : FilteredRequest) (statuses : list ProofRequestStatus) : ProofRequestListRequest :=
  mkListRequest (status_i32 <$> statuses) (execution_i32 <$> execution_filter req) (fr_minimum_deadline req)
    None None (page_limit req) (page_offset req).

Definition get_filtered_proof_requests (cfg : Config) (req : FilteredRequest) : M (list SdkProofRequest) :=
  let query statuses :=
    let* proofs := on_cluster Internal (String.append "cluster get_proof_requests failed: ")
      (fun f db => (proof_request_list f (list_request req statuses) db, db)) in
    ret ((fun q => build_sdk_proof_request cfg (as_bytes (q_id q)) q) <$> proofs) in
  match fulfillment_filter req with
  | Some [] => ret []
  | Some statuses => query statuses
  | None => query []
  end.

Definition get_nonce (address : bytes) : M Z := next_nonce address.

Definition get_program (cfg : Config) (vk_hash : bytes) : M SdkProgram :=
  let* found := ask_programs Internal (String.append "program store load failed: ") (fun n => ps_get n vk_hash) in
  match found with
  | None => fail NotFound ("program not registered for vk_hash " +:+ hex_encode vk_hash)
  | Some (vk_bytes, _) => ret (mkSdkProgram vk_hash vk_bytes (program_uri_for cfg vk_hash))
  end.

(** [try_delete(..).await.ok()]. *)
Definition try_delete (id : string) : M unit := fun w =>
  let (_, s) := as_try_delete (w_calls w) id Program (w_store w) in (Ok tt, next_call w s (w_programs w) (w_db w)).

Definition create_program (cfg : Config) (req : CreateProgramRequest) : M unit :=
  match cp_body req with
  | None => fail InvalidArgument "create_program: missing body"
  | Some body =>
      let* requester := lift (authorize (auth cfg) (encode_program_body body) (cp_signature req)) in
      match artifact_id_from_uri (pb_program_uri body) with
      | None => fail InvalidArgument ("create_program: invalid program_uri " +:+ pb_program_uri body)
      | Some orphan_artifact_id =>
          let* elf_bytes := ask_store FailedPrecondition
            (fun e => "create_program: ELF not present in artifact store at " +:+ pb_program_uri body +:+ " (" +:+ e +:+ ")")
            (fun n => as_download_raw n orphan_artifact_id Program) in
          on_programs Internal (String.append "program store put failed: ")
            (fun n => ps_put n (pb_vk_hash body) (pb_vk body) elf_bytes) ;;;
          on_store Internal (String.append "warm upload failed: ")
            (fun n => as_upload_raw n (program_artifact_id (pb_vk_hash body)) Program elf_bytes) ;;;
          try_delete orphan_artifact_id
      end
  end.

Definition get_balance (cfg : Config) : M string := ret (balance_amount cfg).

(** ** [ArtifactStoreImpl] *)
Definition CREATE_ARTIFACT_MESSAGE : bytes := as_bytes "create_artifact".

Definition create_artifact (cfg : Config) (signature : bytes) (artifact_type : Z) : M string :=
  let* requester := lift (authorize (auth cfg) CREATE_ARTIFACT_MESSAGE signature) in
  let* id := on_store Internal (String.append "create_artifact failed: ") as_create_artifact in
  ret (artifact_uri (public_http_url cfg) (proto_to_cluster_type artifact_type) id).

(** ** [artifact_http.rs] *)
Inductive StatusCode := HttpOk | BadRequest | HttpNotFound | InternalServerError.
Definition HttpResult (T : Type) : Type := (StatusCode * string) + T.

Definition unknown_type {T} (type_seg : string) : HttpResult T :=
  inl (BadRequest, "unknown artifact type: " +:+ type_seg).

Definition put_artifact (type_seg id : string) (body : bytes) (w : World) : HttpResult StatusCode * World :=
  match parse_artifact_type_segment type_seg with
  | None => (unknown_type type_seg, w)
  | Some t =>
      let (r, s) := as_upload_raw_compressed (w_calls w) id t body (w_store w) in
      (match r with inr _ => inr HttpOk | inl e => inl (InternalServerError, "internal error: " +:+ display e) end,
       next_call w s (w_programs w) (w_db w))
  end.

Definition get_artifact (type_seg id : string) (w : World) : HttpResult bytes * World :=
  match parse_artifact_type_segment type_seg with
  | None => (unknown_type type_seg, w)
  | Some t =>
      (match as_download_raw (w_calls w) id t (w_store w) with
       | inr b => inr b
       | inl e => inl (HttpNotFound, "download failed: " +:+ display e)
       end, next_call w (w_store w) (w_programs w) (w_db w))
  end.
End handlers.

(** ** The RPCs the gateway does not offer

    Each answers [Unimplemented] with its name. *)
Section unsupported.
Context {E : ApiEnv} {G : GatewayEnv} {H : HexCodec} {P : ProgramStore} {A : ArtifactStore} {Io : GatewayIo}.

Definition fulfiller_rpcs : list string :=
  ["fulfill_proof"; "execute_proof"; "fail_fulfillment"; "fail_execution"].
Definition explorer_rpcs : list string :=
  ["subscribe_proof_requests"; "get_search_results"; "get_proof_request_metrics";
   "get_proof_request_graph"; "get_analytics_graphs"; "get_overview_graphs"].
Definition account_rpcs : list string :=
  ["get_filtered_delegations"; "add_delegation"; "remove_delegation"; "terminate_delegation";
   "accept_delegation"; "set_account_name"; "get_account_name"; "get_terms_signature";
   "set_terms_signature"; "get_account"; "get_owner"].
Definition naming_rpcs : list string :=
  ["set_program_name"].
Definition billing_rpcs : list string :=
  ["get_filtered_balance_logs"; "add_credit"; "get_latest_bridge_block"; "get_gas_price_estimate";
   "get_transaction_details"; "add_reserved_charge"; "get_billing_summary"; "update_price";
   "get_filtered_clusters"; "get_usage_summary"; "get_filtered_charges"; "get_filtered_reservations";
   "add_reservation"; "remove_reservation"; "bid"; "settle"].
Definition onboarding_rpcs : list string :=
  ["sign_in"; "get_onboarded_accounts_count"; "get_filtered_onboarded_accounts"; "get_leaderboard";
   "get_leaderboard_stats"; "get_codes"; "redeem_code"; "connect_twitter"; "complete_onboarding";
   "set_use_twitter_handle"; "set_use_twitter_image"; "request_random_proof"; "submit_captcha_game";
   "redeem_stars"; "get_flappy_leaderboard"; "set_turbo_high_score"].
Definition game_rpcs : list string :=
  ["submit_quiz_game"; "get_turbo_leaderboard"; "submit_eth_block_metadata";
   "get_filtered_eth_block_requests"; "set2048_high_score"; "set_volleyball_high_score";
   "get_eth_block_request_metrics"; "set_turbo_time_trial_high_score"; "set_coin_craze_high_score";
   "set_lean_high_score"; "set_flow_high_score"; "set_rollup_high_score"; "get_pending_stars";
   "get_whitelist_status"; "set_gpu_delegate"; "claim_gpu"].
Definition social_rpcs : list string :=
  ["set_gpu_variant"; "link_whitelisted_twitter"; "retrieve_proving_key"; "link_whitelisted_github";
   "link_whitelisted_discord"; "link_social_discord"; "link_social_twitter"; "get_linked_social_accounts";
   "get_prover_leaderboard"; "get_filtered_gpus"; "set_gpu_coordinates"; "get_points"; "process_clicks";
   "purchase_upgrade"; "bet"; "get_contest_details"].
Definition contest_rpcs : list string :=
  ["get_latest_contest"; "get_contest_bettors"; "get_gpu_metrics"; "get_filtered_prover_activity";
   "get_prover_metrics"; "get_filtered_bet_history"; "get_gpu_team_stats"; "get_config_values";
   "get_prover_stats"; "get_filtered_prover_stats"; "get_prover_search_results";
   "get_filtered_bid_history"; "get_tee_whitelist_status"; "get_settlement_request";
   "get_filtered_settlement_requests"; "get_filtered_provers"].
Definition staking_rpcs : list string :=
  ["get_staker_stake_balance"; "get_prover_stake_balance"; "get_filtered_staker_stake_balance_logs";
   "get_filtered_prover_stake_balance_logs"; "get_stdin_uri"; "get_requester_usage"; "set_hart_high_score"].

Definition unsupported_rpcs : list string :=
  fulfiller_rpcs ++ explorer_rpcs ++ account_rpcs ++ naming_rpcs ++ billing_rpcs ++
  onboarding_rpcs ++ game_rpcs ++ social_rpcs ++ contest_rpcs ++ staking_rpcs.

Definition unsupported {T} (rpc : string) : M T :=
  fail Unimplemented (rpc +:+ ": not supported by self-hosted gateway").
End unsupported.

(** ** [build_program_store] of [lib.rs]

    [mkdir] is [create_dir_all]. *)
Inductive StoreChoice := MemoryStore | FsStore (dir : string).
Definition build_program_store (program_store : string) (program_store_dir : option string)
    (mkdir : string -> result unit) : result StoreChoice :=
  if decide (program_store = "memory") then inr MemoryStore
  else if decide (program_store = "fs") then
    match program_store_dir with
    | None => inl (Msg "GATEWAY_PROGRAM_STORE_DIR is required when program_store=fs")
    | Some dir => match mkdir dir with inr _ => inr (FsStore dir) | inl e => inl e end
    end
  else inl (Msg ("unknown GATEWAY_PROGRAM_STORE=" +:+ program_store +:+ " (expected memory or fs)")).
End Gw.
