(* ===== verification/GatewayInv.v ===== *)
(** * The gateway over time

    The steps a gateway's world takes (its handlers, artifacts that expire, other
    users of the cluster API), the registrations made on the way, and the
    invariant: the gateway's rows come from permitted requesters and run programs
    permitted requesters registered, and the artifact store holds under a
    program's id only bytes registered for it. *)
From Stdlib Require Import Ascii String.
From stdpp Require Import base gmap strings list.
From S2P Require Import Prelude ApiStore ProgramStore GatewayIds GatewayFacts Gateway.
Local Open Scope string_scope.
Local Open Scope list_scope.
Local Open Scope Z_scope.

(** ** Columns no statement changes after the insert *)
Definition request_of (r : DbProofRequest) :=
  (r_requester r, r_stdin_artifact_id r, r_program_artifact_id r, r_proof_artifact_id r, r_options_artifact_id r,
   (r_cycle_limit r, r_gas_limit r, r_created_at r, r_stdin_private r)).

Section kept.
Context `{EO : ApiEnvOk}.

Definition rows_kept (db db' : Db) : Prop :=
  forall id r, db !! id = Some r -> exists r', db' !! id = Some r' /\ request_of r' = request_of r.

Lemma rows_kept_refl db : rows_kept db db.
Proof. intros id r Hr. by exists r. Qed.

Lemma rows_kept_trans db1 db2 db3 : rows_kept db1 db2 -> rows_kept db2 db3 -> rows_kept db1 db3.
Proof.
  intros H1 H2 id r Hr. destruct (H1 id r Hr) as (r2 & Hr2 & He2). destruct (H2 id r2 Hr2) as (r3 & Hr3 & He3).
  exists r3. split; [done|congruence].
Qed.

Lemma update_where_kept id guard set db :
  (forall r, request_of (set r) = request_of r) -> rows_kept db (update_where id guard set db).2.
Proof.
  intros Hset id0 r0 Hr0. unfold update_where. destruct (db !! id) as [r|] eqn:Hr; [|by exists r0].
  destruct (guard r); [|by exists r0]. cbn [snd]. destruct (decide (id0 = id)) as [->|Hne].
  - exists (set r). rewrite lookup_insert_eq. simplify_eq. auto.
  - exists r0. by rewrite lookup_insert_ne by congruence.
Qed.

Lemma execute_kept {T} f (stmt : Db -> T * Db) db : rows_kept db (stmt db).2 -> rows_kept db (execute f stmt db).2.
Proof. destruct f; cbn; auto using rows_kept_refl. Qed.

Lemma api_run_kept o db : rows_kept db (api_run o db).
Proof.
  destruct o as [f now req|f id|f req]; cbn [api_run].
  - assert (Hk : rows_kept db (execute f (insert_row now req) db).2).
    { apply execute_kept. unfold insert_row. destruct (db !! cr_proof_id req) eqn:Hn; [apply rows_kept_refl|].
      intros id r Hr. exists r. cbn. by rewrite lookup_insert_ne by congruence. }
    unfold proof_request_create. destruct (execute _ _ _) as [[[]|] ?]; exact Hk.
  - assert (Hk := execute_kept f _ db (update_where_kept id is_pending (set_r_proof_status (status_i32 PrCancelled)) db (fun _ => eq_refl))).
    unfold proof_request_cancel. destruct (execute _ _ _) as [[] ?]; exact Hk.
  - unfold proof_request_update. destruct (decide _); [apply rows_kept_refl|].
    set (guard := fun r => if guard_pending req then is_pending r else true).
    assert (Hk := execute_kept f _ db (update_where_kept (up_proof_id req) guard (apply_update req) db (fun _ => eq_refl))).
    destruct (execute _ _ _) as [[[]|] ?]; [destruct (guard_pending req)| |]; exact Hk.
Qed.

Lemma api_runs_kept os db : rows_kept db (api_runs os db).
Proof.
  revert db. induction os as [|o os IH]; intros db; [apply rows_kept_refl|].
  cbn [api_runs foldl]. eapply rows_kept_trans; [apply api_run_kept|apply IH].
Qed.

(** Only a creation adds a row, under the id it names. *)
Lemma api_run_new o db id :
  db !! id = None -> (match o with ApiCreate _ _ req => cr_proof_id req <> id | _ => True end) -> api_run o db !! id = None.
Proof.
  intros Hn Ho. destruct o as [f now req|f id'|f req]; cbn [api_run].
  - assert (Hk : (execute f (insert_row now req) db).2 !! id = None).
    { destruct f; cbn [execute snd]; try done; unfold insert_row; destruct (db !! cr_proof_id req); cbn; rewrite ?lookup_insert_ne by done; done. }
    unfold proof_request_create. destruct (execute _ _ _) as [[[]|] ?]; exact Hk.
  - assert (Hu : forall guard set, (update_where id' guard set db).2 !! id = None).
    { intros guard set. unfold update_where. destruct (db !! id') eqn:Hr; [|done]. destruct (guard _); [|done].
      cbn. rewrite lookup_insert_ne by congruence. done. }
    unfold proof_request_cancel. destruct f; cbn [execute]; try done; apply Hu.
  - assert (Hu : forall guard set, (update_where (up_proof_id req) guard set db).2 !! id = None).
    { intros guard set. unfold update_where. destruct (db !! up_proof_id req) eqn:Hr; [|done]. destruct (guard _); [|done].
      cbn. rewrite lookup_insert_ne by congruence. done. }
    unfold proof_request_update. destruct (decide _); [done|].
    destruct f; cbn [execute]; try done; specialize (Hu (fun r => if guard_pending req then is_pending r else true) (apply_update req));
      destruct (update_where _ _ _ _) as [[] ?]; try destruct (guard_pending req); exact Hu.
Qed.
End kept.

Module Reach.
Import Gw.
Section reach.
Context {E : ApiEnv} {EO : ApiEnvOk E} {G : GatewayEnv} {GO : GatewayEnvOk G} {H : HexCodec} {HO : HexCodecOk H}.
Context {P : ProgramStore} {PO : ProgramStoreOk P} {A : ArtifactStore} {AO : ArtifactStoreOk A} {Io : GatewayIo}.
Context (cfg : Config).
Context (Hsane : forall n, attempt_sane (attempts n).1 /\ Forall attempt_sane (attempts n).2).

(** Who may make signed requests. *)
Definition permitted (a : Address) : Prop :=
  match mode (auth cfg) with AuthNone => a = ZERO | Verify => True | Allowlist => a ∈ allowlist (auth cfg) end.

Lemma authorize_permitted msg sig a : authorize (auth cfg) msg sig = Ok a -> permitted a.
Proof.
  unfold authorize, permitted. destruct (mode (auth cfg)) eqn:Hm; [by intros [= ->]|done|].
  repeat case_match; try done. intros [= ->].
  match goal with Hd : ~ _ |- _ => apply dec_stable; intros Hx; by apply Hd end.
Qed.

Record Registration := mkRegistration { g_by : Address; g_hash : bytes; g_vk : bytes; g_elf : bytes }.

(** What a [create_program] hands to the registry. *)
Definition registration (req : CreateProgramRequest) (w : World) : list Registration :=
  match cp_body req with
  | None => []
  | Some body =>
      match authorize (auth cfg) (encode_program_body body) (cp_signature req), artifact_id_from_uri (pb_program_uri body) with
      | Ok by_, Some id =>
          match as_download_raw (w_calls w) id Program (w_store w) with
          | inr elf => [mkRegistration by_ (pb_vk_hash body) (pb_vk body) elf]
          | inl _ => []
          end
      | _, _ => []
      end
  end.

Record Inv (hist : list Registration) (w : World) : Prop := {
  inv_programs : ps_inv (w_programs w);
  inv_by : Forall (fun g => permitted (g_by g)) hist;
  inv_registry : forall h vk elf, ps_view (w_programs w) h = Some (vk, elf) ->
    exists g, g ∈ hist /\ g_hash g = h /\ g_vk g = vk /\ g_elf g = elf;
  inv_store : forall h elf, as_view (w_store w) (program_artifact_id h) Program = Some elf ->
    exists g, g ∈ hist /\ g_hash g = h /\ g_elf g = elf;
  inv_rows : forall n r, (n < w_minted w)%nat -> w_db w !! typeid n = Some r ->
    (exists a, permitted a /\ r_requester r = to_vec a) /\
    (exists g, g ∈ hist /\ r_program_artifact_id r = program_artifact_id (g_hash g));
}.

(** ** Triples

    From a world satisfying [Pre], an [Ok] ends in [Post] and anything else in
    [Exc]. *)
Definition triple {T} (Pre : World -> Prop) (m : M T) (Post : T -> World -> Prop) (Exc : World -> Prop) : Prop :=
  forall w, Pre w -> match m w with (Ok x, w') => Post x w' | (_, w') => Exc w' end.

Lemma triple_bind {T U} Pre (m : M T) Mid (k : T -> M U) Post Exc :
  triple Pre m Mid Exc -> (forall x, triple (Mid x) (k x) Post Exc) -> triple Pre (bindM m k) Post Exc.
Proof.
  intros Hm Hk w Hw. specialize (Hm w Hw). unfold bindM, bind. destruct (m w) as [[x| | |] w']; try done. by apply Hk.
Qed.

Lemma triple_ret {T} (x : T) (Pre : World -> Prop) Post Exc : (forall w, Pre w -> Post x w) -> triple Pre (ret x) Post Exc.
Proof. intros Hp w Hw. by apply Hp. Qed.

Lemma triple_fail {T} c msg (Pre : World -> Prop) Post Exc :
  (forall w, Pre w -> Exc w) -> triple Pre (fail c msg : M T) Post Exc.
Proof. intros Hp w Hw. by apply Hp. Qed.

Lemma triple_pre {T} (Pre Pre' : World -> Prop) (m : M T) Post Exc :
  (forall w, Pre w -> Pre' w) -> triple Pre' m Post Exc -> triple Pre m Post Exc.
Proof. intros Hi Ht w Hw. by apply Ht, Hi. Qed.

Lemma triple_exc {T} Pre (m : M T) Post (Exc Exc' : World -> Prop) :
  (forall w, Exc' w -> Exc w) -> triple Pre m Post Exc' -> triple Pre m Post Exc.
Proof. intros Hi Ht w Hw. specialize (Ht w Hw). destruct (m w) as [[] ?]; auto. Qed.

Lemma triple_keeps {T} (I : World -> Prop) (m : M T) w : triple I m (fun _ => I) I -> I w -> I (m w).2.
Proof. intros Ht Hw. specialize (Ht w Hw). by destruct (m w) as [[] ?]. Qed.

Lemma triple_pure {T} (Pre : World -> Prop) (Q : Prop) (m : M T) Post Exc :
  (Q -> triple Pre m Post Exc) -> triple (fun w => Pre w /\ Q) m Post Exc.
Proof. intros Hm w [Hw Hq]. by apply Hm. Qed.

Lemma triple_lift {T} (o : outcome T) (I : World -> Prop) : triple I (lift o) (fun x w => I w /\ o = Ok x) I.
Proof. intros w Hw. unfold lift. by destruct o. Qed.

(** The invariant, and what is known of the table and the ids minted. *)
Definition FInv (hist : list Registration) (F : Db -> nat -> Prop) (w : World) : Prop :=
  Inv hist w /\ F (w_db w) (w_minted w).
Definition no_frame : Db -> nat -> Prop := fun _ _ => True.

Lemma triple_unframe {T} hist (m : M T) Post Exc : triple (FInv hist no_frame) m Post Exc -> triple (Inv hist) m Post Exc.
Proof. intros Ht w Hi. by apply Ht. Qed.

(** Reads leave the invariant alone. *)
Lemma triple_ask_store {T} c fmt (f : nat -> AS -> result T) hist F :
  triple (FInv hist F) (ask_store c fmt f) (fun x w => FInv hist F w /\ exists n, f n (w_store w) = inr x) (Inv hist).
Proof.
  intros w [[] HF]. unfold ask_store, or_status. destruct (f _ _) as [e|x] eqn:Hf; [by constructor|].
  split; [by split|by eauto].
Qed.

Lemma triple_ask_programs {T} c fmt (f : nat -> PS -> result T) hist F :
  triple (FInv hist F) (ask_programs c fmt f) (fun x w => FInv hist F w /\ exists n, f n (w_programs w) = inr x) (Inv hist).
Proof.
  intros w [[] HF]. unfold ask_programs, or_status. destruct (f _ _) as [e|x] eqn:Hf; [by constructor|].
  split; [by split|by eauto].
Qed.

Lemma Inv_store hist w s n :
  (forall h elf, as_view s (program_artifact_id h) Program = Some elf -> exists g, g ∈ hist /\ g_hash g = h /\ g_elf g = elf) ->
  Inv hist w -> Inv hist (mkWorld s (w_programs w) (w_db w) (w_nonces w) n (w_minted w)).
Proof. intros Hs []. by constructor. Qed.

(** A change of one artifact to nothing, to what it was, or to registered bytes. *)
Lemma Inv_touch hist w s n id (news : list bytes) :
  (forall id' t', id' <> id -> as_view s id' t' = as_view (w_store w) id' t') ->
  (as_view s id Program = as_view (w_store w) id Program \/ as_view s id Program = None \/
   exists d, as_view s id Program = Some d /\ d ∈ news) ->
  (forall h d, id = program_artifact_id h -> d ∈ news -> exists g, g ∈ hist /\ g_hash g = h /\ g_elf g = d) ->
  Inv hist w -> Inv hist (mkWorld s (w_programs w) (w_db w) (w_nonces w) n (w_minted w)).
Proof.
  intros Hother Hown Hnews Hi. apply Inv_store; [|done]. intros h elf Hv.
  destruct (decide (program_artifact_id h = id)) as [Heq|Hne].
  - rewrite Heq in Hv. destruct Hown as [Ho|[Ho|(d & Ho & Hd)]]; rewrite Ho in Hv; simplify_eq.
    + by apply (inv_store _ _ Hi).
    + by apply (Hnews h).
  - rewrite Hother in Hv by done. by apply (inv_store _ _ Hi).
Qed.

Lemma triple_upload c fmt h d hist F :
  (exists g, g ∈ hist /\ g_hash g = h /\ g_elf g = d) ->
  triple (FInv hist F) (on_store c fmt (fun n => as_upload_raw n (program_artifact_id h) Program d))
    (fun _ => FInv hist F) (Inv hist).
Proof.
  intros (g & Hg & <- & <-) w [Hi HF]. unfold on_store. destruct (as_upload_raw _ _ _ _ _) as [r s] eqn:Hu.
  destruct (as_upload_view _ _ _ _ _ _ _ Hu) as (Ho & _ & Hown).
  assert (Hi' : Inv hist (next_call w s (w_programs w) (w_db w))).
  { eapply (Inv_touch _ _ _ _ _ [g_elf g]); [exact Ho| | |done].
    - destruct Hown as [?|[?|?]]; [auto| |auto]. right. right. exists (g_elf g). split; [done|set_solver].
    - intros h d <-%program_artifact_id_inj ->%list_elem_of_singleton. eauto. }
  by destruct r.
Qed.

Lemma triple_try_delete id hist : triple (Inv hist) (try_delete id) (fun _ => Inv hist) (Inv hist).
Proof.
  intros w Hi. unfold try_delete. destruct (as_try_delete _ _ _ _) as [r s] eqn:Hd.
  destruct (as_delete_view _ _ _ _ _ _ Hd) as [Ho Hown].
  eapply (Inv_touch _ _ _ _ id []); [exact Ho|naive_solver|set_solver|done].
Qed.

Lemma triple_create_artifact c fmt hist F :
  triple (FInv hist F) (on_store c fmt as_create_artifact) (fun _ => FInv hist F) (Inv hist).
Proof.
  intros w [Hi HF]. unfold on_store. destruct (as_create_artifact _ _) as [r s] eqn:Hc.
  assert (Hi' : Inv hist (next_call w s (w_programs w) (w_db w))).
  { apply Inv_store; [|done]. intros h elf. rewrite (as_create_view _ _ _ _ Hc). apply Hi. }
  by destruct r.
Qed.

Lemma triple_put c fmt g hist :
  g ∈ hist ->
  triple (Inv hist) (on_programs c fmt (fun n => ps_put n (g_hash g) (g_vk g) (g_elf g))) (fun _ => Inv hist) (Inv hist).
Proof.
  intros Hg w Hi. unfold on_programs. destruct (ps_put _ _ _ _ _) as [r p] eqn:Hp.
  assert (Hi' : Inv hist (next_call w (w_store w) p (w_db w))).
  { destruct Hi as [Hps Hby Hreg Hst Hrows].
    assert (Hv : ps_inv p /\ forall h x, ps_view p h = Some x ->
      ps_view (w_programs w) h = Some x \/ (h = g_hash g /\ x = (g_vk g, g_elf g))).
    { assert (Hins : forall h x, reg_insert (g_hash g) (g_vk g, g_elf g) (ps_view (w_programs w)) h = Some x ->
        ps_view (w_programs w) h = Some x \/ (h = g_hash g /\ x = (g_vk g, g_elf g))).
      { intros h x. unfold reg_insert. destruct (decide _); [intros [= <-]; auto|auto]. }
      destruct r as [e|[]].
      - destruct (ps_put_err _ _ _ _ _ _ _ Hps Hp) as [Hps' [Hv|Hv]]; (split; [done|]); intros h x; rewrite Hv; auto.
      - destruct (ps_put_ok _ _ _ _ _ _ Hps Hp) as [Hps' Hv]. split; [done|]. intros h x. rewrite Hv. auto. }
    destruct Hv as [Hps' Hv]. constructor; cbn; try done.
    intros h vk elf [?|[-> [= -> ->]]]%Hv; [by apply Hreg|]. eauto. }
  by destruct r.
Qed.
(** ** The handlers keep the invariant *)
Definition registered (hist : list Registration) (h : bytes) : Prop := exists g, g ∈ hist /\ g_hash g = h.

Lemma triple_warm_program h hist F :
  triple (FInv hist F) (warm_program h) (fun _ w => FInv hist F w /\ registered hist h) (Inv hist).
Proof.
  eapply triple_bind; [apply triple_ask_store|]. intros [].
  - apply triple_ret. intros w [Hi [n Hex%as_exists_sound]]. split; [done|].
    symmetry in Hex. apply bool_decide_eq_true in Hex as [elf Hv].
    destruct (inv_store _ _ (proj1 Hi) h elf Hv) as (g & Hg & Hh & _). by exists g.
  - eapply triple_pre; [by intros w [? _]|]. eapply triple_bind; [apply triple_ask_programs|]. intros [[vk elf]|].
    + intros w [Hi [n Hget]]. apply ps_get_sound in Hget; [|apply Hi].
      destruct (inv_registry _ _ (proj1 Hi) h vk elf) as (g & Hg & Hh & Hvk & He); [done|].
      assert (Ht := triple_upload Internal (String.append "upload program artifact failed: ") h elf hist F ltac:(by exists g) w Hi).
      destruct (on_store _ _ _ w) as [[]]; try done. split; [done|by exists g].
    + apply triple_fail. by intros w [[? _] _].
Qed.

(** The next id is one no row has. *)
Definition next_unused (db : Db) (minted : nat) : Prop := db !! typeid minted = None.
Definition minted_fresh (rid : bytes) (db : Db) (minted : nat) : Prop :=
  exists n, proof_id_from_request_id rid = typeid n /\ (n < minted)%nat /\ db !! typeid n = None.

Lemma triple_mint hist :
  triple (FInv hist next_unused) mint (fun rid => FInv hist (minted_fresh rid)) (Inv hist).
Proof.
  intros w [Hi Hn]. unfold mint. destruct (mint_request_id_spec (w_minted w)) as (rid & -> & _ & Hid). split.
  - destruct Hi as [? ? ? ? Hr]. constructor; try done. cbn. intros m r Hm Hrow.
    destruct (decide (m = w_minted w)) as [->|Hne]; [unfold next_unused in Hn; congruence|]. apply (Hr m); [lia|done].
  - exists (w_minted w). cbn. split; [done|]. split; [lia|]. done.
Qed.

Lemma create_row_db now create w (Hn : w_db w !! cr_proof_id create = None) :
  exists o db, create_row now create w = (o, next_call w (w_store w) (w_programs w) db) /\
    (db = w_db w \/ db = created now create (w_db w)) /\ (o = Ok tt -> db = created now create (w_db w)).
Proof.
  unfold create_row, api_call. destruct (Hsane (w_calls w)) as [Ha Hm]. destruct (attempts (w_calls w)) as [a more].
  pose proof (retry_create a more now create (w_db w) Hn Ha Hm) as Hr.
  destruct (retry_call _ _ _ _) as [o db]. destruct Hr as [Hdb Hok].
  destruct o as [[]|[[] msg]| |]; do 2 eexists; (split; [reflexivity|]; split; [exact Hdb|]); intros Ho;
    try discriminate Ho; by apply Hok.
Qed.

Lemma triple_create_row now body requester rid stdin proof hist :
  permitted requester -> registered hist (rb_vk_hash body) ->
  triple (FInv hist (minted_fresh rid))
    (create_row now (proof_request_for body requester rid stdin proof)) (fun _ => Inv hist) (Inv hist).
Proof.
  intros Hp (g & Hg & Hh) w [Hi (n & Hid & Hlt & Hnone)].
  destruct (create_row_db now (proof_request_for body requester rid stdin proof) w) as (o & db & -> & Hdb & _).
  { cbn. by rewrite Hid. }
  assert (Hi' : Inv hist (next_call w (w_store w) (w_programs w) db)); [|by destruct o].
  destruct Hdb as [->| ->]; [by destruct Hi|]. destruct Hi as [? ? ? ? Hr]. unfold created. cbn [cr_proof_id proof_request_for].
  rewrite Hid. constructor; cbn [next_call w_programs w_store w_db w_minted]; try done.
  intros m r Hm. destruct (decide (typeid m = typeid n)) as [->|Hne].
  - rewrite lookup_insert_eq. intros [= <-]. cbn. split; [by exists requester|]. exists g. by rewrite Hh.
  - rewrite lookup_insert_ne by congruence. by apply Hr.
Qed.

Lemma triple_request_proof now req hist :
  triple (FInv hist next_unused) (request_proof cfg now req) (fun _ => Inv hist) (Inv hist).
Proof.
  unfold request_proof. destruct (rp_body req) as [body|]; [|by apply triple_fail; intros w []].
  eapply triple_bind; [eapply triple_exc; [|apply triple_lift]; by intros w []|]. intros requester.
  apply triple_pure. intros Hauth%authorize_permitted.
  destruct (artifact_id_from_uri _) as [stdin|]; [|by apply triple_fail; intros w []].
  eapply triple_bind; [apply triple_warm_program|]. intros []. apply triple_pure. intros Hreg.
  eapply triple_bind; [apply triple_mint|]. intros rid.
  eapply triple_bind; [apply triple_create_artifact|]. intros proof.
  eapply triple_bind; [by apply triple_create_row|]. intros []. by apply triple_ret.
Qed.

Lemma Inv_more hist g w : permitted (g_by g) -> Inv hist w -> Inv (g :: hist) w.
Proof.
  intros Hp [? Hby Hreg Hst Hrows]. constructor; try done; [by constructor| | |].
  - intros h vk elf (g' & ? & ?)%Hreg. exists g'. split; [by right|done].
  - intros h elf (g' & ? & ?)%Hst. exists g'. split; [by right|done].
  - intros n r Hn (? & g' & ? & ?)%Hrows; [|done]. split; [done|]. exists g'. split; [by right|done].
Qed.

Lemma create_program_keeps req hist w :
  Inv hist w -> Inv (registration req w ++ hist) (create_program cfg req w).2.
Proof.
  intros Hi. unfold create_program, registration. destruct (cp_body req) as [body|]; [|done].
  unfold bindM at 1, lift. cbn [bind]. destruct (authorize _ _ _) as [by_| | |] eqn:Hauth; try done. cbn [bind].
  destruct (artifact_id_from_uri _) as [id|]; [|done].
  unfold bindM at 1, ask_store. destruct (as_download_raw _ _ _ _) as [e|elf]; cbn [or_status bind]; [by destruct Hi|].
  set (g := mkRegistration by_ (pb_vk_hash body) (pb_vk body) elf).
  set (w1 := next_call _ _ _ _). assert (Hi1 : Inv (g :: hist) w1).
  { apply Inv_more; [by eapply authorize_permitted|by destruct Hi]. }
  cbn [app]. apply triple_keeps; [|done].
  eapply triple_bind; [apply (triple_put _ _ g); by left|]. intros [].
  eapply triple_bind; [apply triple_unframe, triple_upload; exists g; split; [by left|done]|]. intros [].
  eapply triple_pre; [by intros w' []|apply triple_try_delete].
Qed.

(** ** Steps *)
Inductive gstep : list Registration -> World -> list Registration -> World -> Prop :=
  | GRequestProof now req hist w :
      next_unused (w_db w) (w_minted w) -> gstep hist w hist (request_proof cfg now req w).2
  | GCreateProgram req hist w : gstep hist w (registration req w ++ hist) (create_program cfg req w).2
  | GCreateArtifact sig t hist w : gstep hist w hist (create_artifact cfg sig t w).2
  | GPutArtifact seg id body hist w :
      (forall h, id <> program_artifact_id h) -> gstep hist w hist (put_artifact seg id body w).2
  | GGetArtifact seg id hist w : gstep hist w hist (get_artifact seg id w).2
  | GGetStatus rid hist w : gstep hist w hist (get_proof_request_status cfg rid w).2
  | GGetDetails rid hist w : gstep hist w hist (get_proof_request_details cfg rid w).2
  | GGetFiltered req hist w : gstep hist w hist (get_filtered_proof_requests cfg req w).2
  | GGetProgram h hist w : gstep hist w hist (get_program cfg h w).2
  | GGetNonce addr hist w : gstep hist w hist (get_nonce addr w).2
  | GExpire s hist w :
      (forall id t, as_view s id t = as_view (w_store w) id t \/ as_view s id t = None) ->
      gstep hist w hist (mkWorld s (w_programs w) (w_db w) (w_nonces w) (w_calls w) (w_minted w))
  | GCluster o hist w :
      (forall n, match o with ApiCreate _ _ req => cr_proof_id req <> typeid n | _ => True end) ->
      gstep hist w hist (mkWorld (w_store w) (w_programs w) (api_run o (w_db w)) (w_nonces w) (w_calls w) (w_minted w)).

Inductive gsteps : list Registration -> World -> Prop :=
  | GInit w :
      ps_inv (w_programs w) -> (forall h, ps_view (w_programs w) h = None) ->
      (forall h, as_view (w_store w) (program_artifact_id h) Program = None) ->
      (forall n, w_db w !! typeid n = None) -> gsteps [] w
  | GStep hist w hist' w' : gsteps hist w -> gstep hist w hist' w' -> gsteps hist' w'.

(** Handlers that read the table leave everything but the call count. *)
Lemma on_cluster_read {T} c fmt (f : Fault -> Db -> outcome T) w :
  exists o, on_cluster c fmt (fun fault db => (f fault db, db)) w = (o, next_call w (w_store w) (w_programs w) (w_db w)).
Proof.
  unfold on_cluster, api_call. destruct (attempts (w_calls w)) as [a more].
  assert (Hr : forall a, (retry_call a more (fun fault db => (f fault db, db)) (w_db w)).2 = w_db w).
  { clear. induction more as [|a' more IH]; intros a; cbn [retry_call]; destruct a as [x|e|[x|]]; cbn [with_timeout];
      repeat case_match; simplify_eq/=; auto. }
  specialize (Hr a). destruct (retry_call _ _ _ _) as [o db]. cbn in Hr. subst db. by destruct o; eexists.
Qed.

Lemma load_read id w : exists o, load_cluster_proof id w = (o, next_call w (w_store w) (w_programs w) (w_db w)).
Proof.
  unfold load_cluster_proof, bindM.
  destruct (on_cluster_read Internal (String.append "cluster get_proof_request failed: ") (fun f db => proof_request_get f id db) w) as [o ->].
  destruct o as [[q|]| | |]; cbn; eauto.
Qed.

Lemma gstep_inv hist w hist' w' : gstep hist w hist' w' -> Inv hist w -> Inv hist' w'.
Proof.
  intros Hs Hi. assert (Hread : Inv hist (next_call w (w_store w) (w_programs w) (w_db w))) by (by destruct Hi).
  destruct Hs as [now req hist w Hn|req hist w|sig t hist w|seg id body hist w Hid|seg id hist w|rid hist w|rid hist w|
    req hist w|h hist w|addr hist w|s hist w Hs|o hist w Ho].
  - assert (Ht := triple_request_proof now req hist w (conj Hi Hn)). by destruct (request_proof _ _ _ _) as [[] ?].
  - by apply create_program_keeps.
  - unfold create_artifact, bindM, lift. destruct (authorize _ _ _); try done. cbn [bind].
    assert (Ht := triple_create_artifact Internal (String.append "create_artifact failed: ") hist no_frame w (conj Hi I)).
    destruct (on_store _ _ _ w) as [[] ?]; try done. apply Ht.
  - unfold put_artifact. destruct (parse_artifact_type_segment _) as [t|]; [|done].
    destruct (as_upload_raw_compressed _ _ _ _ _) as [r s] eqn:Hu. cbn [snd].
    apply Inv_store; [|done]. intros h elf. rewrite (as_compressed_view _ _ _ _ _ _ _ Hu) by (by intros ?%eq_sym%Hid). apply Hi.
  - unfold get_artifact. by destruct (parse_artifact_type_segment _).
  - unfold get_proof_request_status, bindM. destruct (load_read (proof_id_from_request_id rid) w) as [o ->]. by destruct o.
  - unfold get_proof_request_details, bindM. destruct (load_read (proof_id_from_request_id rid) w) as [o ->]. by destruct o.
  - unfold get_filtered_proof_requests. destruct (fulfillment_filter req) as [[|st l]|]; [done| |];
      unfold bindM; (match goal with |- context[on_cluster ?c ?m (fun f db => (@?g f db, db)) w] =>
        destruct (on_cluster_read c m g w) as [o ->] end); by destruct o.
  - unfold get_program, bindM, ask_programs. destruct (ps_get _ _ _) as [e|[[vk elf]|]]; done.
  - by destruct Hi.
  - apply Inv_store; [|done]. intros h elf Hv. destruct (Hs (program_artifact_id h) Program) as [He|He]; rewrite He in Hv; [by apply Hi|done].
  - destruct Hi as [? ? ? ? Hr]. constructor; cbn; try done.
    intros n r' Hn Hr'. destruct (w_db w !! typeid n) as [r|] eqn:Hrow.
    + destruct (api_run_kept o (w_db w) _ _ Hrow) as (r'' & Hr'' & Heq). simplify_eq.
      destruct (Hr n r Hn Hrow) as [(a & Ha & Hra) (g & Hg & Hpr)]. unfold request_of in Heq. simplify_eq.
      split; [exists a; split; congruence|exists g; split; congruence].
    + rewrite api_run_new in Hr'; [done|done|apply Ho].
Qed.

Lemma gsteps_inv hist w : gsteps hist w -> Inv hist w.
Proof.
  induction 1 as [w Hp Hv Hs Hd|hist w hist' w' _ IH Hs]; [|by eapply gstep_inv].
  constructor; try done.
  - intros h vk elf. by rewrite Hv.
  - intros h elf. by rewrite Hs.
  - intros n r _. by rewrite Hd.
Qed.
End reach.
End Reach.
