(* ===== verification/GatewayProps.v ===== *)
(** * What the gateway guarantees

    Accepted proof requests are in the table as asked and answered for from then
    on; only permitted requesters' requests and registered programs get there; a
    listing filtered by status is exactly the rows reported with it. *)
From Stdlib Require Import Ascii String.
From stdpp Require Import base gmap strings list sorting.
From S2P Require Import Prelude ApiStore ProgramStore ProgramStoreProps GatewayIds GatewayFacts Gateway GatewayInv.
Local Open Scope string_scope.
Local Open Scope list_scope.
Local Open Scope Z_scope.
Import Gw Reach.

Lemma as_u64_i64 x : 0 <= x < 2 ^ 64 -> as_u64 (as_i64 x) = x.
Proof.
  intros Hx. unfold as_u64, as_i64, Int.wrap. change (Int.modulus u64) with (2 ^ 64).
  destruct (Z.ltb_spec x (2 ^ 63)); [by apply Z.mod_small|].
  replace (x - 2 ^ 64) with (x + (-1) * 2 ^ 64) by lia. rewrite Z.mod_add by lia. by apply Z.mod_small.
Qed.

Lemma segments_no_sep sep s : Forall (fun seg => sep ∉ as_bytes seg) (split sep s).
Proof.
  induction s as [|c s IH]; [repeat constructor; apply not_elem_of_nil|]. cbn [split].
  destruct (decide (c = sep)) as [->|Hne]; [constructor; [apply not_elem_of_nil|done]|].
  destruct (split sep s) as [|x l]; [repeat constructor; change (sep ∉ [c]); set_solver|].
  apply Forall_cons in IH as [Hx Hl]. constructor; [|done]. change (sep ∉ c :: as_bytes x). set_solver.
Qed.

Lemma uri_id_is_segment uri id : artifact_id_from_uri uri = Some id -> no_slash id /\ id <> "".
Proof.
  unfold artifact_id_from_uri. pose proof (segments_no_sep "/" uri) as Hs.
  destruct (last (split "/" uri)) as [seg|] eqn:Hl; [|done]. cbn.
  apply last_Some in Hl as [l Hl]. rewrite Hl in Hs. apply Forall_app in Hs as [_ Hs]. apply Forall_cons in Hs as [Hs _].
  destruct seg; [done|]. intros [= <-]. done.
Qed.

Section handlers.
Context {E : ApiEnv} {EO : ApiEnvOk E} {G : GatewayEnv} {GO : GatewayEnvOk G} {H : HexCodec} {HO : HexCodecOk H}.
Context {P : ProgramStore} {A : ArtifactStore} {AO : ArtifactStoreOk A} {Io : GatewayIo}.
Context (cfg : Config).
Context (Hsane : forall n, attempt_sane (attempts n).1 /\ Forall attempt_sane (attempts n).2).

(** ** Requesting *)
Lemma bindM_ok {T U} (m : M T) (k : T -> M U) w y w' :
  bindM m k w = (Ok y, w') -> exists x w1, m w = (Ok x, w1) /\ k x w1 = (Ok y, w').
Proof. unfold bindM, bind. destruct (m w) as [[x| | |] w1]; try done. eauto. Qed.

Lemma warm_program_ok h w u w1 :
  warm_program h w = (Ok u, w1) ->
  w_db w1 = w_db w /\ w_minted w1 = w_minted w /\ is_Some (as_view (w_store w1) (program_artifact_id h) Program).
Proof.
  intros (warm & w2 & Hex & Hk)%bindM_ok. unfold ask_store, or_status in Hex.
  destruct (as_exists _ _ _ _) as [e|b] eqn:Hb; simplify_eq/=. apply as_exists_sound in Hb. destruct warm.
  - unfold ret in Hk. simplify_eq/=. split; [done|]. split; [done|]. symmetry in Hb. by apply bool_decide_eq_true in Hb.
  - apply bindM_ok in Hk as (found & w3 & Hget & Hk). unfold ask_programs, or_status in Hget.
    destruct (ps_get _ _ _) as [e|f]; simplify_eq/=. destruct found as [[vk elf]|]; [|done].
    unfold on_store in Hk. destruct (as_upload_raw _ _ _ _ _) as [r s] eqn:Hu.
    destruct r as [e|[]]; simplify_eq/=. destruct (as_upload_view _ _ _ _ _ _ _ Hu) as (_ & Hok & _).
    split; [done|]. split; [done|]. rewrite Hok by done. eauto.
Qed.

Lemma request_proof_ok now req w rid w' :
  request_proof cfg now req w = (Ok rid, w') -> w_db w !! typeid (w_minted w) = None ->
  exists body requester stdin proof,
    rp_body req = Some body /\ authorize (auth cfg) (encode_request_body body) (rp_signature req) = Ok requester /\
    artifact_id_from_uri (rb_stdin_uri body) = Some stdin /\
    length rid = REQUEST_ID_LEN /\ proof_id_from_request_id rid = typeid (w_minted w) /\
    w_db w' = created now (proof_request_for body requester rid stdin proof) (w_db w) /\
    is_Some (as_view (w_store w') (program_artifact_id (rb_vk_hash body)) Program).
Proof.
  unfold request_proof. intros Hreq Hnone. destruct (rp_body req) as [body|]; [|done].
  apply bindM_ok in Hreq as (requester & w1 & Hauth & Hreq). unfold lift in Hauth. simplify_eq/=.
  destruct (artifact_id_from_uri _) as [stdin|] eqn:Huri; [|done].
  apply bindM_ok in Hreq as ([] & w2 & (Hdb & Hmi & Hwarm)%warm_program_ok & Hreq).
  apply bindM_ok in Hreq as (rid0 & w3 & Hmint & Hreq).
  apply bindM_ok in Hreq as (proof & w4 & Hart & Hreq).
  apply bindM_ok in Hreq as ([] & w5 & Hrow & Hreq). unfold ret in Hreq. simplify_eq/=.
  unfold mint in Hmint. destruct (mint_request_id_spec (w_minted w2)) as (id & Hid & Hlen & Hpid). rewrite Hid in Hmint. simplify_eq/=.
  unfold on_store in Hart. destruct (as_create_artifact _ _) as [r s] eqn:Hc. destruct r as [e|pid]; simplify_eq/=.
  exists body, requester, stdin, proof. rewrite Hmi in Hpid.
  edestruct (create_row_db Hsane now) as (o & db & Heq & _ & Hok); [|rewrite Heq in Hrow].
  { cbn. rewrite Hpid, Hdb. exact Hnone. }
  simplify_eq/=. rewrite Hok, Hdb by done. do 6 (split; [done|]).
  rewrite (as_create_view _ _ _ _ Hc). exact Hwarm.
Qed.

(** ** Answering *)
Lemma poll_row id w r :
  attempts (w_calls w) = (Served Healthy, []) -> w_db w !! id = Some r -> row_wf r ->
  exists q, into_proto r = Ok q /\ (load_cluster_proof id w).1 = Ok q.
Proof.
  intros Ha Hr Hwf. destruct (into_proto_ok r Hwf) as [q Hq]. exists q. split; [done|].
  unfold load_cluster_proof, bindM, on_cluster, api_call. rewrite Ha. cbn [retry_call with_timeout].
  unfold proof_request_get. cbn [execute fst]. rewrite Hr, Hq. done.
Qed.

(** A created row after more API operations. *)
Lemma created_row_kept now create db os :
  db_wf db -> exists r, api_runs os (created now create db) !! cr_proof_id create = Some r /\ row_wf r /\
    request_of r = request_of (new_row now create).
Proof.
  intros Hwf. assert (Hrow : created now create db !! cr_proof_id create = Some (new_row now create)) by apply lookup_insert_eq.
  assert (Hwf' : db_wf (created now create db)).
  { intros id r. unfold created. destruct (decide (id = cr_proof_id create)) as [->|Hne].
    - rewrite lookup_insert_eq. intros [= <-]. split; [done|by left].
    - rewrite lookup_insert_ne by congruence. apply Hwf. }
  destruct (api_runs_kept os _ _ _ Hrow) as (r & Hr & Hkept). exists r. split; [done|]. split; [|done].
  by destruct (db_step_wf _ _ (api_runs_step os _) Hwf' (cr_proof_id create) r).
Qed.

Lemma into_proto_fields r q :
  into_proto r = Ok q ->
  q_proof_status q = r_proof_status r /\ q_requester q = r_requester r /\
  q_stdin_artifact_id q = r_stdin_artifact_id r /\ q_program_artifact_id q = r_program_artifact_id r /\
  q_proof_artifact_id q = r_proof_artifact_id r /\ q_options_artifact_id q = r_options_artifact_id r /\
  q_cycle_limit q = as_u64 <$> r_cycle_limit r /\ q_gas_limit q = as_u64 <$> r_gas_limit r /\
  q_stdin_private q = r_stdin_private r.
Proof. unfold into_proto. intros Hq. by repeat case_match; simplify_eq/=. Qed.

End handlers.

(** C19. An accepted proof request is in the table, and stays answerable: the
    request id is the 32 bytes the SDK wants; whatever API operations follow, a poll
    that reaches the API reports the status of its row, with a proof URI exactly
    when the proof is completed, naming the proof artifact reserved for it; and the
    details are the ones asked for, the requester being the one authorised. *)
Theorem accepted_request_is_tracked {E : ApiEnv} {EO : ApiEnvOk E} {G : GatewayEnv} {GO : GatewayEnvOk G}
    {H : HexCodec} {HO : HexCodecOk H} {P : ProgramStore} {A : ArtifactStore} {AO : ArtifactStoreOk A} {Io : GatewayIo}
    (cfg : Config) (Hsane : forall n, attempt_sane (attempts n).1 /\ Forall attempt_sane (attempts n).2)
    now req body w rid w' os w2 :
  request_proof cfg now req w = (Ok rid, w') -> rp_body req = Some body ->
  - 2 ^ 31 <= rb_mode body < 2 ^ 31 -> 0 <= rb_cycle_limit body < 2 ^ 64 -> 0 <= rb_gas_limit body < 2 ^ 64 ->
  db_wf (w_db w) -> w_db w !! typeid (w_minted w) = None ->
  w_db w2 = api_runs os (w_db w') -> attempts (w_calls w2) = (Served Healthy, []) ->
  length rid = 32%nat /\
  exists r requester proof status details,
    w_db w2 !! typeid (w_minted w) = Some r /\
    authorize (auth cfg) (encode_request_body body) (rp_signature req) = Ok requester /\
    (get_proof_request_status cfg rid w2).1 = Ok status /\
    sr_fulfillment_status status = sdk_fulfillment_i32 (fulfillment_from_cluster (proof_status (r_proof_status r))) /\
    sr_proof_uri status =
      (if decide (r_proof_status r = status_i32 PrCompleted) then Some (artifact_uri (public_http_url cfg) Proof proof) else None) /\
    (get_proof_request_details cfg rid w2).1 = Ok details /\
    s_fulfillment_status details = sr_fulfillment_status status /\
    s_requester details = to_vec requester /\ s_mode details = rb_mode body /\
    s_cycle_limit details = rb_cycle_limit body /\ s_gas_limit details = rb_gas_limit body /\
    s_stdin_private details = rb_stdin_private body /\
    artifact_id_from_uri (s_stdin_uri details) = artifact_id_from_uri (rb_stdin_uri body) /\
    s_program_uri details = artifact_uri (public_http_url cfg) Program (program_artifact_id (rb_vk_hash body)).
Proof.
  intros Hreq Hbody Hmode Hcycles Hgas Hwf Hnone Hdb2 Ha.
  destruct (request_proof_ok cfg Hsane _ _ _ _ _ Hreq Hnone) as (body' & requester & stdin & proof & Hb & Hauth & Hstdin & Hlen & Hpid & Hdb & _).
  assert (body' = body) as -> by congruence. split; [done|].
  set (create := proof_request_for body requester rid stdin proof).
  destruct (created_row_kept now create (w_db w) os Hwf) as (r & Hr & Hrwf & Hkept).
  fold create in Hdb. rewrite <- Hdb, <- Hdb2 in Hr. change (cr_proof_id create) with (proof_id_from_request_id rid) in Hr. rewrite Hpid in Hr.
  destruct (poll_row (typeid (w_minted w)) w2 r Ha Hr Hrwf) as (q & Hq & Hload).
  destruct (into_proto_fields r q Hq) as (Hst & Hrq & Hsi & Hpr & Hpa & Hop & Hcy & Hga & Hpriv).
  unfold request_of in Hkept. cbn [create new_row r_requester r_stdin_artifact_id r_program_artifact_id r_proof_artifact_id
    r_options_artifact_id r_cycle_limit r_gas_limit r_created_at r_stdin_private proof_request_for cr_requester
    cr_stdin_artifact_id cr_program_artifact_id cr_proof_artifact_id cr_options_artifact_id cr_cycle_limit cr_gas_limit
    cr_stdin_private] in Hkept. simplify_eq.
  exists r, requester, proof. unfold get_proof_request_status, get_proof_request_details, bindM. rewrite !Hpid.
  destruct (load_cluster_proof _ w2) as [o w3]. cbn [fst] in Hload. subst o. cbn [bind].
  do 2 eexists. split; [done|]. split; [done|]. split; [reflexivity|]. cbn [sr_fulfillment_status sr_proof_uri].
  split; [by rewrite Hst|]. split.
  { rewrite Hst, Hpa. replace (r_proof_artifact_id r) with (Some proof) by congruence.
    destruct (decide (r_proof_status r = status_i32 PrCompleted)) as [->|Hne].
    - rewrite proof_status_code. done.
    - rewrite decide_False; [done|]. intros Hf. destruct (proof_status (r_proof_status r)) as [[]|] eqn:Hps; try done.
      by apply proof_status_sound in Hps. }
  split; [reflexivity|]. unfold build_sdk_proof_request. cbn. rewrite Hrq, Hcy, Hga, Hpriv, Hop, Hsi, Hpr.
  repeat match goal with Heq : _ r = _ |- _ => rewrite Heq end. cbn. rewrite parse_i32_to_string by done. cbn.
  rewrite !as_u64_i64 by done. do 6 (split; [done|]). split; [|done].
  destruct (uri_id_is_segment _ _ Hstdin). rewrite Hstdin. by apply artifact_uri_id.
Qed.

(** ** Listing *)
Section listing.
Context {E : ApiEnv} {EO : ApiEnvOk E} {G : GatewayEnv} {GO : GatewayEnvOk G}.

(** The status the gateway reports a row with. *)
Definition reported (r : DbProofRequest) : SdkFulfillment := fulfillment_from_cluster (proof_status (r_proof_status r)).

Definition reported_rows (s : SdkFulfillment) (db : Db) : list DbProofRequest :=
  merge_sort row_le (filter (fun r => reported r = s) (map_to_list db).*2).

Lemma filter_codes s l r :
  cluster_fulfillment_filter s = Some l -> (r_proof_status r ∈ status_i32 <$> l <-> reported r = s).
Proof.
  intros Hl. unfold reported. rewrite (fulfillment_filter_exact s _ l Hl), list_elem_of_fmap. split.
  - intros (x & Hx & Hin). exists x. by rewrite proof_status_iff.
  - intros (x & ->%proof_status_iff & Hin). by exists x.
Qed.

Lemma matching_reported s st l req db :
  cluster_fulfillment_filter s = Some (st :: l) ->
  ls_proof_status req = status_i32 <$> st :: l -> ls_execution_status req = [] ->
  ls_minimum_deadline req = None -> ls_handled req = None -> ls_scheduled_by req = None ->
  matching_rows req db = reported_rows s db.
Proof.
  intros Hl Hps Hes Hmd Hh Hs. unfold matching_rows, reported_rows. f_equal. apply list_filter_iff. intros r.
  rewrite <- (filter_codes s (st :: l) r Hl). unfold list_match. rewrite Hps, Hes, Hmd, Hh, Hs, !andb_true_r.
  cbn [fmap list_fmap]. by rewrite bool_decide_eq_true.
Qed.

Lemma reported_none s db : cluster_fulfillment_filter s = Some [] -> reported_rows s db = [].
Proof.
  intros Hl. unfold reported_rows. replace (filter _ _) with (@nil DbProofRequest); [done|].
  generalize ((map_to_list db).*2). intros rows. induction rows as [|r rows IH]; [done|].
  rewrite filter_cons_False; [done|]. rewrite <- (filter_codes s [] r Hl). apply not_elem_of_nil.
Qed.

Lemma reported_protos s db : db_wf db -> exists qs, Forall2 (fun r q => into_proto r = Ok q) (reported_rows s db) qs.
Proof.
  intros Hwf. apply into_proto_all. apply Forall_forall. intros r Hr. unfold reported_rows in Hr.
  rewrite merge_sort_Permutation in Hr. apply list_elem_of_filter in Hr as [_ Hr].
  apply list_elem_of_fmap in Hr as ([id r'] & -> & Hr%elem_of_map_to_list). by destruct (Hwf id r' Hr).
Qed.
End listing.


