(* ===== verification/GatewayWitness.v ===== *)
(** * The gateway at work

    Concrete stores and environment, a run (an ELF put over HTTP, its program
    registered, a proof requested, completed and polled) at which the theorems of
    GatewayProps.v apply, and three runs that show what they leave open. *)
From Stdlib Require Import Ascii String.
From stdpp Require Import base gmap strings list.
From S2P Require Import Prelude ApiStore SyncProps ProgramStore ProgramStoreProps GatewayIds GatewayFacts Gateway GatewayInv GatewayProps.
Local Open Scope string_scope.
Local Open Scope list_scope.
Local Open Scope Z_scope.
Import Gw Reach.

(** ** An environment *)
#[export] Instance demo_gateway : GatewayEnv :=
  {| execution_i32 := fun s => match s with ExUnexecuted => 1 | ExExecuted => 2 | ExFailed => 3 | ExCancelled => 4 end;
     sdk_fulfillment_i32 := fun s => match s with
       | UnspecifiedFulfillmentStatus => 0 | Requested => 1 | Assigned => 2 | Fulfilled => 3 | Unfulfillable => 4
       | Reverted => 5 | Expired => 6 end;
     sdk_execution_i32 := fun s => match s with
       | UnspecifiedExecutionStatus => 0 | Unexecuted => 1 | Executed => 2 | Unexecutable => 3 end;
     proto_artifact_i32 := fun t => match t with
       | PUnspecified => 0 | PProgram => 1 | PStdin => 2 | PProof => 3 | PTransaction => 4 | PState => 5 | PPrivateStdin => 6
       | PExport => 7 end;
     typeid := fun n => if (n =? 0)%nat then "req_01h455vb4pex5vsknk084sn02q" else "req_01h455vb4pex5vsknk084sn02r";
     Address := Z;
     ZERO := 0;
     to_vec := fun a => [a];
     show_address := i32_to_string;
     address_from_str := fun s => match parse_i32 s with Some a => inr a | None => inl "not a number" end;
     Signature := ascii;
     signature_from_raw := fun b => match b with [c] => inr c | _ => inl "wrong length" end;
     recover_address_from_msg := fun c _ => inr (byte_Z c) |}.

#[export] Instance demo_gateway_ok : GatewayEnvOk demo_gateway.
Proof.
  split; [by intros [] []|by intros [] []|by intros [] []|]. intros n. cbn [typeid demo_gateway].
  destruct (n =? 0)%nat; (split; [apply Forall_forall; intros c Hc; apply list_elem_of_In in Hc; cbn in Hc; intuition (subst; vm_compute; done)|cbn; lia]).
Qed.

Definition fn_update (id : string) (t : ArtifactType) (d : option bytes) (s : string -> ArtifactType -> option bytes) :
    string -> ArtifactType -> option bytes :=
  fun id' t' => if decide (id' = id /\ t' = t) then d else s id' t'.

#[export] Instance demo_artifacts : ArtifactStore :=
  {| AS := string -> ArtifactType -> option bytes;
     as_exists := fun _ id t s => inr (bool_decide (is_Some (s id t)));
     as_download_raw := fun _ id t s => match s id t with Some d => inr d | None => inl (Msg "not found") end;
     as_upload_raw := fun _ id t d s => (inr tt, fn_update id t (Some d) s);
     as_upload_raw_compressed := fun _ id t d s => (inr tt, fn_update id t (Some d) s);
     as_try_delete := fun _ id t s => (inr tt, fn_update id t None s);
     as_create_artifact := fun n s => (inr ("artifact_" +:+ i32_to_string (Z.of_nat n)), s) |}.

Lemma fn_update_eq id t d s : fn_update id t d s id t = d.
Proof. unfold fn_update. by rewrite decide_True. Qed.
Lemma fn_update_ne id t d s id' t' : id' <> id -> fn_update id t d s id' t' = s id' t'.
Proof. intros Hne. unfold fn_update. rewrite decide_False; [done|]. by intros []. Qed.

#[export] Instance demo_artifacts_ok : ArtifactStoreOk demo_artifacts.
Proof.
  refine (@Build_ArtifactStoreOk demo_artifacts (fun s => s) _ _ _ _ _ _); cbn.
  - by intros n id t s b [= <-].
  - intros n id t s d. by destruct (s id t); intros [= <-].
  - intros n id t d s r s' [= <- <-]. split; [intros; by apply fn_update_ne|]. rewrite fn_update_eq. auto.
  - intros n id t d s r s' [= <- <-] id' t' Hne. by apply fn_update_ne.
  - intros n id t s r s' [= <- <-]. split; [intros; by apply fn_update_ne|]. rewrite fn_update_eq. auto.
  - by intros n s r s' [= <- <-].
Defined.

(** The first attempt at creating the row commits and times out. *)
#[export] Instance demo_gateway_io : GatewayIo :=
  {| encode_request_body := fun b => as_bytes (rb_stdin_uri b);
     encode_program_body := fun b => as_bytes (pb_program_uri b);
     UnspecifiedProofMode_i32 := 0;
     Reserved_i32 := 2;
     display := fun e => match e with Rpc s => message s | Msg m => m end;
     attempts := fun n => if (n =? 7)%nat then (TimedOut (Some Healthy), [Served Healthy]) else (Served Healthy, []) |}.

Lemma demo_sane n : attempt_sane (attempts n).1 /\ Forall attempt_sane (attempts n).2.
Proof. cbn. destruct (n =? 7)%nat; by repeat constructor. Qed.

#[export] Existing Instance demo_hex.
#[export] Existing Instance InMemoryProgramStore.

(** ** A run *)
Definition signer : ascii := chr 7.
Definition demo_cfg : Config := mkConfig "http://gw.test/" "42" (mkAuth Allowlist {[7]}).
Definition demo_w0 : World := mkWorld (fun _ _ => None) (∅ : gmap bytes (bytes * bytes)) ∅ ∅ 0 0.
Definition demo_elf : bytes := as_bytes "elf".
Definition demo_hash : bytes := as_bytes "hash".

Definition demo_program : CreateProgramRequest :=
  mkCreateProgram [signer] (Some (mkCreateProgramBody 0 demo_hash (as_bytes "vk") "http://gw.test/artifacts/program/artifact_0")).
Definition demo_body : RequestProofRequestBody :=
  mkRequestProofBody 0 demo_hash "v6" 3 2 "http://gw.test/artifacts/stdin/artifact_9" 5000 1000 900 0 [] false.
Definition demo_request : RequestProofRequest := mkRequestProof [signer] (Some demo_body).

Definition demo_w1 : World := (put_artifact "program" "artifact_0" demo_elf demo_w0).2.
Definition demo_w2 : World := (create_program demo_cfg demo_program demo_w1).2.
Definition demo_w3 : World := (request_proof demo_cfg 100 demo_request demo_w2).2.
Definition demo_rid : bytes := as_bytes "req_01h455vb4pex5vsknk084sn02q" ++ replicate 2 "000"%char.

Lemma demo_not_program id h : String.prefix "a" id = true -> id <> program_artifact_id h.
Proof. destruct id as [|c id]; [done|]. intros Hp [= -> _]. done. Qed.

Lemma demo_reach : gsteps demo_cfg (registration demo_cfg demo_program demo_w1) demo_w3.
Proof.
  assert (H1 : gsteps demo_cfg [] demo_w1).
  { apply (GStep _ [] demo_w0); [by apply GInit|]. apply GPutArtifact. intros h. by apply demo_not_program. }
  assert (H2 := GStep _ _ _ _ _ H1 (GCreateProgram demo_cfg demo_program [] demo_w1)).
  rewrite app_nil_r in H2. eapply GStep; [exact H2|]. apply GRequestProof. vm_compute. reflexivity.
Qed.


Definition demo_later : list api_op :=
  [ApiUpdate Healthy (mkUpdateRequest (typeid 0) (Some (status_i32 PrCompleted)) None None None None None)].
Definition demo_w4 : World := mkWorld (w_store demo_w3) (w_programs demo_w3) (api_runs demo_later (w_db demo_w3)) ∅ 9 1.

Lemma demo_accepted : request_proof demo_cfg 100 demo_request demo_w2 = (Ok demo_rid, demo_w3).
Proof.
  assert (Ho : (request_proof demo_cfg 100 demo_request demo_w2).1 = Ok demo_rid) by (vm_compute; reflexivity).
  unfold demo_w3. destruct (request_proof _ _ _ _) as [o w]. cbn [fst snd] in *. by rewrite Ho.
Qed.

Lemma accepted_request_is_tracked_witness :
  length demo_rid = 32%nat /\
  exists status, (get_proof_request_status demo_cfg demo_rid demo_w4).1 = Ok status /\
    sr_fulfillment_status status = 3 /\ is_Some (sr_proof_uri status) /\
    exists details, (get_proof_request_details demo_cfg demo_rid demo_w4).1 = Ok details /\
      s_mode details = 3 /\ s_requester details = [7].
Proof.
  assert (Hwf : db_wf (w_db demo_w2)) by (intros id r Hr; vm_compute in Hr; discriminate).
  destruct (accepted_request_is_tracked demo_cfg demo_sane 100 demo_request demo_body demo_w2 demo_rid demo_w3 demo_later demo_w4
    demo_accepted ltac:(reflexivity) ltac:(vm_compute; split; discriminate || reflexivity)
    ltac:(vm_compute; split; discriminate || reflexivity) ltac:(vm_compute; split; discriminate || reflexivity) Hwf
    ltac:(vm_compute; reflexivity) ltac:(reflexivity) ltac:(reflexivity))
    as (Hlen & r & requester & proof & status & details & Hr & Hauth & Hs & Hf & Hu & Hd & _ & Hreq & Hm & _).
  split; [exact Hlen|]. exists status. split; [exact Hs|].
  assert (Hst : r_proof_status r = 2) by (vm_compute in Hr; injection Hr as <-; reflexivity).
  rewrite Hst in Hf, Hu. split; [exact Hf|]. split; [rewrite Hu; exact (ex_intro _ _ eq_refl)|].
  exists details. split; [exact Hd|]. split; [exact Hm|]. vm_compute in Hauth. injection Hauth as <-. exact Hreq.
Defined.


(** ** What the theorems leave open *)

(** A row without an execution result is reported [Unexecuted], but a listing
    filtered by [Unexecuted] leaves it out: the column is [NULL]. *)
Lemma unexecuted_filter_misses_rows :
  (s_execution_status <$> match (get_filtered_proof_requests demo_cfg (mkFilteredRequest None None None None None) demo_w3).1 with
    | Ok l => l | _ => [] end) = [sdk_execution_i32 Unexecuted] /\
  (get_filtered_proof_requests demo_cfg
    (mkFilteredRequest None (Some (sdk_execution_i32 Unexecuted)) None None None) demo_w3).1 = Ok [].
Proof. by vm_compute. Qed.

(** The request ids a listing hands out are not padded to the 32 bytes that
    [mint_request_id] gives the same request. *)
Lemma listed_ids_are_not_padded :
  (length ∘ s_request_id <$> match (get_filtered_proof_requests demo_cfg (mkFilteredRequest None None None None None) demo_w3).1 with
    | Ok l => l | _ => [] end) = [30%nat] /\ length demo_rid = REQUEST_ID_LEN.
Proof. by vm_compute. Qed.

(** The HTTP proxy takes no signature: in allowlist mode, bytes put under a
    program's id are what the next proof of that program runs. *)
Definition evil : bytes := as_bytes "evil".
Definition demo_poisoned : World := (put_artifact "program" (program_artifact_id demo_hash) evil demo_w2).2.
Lemma put_replaces_a_program :
  let (o, w) := request_proof demo_cfg 100 demo_request demo_poisoned in
  is_ok o = true /\ as_view (w_store w) (program_artifact_id demo_hash) Program = Some evil /\
  ps_get 0 demo_hash (w_programs w) = inr (Some (as_bytes "vk", demo_elf)).
Proof. by vm_compute. Qed.
