(* ===== verification/Node.v ===== *)
(** * The worker node

    The main loop of [bin/node/src/lib.rs] and the liveness thread of
    [bin/node/src/heartbeat.rs]. The node runs several tokio tasks over shared state: the
    main loop, the work of each delivered task, a reporter per task, the batches that
    report wedged tasks, and the heartbeat thread. Each advances on its own: a step ends
    where its task awaits, and where a shared structure is read or written between two
    awaits on another thread. The RPCs a node sends are those of Server.v, kept in a log
    together with the messages it took from its stream. *)
From stdpp Require Import base gmap strings list.
From S2P Require Import Prelude Proto TaskChannel CoordState Coordinator AssignSpec Capacity CoordInv CoordSteps Reach Server.
Local Open Scope string_scope.
Local Open Scope list_scope.
Local Open Scope Z_scope.

Module Nd.

Abbreviation key := (string * string)%type.

(** Durations and instants are in milliseconds. *)
Definition secs (n : Z) : Z := n * 1000.

(** The prover's [TaskMetadata] and [serde_json::to_string] on it; the reporter unwraps
    the result. *)
Class TaskMetadataJson := {
  Metadata : Type;
  metadata_to_string : Metadata -> option string;
}.

(** [NodeConfig]. *)
Record NodeConfig := mkNodeConfig {
  worker_id : string;
  worker_type : WorkerType;
  coordinator_rpc : string;
  cluster_access_token : option string;
  cluster : string;
  task_timeout : Z;
  drain_timeout : Z;
  location : option string;
}.

Definition DEFAULT_TASK_TIMEOUT : Z := secs (6 * 60 * 60).
Definition DEFAULT_DRAIN_TIMEOUT : Z := secs (30 * 60).

Definition HEARTBEAT_INTERVAL : Z := secs 5.
Definition BEATS_STALE_AFTER : Z := secs 10.
Definition ABORT_GRACE : Z := secs 10.
Definition MAX_CHANNEL_SILENCE : Z := secs 45.
Definition STALLED_TICK_GAP : Z := secs 15.

(** ** The beats of the dedicated thread *)

(** [BeatClock]: when the last beat landed, cleared by one that did not. *)
Definition BeatClock := option Z.
Definition clock_new : BeatClock := None.
Definition clock_record (now : Z) (landed : bool) : BeatClock := if landed then Some now else None.
Definition is_stale (now : Z) (c : BeatClock) : bool :=
  match c with None => true | Some last_ok => BEATS_STALE_AFTER <? now - last_ok end.

(** [heartbeat_loop] on its thread: connecting, waiting for its ticker, in
    [heartbeat_once], or ended. *)
Inductive beat_thread := Connecting | Idle | Beating | Gone.

Section node.
Context {TM : TaskMetadataJson} {HI : HashIter}.

(** ** Tasks and what is owed for them *)

(** [JoinError]: [is_cancelled()], or a panic. *)
Inductive JoinError := Aborted | Panicked.
Definition work_result : Type := JoinError + TaskStatus * option Metadata.

Inductive Report :=
  | Complete (metadata : Metadata)
  | Fail (retryable : bool)
  | Nothing.

Definition report_for (result : work_result) (timed_out : bool) : Report :=
  match result with
  | inr (Succeeded, Some metadata) => Complete metadata
  | inr (Succeeded, None) => Fail false
  | inr (status, _) => Fail (bool_decide (status = FailedRetryable))
  | inl Aborted => if timed_out then Fail true else Nothing
  | inl Panicked => Fail false
  end.

(** A reporter: awaiting the work, in its RPC, past it, past [drop_if_current], finished,
    or dead of a panic. *)
Inductive reporter_state := Waiting | InRpc | Dropping | Leaving | Finished | Crashed.
#[global] Instance reporter_state_eq_dec : EqDecision reporter_state.
Proof. solve_decision. Defined.

(** A spawned work future with its reporter: whether it was told to abort, the shared
    [aborted_at] cell, how it ended, and the flag its reporter read then. *)
Record Job := mkJob {
  j_key : key;
  j_abort : bool;
  j_aborted_at : option Z;
  j_result : option work_result;
  j_timed_out : bool;
  j_reporter : reporter_state;
}.

(** [ActiveTask]; [work] stands for the abort handle, the reporter and the cell, which
    are those of one job. *)
Record ActiveTask := mkActive {
  a_data : TaskData;
  a_started_at : Z;
  a_work : nat;
}.

(** [reporter.is_finished()]. *)
Definition is_finished (r : reporter_state) : bool :=
  match r with Finished | Crashed => true | _ => false end.

(** A batch of [spawn_wedged_report]: before the shared close, in it, in the
    [fail_task] of the first of its keys, or done. *)
Inductive batch := BStart (wedged : list key) | BClosing (wedged : list key) | BFailing (wedged : list key) | BDone.

(** ** State *)

Inductive exit := Drained | DrainTimeout | ExitOne.

(** Where the main loop is: opening its first stream, in the [select!], between the spawn
    of a reporter and the insert, in the fallback beat, in a reconnect of the receive arm
    or of the watchdog, in the pause after a failed one, in a [fail_task] of the sweep
    (with the keys it still has to treat), in [close], or out. *)
Inductive point :=
  | Boot
  | BootPause
  | Select
  | Spawned (k : key) (data : TaskData) (work : nat)
  | FallbackBeat
  | Reopening (in_watchdog : bool)
  | Pause
  | Sweeping (panicked timed_out wedged : list key)
  | Closing
  | Exited (e : exit).

Inductive sender := Main | Beats | Reporter (work : nat) | Batch (i : nat).
Inductive action := Got (m : ServerMessage) | Sent (from : sender) (r : Serve.rpc).

(** The main loop's own variables. *)
Record Locals := mkLocals {
  l_last_heartbeat : Z;
  l_last_progress : Z;
  l_last_tick : Z;
  l_closed : bool;
  l_drain_started_at : option Z;
  l_last_drain_log_count : option Z;
}.

(** The whole node; [n_queue] and [n_open] are the receiver of the current stream. *)
Record node := mkNode {
  n_now : Z;
  n_point : point;
  n_locals : Locals;
  n_tasks : gmap key ActiveTask;
  n_jobs : list Job;
  n_batches : list batch;
  n_in_flight : Z;
  n_close_acked : bool;
  n_queue : list ServerMessage;
  n_open : bool;
  n_token : bool;
  n_clock : BeatClock;
  n_thread : beat_thread;
  n_log : list action;
}.

Definition set_now (x : Z) (n : node) : node :=
  mkNode x (n_point n) (n_locals n) (n_tasks n) (n_jobs n) (n_batches n) (n_in_flight n) (n_close_acked n) (n_queue n) (n_open n) (n_token n) (n_clock n) (n_thread n) (n_log n).
Definition set_point (x : point) (n : node) : node :=
  mkNode (n_now n) x (n_locals n) (n_tasks n) (n_jobs n) (n_batches n) (n_in_flight n) (n_close_acked n) (n_queue n) (n_open n) (n_token n) (n_clock n) (n_thread n) (n_log n).
Definition set_locals (x : Locals) (n : node) : node :=
  mkNode (n_now n) (n_point n) x (n_tasks n) (n_jobs n) (n_batches n) (n_in_flight n) (n_close_acked n) (n_queue n) (n_open n) (n_token n) (n_clock n) (n_thread n) (n_log n).
Definition set_tasks (x : gmap key ActiveTask) (n : node) : node :=
  mkNode (n_now n) (n_point n) (n_locals n) x (n_jobs n) (n_batches n) (n_in_flight n) (n_close_acked n) (n_queue n) (n_open n) (n_token n) (n_clock n) (n_thread n) (n_log n).
Definition set_jobs (x : list Job) (n : node) : node :=
  mkNode (n_now n) (n_point n) (n_locals n) (n_tasks n) x (n_batches n) (n_in_flight n) (n_close_acked n) (n_queue n) (n_open n) (n_token n) (n_clock n) (n_thread n) (n_log n).
Definition set_batches (x : list batch) (n : node) : node :=
  mkNode (n_now n) (n_point n) (n_locals n) (n_tasks n) (n_jobs n) x (n_in_flight n) (n_close_acked n) (n_queue n) (n_open n) (n_token n) (n_clock n) (n_thread n) (n_log n).
Definition set_in_flight (x : Z) (n : node) : node :=
  mkNode (n_now n) (n_point n) (n_locals n) (n_tasks n) (n_jobs n) (n_batches n) x (n_close_acked n) (n_queue n) (n_open n) (n_token n) (n_clock n) (n_thread n) (n_log n).
Definition set_close_acked (x : bool) (n : node) : node :=
  mkNode (n_now n) (n_point n) (n_locals n) (n_tasks n) (n_jobs n) (n_batches n) (n_in_flight n) x (n_queue n) (n_open n) (n_token n) (n_clock n) (n_thread n) (n_log n).
Definition set_queue (x : list ServerMessage) (n : node) : node :=
  mkNode (n_now n) (n_point n) (n_locals n) (n_tasks n) (n_jobs n) (n_batches n) (n_in_flight n) (n_close_acked n) x (n_open n) (n_token n) (n_clock n) (n_thread n) (n_log n).
Definition set_open (x : bool) (n : node) : node :=
  mkNode (n_now n) (n_point n) (n_locals n) (n_tasks n) (n_jobs n) (n_batches n) (n_in_flight n) (n_close_acked n) (n_queue n) x (n_token n) (n_clock n) (n_thread n) (n_log n).
Definition set_token (x : bool) (n : node) : node :=
  mkNode (n_now n) (n_point n) (n_locals n) (n_tasks n) (n_jobs n) (n_batches n) (n_in_flight n) (n_close_acked n) (n_queue n) (n_open n) x (n_clock n) (n_thread n) (n_log n).
Definition set_clock (x : BeatClock) (n : node) : node :=
  mkNode (n_now n) (n_point n) (n_locals n) (n_tasks n) (n_jobs n) (n_batches n) (n_in_flight n) (n_close_acked n) (n_queue n) (n_open n) (n_token n) x (n_thread n) (n_log n).
Definition set_thread (x : beat_thread) (n : node) : node :=
  mkNode (n_now n) (n_point n) (n_locals n) (n_tasks n) (n_jobs n) (n_batches n) (n_in_flight n) (n_close_acked n) (n_queue n) (n_open n) (n_token n) (n_clock n) x (n_log n).
Definition set_log (x : list action) (n : node) : node :=
  mkNode (n_now n) (n_point n) (n_locals n) (n_tasks n) (n_jobs n) (n_batches n) (n_in_flight n) (n_close_acked n) (n_queue n) (n_open n) (n_token n) (n_clock n) (n_thread n) x.
Definition set_last_heartbeat (x : Z) (n : node) : node :=
  set_locals (mkLocals x (l_last_progress (n_locals n)) (l_last_tick (n_locals n)) (l_closed (n_locals n)) (l_drain_started_at (n_locals n)) (l_last_drain_log_count (n_locals n))) n.
Definition set_last_progress (x : Z) (n : node) : node :=
  set_locals (mkLocals (l_last_heartbeat (n_locals n)) x (l_last_tick (n_locals n)) (l_closed (n_locals n)) (l_drain_started_at (n_locals n)) (l_last_drain_log_count (n_locals n))) n.
Definition set_last_tick (x : Z) (n : node) : node :=
  set_locals (mkLocals (l_last_heartbeat (n_locals n)) (l_last_progress (n_locals n)) x (l_closed (n_locals n)) (l_drain_started_at (n_locals n)) (l_last_drain_log_count (n_locals n))) n.
Definition set_closed (x : bool) (n : node) : node :=
  set_locals (mkLocals (l_last_heartbeat (n_locals n)) (l_last_progress (n_locals n)) (l_last_tick (n_locals n)) x (l_drain_started_at (n_locals n)) (l_last_drain_log_count (n_locals n))) n.
Definition set_drain_started_at (x : option Z) (n : node) : node :=
  set_locals (mkLocals (l_last_heartbeat (n_locals n)) (l_last_progress (n_locals n)) (l_last_tick (n_locals n)) (l_closed (n_locals n)) x (l_last_drain_log_count (n_locals n))) n.
Definition set_last_drain_log_count (x : option Z) (n : node) : node :=
  set_locals (mkLocals (l_last_heartbeat (n_locals n)) (l_last_progress (n_locals n)) (l_last_tick (n_locals n)) (l_closed (n_locals n)) (l_drain_started_at (n_locals n)) x) n.

Definition say (a : action) (n : node) : node := set_log (n_log n ++ [a]) n.
Definition call (from : sender) (r : Serve.rpc) (n : node) : node := say (Sent from r) n.
Definition update_job (w : nat) (f : Job -> Job) (n : node) : node := set_jobs (alter f w (n_jobs n)) n.
Definition set_reporter (r : reporter_state) (j : Job) : Job :=
  mkJob (j_key j) (j_abort j) (j_aborted_at j) (j_result j) (j_timed_out j) r.
Definition set_result (r : work_result) (j : Job) : Job :=
  mkJob (j_key j) (j_abort j) (j_aborted_at j) (Some r) (j_timed_out j) (j_reporter j).

(** [work.abort()], and [aborted_at.set(now)], which only the first call writes. *)
Definition abort (j : Job) : Job :=
  mkJob (j_key j) true (j_aborted_at j) (j_result j) (j_timed_out j) (j_reporter j).
Definition stamp (now : Z) (j : Job) : Job :=
  mkJob (j_key j) (j_abort j) (Some (default now (j_aborted_at j))) (j_result j) (j_timed_out j) (j_reporter j).

(** The state [run_worker_inner] sets up, with the first [open] under way. *)
Definition boot (now : Z) : node :=
  mkNode now Boot (mkLocals now now now false None None) ∅ [] [] 0 false [] false false clock_new Connecting [].

Context (cfg : NodeConfig) (init : Serve.OpenRequest).

(** ** Reporters *)

(** [drop_if_current]. *)
Definition drop_if_current (k : key) (w : nat) (tasks : gmap key ActiveTask) : gmap key ActiveTask :=
  match tasks !! k with
  | Some active => if decide (a_work active = w) then delete k tasks else tasks
  | None => tasks
  end.

Definition complete_request (k : key) (metadata : string) : Serve.rpc :=
  Serve.CompleteTask (worker_id cfg) k.1 k.2 metadata.
Definition fail_request (k : key) (retryable : bool) : Serve.rpc :=
  Serve.FailTask (worker_id cfg) k.1 k.2 retryable.

(** The guard of a reporter or batch that ends. *)
Definition untrack (n : node) : node := set_in_flight (n_in_flight n - 1) n.

(** The work has ended: read the flag, decide, and start the RPC. *)
Definition reporter_decide (w : nat) (j : Job) (n : node) : option node :=
  match j_result j, j_reporter j with
  | Some result, Waiting =>
      let timed_out := bool_decide (is_Some (j_aborted_at j)) in
      let to r j := mkJob (j_key j) (j_abort j) (j_aborted_at j) (j_result j) timed_out r in
      Some (match report_for result timed_out with
            | Complete metadata =>
                match metadata_to_string metadata with
                | Some s => call (Reporter w) (complete_request (j_key j) s) (update_job w (to InRpc) n)
                | None => untrack (update_job w (to Crashed) n)
                end
            | Fail retryable => call (Reporter w) (fail_request (j_key j) retryable) (update_job w (to InRpc) n)
            | Nothing => untrack (update_job w (to Finished) n)
            end)
  | _, _ => None
  end.

(** The RPC is over, well or not; then the entry goes; then the guard runs. *)
Definition reporter_advance (w : nat) (j : Job) (n : node) : option node :=
  match j_reporter j with
  | InRpc => Some (update_job w (set_reporter Dropping) n)
  | Dropping => Some (update_job w (set_reporter Leaving) (set_tasks (drop_if_current (j_key j) w (n_tasks n)) n))
  | Leaving => Some (untrack (update_job w (set_reporter Finished) n))
  | _ => None
  end.

(** ** Batches of wedged tasks *)

(** The next [fail_task] of batch [i], or its end. *)
Definition batch_next (i : nat) (keys : list key) (n : node) : node :=
  match keys with
  | [] => untrack (set_batches (<[i := BDone]> (n_batches n)) n)
  | k :: _ => call (Batch i) (fail_request k true) (set_batches (<[i := BFailing keys]> (n_batches n)) n)
  end.

Definition is_closing (b : batch) : bool := match b with BClosing _ => true | _ => false end.

(** [close_acked.get_or_try_init]: the value if there is one; otherwise one caller at a
    time runs [close]. *)
Definition batch_init (i : nat) (n : node) : option node :=
  match n_batches n !! i with
  | Some (BStart keys) =>
      if n_close_acked n then Some (batch_next i keys n)
      else if existsb is_closing (n_batches n) then None
      else Some (call (Batch i) (Serve.Close (worker_id cfg)) (set_batches (<[i := BClosing keys]> (n_batches n)) n))
  | _ => None
  end.

(** The reply to the RPC the batch is in. *)
Definition batch_reply (i : nat) (ok : bool) (n : node) : option node :=
  match n_batches n !! i with
  | Some (BClosing keys) => Some (batch_next i keys (if ok then set_close_acked true n else n))
  | Some (BFailing (_ :: keys)) => Some (batch_next i keys n)
  | _ => None
  end.

Definition spawn_wedged_report (wedged : list key) (n : node) : node :=
  set_batches (n_batches n ++ [BStart wedged]) (set_in_flight (n_in_flight n + 1) n).

(** ** Beats *)

(** [build_heartbeat_request], with the weights added as [u32]. *)
Definition build_heartbeat_request (tasks : gmap key ActiveTask) : Serve.rpc :=
  let keys := iter_keys (dom tasks) in
  let weights := foldl (fun acc k => match tasks !! k with
                                     | Some a => Int.wadd u32 acc (weight (a_data a))
                                     | None => acc
                                     end) 0 keys in
  Serve.Heartbeat (worker_id cfg) keys.*1 keys.*2 weights.

Definition beat (from : sender) (n : node) : node := call from (build_heartbeat_request (n_tasks n)) n.

(** The handle is dropped when [run_worker_inner] ends. *)
Definition stopped (n : node) : bool := match n_point n with Exited _ => true | _ => false end.

(** The thread's steps: connected, tick, reply. A thread that ends for another reason
    than [stop] cancels the worker's token. *)
Definition thread_connected (n : node) : option node :=
  match n_thread n with Connecting => Some (set_thread Idle n) | _ => None end.
Definition thread_tick (n : node) : option node :=
  match n_thread n with
  | Idle => if stopped n then None else Some (set_thread Beating (beat Beats n))
  | _ => None
  end.
Definition thread_reply (landed : bool) (n : node) : option node :=
  match n_thread n with
  | Beating => Some (set_thread Idle (set_clock (clock_record (n_now n) landed) n))
  | _ => None
  end.
Definition thread_exit (n : node) : option node :=
  match n_thread n with
  | Gone => None
  | _ => Some (set_thread Gone (if negb (stopped n) && negb (n_token n) then set_token true n else n))
  end.

(** ** The main loop *)

(** [worker_client.open()]: one attempt. *)
Definition start_open (p : point) (n : node) : node := set_point p (call Main (Serve.Open init) n).

(** The reply to [open]: a new receiver, or the pause before the next attempt. *)
Definition install (n : node) : node := set_open true (set_queue [] n).

Definition exit_loop (e : exit) (n : node) : node := set_point (Exited e) n.

(** *** The receive arm *)
Definition on_new_task (task_id : string) (data : TaskData) (n : node) : node :=
  let k := (proof_id data, task_id) in
  if l_closed (n_locals n) then n
  else if bool_decide (is_Some (n_tasks n !! k)) then n
  else
    let w := length (n_jobs n) in
    set_point (Spawned k data w)
      (set_in_flight (n_in_flight n + 1) (set_jobs (n_jobs n ++ [mkJob k false None None false Waiting]) n)).

Definition insert_task (k : key) (data : TaskData) (w : nat) (n : node) : node :=
  set_point Select (set_tasks (<[k := mkActive data (n_now n) w]> (n_tasks n)) n).

Definition on_cancel_task (k : key) (n : node) : node :=
  match n_tasks n !! k with
  | Some active => set_tasks (delete k (n_tasks n)) (update_job (a_work active) abort n)
  | None => n
  end.

Definition on_server_heartbeat (n : node) : node :=
  let n := set_last_heartbeat (n_now n) n in
  if is_stale (n_now n) (n_clock n) then set_point FallbackBeat (beat Main n) else n.

Definition on_message (m : ServerMessage) (n : node) : node :=
  let n := set_last_progress (n_now n) (say (Got m) n) in
  match m with
  | NewTask task_id data _ => on_new_task task_id data n
  | CancelTask proof_id task_id => on_cancel_task (proof_id, task_id) n
  | ServerHeartbeat => on_server_heartbeat n
  end.

(** The first arm of the biased [select!]; it is ready when a message is there, or the
    stream has ended. *)
Definition recv (n : node) : option node :=
  match n_queue n with
  | m :: q => Some (on_message m (set_queue q n))
  | [] => if n_open n then None else Some (start_open (Reopening false) n)
  end.

(** *** The watchdog arm *)
Inductive TimeoutAction := Leave | Abort | ReportIt.

Definition timeout_action (now : Z) (active : ActiveTask) (j : Job) (timeout grace : Z) : TimeoutAction :=
  if bool_decide (is_Some (j_result j)) || (now - a_started_at active <=? timeout) then Leave
  else match j_aborted_at j with
       | Some aborted_at => if grace <? now - aborted_at then ReportIt else Abort
       | None => Abort
       end.

(** The scan of the map: which keys are treated, and how. *)
Inductive verdict := VPanicked | VTimedOut | VWedged | VLeave.

Definition verdict_of (n : node) (k : key) : verdict :=
  match n_tasks n !! k with
  | Some active =>
      match n_jobs n !! a_work active with
      | Some j =>
          if is_finished (j_reporter j) then VPanicked
          else match timeout_action (n_now n) active j (task_timeout cfg) ABORT_GRACE with
               | Leave => VLeave
               | Abort => VTimedOut
               | ReportIt => VWedged
               end
      | None => VLeave
      end
  | None => VLeave
  end.

#[global] Instance verdict_eq_dec : EqDecision verdict.
Proof. solve_decision. Defined.

Definition scan (v : verdict) (n : node) : list key :=
  iter_keys (list_to_set (filter (fun k => verdict_of n k = v) (elements (dom (n_tasks n))))).

Definition sweep_timed_out (k : key) (n : node) : node :=
  match n_tasks n !! k with
  | Some active => update_job (a_work active) (fun j => abort (stamp (n_now n) j)) n
  | None => n
  end.

(** Removes one wedged task; the keys removed so far are collected. *)
Definition sweep_wedged (acc : list key * node) (k : key) : list key * node :=
  match n_tasks acc.2 !! k with
  | Some active => (acc.1 ++ [k], set_tasks (delete k (n_tasks acc.2)) (update_job (a_work active) abort acc.2))
  | None => acc
  end.

Definition report_wedged (wedged_reports : list key) (n : node) : node :=
  match wedged_reports with
  | [] => n
  | _ =>
      let started := default (n_now n) (l_drain_started_at (n_locals n)) in
      spawn_wedged_report wedged_reports (set_drain_started_at (Some started) (set_closed true n))
  end.

Definition sweep_rest (timed_out wedged : list key) (n : node) : node :=
  let n := foldl (fun n k => sweep_timed_out k n) n timed_out in
  let (reports, n) := foldl sweep_wedged ([], n) wedged in
  set_point Select (report_wedged reports n).

(** The panicked tasks one by one, up to the first whose failure is reported. *)
Fixpoint sweep_panicked (panicked timed_out wedged : list key) (n : node) : node :=
  match panicked with
  | [] => sweep_rest timed_out wedged n
  | k :: panicked =>
      match n_tasks n !! k with
      | None => sweep_panicked panicked timed_out wedged n
      | Some active =>
          let n := set_tasks (delete k (n_tasks n)) n in
          match n_jobs n !! a_work active with
          | Some (mkJob _ _ _ _ _ Crashed) =>
              set_point (Sweeping panicked timed_out wedged) (call Main (fail_request k false) n)
          | _ => sweep_panicked panicked timed_out wedged n
          end
      end
  end.

Definition sweep (n : node) : node := sweep_panicked (scan VPanicked n) (scan VTimedOut n) (scan VWedged n) n.

Definition is_drained (n : node) : bool := bool_decide (n_tasks n = ∅) && (n_in_flight n =? 0).

(** The part of the tick after the drain has been looked at. *)
Definition watch_channel (woke_from_stall : bool) (n : node) : node :=
  if negb (l_closed (n_locals n)) && negb woke_from_stall
     && (MAX_CHANNEL_SILENCE <? n_now n - l_last_progress (n_locals n))
  then exit_loop ExitOne n
  else if secs 10 <? n_now n - l_last_heartbeat (n_locals n) then start_open (Reopening true) n
  else sweep n.

Definition watchdog (n : node) : node :=
  let woke_from_stall := STALLED_TICK_GAP <? n_now n - l_last_tick (n_locals n) in
  let n := set_last_tick (n_now n) n in
  if l_closed (n_locals n) && is_drained n then exit_loop Drained n
  else match l_drain_started_at (n_locals n) with
       | Some started =>
           if drain_timeout cfg <? n_now n - started then exit_loop DrainTimeout n
           else
             let n := if bool_decide (l_last_drain_log_count (n_locals n) = Some (n_in_flight n)) then n
                      else set_last_drain_log_count (Some (n_in_flight n)) n in
             watch_channel woke_from_stall n
       | None => watch_channel woke_from_stall n
       end.

(** *** The cancellation arm *)
Definition on_cancelled (n : node) : node :=
  set_point Closing (call Main (Serve.Close (worker_id cfg))
    (set_drain_started_at (Some (n_now n)) (set_closed true n))).

(** The reply to [close]; [close_acked.set] does nothing while a batch is initialising. *)
Definition on_closed (ok : bool) (n : node) : node :=
  let n := if ok && negb (existsb is_closing (n_batches n)) then set_close_acked true n else n in
  if is_drained n then exit_loop Drained n else set_point Select n.

(** ** Steps

    The environment's choices are part of the event. The watchdog's ticker and the token
    may fire at any poll that finds nothing to receive, which allows more than tokio's
    interval does. *)
Inductive event :=
  | Advance (d : Z)
  | Deliver (m : ServerMessage)
  | StreamEnds
  | Recv
  | Insert
  | Tick
  | TokenFires
  | TakeToken
  | Reply (ok : bool)
  | WorkEnds (w : nat) (r : work_result)
  | ReporterDecides (w : nat)
  | ReporterMoves (w : nat)
  | BatchInit (i : nat)
  | BatchReply (i : nat) (ok : bool)
  | ThreadConnected
  | ThreadTick
  | ThreadReply (landed : bool)
  | ThreadExit.

(** What the main loop awaits outside the [select!] has come back. *)
Definition main_reply (ok : bool) (n : node) : option node :=
  match n_point n with
  | Boot =>
      if ok
      then let now := n_now n in
           Some (set_point Select (install (set_locals (mkLocals now now now false None None) n)))
      else Some (set_point BootPause n)
  | BootPause => Some (start_open Boot n)
  | FallbackBeat => Some (set_point Select n)
  | Reopening in_watchdog =>
      if ok then
        let n := install (set_last_heartbeat (n_now n) n) in
        Some (if in_watchdog then sweep n else set_point Select n)
      else Some (set_point Pause (set_last_progress (n_now n) n))
  | Pause => Some (set_point Select n)
  | Sweeping panicked timed_out wedged => Some (sweep_panicked panicked timed_out wedged n)
  | Closing => Some (on_closed ok n)
  | Select | Spawned _ _ _ | Exited _ => None
  end.

(** The poll finds nothing to receive. *)
Definition quiet (n : node) : bool := bool_decide (n_queue n = []) && n_open n.

Definition work_ends (w : nat) (r : work_result) (n : node) : option node :=
  match n_jobs n !! w with
  | Some j =>
      match j_result j, r with
      | Some _, _ => None
      | None, inl Aborted => if j_abort j then Some (update_job w (set_result r) n) else None
      | None, _ => Some (update_job w (set_result r) n)
      end
  | None => None
  end.

Definition at_select (n : node) : bool := match n_point n with Select => true | _ => false end.

Definition step (n : node) (e : event) : option node :=
  match e with
  | Advance d => if 0 <=? d then Some (set_now (n_now n + d) n) else None
  | Deliver m => if n_open n then Some (set_queue (n_queue n ++ [m]) n) else None
  | StreamEnds => Some (set_open false n)
  | Recv => if at_select n then recv n else None
  | Insert => match n_point n with Spawned k data w => Some (insert_task k data w n) | _ => None end
  | Tick => if at_select n && quiet n then Some (watchdog n) else None
  | TokenFires => Some (set_token true n)
  | TakeToken =>
      if at_select n && quiet n && n_token n && negb (l_closed (n_locals n)) then Some (on_cancelled n) else None
  | Reply ok => main_reply ok n
  | WorkEnds w r => work_ends w r n
  | ReporterDecides w => j ← n_jobs n !! w; reporter_decide w j n
  | ReporterMoves w => j ← n_jobs n !! w; reporter_advance w j n
  | BatchInit i => batch_init i n
  | BatchReply i ok => batch_reply i ok n
  | ThreadConnected => thread_connected n
  | ThreadTick => thread_tick n
  | ThreadReply landed => thread_reply landed n
  | ThreadExit => thread_exit n
  end.

(** Runs: an event that is not enabled changes nothing. *)
Definition exec (n : node) (es : list event) : node := foldl (fun n e => default n (step n e)) n es.

Inductive node_reachable : node -> Prop :=
  | node_boot now : node_reachable (start_open Boot (boot now))
  | node_step n e n' : node_reachable n -> step n e = Some n' -> node_reachable n'.

End node.
End Nd.
