(* ===== verification/NodeInv.v ===== *)
(** * The invariant of the worker node

    What the main loop, the reporters and the batches of Node.v keep true between them:
    the counter of reporters is exact, every task's outcome has someone who answers for
    it, and a reporter sends what [report_for] says, once. *)
From stdpp Require Import base gmap strings list.
From S2P Require Import Prelude Proto TaskChannel CoordState Coordinator AssignSpec Capacity CoordInv CoordSteps Reach Server Node.
Local Open Scope string_scope.
Local Open Scope list_scope.
Local Open Scope Z_scope.
Import Nd.

(** ** Sums over updated lists *)
Lemma list_Zsum_alter {A} (f : A -> Z) (g : A -> A) l w x :
  l !! w = Some x -> list_Zsum f (alter g w l) = list_Zsum f l - f x + f (g x).
Proof.
  revert w. induction l as [|y l IH]; intros [|w] Hw; simplify_eq/=; [lia|].
  change (alter g (S w) (y :: l)) with (y :: alter g w l). cbn [list_Zsum foldr].
  fold (list_Zsum f (alter g w l)) (list_Zsum f l). rewrite (IH _ Hw). lia.
Qed.

Lemma list_Zsum_lookup_le {A} (f : A -> Z) l w x :
  (forall y, 0 <= f y) -> l !! w = Some x -> f x <= list_Zsum f l.
Proof.
  intros Hf. revert w. induction l as [|y l IH]; intros [|w] Hw; simplify_eq/=.
  - assert (0 <= list_Zsum f l) by (apply list_Zsum_nonneg; auto). unfold list_Zsum in *. lia.
  - pose proof (IH _ Hw). pose proof (Hf y). unfold list_Zsum in *. lia.
Qed.

#[local] Arguments list_Zsum : simpl never.

Section inv.
Context {TM : TaskMetadataJson} {HI : HashIter}.
Context (cfg : NodeConfig) (init : Serve.OpenRequest).

(** ** Components of the invariant *)
Definition alive (j : Job) : Z := if is_finished (j_reporter j) then 0 else 1.
Definition active_batch (b : batch) : Z := match b with BDone => 0 | _ => 1 end.
Definition remaining (b : batch) : list key :=
  match b with BStart l | BClosing l => l | BFailing l => tail l | BDone => [] end.

(** The reporter has not yet dropped its entry. *)
Definition pending (r : reporter_state) : bool := match r with Leaving | Finished => false | _ => true end.

(** The RPCs of one reporter, and what a report makes it send. *)
Definition by_reporter (w : nat) (a : action) : option Serve.rpc :=
  match a with Sent (Reporter w') r => if decide (w' = w) then Some r else None | _ => None end.
Definition sent_by (w : nat) (log : list action) : list Serve.rpc := omap (by_reporter w) log.
Definition report_rpcs (k : key) (r : Report) : list Serve.rpc :=
  match r with
  | Complete metadata => match metadata_to_string metadata with Some s => [complete_request cfg k s] | None => [] end
  | Fail retryable => [fail_request cfg k retryable]
  | Nothing => []
  end.
Definition state_fits (r : Report) (s : reporter_state) : Prop :=
  match r with
  | Complete metadata =>
      match metadata_to_string metadata with
      | Some _ => s <> Waiting /\ s <> Crashed
      | None => s = Crashed
      end
  | Fail _ => s <> Waiting /\ s <> Crashed
  | Nothing => s = Finished
  end.

Definition cancelled (k : key) (log : list action) : Prop := Got (CancelTask k.1 k.2) ∈ log.

(** A job by itself, against the log. *)
Record job_local (log : list action) (w : nat) (j : Job) : Prop := {
  jl_stamp : is_Some (j_aborted_at j) -> j_abort j = true;
  jl_abort : j_result j = Some (inl Aborted) -> j_abort j = true;
  jl_why : j_abort j = true -> j_aborted_at j = None -> cancelled (j_key j) log;
  jl_waiting : j_reporter j = Waiting -> sent_by w log = [];
  jl_decided : j_reporter j <> Waiting -> exists res,
    j_result j = Some res /\
    sent_by w log = report_rpcs (j_key j) (report_for res (j_timed_out j)) /\
    state_fits (report_for res (j_timed_out j)) (j_reporter j) /\
    (j_timed_out j = true -> is_Some (j_aborted_at j)) /\
    (j_timed_out j = false -> res = inl Aborted -> cancelled (j_key j) log);
}.

(** Someone other than the reporter answers for the key: a batch that has it, or one of
    the keys [owed] to the next batch. *)
Definition wedged (owed : list key) (n : node) (k : key) : Prop :=
  k ∈ owed \/ exists i b, n_batches n !! i = Some b /\
    (k ∈ remaining b \/ Sent (Batch i) (fail_request cfg k true) ∈ n_log n).

(** The job is the current one of its key. *)
Definition holds (n : node) (w : nat) (j : Job) : Prop :=
  (exists a, n_tasks n !! j_key j = Some a /\ a_work a = w) \/ (exists d, n_point n = Spawned (j_key j) d w).

Definition owner (owed : list key) (n : node) (w : nat) (j : Job) : Prop :=
  pending (j_reporter j) = true ->
  holds n w j
  \/ (j_abort j = true /\ (cancelled (j_key j) (n_log n) \/ wedged owed n (j_key j)))
  \/ (j_reporter j = Crashed /\ Sent Main (fail_request cfg (j_key j) false) ∈ n_log n).

(** The lists of a sweep: an entry of the first has a reporter that ended, one of the
    second a stamped cell. *)
Definition swept (ps ws : list key) (n : node) : Prop :=
  forall k a j, n_tasks n !! k = Some a -> n_jobs n !! a_work a = Some j ->
    (k ∈ ps -> is_finished (j_reporter j) = true) /\ (k ∈ ws -> is_Some (j_aborted_at j)).

Definition point_ok (n : node) : Prop :=
  match n_point n with
  | Spawned k _ w => n_tasks n !! k = None /\ l_closed (n_locals n) = false /\
      exists j, n_jobs n !! w = Some j /\ j_key j = k
  | Sweeping ps _ ws => swept ps ws n
  | Boot | BootPause => l_closed (n_locals n) = false
  | Closing => l_closed (n_locals n) = true /\ Sent Main (Serve.Close (worker_id cfg)) ∈ n_log n
  | Exited Drained => l_closed (n_locals n) = true /\ n_tasks n = ∅ /\ n_in_flight n = 0
  | _ => True
  end.

Record node_inv (owed : list key) (n : node) : Prop := {
  i_count : n_in_flight n = list_Zsum alive (n_jobs n) + list_Zsum active_batch (n_batches n);
  i_entry : forall k a, n_tasks n !! k = Some a -> exists j, n_jobs n !! a_work a = Some j /\ j_key j = k;
  i_local : forall w j, n_jobs n !! w = Some j -> job_local (n_log n) w j;
  i_owner : forall w j, n_jobs n !! w = Some j -> owner owed n w j;
  i_fresh : forall w, (length (n_jobs n) <= w)%nat -> sent_by w (n_log n) = [];
  i_point : point_ok n;
  i_batches : n_batches n <> [] -> l_closed (n_locals n) = true;
  i_drain : l_closed (n_locals n) = true <-> is_Some (l_drain_started_at (n_locals n));
}.

(** ** Facts on logs *)
Lemma sent_by_app w l1 l2 : sent_by w (l1 ++ l2) = sent_by w l1 ++ sent_by w l2.
Proof. unfold sent_by. by rewrite omap_app. Qed.

Definition silent (a : action) : Prop := forall w, by_reporter w a = None.

Lemma sent_by_silent w l a : silent a -> sent_by w (l ++ [a]) = sent_by w l.
Proof. intros Ha. rewrite sent_by_app. unfold sent_by at 2. cbn. rewrite Ha. apply app_nil_r. Qed.

Lemma job_local_mono log log' w j :
  job_local log w j -> (forall a, a ∈ log -> a ∈ log') -> sent_by w log' = sent_by w log -> job_local log' w j.
Proof.
  intros [H1 H2 H3 H4 H5] Hin Hs. unfold cancelled in *. constructor; rewrite ?Hs; try done.
  - intros Ha Hn. apply Hin, H3; done.
  - intros Hw. destruct (H5 Hw) as (res & ? & ? & ? & ? & Hc). exists res. split_and!; try done. intros. apply Hin, Hc; done.
Qed.

Lemma wedged_mono owed owed' n n' k :
  wedged owed n k -> (k ∈ owed -> wedged owed' n' k) ->
  n_batches n' = n_batches n -> (forall a, a ∈ n_log n -> a ∈ n_log n') -> wedged owed' n' k.
Proof.
  intros [Ho|(i & b & Hb & H)] Howed Hbs Hlog; [auto|]. right. exists i, b. rewrite Hbs. split; [done|].
  destruct H as [?|?]; [by left|right; auto].
Qed.

(** A step that leaves tasks, jobs, batches and the counter alone, and logs nothing of a
    reporter. *)
Lemma inv_frame owed n n' l :
  node_inv owed n ->
  n_tasks n' = n_tasks n -> n_jobs n' = n_jobs n -> n_batches n' = n_batches n -> n_in_flight n' = n_in_flight n ->
  n_log n' = n_log n ++ l -> Forall silent l ->
  (forall k d w, n_point n = Spawned k d w -> n_point n' = Spawned k d w) ->
  point_ok n' ->
  (l_closed (n_locals n) = true -> l_closed (n_locals n') = true) ->
  (l_closed (n_locals n') = true <-> is_Some (l_drain_started_at (n_locals n'))) ->
  node_inv owed n'.
Proof.
  intros HI' Ht Hj Hb Hf Hl Hsil Hp Hpo Hc Hd. destruct HI' as [H1 H2 H3 H4 H5 H6 H7 H8].
  assert (Hs : forall w, sent_by w (n_log n') = sent_by w (n_log n)).
  { intros w. rewrite Hl. clear -Hsil. induction Hsil as [|a l Ha _ IH] in n |- *; [by rewrite app_nil_r|].
    rewrite cons_middle, app_assoc. rewrite <- (sent_by_silent w (n_log n) a Ha).
    apply (IH (set_log (n_log n ++ [a]) n)). }
  assert (Hin : forall a, a ∈ n_log n -> a ∈ n_log n') by (intros a Ha; rewrite Hl; set_solver).
  constructor; rewrite ?Ht, ?Hj, ?Hb, ?Hf; try done.
  - intros w j Hw. eapply job_local_mono; eauto.
  - intros w j Hw Hpe. destruct (H4 w j Hw Hpe) as [Hh|[[Ha Hr]|[Hcr Hm]]].
    + left. destruct Hh as [?|[d ?]]; [left; by rewrite Ht|right; eauto].
    + right; left. split; [done|]. destruct Hr as [?|?]; [left; by apply Hin|right].
      eapply wedged_mono; eauto. by left.
    + right; right. auto.
  - intros w Hw. rewrite Hs. auto.
  - auto.
Qed.

Lemma holds_ext n n' w j j' :
  holds n w j -> j_key j' = j_key j -> n_tasks n' = n_tasks n -> n_point n' = n_point n -> holds n' w j'.
Proof. intros [?|?] Hk Ht Hp; [left|right]; by rewrite Hk, ?Ht, ?Hp. Qed.

(** The state of the others' owners when one job or the log changes. *)
Lemma owner_ext owed n n' w j :
  owner owed n w j -> n_tasks n' = n_tasks n -> n_point n' = n_point n -> n_batches n' = n_batches n ->
  (forall a, a ∈ n_log n -> a ∈ n_log n') -> owner owed n' w j.
Proof.
  intros Ho Ht Hp Hb Hin Hpe. destruct (Ho Hpe) as [?|[[? Hr]|[? ?]]].
  - left. by eapply holds_ext.
  - right; left. split; [done|]. destruct Hr as [?|?]; [left; by apply Hin|right].
    eapply wedged_mono; eauto. by left.
  - right; right. auto.
Qed.

(** A step on one job, which may end its reporter. *)
Lemma inv_job owed n n' w j f l :
  node_inv owed n -> n_jobs n !! w = Some j -> n_jobs n' = alter f w (n_jobs n) ->
  n_tasks n' = n_tasks n -> n_batches n' = n_batches n -> n_point n' = n_point n -> n_locals n' = n_locals n ->
  n_in_flight n' = n_in_flight n - alive j + alive (f j) -> alive (f j) <= alive j ->
  n_log n' = n_log n ++ l -> (forall w', w' <> w -> sent_by w' l = []) ->
  j_key (f j) = j_key j -> (is_Some (j_aborted_at j) -> is_Some (j_aborted_at (f j))) ->
  job_local (n_log n') w (f j) -> owner owed n' w (f j) -> node_inv owed n'.
Proof.
  intros HI' Hw Hjs Ht Hb Hp Hlo Hf Hal Hl Hsil Hk Hst Hloc Hown. destruct HI' as [H1 H2 H3 H4 H5 H6 H7 H8].
  assert (Hin : forall a, a ∈ n_log n -> a ∈ n_log n') by (intros a Ha; rewrite Hl; set_solver).
  assert (Hs : forall w', w' <> w -> sent_by w' (n_log n') = sent_by w' (n_log n)).
  { intros w' Hne. rewrite Hl, sent_by_app, Hsil by done. apply app_nil_r. }
  assert (Hlk : forall w' j', n_jobs n' !! w' = Some j' ->
    (w' = w /\ j' = f j) \/ (w' <> w /\ n_jobs n !! w' = Some j')).
  { intros w' j'. rewrite Hjs. destruct (decide (w' = w)) as [->|Hne].
    - rewrite list_lookup_alter_eq, Hw. intros [= <-]. by left.
    - rewrite list_lookup_alter_ne by done. by right. }
  assert (Hlk' : forall w' j', n_jobs n !! w' = Some j' -> exists j'', n_jobs n' !! w' = Some j'' /\ j_key j'' = j_key j'
    /\ (is_Some (j_aborted_at j') -> is_Some (j_aborted_at j''))).
  { intros w' j' Hw'. rewrite Hjs. destruct (decide (w' = w)) as [->|Hne].
    - rewrite list_lookup_alter_eq, Hw. simplify_eq. exists (f j). auto.
    - rewrite list_lookup_alter_ne by done. exists j'. auto. }
  constructor; rewrite ?Ht, ?Hb, ?Hf, ?Hlo; try done.
  - rewrite Hjs, (list_Zsum_alter _ _ _ _ _ Hw). lia.
  - intros k a Ha. destruct (H2 k a Ha) as (j0 & Hj0 & Hk0). destruct (Hlk' _ _ Hj0) as (j1 & ? & ? & _).
    exists j1. split; [done|congruence].
  - intros w' j' Hw'. destruct (Hlk _ _ Hw') as [[-> ->]|[Hne Hw0]]; [done|]. eapply job_local_mono; eauto.
  - intros w' j' Hw'. destruct (Hlk _ _ Hw') as [[-> ->]|[Hne Hw0]]; [done|]. eapply owner_ext; eauto.
  - intros w' Hw'. rewrite Hjs, length_alter in Hw'. rewrite Hs; [auto|]. apply lookup_lt_Some in Hw. lia.
  - unfold point_ok in *. rewrite Hp, Ht, Hlo, Hf. destruct (n_point n) as [| | |k d w0| | | |ps ts ws| |[]]; try done.
    + destruct H6 as (? & ? & j0 & Hj0 & ?). split_and!; [done..|]. destruct (Hlk' _ _ Hj0) as (j1 & ? & ? & _).
      exists j1. split; congruence.
    + intros k a j' Ha Hj'. rewrite Ht in Ha. destruct (Hlk _ _ Hj') as [[Hwe ->]|[Hne Hw0]]; [|by eapply H6].
      destruct (H6 k a j Ha ltac:(by rewrite Hwe)) as [P1 P2]. split; [|auto].
      intros Hk'. specialize (P1 Hk'). unfold alive in Hal. rewrite P1 in Hal. by destruct (is_finished (j_reporter (f j))).
    + destruct H6. auto.
    + destruct H6 as (? & ? & Hz). split_and!; [done..|].
      assert (0 <= alive (f j)) by (unfold alive; destruct (is_finished _); lia).
      pose proof (list_Zsum_lookup_le alive _ _ _ ltac:(intros y; unfold alive; destruct (is_finished _); lia) Hw).
      assert (0 <= list_Zsum active_batch (n_batches n)).
      { apply list_Zsum_nonneg. intros [] _; simpl; lia. }
      lia.
Qed.

(** An entry that goes: whoever held through it needs another to answer for it. *)
Lemma inv_delete owed owed' n n' k l :
  node_inv owed n -> n_tasks n' = delete k (n_tasks n) -> n_jobs n' = n_jobs n -> n_batches n' = n_batches n ->
  n_in_flight n' = n_in_flight n -> n_locals n' = n_locals n -> n_log n' = n_log n ++ l -> Forall silent l ->
  (n_point n' = n_point n \/ point_ok n' /\ forall k d w, n_point n <> Spawned k d w) ->
  (forall k', k' ∈ owed -> k' ∈ owed') ->
  (forall a j, n_tasks n !! k = Some a -> n_jobs n !! a_work a = Some j -> pending (j_reporter j) = true ->
    j_abort j = true /\ (cancelled k (n_log n') \/ wedged owed' n' k)
    \/ j_reporter j = Crashed /\ Sent Main (fail_request cfg k false) ∈ n_log n') ->
  node_inv owed' n'.
Proof.
  intros HI' Ht Hj Hb Hf Hlo Hl Hsil Hp Howed Hout. destruct HI' as [H1 H2 H3 H4 H5 H6 H7 H8].
  assert (Hs : forall w, sent_by w (n_log n') = sent_by w (n_log n)).
  { intros w. rewrite Hl, sent_by_app. clear -Hsil. induction Hsil as [|a l Ha _ IH]; [by rewrite app_nil_r|].
    unfold sent_by in *. cbn. by rewrite Ha. }
  assert (Hin : forall a, a ∈ n_log n -> a ∈ n_log n') by (intros a Ha; rewrite Hl; set_solver).
  constructor; rewrite ?Hj, ?Hb, ?Hf, ?Hlo; try done.
  - intros k' a. rewrite Ht, lookup_delete_Some. intros [_ Ha]. eauto.
  - intros w j Hw. eapply job_local_mono; eauto.
  - intros w j Hw Hpe. destruct (H4 w j Hw Hpe) as [[(a & Ha & Hwa)|[d Hd]]|[[Hab Hr]|[Hcr Hm]]].
    + destruct (decide (j_key j = k)) as [Hk|Hk].
      * right. rewrite Hk in Ha. subst w k. by apply (Hout a j).
      * left; left. exists a. by rewrite Ht, lookup_delete_ne.
    + destruct Hp as [Hp|[_ Hp]]; [|by apply Hp in Hd]. left; right. exists d. congruence.
    + right; left. split; [done|]. destruct Hr as [?|Hwe]; [left; by apply Hin|right].
      eapply wedged_mono; eauto. intros Ho. left. auto.
    + right; right. auto.
  - intros w Hw. rewrite Hs. auto.
  - destruct Hp as [Hp|[Hp _]]; [|done]. unfold point_ok in *. rewrite Hp, Ht, Hj, Hf, Hlo.
    destruct (n_point n) as [| | |k' d w0| | | |ps ts ws| |[]]; try done.
    + destruct H6 as (Hn & ? & ?). split_and!; [|done..]. rewrite lookup_delete_None. by right.
    + intros k' a j' Ha Hj'. rewrite Ht, lookup_delete_Some in Ha. rewrite Hj in Hj'. destruct Ha as [_ Ha]. eauto.
    + destruct H6. auto.
    + destruct H6 as (? & He & ?). split_and!; [done| |done]. by rewrite He, delete_empty.
Qed.

(** A step of one batch. *)
Lemma inv_batch owed n n' i b b' l :
  node_inv owed n -> n_batches n !! i = Some b -> n_batches n' = <[i := b']> (n_batches n) ->
  n_tasks n' = n_tasks n -> n_jobs n' = n_jobs n -> n_point n' = n_point n -> n_locals n' = n_locals n ->
  n_in_flight n' = n_in_flight n - active_batch b + active_batch b' -> active_batch b = 1 ->
  n_log n' = n_log n ++ l -> Forall silent l ->
  (forall k, k ∈ remaining b -> k ∈ remaining b' \/ Sent (Batch i) (fail_request cfg k true) ∈ n_log n') ->
  node_inv owed n'.
Proof.
  intros HI' Hb Hbs Ht Hj Hp Hlo Hf Hact Hl Hsil Hrem. destruct HI' as [H1 H2 H3 H4 H5 H6 H7 H8].
  assert (Hs : forall w, sent_by w (n_log n') = sent_by w (n_log n)).
  { intros w. rewrite Hl, sent_by_app. clear -Hsil. induction Hsil as [|a l Ha _ IH]; [by rewrite app_nil_r|].
    unfold sent_by in *. cbn. by rewrite Ha. }
  assert (Hin : forall a, a ∈ n_log n -> a ∈ n_log n') by (intros a Ha; rewrite Hl; set_solver).
  constructor; rewrite ?Ht, ?Hj, ?Hlo; try done.
  - rewrite Hf, Hbs, (list_Zsum_insert _ _ _ _ _ Hb). lia.
  - intros w j Hw. eapply job_local_mono; eauto.
  - intros w j Hw Hpe. destruct (H4 w j Hw Hpe) as [Hh|[[Hab Hr]|[Hcr Hm]]].
    + left. by eapply holds_ext.
    + right; left. split; [done|]. destruct Hr as [?|[?|(i0 & b0 & Hb0 & Hk)]]; [left; by apply Hin|by right; left|].
      right; right. destruct (decide (i0 = i)) as [->|Hne].
      * exists i, b'. rewrite Hbs, list_lookup_insert_eq by (by eapply lookup_lt_Some). split; [done|].
        simplify_eq. destruct Hk as [Hk|Hk]; [by apply Hrem|right; auto].
      * exists i0, b0. rewrite Hbs, list_lookup_insert_ne by done. split; [done|]. destruct Hk; auto.
    + right; right. auto.
  - intros w Hw. rewrite Hs. auto.
  - unfold point_ok in *. rewrite Hp, Ht, Hj, Hf, Hlo. destruct (n_point n) as [| | |k' d w0| | | |ps ts ws| |[]]; try done.
    { intros k a j. rewrite Ht, Hj. apply H6. }
    { destruct H6. auto. }
    destruct H6 as (? & ? & Hz).
    pose proof (list_Zsum_lookup_le active_batch _ _ _ ltac:(intros []; simpl; lia) Hb).
    assert (0 <= list_Zsum alive (n_jobs n)).
    { apply list_Zsum_nonneg. intros j _. unfold alive. destruct (is_finished _); lia. }
    lia.
  - intros _. apply H7. intros Hn. by rewrite Hn in Hb.
Qed.

(** ** Reporters and work *)
Lemma local_result n owed w j :
  node_inv owed n -> n_jobs n !! w = Some j -> j_result j = None -> j_reporter j = Waiting.
Proof.
  intros HI' Hw Hr. destruct (i_local _ _ HI' w j Hw) as [_ _ _ _ Hd].
  destruct (j_reporter j); try done; by destruct Hd as (res & ? & _); simplify_eq.
Qed.

Lemma work_ends_inv owed n w r n' : node_inv owed n -> work_ends w r n = Some n' -> node_inv owed n'.
Proof.
  intros HI' Hst. unfold work_ends in Hst. destruct (n_jobs n !! w) as [j|] eqn:Hw; [|done].
  destruct (j_result j) eqn:Hr; [done|]. pose proof (local_result _ _ _ _ HI' Hw Hr) as Hwait.
  assert (Hab : r = inl Aborted -> j_abort j = true) by (intros ->; by destruct (j_abort j)).
  assert (n' = update_job w (set_result r) n) as -> by (destruct r as [[]|]; [destruct (j_abort j)|..]; by simplify_eq).
  pose proof (i_local _ _ HI' w j Hw) as Hloc. pose proof (i_owner _ _ HI' w j Hw) as Ho.
  eapply (inv_job _ n _ w j (set_result r) []); eauto; cbn; rewrite ?app_nil_r; try done.
  - unfold alive. simpl. lia.
  - destruct Hloc as [L1 L2 L3 L4 L5]. constructor; cbn; auto.
    + intros [= ->]. auto.
    + intros Hne. by rewrite Hwait in Hne.
Qed.

Lemma decided_local log w j res s l :
  job_local log w j -> j_result j = Some res -> j_reporter j = Waiting ->
  let timed_out := bool_decide (is_Some (j_aborted_at j)) in
  sent_by w l = report_rpcs (j_key j) (report_for res timed_out) -> state_fits (report_for res timed_out) s ->
  job_local (log ++ l) w (mkJob (j_key j) (j_abort j) (j_aborted_at j) (j_result j) timed_out s).
Proof.
  intros [L1 L2 L3 L4 L5] Hr Hw timed_out Hl Hs. constructor; cbn; try done.
  - intros ? ?. apply elem_of_app. left. by apply L3.
  - intros ->. rewrite sent_by_app, L4, Hl by done. unfold state_fits in Hs. unfold report_rpcs. by repeat case_match; naive_solver.
  - intros _. exists res. rewrite sent_by_app, L4 by done. split_and!; try done.
    + by intros ?%bool_decide_eq_true.
    + intros Ht%bool_decide_eq_false ->. apply elem_of_app. left. apply L3; [auto|]. by apply eq_None_not_Some.
Qed.

Lemma by_self w r : sent_by w [Sent (Reporter w) r] = [r].
Proof. unfold sent_by. cbn. by rewrite decide_True. Qed.
Lemma by_other w w' r : w' <> w -> sent_by w' [Sent (Reporter w) r] = [].
Proof. intros Hne. unfold sent_by. cbn. by rewrite decide_False by congruence. Qed.

Lemma reporter_decide_inv owed n w j n' :
  node_inv owed n -> n_jobs n !! w = Some j -> reporter_decide cfg w j n = Some n' -> node_inv owed n'.
Proof.
  intros HI' Hw Hst. unfold reporter_decide in Hst.
  destruct (j_result j) as [res|] eqn:Hr; [|done]. destruct (j_reporter j) eqn:Hwait; try done.
  injection Hst as <-. pose proof (i_local _ _ HI' w j Hw) as Hloc. pose proof (i_owner _ _ HI' w j Hw) as Ho.
  set (to := bool_decide (is_Some (j_aborted_at j))).
  set (f s j := mkJob (j_key j) (j_abort j) (j_aborted_at j) (j_result j) to s).
  assert (Hrpc : forall r s, report_rpcs (j_key j) (report_for res to) = [r] -> s = InRpc ->
    state_fits (report_for res to) s -> node_inv owed (call (Reporter w) r (update_job w (f s) n))).
  { intros r s Hone -> Hfit. eapply (inv_job _ n _ w j (f InRpc) [Sent (Reporter w) r]); eauto; try done; cbn.
    - unfold alive. rewrite Hwait. simpl. lia.
    - unfold alive. rewrite Hwait. simpl. lia.
    - intros w' Hne. by apply by_other.
    - apply decided_local with res; auto. by rewrite by_self, <- Hone.
    - eapply (owner_ext _ n); [|done..|cbn; set_solver].
      intros Hpe. destruct Ho as [?|[?|[? _]]]; [by rewrite Hwait|by left|by right; left|congruence]. }
  assert (Hend : forall s, report_rpcs (j_key j) (report_for res to) = [] -> is_finished s = true ->
    state_fits (report_for res to) s -> node_inv owed (untrack (update_job w (f s) n))).
  { intros s Hnone Hfin Hfit. eapply (inv_job _ n _ w j (f s) []); eauto; try done; cbn; rewrite ?app_nil_r; try done.
    - unfold alive. rewrite Hwait. simpl. rewrite Hfin. lia.
    - unfold alive. rewrite Hwait. simpl. rewrite Hfin. lia.
    - rewrite <- (app_nil_r (n_log n)). by apply decided_local with res.
    - eapply (owner_ext _ n); [|done..|by cbn].
      intros Hpe. destruct Ho as [?|[?|[? _]]]; [by rewrite Hwait|by left|by right; left|congruence]. }
  unfold f in *. fold to. destruct (report_for res to) as [md|retryable|] eqn:Hrep; cbn in Hrpc, Hend.
  - destruct (metadata_to_string md); [by apply Hrpc|by apply Hend].
  - by apply Hrpc.
  - by apply Hend.
Qed.

Lemma reporter_advance_inv owed n w j n' :
  node_inv owed n -> n_jobs n !! w = Some j -> reporter_advance w j n = Some n' -> node_inv owed n'.
Proof.
  intros HI' Hw Hst. unfold reporter_advance in Hst.
  pose proof (i_local _ _ HI' w j Hw) as [L1 L2 L3 L4 L5]. pose proof (i_owner _ _ HI' w j Hw) as Ho.
  assert (Hgo : forall s n1, state_fits (Fail true) s -> (pending s = true -> pending (j_reporter j) = true) ->
    j_reporter j <> Waiting -> j_reporter j <> Crashed -> j_reporter j <> Finished ->
    n1 = set_in_flight (n_in_flight n - 1 + alive (set_reporter s j)) (update_job w (set_reporter s) n) -> node_inv owed n1).
  { intros s n1 Hfit Hpe Hnw Hnc Hnf ->. assert (alive j = 1) as Hal by (unfold alive; by destruct (j_reporter j)).
    assert (alive (set_reporter s j) <= 1) by (unfold alive; destruct (is_finished _); lia).
    eapply (inv_job _ n _ w j (set_reporter s) []); eauto; try done; cbn; rewrite ?app_nil_r; try done; try lia.
    - constructor; cbn; auto; [by destruct Hfit|]. intros _. destruct (L5 Hnw) as (res & Hr & Hsb & Hf & ? & ?).
      exists res. split_and!; try done. unfold state_fits in *. repeat case_match; naive_solver.
    - intros Hp. cbn in Hp. destruct (Ho (Hpe Hp)) as [?|[?|[? _]]]; [by left|by right; left|done]. }
  destruct (j_reporter j) eqn:Hr; try done; injection Hst as <-.
  - apply (Hgo Dropping); try done. unfold alive. cbn. replace (n_in_flight n - 1 + 1) with (n_in_flight n) by lia. by destruct n.
  - set (n1 := update_job w (set_reporter Leaving) n).
    assert (H1 : node_inv owed n1).
    { apply (Hgo Leaving); try done. unfold alive. cbn. replace (n_in_flight n - 1 + 1) with (n_in_flight n) by lia. by destruct n. }
    unfold drop_if_current. destruct (n_tasks n !! j_key j) as [a|] eqn:Ha; [destruct (decide (a_work a = w)) as [Hwa|]|].
    + eapply (inv_delete owed owed n1 _ (j_key j) []); eauto; cbn; rewrite ?app_nil_r; try done.
      intros a' j' Ha' Hj' Hpe. rewrite Ha in Ha'. injection Ha' as <-. rewrite Hwa, list_lookup_alter_eq, Hw in Hj'.
      injection Hj' as <-. done.
    + eapply inv_frame; [exact H1|..]; cbn; rewrite ?app_nil_r; try done; try apply H1.
    + eapply inv_frame; [exact H1|..]; cbn; rewrite ?app_nil_r; try done; try apply H1.
  - apply (Hgo Finished); try done. change (alive (set_reporter Finished j)) with 0. by rewrite Z.add_0_r.
Qed.

(** ** Batches *)
Lemma batch_next_inv owed n i b keys :
  node_inv owed n -> n_batches n !! i = Some b -> b <> BDone -> (forall k, k ∈ remaining b -> k ∈ keys) ->
  node_inv owed (batch_next cfg i keys n).
Proof.
  intros HI' Hb Hd Hrem. assert (Hact : active_batch b = 1) by (by destruct b).
  destruct keys as [|k keys]; cbn.
  - eapply (inv_batch _ n _ i b BDone []); eauto; cbn; rewrite ?app_nil_r; try done; lia.
  - eapply (inv_batch _ n _ i b (BFailing (k :: keys)) [_]); eauto; cbn; try done; try lia; [by repeat constructor|].
    intros k' [->|?]%Hrem%elem_of_cons; [right; set_solver|by left].
Qed.

Lemma set_close_acked_inv owed n b : node_inv owed n -> node_inv owed (set_close_acked b n).
Proof. intros HI'. eapply inv_frame; [exact HI'|..]; cbn; rewrite ?app_nil_r; try done; apply HI'. Qed.

Lemma batch_init_inv owed n i n' : node_inv owed n -> batch_init cfg i n = Some n' -> node_inv owed n'.
Proof.
  intros HI' Hst. unfold batch_init in Hst. destruct (n_batches n !! i) as [[keys|keys|keys|]|] eqn:Hb; try done.
  destruct (n_close_acked n); [injection Hst as <-; by eapply batch_next_inv|].
  destruct (existsb _ _); [done|]. injection Hst as <-.
  eapply (inv_batch _ n _ i _ (BClosing keys) [_]); eauto; cbn; try done; try lia; by repeat constructor.
Qed.

Lemma batch_reply_inv owed n i ok n' : node_inv owed n -> batch_reply cfg i ok n = Some n' -> node_inv owed n'.
Proof.
  intros HI' Hst. unfold batch_reply in Hst. destruct (n_batches n !! i) as [[keys|keys|[|k keys]|]|] eqn:Hb; try done; injection Hst as <-.
  - destruct ok; eapply batch_next_inv; eauto using set_close_acked_inv; done.
  - by eapply batch_next_inv.
Qed.

(** ** The main loop *)
Definition not_spawned (n : node) : Prop := forall k d w, n_point n <> Spawned k d w.

Lemma say_inv owed n a : node_inv owed n -> silent a -> node_inv owed (say a n).
Proof.
  intros HI' Ha. eapply (inv_frame _ n _ [a]); cbn; try done; try apply HI'; [by repeat constructor|].
  pose proof (i_point _ _ HI') as Hp. unfold point_ok, swept in *. cbn. destruct (n_point n); try done.
  destruct Hp. split; [done|set_solver].
Qed.

Lemma set_point_inv owed n p :
  node_inv owed n -> not_spawned n -> point_ok (set_point p n) -> node_inv owed (set_point p n).
Proof.
  intros HI' Hns Hp. eapply (inv_frame _ n _ []); cbn; rewrite ?app_nil_r; try done; try apply HI'.
  intros k d w Hs. by apply Hns in Hs.
Qed.

(** A change of the loop's variables that keeps the drain's. *)
Lemma set_locals_inv owed n l :
  node_inv owed n -> l_closed l = l_closed (n_locals n) -> l_drain_started_at l = l_drain_started_at (n_locals n) ->
  node_inv owed (set_locals l n).
Proof.
  intros HI' Hc Hd. eapply (inv_frame _ n _ []); cbn; rewrite ?app_nil_r, ?Hc, ?Hd; try done; try apply HI'.
  pose proof (i_point _ _ HI') as Hp. unfold point_ok in *. cbn. by rewrite Hc.
Qed.

Lemma start_open_inv owed n p :
  node_inv owed n -> not_spawned n -> (p = Boot /\ l_closed (n_locals n) = false \/ exists b, p = Reopening b) -> node_inv owed (start_open init p n).
Proof.
  intros HI' Hns Hp. apply set_point_inv; [by apply say_inv|done|]. by destruct Hp as [[-> ?]|[? ->]].
Qed.

Lemma on_new_task_inv n tid data :
  node_inv [] n -> n_point n = Select -> node_inv [] (on_new_task tid data n).
Proof.
  intros HI' Hp. unfold on_new_task. destruct (l_closed (n_locals n)) eqn:Hc; [done|]. case_bool_decide as Hk; [done|].
  set (k := (proof_id data, tid)) in *. apply eq_None_not_Some in Hk. destruct HI' as [H1 H2 H3 H4 H5 H6 H7 H8].
  assert (Hlk : forall w j, (n_jobs n ++ [mkJob k false None None false Waiting]) !! w = Some j ->
    n_jobs n !! w = Some j \/ w = length (n_jobs n) /\ j = mkJob k false None None false Waiting).
  { intros w j. rewrite lookup_app. destruct (n_jobs n !! w) eqn:E; [intros [= <-]; by left|].
    intros Hl. apply lookup_ge_None in E. destruct (w - length (n_jobs n))%nat eqn:Hm; simplify_eq/=. right. split; [lia|done]. }
  constructor; cbn; try done.
  - rewrite list_Zsum_app, H1. change (list_Zsum alive [mkJob k false None None false Waiting]) with 1. lia.
  - intros k' a Ha. destruct (H2 k' a Ha) as (j & ? & ?). exists j. split; [|done]. by apply lookup_app_l_Some.
  - intros w j [Hw|[-> ->]]%Hlk; [auto|]. constructor; cbn; try done; intros; try done; by auto.
  - intros w j [Hw|[-> ->]]%Hlk Hpe; [|by left; right; exists data].
    destruct (H4 w j Hw Hpe) as [[?|[d Hd]]|[[? Hr]|[? ?]]]; [by left; left|congruence| |by right; right].
    right; left. split; [done|]. destruct Hr as [?|?]; [by left|by right].
  - intros w. rewrite length_app. intros. apply H5. lia.
  - unfold point_ok. cbn. split_and!; [done..|]. eexists. rewrite lookup_app_r, Nat.sub_diag by lia. by split.
Qed.

Lemma insert_task_inv n k data w :
  node_inv [] n -> n_point n = Spawned k data w -> node_inv [] (insert_task k data w n).
Proof.
  intros HI' Hp. destruct HI' as [H1 H2 H3 H4 H5 H6 H7 H8]. unfold point_ok in H6. rewrite Hp in H6.
  destruct H6 as (Hn & Hc & j0 & Hj0 & Hk0). constructor; cbn; try done.
  - intros k' a. rewrite lookup_insert_Some. intros [[<- <-]|[_ Ha]]; [by exists j0|eauto].
  - intros w' j Hw' Hpe. destruct (H4 w' j Hw' Hpe) as [[(a & Ha & Hwa)|[d Hd]]|[[? Hr]|[? ?]]].
    + left; left. exists a. split; [|done]. cbn. rewrite lookup_insert_ne; [done|]. intros ->. by rewrite Hn in Ha.
    + left; left. rewrite Hp in Hd. injection Hd as -> _ ->. eexists. cbn. by rewrite lookup_insert_eq.
    + right; left. split; [done|]. destruct Hr as [?|?]; [by left|by right].
    + by right; right.
Qed.

(** Aborting the work of an entry: the reason is in the log, or the cell is stamped. *)
Lemma abort_job_inv owed n w j f :
  node_inv owed n -> n_jobs n !! w = Some j ->
  f j = abort j /\ (cancelled (j_key j) (n_log n) \/ is_Some (j_aborted_at j)) \/ (exists t, f j = abort (stamp t j)) ->
  node_inv owed (update_job w f n).
Proof.
  intros HI' Hw Hf. pose proof (i_local _ _ HI' w j Hw) as [L1 L2 L3 L4 L5]. pose proof (i_owner _ _ HI' w j Hw) as Ho.
  assert (Hown : forall j', j_key j' = j_key j -> j_reporter j' = j_reporter j -> j_abort j' = true ->
    owner owed (update_job w f n) w j').
  { intros j' Hk Hr Ha Hpe. rewrite Hr in Hpe. destruct (Ho Hpe) as [?|[[? ?]|[? ?]]].
    - left. by eapply holds_ext.
    - right; left. by rewrite Hk.
    - right; right. by rewrite Hr, Hk. }
  destruct Hf as [[Hf Hc]|[t Hf]];
    (eapply (inv_job _ n _ w j f []); eauto; cbn; rewrite ?app_nil_r, ?Hf; cbn; try done; [unfold alive; cbn; lia| |by apply Hown]).
  - constructor; cbn; try done. intros _ Hn. destruct Hc as [?|[? ?]]; [done|congruence].
  - constructor; cbn; try done. intros Hne. destruct (L5 Hne) as (res & ? & ? & ? & Hto & ?). exists res. by split_and!.
Qed.

Lemma on_cancel_task_inv n k :
  node_inv [] n -> cancelled k (n_log n) -> n_point n = Select -> node_inv [] (on_cancel_task k n).
Proof.
  intros HI' Hc Hp. unfold on_cancel_task. destruct (n_tasks n !! k) as [a|] eqn:Ha; [|done].
  destruct (i_entry _ _ HI' k a Ha) as (j & Hj & Hk).
  assert (H1 : node_inv [] (update_job (a_work a) abort n)).
  { eapply abort_job_inv; eauto. left. split; [done|left]. by rewrite Hk. }
  eapply (inv_delete [] [] _ _ k []); [exact H1|..]; cbn; rewrite ?app_nil_r; try done; [by left|].
  intros a' j' Ha' Hj' _. rewrite Ha in Ha'. injection Ha' as <-. rewrite list_lookup_alter_eq, Hj in Hj'. injection Hj' as <-.
  left. split; [done|by left].
Qed.

(** ** The sweep *)

Lemma swept_update ps ws n w f :
  swept ps ws n ->
  (forall j, is_finished (j_reporter (f j)) = is_finished (j_reporter j) /\ (is_Some (j_aborted_at j) -> is_Some (j_aborted_at (f j)))) ->
  swept ps ws (update_job w f n).
Proof.
  intros Hs Hf k a j Ha. cbn. destruct (decide (a_work a = w)) as [<-|Hne].
  - rewrite list_lookup_alter_eq. destruct (n_jobs n !! a_work a) as [j0|] eqn:Hj; [|done]. intros [= <-].
    destruct (Hs k a j0 Ha Hj) as [? ?]. destruct (Hf j0) as [-> ?]. auto.
  - rewrite list_lookup_alter_ne by done. eauto.
Qed.

Lemma swept_delete ps ws n k : swept ps ws n -> swept ps ws (set_tasks (delete k (n_tasks n)) n).
Proof. intros Hs k' a j. cbn. rewrite lookup_delete_Some. intros [_ ?]. eauto. Qed.

Lemma sweep_timed_out_inv owed ps ws n k :
  node_inv owed n -> swept ps ws n -> let n' := sweep_timed_out k n in
  node_inv owed n' /\ swept ps ws n' /\ n_point n' = n_point n.
Proof.
  intros HI' Hs. unfold sweep_timed_out. destruct (n_tasks n !! k) as [a|] eqn:Ha; [|done].
  destruct (i_entry _ _ HI' k a Ha) as (j & Hj & Hk). split_and!; [|by apply swept_update|done].
  eapply abort_job_inv; eauto.
Qed.

Lemma sweep_timed_outs_inv owed ps ws ts n :
  node_inv owed n -> swept ps ws n -> let n' := foldl (fun n k => sweep_timed_out k n) n ts in
  node_inv owed n' /\ swept ps ws n' /\ n_point n' = n_point n.
Proof.
  revert n. induction ts as [|k ts IH]; intros n HI' Hs; [done|]. cbn.
  destruct (sweep_timed_out_inv _ _ _ _ k HI' Hs) as (H1 & H2 & H3).
  destruct (IH _ H1 H2) as (? & ? & ?). split_and!; [done..|congruence].
Qed.

Lemma sweep_wedged_inv ps ws acc k :
  node_inv acc.1 acc.2 -> swept ps ws acc.2 -> k ∈ ws -> let acc' := sweep_wedged acc k in
  node_inv acc'.1 acc'.2 /\ swept ps ws acc'.2 /\ n_point acc'.2 = n_point acc.2.
Proof.
  destruct acc as [owed n]. cbn. intros HI' Hs Hk. unfold sweep_wedged. cbn. destruct (n_tasks n !! k) as [a|] eqn:Ha; [|done].
  destruct (i_entry _ _ HI' k a Ha) as (j & Hj & Hkj). pose proof (Hs k a j Ha Hj) as [_ Hst]. split_and!; [|by apply (swept_delete _ _ (update_job _ _ n)), swept_update|done].
  assert (H1 : node_inv owed (update_job (a_work a) abort n)).
  { eapply abort_job_inv; eauto. }
  eapply (inv_delete owed _ _ _ k []); [exact H1|..]; cbn; rewrite ?app_nil_r; try done; [by left|set_solver|].
  intros a' j' Ha' Hj' _. rewrite Ha in Ha'. injection Ha' as <-. rewrite list_lookup_alter_eq, Hj in Hj'. injection Hj' as <-.
  left. split; [done|]. right. left. set_solver.
Qed.

Lemma sweep_wedgeds_inv ps ws acc :
  node_inv acc.1 acc.2 -> swept ps ws acc.2 -> let acc' := foldl sweep_wedged acc ws in
  node_inv acc'.1 acc'.2 /\ n_point acc'.2 = n_point acc.2.
Proof.
  intros HI' Hs. cut (forall l acc, (forall k, k ∈ l -> k ∈ ws) -> node_inv acc.1 acc.2 -> swept ps ws acc.2 ->
    node_inv (foldl sweep_wedged acc l).1 (foldl sweep_wedged acc l).2 /\ n_point (foldl sweep_wedged acc l).2 = n_point acc.2);
    [intros H; by apply H|].
  clear acc HI' Hs. induction l as [|k l IH]; intros acc Hl HI' Hs; [done|]. cbn.
  destruct (sweep_wedged_inv ps ws acc k HI' Hs ltac:(set_solver)) as (H1 & H2 & H3).
  destruct (IH _ ltac:(set_solver) H1 H2) as [? ?]. split; [done|congruence].
Qed.

(** Where a sweep can start or go on. *)
Definition sweeps (n : node) : Prop :=
  match n_point n with Select | Reopening _ | Sweeping _ _ _ => True | _ => False end.

Lemma sweeps_not_spawned n : sweeps n -> not_spawned n.
Proof. unfold sweeps. intros Hs k d w Hp. by rewrite Hp in Hs. Qed.

Lemma report_wedged_inv reports n : node_inv reports n -> sweeps n -> node_inv [] (report_wedged reports n).
Proof.
  intros HI' Hsw. destruct reports as [|k reports]; [done|]. unfold report_wedged, spawn_wedged_report.
  destruct HI' as [H1 H2 H3 H4 H5 H6 H7 H8]. constructor; cbn; try done.
  - rewrite list_Zsum_app, H1. change (list_Zsum active_batch [BStart (k :: reports)]) with 1. lia.
  - intros w j Hw Hpe. destruct (H4 w j Hw Hpe) as [?|[[? Hr]|?]]; [by left| |by right; right].
    right; left. split; [done|]. destruct Hr as [?|[Ho|(i & b & Hb & Hk)]]; [by left|right..].
    + right. exists (length (n_batches n)), (BStart (k :: reports)). cbn. rewrite lookup_app_r, Nat.sub_diag by lia. auto.
    + right. exists i, b. cbn. split; [by apply lookup_app_l_Some|done].
  - unfold point_ok, sweeps in *. cbn. by destruct (n_point n).
Qed.

Lemma sweep_rest_inv ps ts ws n :
  node_inv [] n -> swept ps ws n -> sweeps n -> node_inv [] (sweep_rest ts ws n).
Proof.
  intros HI' Hs Hsw. unfold sweep_rest.
  destruct (sweep_timed_outs_inv [] ps ws ts n HI' Hs) as (H1 & H2 & H3). set (n1 := foldl _ n ts) in *.
  pose proof (sweep_wedgeds_inv ps ws ([], n1) H1 H2) as [H4 H5].
  destruct (foldl sweep_wedged ([], n1) ws) as [reports n2]. cbn in *.
  assert (Hp : n_point n2 = n_point n) by congruence.
  apply set_point_inv; [apply report_wedged_inv; [done|]| |done].
  - unfold sweeps in *. by rewrite Hp.
  - apply sweeps_not_spawned. unfold sweeps in *. destruct reports; cbn; by rewrite Hp.
Qed.

Lemma sweep_panicked_inv ps ts ws n :
  node_inv [] n -> swept ps ws n -> sweeps n ->
  node_inv [] (sweep_panicked cfg ps ts ws n).
Proof.
  revert n. induction ps as [|k ps IH]; intros n HI' Hs Hsw; [by eapply sweep_rest_inv|]. cbn [sweep_panicked].
  assert (Htl : swept ps ws n).
  { intros k' a j Ha Hj. destruct (Hs k' a j Ha Hj) as [P1 P2]. split; [|done]. intros. apply P1. by right. }
  destruct (n_tasks n !! k) as [a|] eqn:Ha; [|by apply IH].
  destruct (i_entry _ _ HI' k a Ha) as (j & Hj & Hk). cbn [n_jobs set_tasks]. rewrite Hj.
  destruct (decide (j_reporter j = Crashed)) as [Hcr|Hcr].
  - assert (Hgo : forall n', n' = set_point (Sweeping ps ts ws) (call Main (fail_request cfg k false) (set_tasks (delete k (n_tasks n)) n)) ->
      node_inv [] n'); [|destruct j; cbn in Hcr; subst; by apply Hgo].
    intros n' ->. eapply (inv_delete [] [] n _ k [_]); eauto; cbn; try done; [by repeat constructor| |].
    + right. split; [|by apply sweeps_not_spawned]. apply (swept_delete ps ws n k Htl).
    + intros a' j' Ha' Hj' _. simplify_eq. right. split; [done|]. set_solver.
  - assert (Hgo : node_inv [] (sweep_panicked cfg ps ts ws (set_tasks (delete k (n_tasks n)) n))); [|by destruct j as [? ? ? ? ? []]].
    apply IH; [|by apply swept_delete|done..].
    eapply (inv_delete [] [] n _ k []); eauto; cbn; rewrite ?app_nil_r; try done.
    intros a' j' Ha' Hj' Hpe. rewrite Ha in Ha'. injection Ha' as <-. rewrite Hj in Hj'. injection Hj' as <-. destruct (Hs k a j Ha Hj) as [P1 _].
    specialize (P1 ltac:(by left)). by destruct (j_reporter j).
Qed.

Context {HIO : HashIterOk HI}.

Lemma elem_of_scan v n k : k ∈ scan cfg v n -> verdict_of cfg n k = v /\ is_Some (n_tasks n !! k).
Proof. unfold scan. rewrite elem_of_iter_keys, elem_of_list_to_set, list_elem_of_filter, elem_of_elements, elem_of_dom. done. Qed.

Lemma scan_swept n : swept (scan cfg VPanicked n) (scan cfg VWedged n) n.
Proof.
  intros k a j Ha Hj. split; intros [Hv _]%elem_of_scan; unfold verdict_of, timeout_action in Hv; rewrite Ha, Hj in Hv.
  - by case_all.
  - destruct (j_aborted_at j); [done|]. by case_all.
Qed.

Lemma node_sweep_inv n :
  node_inv [] n -> sweeps n -> node_inv [] (sweep cfg n).
Proof. intros. apply sweep_panicked_inv; [done|apply scan_swept|done..]. Qed.

Lemma is_drained_spec n : is_drained n = true <-> n_tasks n = ∅ /\ n_in_flight n = 0.
Proof. unfold is_drained. by rewrite andb_true_iff, bool_decide_eq_true, Z.eqb_eq. Qed.

Lemma exit_inv n e :
  node_inv [] n -> not_spawned n -> (e = Drained -> l_closed (n_locals n) = true /\ is_drained n = true) ->
  node_inv [] (exit_loop e n).
Proof.
  intros HI' Hns He. apply set_point_inv; [done..|]. unfold point_ok. cbn. destruct e; try done.
  destruct (He eq_refl) as [? [? ?]%is_drained_spec]. done.
Qed.

Lemma watch_channel_inv n stall : node_inv [] n -> n_point n = Select -> node_inv [] (watch_channel cfg init stall n).
Proof.
  intros HI' Hp. assert (not_spawned n) by (intros k d w; by rewrite Hp). unfold watch_channel.
  destruct (_ && _ && _); [by apply exit_inv|]. destruct (secs 10 <? _); [|apply node_sweep_inv; [done|unfold sweeps; by rewrite Hp]].
  apply start_open_inv; [done..|by eauto].
Qed.

Lemma watchdog_inv n : node_inv [] n -> n_point n = Select -> node_inv [] (watchdog cfg init n).
Proof.
  intros HI' Hp. unfold watchdog. set (n1 := set_last_tick (n_now n) n).
  assert (H1 : node_inv [] n1) by (by apply set_locals_inv). assert (not_spawned n1) by (intros k d w; cbn; by rewrite Hp).
  destruct (l_closed (n_locals n1) && is_drained n1) eqn:Hd.
  { apply andb_true_iff in Hd. by apply exit_inv. }
  destruct (l_drain_started_at (n_locals n1)) eqn:Hs; [|by apply watch_channel_inv].
  destruct (drain_timeout cfg <? _); [by apply exit_inv|]. apply watch_channel_inv; case_bool_decide; [done| |done|done].
  by apply set_locals_inv.
Qed.

(** Closing the worker starts the drain. *)
Lemma on_cancelled_inv n : node_inv [] n -> n_point n = Select -> node_inv [] (on_cancelled cfg n).
Proof.
  intros HI' Hp. eapply (inv_frame _ n _ [_]); cbn; try done; [by repeat constructor|by rewrite Hp|].
  split; [done|]. cbn. set_solver.
Qed.

Lemma on_closed_inv n ok : node_inv [] n -> n_point n = Closing -> l_closed (n_locals n) = true -> node_inv [] (on_closed ok n).
Proof.
  intros HI' Hp Hc. unfold on_closed. set (n1 := if _ && _ then _ else _).
  assert (node_inv [] n1 /\ n_point n1 = Closing /\ l_closed (n_locals n1) = true) as (H1 & Hp1 & Hc1).
  { unfold n1. destruct (_ && _); [|done]. split; [by apply set_close_acked_inv|done]. }
  assert (not_spawned n1) by (intros k d w; by rewrite Hp1).
  destruct (is_drained n1) eqn:Hd; [by apply exit_inv|by apply set_point_inv].
Qed.

Lemma on_message_inv n m : node_inv [] n -> n_point n = Select -> node_inv [] (on_message cfg m n).
Proof.
  intros HI' Hp. unfold on_message. set (n1 := set_last_progress _ _).
  assert (H1 : node_inv [] n1) by (apply set_locals_inv; [by apply say_inv|done..]).
  destruct m as [tid data md|pid tid|].
  - by apply on_new_task_inv.
  - apply on_cancel_task_inv; [done| |done]. unfold cancelled. cbn. set_solver.
  - unfold on_server_heartbeat. set (n2 := set_last_heartbeat _ n1).
    assert (H2 : node_inv [] n2) by (by apply set_locals_inv).
    destruct (is_stale _ _); [|done]. apply set_point_inv; [by apply say_inv| |done]. intros k d w. cbn. by rewrite Hp.
Qed.

Lemma set_queue_inv n q : node_inv [] n -> node_inv [] (set_queue q n).
Proof. intros HI'. eapply (inv_frame _ n _ []); cbn; rewrite ?app_nil_r; try done; apply HI'. Qed.

Lemma set_open_inv n b : node_inv [] n -> node_inv [] (set_open b n).
Proof. intros HI'. eapply (inv_frame _ n _ []); cbn; rewrite ?app_nil_r; try done; apply HI'. Qed.

Lemma recv_inv n n' : node_inv [] n -> n_point n = Select -> recv cfg init n = Some n' -> node_inv [] n'.
Proof.
  intros HI' Hp Hr. unfold recv in Hr. destruct (n_queue n) as [|m q].
  - destruct (n_open n); [done|]. injection Hr as <-. apply start_open_inv; [done| |by eauto]. intros k d w. by rewrite Hp.
  - injection Hr as <-. apply on_message_inv; [by apply set_queue_inv|done].
Qed.

Lemma main_reply_inv n ok n' : node_inv [] n -> main_reply cfg init ok n = Some n' -> node_inv [] n'.
Proof.
  intros HI' Hr. unfold main_reply in Hr. pose proof (i_point _ _ HI') as Hpo. unfold point_ok in Hpo.
  assert (Hns : not_spawned n) by (intros k d w Hp; by rewrite Hp in Hr).
  destruct (n_point n) as [| | |k d w| |b| |ps ts ws| |e] eqn:Hp; try done.
  - destruct ok; injection Hr as <-; [|by apply set_point_inv].
    apply set_point_inv; [|done..]. apply set_open_inv, set_queue_inv, set_locals_inv; [done|by rewrite Hpo|].
    pose proof (i_drain _ _ HI') as [_ H]. rewrite Hpo in H. cbn. destruct (l_drain_started_at (n_locals n)); [|done]. by specialize (H (mk_is_Some _ _ eq_refl)).
  - injection Hr as <-. apply start_open_inv; auto.
  - injection Hr as <-. by apply set_point_inv.
  - destruct ok; injection Hr as <-.
    + assert (H1 : node_inv [] (install (set_last_heartbeat (n_now n) n))).
      { by apply set_open_inv, set_queue_inv, set_locals_inv. }
      destruct b; [apply node_sweep_inv|apply set_point_inv]; try done. unfold sweeps. cbn. by rewrite Hp.
    + apply set_point_inv; [by apply set_locals_inv|done..].
  - injection Hr as <-. by apply set_point_inv.
  - injection Hr as <-. apply sweep_panicked_inv; try done. unfold sweeps. by rewrite Hp.
  - injection Hr as <-. destruct Hpo. by apply on_closed_inv.
Qed.

(** Every step keeps the invariant. *)
Lemma step_inv n e n' : node_inv [] n -> step cfg init n e = Some n' -> node_inv [] n'.
Proof.
  intros HI' Hs. assert (Hsel : at_select n = true -> n_point n = Select) by (unfold at_select; by destruct (n_point n)).
  assert (Hfr : forall n' l, n_tasks n' = n_tasks n -> n_jobs n' = n_jobs n -> n_batches n' = n_batches n ->
    n_in_flight n' = n_in_flight n -> n_point n' = n_point n -> n_locals n' = n_locals n -> n_log n' = n_log n ++ l -> Forall silent l -> node_inv [] n').
  { intros n0 l H1 H2 H3 H4 H5 H6 H7 H8. eapply inv_frame; eauto; rewrite ?H5, ?H6; try done; try apply HI'.
    pose proof (i_point _ _ HI') as Hpo. unfold point_ok, swept in *. rewrite H5, H1, H2, H4, H6, H7.
    destruct (n_point n); try done. destruct Hpo. split; [done|set_solver]. }
  destruct e as [d|m| | | | | | |ok|w r|w|w|i|i ok| | |landed|]; cbn in Hs.
  - destruct (0 <=? d); [|done]. injection Hs as <-. apply (Hfr _ []); cbn; rewrite ?app_nil_r; done.
  - destruct (n_open n); [|done]. injection Hs as <-. by apply set_queue_inv.
  - injection Hs as <-. by apply set_open_inv.
  - destruct (at_select n); [|done]. eapply recv_inv; eauto.
  - destruct (n_point n) as [| | |k data w| | | | | |] eqn:Hp; try done. injection Hs as <-. by apply insert_task_inv.
  - destruct (at_select n); [|done]. destruct (quiet n); [|done]. injection Hs as <-. apply watchdog_inv; auto.
  - injection Hs as <-. apply (Hfr _ []); cbn; rewrite ?app_nil_r; done.
  - destruct (at_select n); [|done]. destruct (_ && _); [|done]. injection Hs as <-. apply on_cancelled_inv; auto.
  - by eapply main_reply_inv.
  - by eapply work_ends_inv.
  - destruct (n_jobs n !! w) as [j|] eqn:Hw; [|done]. by eapply reporter_decide_inv.
  - destruct (n_jobs n !! w) as [j|] eqn:Hw; [|done]. by eapply reporter_advance_inv.
  - by eapply batch_init_inv.
  - by eapply batch_reply_inv.
  - unfold thread_connected in Hs. destruct (n_thread n); try done. injection Hs as <-. apply (Hfr _ []); cbn; rewrite ?app_nil_r; done.
  - unfold thread_tick in Hs. destruct (n_thread n); try done. destruct (stopped n); [done|]. injection Hs as <-.
    apply (Hfr _ [Sent Beats (build_heartbeat_request cfg (n_tasks n))]); try done. by repeat constructor.
  - unfold thread_reply in Hs. destruct (n_thread n); try done. injection Hs as <-. apply (Hfr _ []); cbn; rewrite ?app_nil_r; done.
  - unfold thread_exit in Hs. destruct (n_thread n); try done; injection Hs as <-;
      (destruct (_ && _); apply (Hfr _ []); cbn; rewrite ?app_nil_r; done).
Qed.

Lemma boot_inv now : node_inv [] (start_open init Boot (boot now)).
Proof.
  apply start_open_inv; [|intros ? ? ?; done|by left]. constructor; cbn; try done.
Qed.

Lemma reachable_node_inv n : node_reachable cfg init n -> node_inv [] n.
Proof. induction 1; [apply boot_inv|by eapply step_inv]. Qed.
End inv.
