(* ===== verification/NodeProps.v ===== *)
(** * What the worker node promises

    Over every run of Node.v: outcomes are reported as [report_for] says and none is lost
    by a drain, no task is worked on twice at a time, stuck tasks are found by the
    watchdog, and a worker with wedged work is closed before the work is handed on. *)
From stdpp Require Import base gmap strings list.
From S2P Require Import Prelude Proto TaskChannel CoordState Coordinator AssignSpec Capacity CoordInv CoordSteps Reach Server Node NodeInv.
Local Open Scope string_scope.
Local Open Scope list_scope.
Local Open Scope Z_scope.
Import Nd.

Section props.
Context {TM : TaskMetadataJson} {HI : HashIter} {HIO : HashIterOk HI}.
Context (cfg : NodeConfig) (init : Serve.OpenRequest).

(** ** Counting *)
Lemma list_Zsum_zero {A} (f : A -> Z) l w x :
  (forall y, 0 <= f y) -> list_Zsum f l = 0 -> l !! w = Some x -> f x = 0.
Proof. intros Hf Hz Hw. pose proof (list_Zsum_lookup_le f l w x Hf Hw). specialize (Hf x). lia. Qed.

Lemma alive_nonneg j : 0 <= alive j.
Proof. unfold alive. destruct (is_finished _); lia. Qed.
Lemma active_batch_nonneg b : 0 <= active_batch b.
Proof. destruct b; simpl; lia. Qed.

Lemma drained_all_done n :
  node_inv cfg [] n -> n_in_flight n = 0 ->
  (forall w j, n_jobs n !! w = Some j -> is_finished (j_reporter j) = true) /\
  (forall i b, n_batches n !! i = Some b -> b = BDone).
Proof.
  intros HI' Hz. pose proof (i_count _ _ _ HI') as Hc.
  assert (0 <= list_Zsum alive (n_jobs n)) by (apply list_Zsum_nonneg; intros; apply alive_nonneg).
  assert (0 <= list_Zsum active_batch (n_batches n)) by (apply list_Zsum_nonneg; intros; apply active_batch_nonneg).
  split.
  - intros w j Hw. pose proof (list_Zsum_zero alive (n_jobs n) w j alive_nonneg ltac:(lia) Hw) as Ha.
    unfold alive in Ha. by destruct (is_finished (j_reporter j)).
  - intros i b Hb. pose proof (list_Zsum_zero active_batch (n_batches n) i b active_batch_nonneg ltac:(lia) Hb). by destruct b.
Qed.

(** C12. The node's state stays well formed over every run: the counter of reporters equals
    the reporters and batches that have not ended, every entry of the task map belongs to a
    job of that key, every unfinished job is held by its entry, by a cancellation or by a
    batch, and no reporter has sent anything but its own report. *)
Theorem node_stays_well_formed n :
  node_reachable cfg init n -> node_inv cfg [] n.
Proof. by apply reachable_node_inv. Qed.

(** C7. A node that has drained has lost no outcome: when the loop ends because it is closed
    and has nothing in flight, every task it ever started has ended, and its reporter has
    sent exactly the report of that end; it has sent none only where the coordinator
    cancelled the task, or where the reporter died and the main loop, a batch or a
    cancellation settled the task instead. *)
Theorem drained_node_lost_nothing n :
  node_reachable cfg init n -> n_point n = Exited Drained ->
  forall w j, n_jobs n !! w = Some j -> exists res,
    j_result j = Some res /\
    let report := report_for res (j_timed_out j) in
    sent_by w (n_log n) = report_rpcs cfg (j_key j) report /\
    (report = Nothing -> cancelled (j_key j) (n_log n)) /\
    (forall metadata, report = Complete metadata -> metadata_to_string metadata = None ->
       cancelled (j_key j) (n_log n) \/ Sent Main (fail_request cfg (j_key j) false) ∈ n_log n \/
       exists i, Sent (Batch i) (fail_request cfg (j_key j) true) ∈ n_log n).
Proof.
  intros HI'%reachable_node_inv Hp w j Hw; [|done].
  pose proof (i_point _ _ _ HI') as Hpo. unfold point_ok in Hpo. rewrite Hp in Hpo. destruct Hpo as (_ & Hte & Hz).
  destruct (drained_all_done n HI' Hz) as [Hrep Hbat]. pose proof (Hrep w j Hw) as Hfin.
  destruct (jl_decided _ _ _ _ (i_local _ _ _ HI' w j Hw)) as (res & Hr & Hs & Hfit & Hto & Hc); [by intros He; rewrite He in Hfin|].
  exists res. split; [done|]. cbv zeta. split_and!; [done| |].
  - intros Hn. destruct res as [[]|[[] []]]; cbn in Hn; destruct (j_timed_out j) eqn:Ht; try done. by apply Hc.
  - intros md Hmd Hnone. rewrite Hmd in Hfit. cbn in Hfit. rewrite Hnone in Hfit.
    destruct (i_owner _ _ _ HI' w j Hw) as [[(a & Ha & _)|[d Hd]]|[[_ Hout]|[_ Hm]]]; [by rewrite Hfit| | | |by right; left].
    + by rewrite Hte, lookup_empty in Ha.
    + by rewrite Hp in Hd.
    + destruct Hout as [?|[Hn|(i & b & Hb & Hk)]]; [by left|by apply not_elem_of_nil in Hn|].
      rewrite (Hbat i b Hb) in Hk. destruct Hk as [Hk|Hk]; [by apply not_elem_of_nil in Hk|]. eauto.
Qed.

(** C10. A node never works on the same task twice at a time: of two attempts at one task,
    at most one is neither finished nor told to abort, whatever redeliveries,
    cancellations and timeouts came before. *)
Theorem one_attempt_at_a_time n w w' j j' :
  node_reachable cfg init n -> n_jobs n !! w = Some j -> n_jobs n !! w' = Some j' ->
  j_key j = j_key j' -> j_result j = None -> j_result j' = None -> j_abort j = false -> j_abort j' = false ->
  w = w'.
Proof.
  intros HI'%reachable_node_inv Hw Hw' Hk Hr Hr' Ha Ha'; [|done].
  assert (Hheld : forall v i, n_jobs n !! v = Some i -> j_result i = None -> j_abort i = false -> holds n v i).
  { intros v i Hv Hi Hab. pose proof (local_result _ _ _ _ _ HI' Hv Hi) as Hwait.
    destruct (i_owner _ _ _ HI' v i Hv) as [?|[[? _]|[? _]]]; [by rewrite Hwait|done|congruence..]. }
  pose proof (i_point _ _ _ HI') as Hpo. unfold point_ok in Hpo.
  destruct (Hheld _ _ Hw Hr Ha) as [(a & Hka & <-)|[d Hd]]; destruct (Hheld _ _ Hw' Hr' Ha') as [(a' & Hka' & <-)|[d' Hd']].
  - rewrite Hk, Hka' in Hka. by simplify_eq.
  - rewrite Hd' in Hpo. destruct Hpo as [Hn _]. by rewrite Hk, Hn in Hka.
  - rewrite Hd in Hpo. destruct Hpo as [Hn _]. by rewrite <- Hk, Hn in Hka'.
  - rewrite Hd in Hd'. by injection Hd'.
Qed.

(** ** The sweep *)

(** No two entries share a job. *)
Definition distinct_works (n : node) : Prop :=
  forall k k' a a', n_tasks n !! k = Some a -> n_tasks n !! k' = Some a' -> a_work a = a_work a' -> k = k'.

Lemma inv_distinct_works n : node_inv cfg [] n -> distinct_works n.
Proof.
  intros HI' k k' a a' Ha Ha' Hw. destruct (i_entry _ _ _ HI' k a Ha) as (j & Hj & <-).
  destruct (i_entry _ _ _ HI' k' a' Ha') as (j' & Hj' & <-). rewrite Hw in Hj. by simplify_eq.
Qed.

(** What a pass of the sweep leaves of the node. *)
Definition same_rest (n n' : node) : Prop :=
  n_now n' = n_now n /\ n_locals n' = n_locals n /\ n_batches n' = n_batches n.

Lemma update_other w w' f n : w <> w' -> n_jobs (update_job w f n) !! w' = n_jobs n !! w'.
Proof. intros Hne. cbn. by rewrite list_lookup_alter_ne. Qed.

Lemma timed_out_pass ts n :
  NoDup ts -> distinct_works n -> let n' := foldl (fun n k => sweep_timed_out k n) n ts in
  same_rest n n' /\ n_tasks n' = n_tasks n /\
  forall k a j, n_tasks n !! k = Some a -> n_jobs n !! a_work a = Some j ->
    n_jobs n' !! a_work a = Some (if decide (k ∈ ts) then abort (stamp (n_now n) j) else j).
Proof.
  intros Hnd. revert n. induction Hnd as [|k ts Hk _ IH]; intros n Hd; cbn [foldl].
  - split_and!; [done..|]. intros k a j _ Hj. by rewrite decide_False by apply not_elem_of_nil.
  - assert (Hs : same_rest n (sweep_timed_out k n) /\ n_tasks (sweep_timed_out k n) = n_tasks n).
    { unfold sweep_timed_out. by destruct (n_tasks n !! k). }
    destruct Hs as [(H1 & H2 & H3) Ht]. destruct (IH (sweep_timed_out k n)) as ((G1 & G2 & G3) & G4 & G5).
    { intros k1 k2 a1 a2. rewrite !Ht. apply Hd. }
    split_and!; [split_and!; congruence|congruence|]. intros k' a j Ha Hj. rewrite H1 in G5. destruct (decide (k' = k)) as [->|Hne].
    + rewrite (G5 k a (abort (stamp (n_now n) j))); [|by rewrite Ht|].
      * by rewrite decide_False, decide_True by (done || by left).
      * unfold sweep_timed_out. rewrite Ha. cbn. by rewrite list_lookup_alter_eq, Hj.
    + rewrite (G5 k' a j); [|by rewrite Ht|].
      * destruct (decide (k' ∈ ts)); [by rewrite decide_True by (by right)|by rewrite decide_False by (rewrite elem_of_cons; tauto)].
      * unfold sweep_timed_out. destruct (n_tasks n !! k) as [a0|] eqn:Ha0; [|done]. rewrite update_other; [done|].
        intros He. by specialize (Hd _ _ _ _ Ha0 Ha He).
Qed.

Lemma wedged_pass_frame ws : forall acc, let acc' := foldl sweep_wedged acc ws in
  same_rest acc.2 acc'.2 /\ (forall k, n_tasks acc.2 !! k = None -> n_tasks acc'.2 !! k = None) /\
  (forall w, (forall k a, n_tasks acc.2 !! k = Some a -> a_work a <> w) -> n_jobs acc'.2 !! w = n_jobs acc.2 !! w).
Proof.
  induction ws as [|k ws IH]; intros acc; [done|]. cbn [foldl].
  destruct (IH (sweep_wedged acc k)) as ((H1 & H2 & H3) & H4 & H5). unfold sweep_wedged in H1, H2, H3, H4, H5 |- *.
  destruct (n_tasks acc.2 !! k) as [a|] eqn:Ha; [|by split_and!]. cbn [fst snd] in *. split_and!; [by split_and!|..].
  - intros k' Hk'. apply H4. cbn. rewrite lookup_delete_None. by right.
  - intros w Hw. rewrite H5; [apply update_other; eauto|]. intros k' a'. cbn. rewrite lookup_delete_Some. intros [_ ?]. eauto.
Qed.

Lemma wedged_pass ws : forall reports n,
  NoDup ws -> distinct_works n -> (forall k, k ∈ ws -> is_Some (n_tasks n !! k)) ->
  let acc := foldl sweep_wedged (reports, n) ws in
  acc.1 = reports ++ ws /\
  forall k a j, n_tasks n !! k = Some a -> n_jobs n !! a_work a = Some j ->
    n_tasks acc.2 !! k = (if decide (k ∈ ws) then None else Some a) /\
    n_jobs acc.2 !! a_work a = Some (if decide (k ∈ ws) then abort j else j).
Proof.
  induction ws as [|k ws IH]; intros reports n Hnd Hd Hin; cbn [foldl fst snd].
  - split_and!; [by rewrite app_nil_r|]. intros k a j Ha Hj. by rewrite !decide_False by apply not_elem_of_nil.
  - inv Hnd. destruct (Hin k) as [a0 Ha0]; [by left|].
    set (n1 := set_tasks (delete k (n_tasks n)) (update_job (a_work a0) abort n)).
    assert (Hs : sweep_wedged (reports, n) k = (reports ++ [k], n1)) by (unfold sweep_wedged; cbn [fst snd]; by rewrite Ha0).
    rewrite Hs. clear Hs. assert (Hlk : forall k', k' <> k -> n_tasks n1 !! k' = n_tasks n !! k') by (intros; cbn; by rewrite lookup_delete_ne).
    destruct (IH (reports ++ [k]) n1) as (G2 & G3); [done|..].
    { intros k1 k2 a1 a2. cbn. rewrite !lookup_delete_Some. intros [_ ?] [_ ?]. eauto. }
    { intros k' Hk'. rewrite Hlk; [apply Hin; by right|]. by intros ->. }
    split_and!; [by rewrite G2, <- app_assoc|]. intros k' a j Ha Hj. destruct (decide (k' = k)) as [->|Hne].
    + rewrite Ha in Ha0. injection Ha0 as <-. rewrite !decide_True by (by left).
      destruct (wedged_pass_frame ws (reports ++ [k], n1)) as (_ & F1 & F2). cbn [fst snd] in F1, F2. split.
      * apply F1. cbn. apply lookup_delete_eq.
      * rewrite F2; [cbn; by rewrite list_lookup_alter_eq, Hj|]. intros k2 a2. cbn. rewrite lookup_delete_Some.
        intros [Hne Ha2] He. by specialize (Hd _ _ _ _ Ha Ha2 (eq_sym He)).
    + assert (Hj1 : n_jobs n1 !! a_work a = Some j).
      { unfold n1. cbn [n_jobs set_tasks]. rewrite update_other; [done|]. intros He. by specialize (Hd _ _ _ _ Ha0 Ha He). }
      specialize (G3 k' a j ltac:(by rewrite Hlk) Hj1). destruct (decide (k' ∈ ws)).
      * by rewrite !decide_True by (by right).
      * by rewrite !decide_False by (rewrite elem_of_cons; tauto).
Qed.

Lemma NoDup_scan v n : NoDup (scan cfg v n).
Proof. apply NoDup_iter_keys. Qed.

Lemma elem_of_scan_iff v n k : k ∈ scan cfg v n <-> verdict_of cfg n k = v /\ is_Some (n_tasks n !! k).
Proof. unfold scan. by rewrite elem_of_iter_keys, elem_of_list_to_set, list_elem_of_filter, elem_of_elements, elem_of_dom. Qed.


(** ** Close before fail *)

Definition closes (log : list action) : Prop := exists from, Sent from (Serve.Close (worker_id cfg)) ∈ log.
Definition of_batch (a : action) : Prop := exists i r, a = Sent (Batch i) r.

(** A step that neither acknowledges a close nor speaks for a batch; it may spawn one. *)
Definition quietly (n n' : node) : Prop :=
  n_close_acked n' = n_close_acked n /\ (exists bs, n_batches n' = n_batches n ++ (BStart <$> bs)) /\
  exists l, n_log n' = n_log n ++ l /\ Forall (fun a => ~ of_batch a) l.

Lemma quietly_refl n : quietly n n.
Proof. split_and!; [done|exists []|exists []]; by rewrite app_nil_r. Qed.

Lemma quietly_trans n1 n2 n3 : quietly n1 n2 -> quietly n2 n3 -> quietly n1 n3.
Proof.
  intros (H1 & (b1 & H2) & l1 & H3 & F1) (G1 & (b2 & G2) & l2 & G3 & F2). split_and!; [congruence|exists (b1 ++ b2)|exists (l1 ++ l2)].
  - by rewrite G2, H2, fmap_app, app_assoc.
  - rewrite G3, H3, app_assoc. split; [done|by apply Forall_app].
Qed.

Lemma quietly_same n n' :
  n_close_acked n' = n_close_acked n -> n_batches n' = n_batches n -> n_log n' = n_log n -> quietly n n'.
Proof. intros H1 H2 H3. split_and!; [done|exists []|exists []]; by rewrite app_nil_r. Qed.

Lemma quietly_say n n' a :
  n_close_acked n' = n_close_acked n -> n_batches n' = n_batches n -> n_log n' = n_log n ++ [a] -> ~ of_batch a -> quietly n n'.
Proof.
  intros H1 H2 H3 Ha. split_and!; [done|exists []; by rewrite app_nil_r|exists [a]]. split; [done|by repeat constructor].
Qed.

Ltac quiet := first [by apply quietly_same | eapply quietly_say; [reflexivity..|by intros (? & ? & ?)]].

Lemma sweep_rest_quiet ts ws n : quietly n (sweep_rest ts ws n).
Proof.
  unfold sweep_rest.
  assert (H1 : quietly n (foldl (fun n k => sweep_timed_out k n) n ts)).
  { revert n. induction ts as [|k ts IH]; intros n; [apply quietly_refl|]. cbn. eapply quietly_trans; [|apply IH].
    unfold sweep_timed_out. destruct (n_tasks n !! k); quiet. }
  set (n1 := foldl _ n ts) in *.
  assert (H2 : forall acc, quietly acc.2 (foldl sweep_wedged acc ws).2).
  { induction ws as [|k ws IH]; intros acc; [apply quietly_refl|]. cbn [foldl]. eapply quietly_trans; [|apply IH].
    unfold sweep_wedged. destruct (n_tasks acc.2 !! k); quiet. }
  specialize (H2 ([], n1)). destruct (foldl sweep_wedged ([], n1) ws) as [reports n2]. cbn in H2.
  eapply quietly_trans; [exact H1|]. eapply quietly_trans; [exact H2|]. destruct reports as [|k ks]; [quiet|].
  split_and!; [done|by exists [k :: ks]|exists []]. by rewrite app_nil_r.
Qed.

Lemma sweep_panicked_quiet ps ts ws n : quietly n (sweep_panicked cfg ps ts ws n).
Proof.
  revert n. induction ps as [|k ps IH]; intros n; cbn [sweep_panicked]; [apply sweep_rest_quiet|].
  destruct (n_tasks n !! k) as [a|]; [|apply IH]. cbn [n_jobs set_tasks].
  destruct (n_jobs n !! a_work a) as [[? ? ? ? ? []]|]; try (eapply quietly_trans; [|apply IH]; quiet). quiet.
Qed.

Lemma watchdog_quiet n : quietly n (watchdog cfg init n).
Proof.
  assert (Hw : forall n b, quietly n (watch_channel cfg init b n)).
  { intros m b. unfold watch_channel. destruct (_ && _ && _); [quiet|]. destruct (secs 10 <? _); [quiet|apply sweep_panicked_quiet]. }
  unfold watchdog. eapply (quietly_trans _ (set_last_tick (n_now n) n)); [quiet|].
  destruct (_ && _); [quiet|]. destruct (l_drain_started_at _); [|apply Hw]. destruct (_ <? _); [quiet|].
  case_bool_decide; [apply Hw|]. eapply quietly_trans; [|apply Hw]. quiet.
Qed.

Lemma recv_quiet n n' : recv cfg init n = Some n' -> quietly n n'.
Proof.
  unfold recv. destruct (n_queue n) as [|m q]; [destruct (n_open n); [done|]; intros [= <-]; quiet|]. intros [= <-].
  unfold on_message. set (n1 := set_last_progress _ _). assert (H1 : quietly n n1) by quiet.
  eapply quietly_trans; [exact H1|]. destruct m as [tid data md|pid tid|].
  - unfold on_new_task. destruct (l_closed _); [quiet|]. destruct (bool_decide _); quiet.
  - unfold on_cancel_task. destruct (n_tasks n1 !! _); quiet.
  - unfold on_server_heartbeat. destruct (is_stale _ _); quiet.
Qed.

(** Every failure a batch reports comes after a close. *)
Definition after_close (log : list action) : Prop :=
  forall l1 i k l2, log = l1 ++ Sent (Batch i) (fail_request cfg k true) :: l2 -> closes l1.

Record close_inv (n : node) : Prop := {
  cl_acked : n_close_acked n = true -> closes (n_log n);
  cl_batch : forall i b, n_batches n !! i = Some b -> (forall keys, b <> BStart keys) -> closes (n_log n);
  cl_order : after_close (n_log n);
}.

Lemma closes_app l1 l2 : closes l1 -> closes (l1 ++ l2).
Proof. intros [s Hs]. exists s. apply elem_of_app. by left. Qed.

Lemma after_close_snoc log a :
  after_close log -> (forall i k, a = Sent (Batch i) (fail_request cfg k true) -> closes log) -> after_close (log ++ [a]).
Proof.
  intros Ho Ha l1 i k l2 He. destruct l2 as [|b l2 _] using rev_ind.
  - apply app_inj_tail in He as [<- ->]. eauto.
  - rewrite app_comm_cons, app_assoc in He. apply app_inj_tail in He as [-> _]. eauto.
Qed.

Lemma after_close_app log l : after_close log -> Forall (fun a => ~ of_batch a) l -> after_close (log ++ l).
Proof.
  intros Ho Hl. revert log Ho. induction Hl as [|a l Ha _ IH]; intros log Ho; [by rewrite app_nil_r|].
  rewrite cons_middle, app_assoc. apply IH. apply after_close_snoc; [done|]. intros i k ->. destruct Ha. by eexists _, _.
Qed.

Lemma quietly_close n n' : close_inv n -> quietly n n' -> close_inv n'.
Proof.
  intros [H1 H2 H4] (G1 & (bs & G2) & l & G3 & G4). constructor.
  - rewrite G1, G3. intros. by apply closes_app, H1.
  - intros i b. rewrite G2, G3. intros [Hb|[_ Hb]]%lookup_app_Some Hns; [by eapply closes_app, H2|].
    rewrite list_lookup_fmap in Hb. destruct (bs !! _) eqn:E; [|done]. cbn in Hb. injection Hb as <-. by destruct (Hns l0).
  - rewrite G3. by apply after_close_app.
Qed.

(** A step of batch [i] that logs one action, after a close unless it is the close. *)
Lemma batch_step_close n n' i b :
  close_inv n -> n_batches n' = <[i := b]> (n_batches n) ->
  (n_log n' = n_log n /\ closes (n_log n)) \/
  (exists a, n_log n' = n_log n ++ [a] /\ (a = Sent (Batch i) (Serve.Close (worker_id cfg)) \/ closes (n_log n))) ->
  (n_close_acked n' = true -> closes (n_log n')) -> close_inv n'.
Proof.
  intros [H1 H2 H4] Hb Hl Hack. assert (Hcl : closes (n_log n')).
  { destruct Hl as [[-> ?]|(a & -> & [->|?])]; [done| |by apply closes_app]. exists (Batch i). set_solver. }
  constructor; [done|done|]. destruct Hl as [[-> ?]|(a & -> & Ha)]; [done|].
  apply after_close_snoc; [done|]. intros i' k ->. by destruct Ha as [?|?].
Qed.

Lemma batch_next_close n i keys b0 :
  close_inv n -> closes (n_log n) -> n_batches n !! i = Some b0 -> close_inv (batch_next cfg i keys n).
Proof.
  intros Hc Hcl Hb. destruct keys as [|k keys]; cbn.
  - eapply batch_step_close; [exact Hc|done|by left|]. intros ?. by apply Hc.
  - eapply batch_step_close; [exact Hc|done|right; eexists; split; [done|by right]|]. intros ?. by apply closes_app.
Qed.

Lemma main_reply_close n ok n' :
  node_inv cfg [] n -> close_inv n -> main_reply cfg init ok n = Some n' -> close_inv n'.
Proof.
  intros HI' Hc Hs. pose proof (i_point _ _ _ HI') as Hpo. unfold point_ok in Hpo. unfold main_reply in Hs.
  destruct (n_point n) as [| | |k d w| |b| |ps ts ws| |e] eqn:Hp; try done.
  - destruct ok; injection Hs as <-; apply (quietly_close n); [done|quiet|done|quiet].
  - injection Hs as <-. apply (quietly_close n); [done|quiet].
  - injection Hs as <-. apply (quietly_close n); [done|quiet].
  - destruct ok; injection Hs as <-; [|apply (quietly_close n); [done|quiet]].
    destruct b; (apply (quietly_close n); [done|]); [|quiet].
    eapply quietly_trans; [|apply sweep_panicked_quiet]. quiet.
  - injection Hs as <-. apply (quietly_close n); [done|quiet].
  - injection Hs as <-. apply (quietly_close n); [done|apply sweep_panicked_quiet].
  - injection Hs as <-. destruct Hpo as [_ Hsent]. unfold on_closed. set (n1 := if _ && _ then _ else _).
    assert (close_inv n1).
    { unfold n1. destruct (_ && _); [|done]. destruct Hc as [H1 H2 H4]. constructor; try done. intros _. by exists Main. }
    destruct (is_drained n1); (apply (quietly_close n1); [done|quiet]).
Qed.

Lemma batch_close n i ok n' :
  close_inv n -> batch_init cfg i n = Some n' \/ batch_reply cfg i ok n = Some n' -> close_inv n'.
Proof.
  intros Hc [Hs|Hs].
  - unfold batch_init in Hs. destruct (n_batches n !! i) as [[keys|keys|keys|]|] eqn:Hb; try done.
    destruct (n_close_acked n) eqn:Hk; [injection Hs as <-; eapply batch_next_close; eauto; by apply Hc|].
    destruct (existsb _ _); [done|]. injection Hs as <-.
    eapply batch_step_close; [exact Hc|done|right; eexists; split; [done|by left]|]. intros ?. exists (Batch i). set_solver.
  - unfold batch_reply in Hs. destruct (n_batches n !! i) as [[keys|keys|[|k keys]|]|] eqn:Hb; try done; injection Hs as <-.
    + assert (closes (n_log n)) by (by eapply (cl_batch _ Hc)).
      destruct ok; eapply batch_next_close; eauto. destruct Hc. by constructor.
    + eapply batch_next_close; eauto. by eapply (cl_batch _ Hc).
Qed.

Lemma step_close n e n' : node_inv cfg [] n -> close_inv n -> step cfg init n e = Some n' -> close_inv n'.
Proof.
  intros HI' Hc Hs. assert (Hq : quietly n n' -> close_inv n') by (by apply quietly_close).
  destruct e as [d|m| | | | | | |ok|w r|w|w|i|i ok| | |landed|]; cbn in Hs.
  - destruct (0 <=? d); [|done]. injection Hs as <-. apply Hq. quiet.
  - destruct (n_open n); [|done]. injection Hs as <-. apply Hq. quiet.
  - injection Hs as <-. apply Hq. quiet.
  - destruct (at_select n); [|done]. by apply Hq, recv_quiet.
  - destruct (n_point n); try done. injection Hs as <-. apply Hq. quiet.
  - destruct (_ && _); [|done]. injection Hs as <-. apply Hq, watchdog_quiet.
  - injection Hs as <-. apply Hq. quiet.
  - destruct (_ && _); [|done]. injection Hs as <-. apply Hq. quiet.
  - by eapply main_reply_close.
  - unfold work_ends in Hs. destruct (n_jobs n !! w) as [j|]; [|done]. apply Hq.
    assert (n' = update_job w (set_result r) n) as -> by (destruct (j_result j), r as [[]|]; try destruct (j_abort j); by simplify_eq).
    quiet.
  - destruct (n_jobs n !! w) as [j|]; [|done]. cbn in Hs. unfold reporter_decide in Hs.
    destruct (j_result j) as [res|]; [|done]. destruct (j_reporter j); try done. injection Hs as <-. apply Hq.
    destruct (report_for _ _) as [md|b|]; [destruct (metadata_to_string md)|..]; quiet.
  - destruct (n_jobs n !! w) as [j|]; [|done]. cbn in Hs. unfold reporter_advance in Hs.
    destruct (j_reporter j); try done; injection Hs as <-; apply Hq; quiet.
  - by eapply (batch_close n i true); eauto.
  - by eapply batch_close; eauto.
  - unfold thread_connected in Hs. destruct (n_thread n); try done. injection Hs as <-. apply Hq. quiet.
  - unfold thread_tick in Hs. destruct (n_thread n); try done. destruct (stopped n); [done|]. injection Hs as <-. apply Hq. quiet.
  - unfold thread_reply in Hs. destruct (n_thread n); try done. injection Hs as <-. apply Hq. quiet.
  - unfold thread_exit in Hs. destruct (n_thread n); try done; injection Hs as <-; apply Hq; destruct (_ && _); quiet.
Qed.

End props.
