(* ===== verification/NodeSync.v ===== *)
(** * Worker node and coordinator together

    One exchange of a heartbeat between the node of Node.v and the coordinator of
    Coordinator.v: the request the node builds, the handler, the messages it puts into the
    worker's stream, and the node that takes them. *)
From stdpp Require Import base gmap strings list.
From S2P Require Import Prelude Proto TaskChannel CoordState Coordinator AssignSpec Capacity CoordInv PolicyQueue DefaultPolicy CoordSteps CoordLifecycle HandlerFacts Reach Demo HandlerProps Server Node NodeInv.
Local Open Scope string_scope.
Local Open Scope list_scope.
Local Open Scope Z_scope.
Import Nd.

Lemma sends_same ch ms n mb :
  boxes n !! ch = Some mb -> rx_open mb = true ->
  boxes (sends ch ms n) !! ch = Some (mkMailbox (sent mb ++ ms) true).
Proof.
  revert n mb. induction ms as [|m ms IH]; intros n mb Hmb Ho; cbn [sends foldl].
  - rewrite app_nil_r. by destruct mb; simplify_eq/=.
  - change (foldl _ (send_ ch m n) ms) with (sends ch ms (send_ ch m n)).
    rewrite (IH (send_ ch m n) (mkMailbox (sent mb ++ [m]) true)); [|by rewrite (send_same _ _ _ _ Hmb), Ho|done].
    cbn. by rewrite <- app_assoc.
Qed.

Section sync.
Context `{EO : ClusterEnvOk} {PT : PolicyTypes} {AP : AssignmentPolicy} {L : PolicyLaws AP} {TM : TaskMetadataJson}.
Context (W : Z) (HW : 0 <= W) (cfg : NodeConfig) (init : Serve.OpenRequest).

(** The node takes messages from its stream, one after the other, and inserts what it
    starts. *)
Definition take_msg (m : ServerMessage) : list event := [Deliver m; Recv; Insert].
Definition take_all (ms : list ServerMessage) : list event := ms ≫= take_msg.

(** A node that waits for messages. *)
Definition ready (n : node) : Prop :=
  n_point n = Select /\ n_queue n = [] /\ n_open n = true /\ l_closed (n_locals n) = false.

Lemma exec_app n es1 es2 : exec cfg init n (es1 ++ es2) = exec cfg init (exec cfg init n es1) es2.
Proof. apply foldl_app. Qed.

Lemma exec_take n m :
  ready n -> exists n0, n_tasks n0 = n_tasks n /\ ready n0 /\
    exec cfg init n (take_msg m)
    = let n1 := on_message cfg m n0 in
      match n_point n1 with Spawned k data w => insert_task k data w n1 | _ => n1 end.
Proof.
  intros (Hp & Hq & Ho & Hc). exists (set_queue [] (set_queue [m] n)). split; [done|]. split; [by split_and!|].
  assert (H1 : step cfg init n (Deliver m) = Some (set_queue [m] n)) by (cbn; by rewrite Ho, Hq).
  assert (H2 : step cfg init (set_queue [m] n) Recv = Some (on_message cfg m (set_queue [] (set_queue [m] n)))).
  { cbn. unfold at_select. cbn. by rewrite Hp. }
  unfold exec, take_msg. cbn [foldl]. rewrite H1. cbn [default from_option id]. rewrite H2. cbn [default from_option id].
  set (n1 := on_message _ _ _). cbn [step]. by destruct (n_point n1).
Qed.

Lemma take_cancel n k :
  ready n -> let n' := exec cfg init n (take_msg (CancelTask k.1 k.2)) in
  ready n' /\ dom (n_tasks n') = dom (n_tasks n) ∖ {[k]}.
Proof.
  intros Hr. destruct (exec_take n (CancelTask k.1 k.2) Hr) as (n0 & Ht & (Hp & Hq & Ho & Hc) & ->).
  unfold on_message. set (n1 := set_last_progress _ _). unfold on_cancel_task. cbn [n_tasks n1]. change (n_tasks n1) with (n_tasks n0).
  rewrite Ht, <- surjective_pairing. destruct (n_tasks n !! k) as [a|] eqn:Ha; cbn; rewrite Hp; cbn.
  - split; [done|]. by rewrite ?Ht, dom_delete_L.
  - split; [done|]. apply not_elem_of_dom in Ha. rewrite Ht. set_solver.
Qed.

Lemma take_new n tid data md :
  ready n -> let n' := exec cfg init n (take_msg (NewTask tid data md)) in
  ready n' /\ dom (n_tasks n') = {[(proof_id data, tid)]} ∪ dom (n_tasks n).
Proof.
  intros Hr. destruct (exec_take n (NewTask tid data md) Hr) as (n0 & Ht & (Hp & Hq & Ho & Hc) & ->).
  unfold on_message. set (n1 := set_last_progress _ _). unfold on_new_task.
  change (l_closed (n_locals n1)) with (l_closed (n_locals n0)). rewrite Hc. change (n_tasks n1) with (n_tasks n0). rewrite Ht.
  case_bool_decide as Hk; cbn; rewrite ?Hp; cbn; rewrite Ht; (split; [done|]).
  - apply elem_of_dom in Hk. set_solver.
  - by rewrite dom_insert_L.
Qed.

Lemma take_cancels l : forall n,
  ready n -> let n' := exec cfg init n (take_all ((fun k => CancelTask k.1 k.2) <$> l)) in
  ready n' /\ dom (n_tasks n') = dom (n_tasks n) ∖ list_to_set l.
Proof.
  induction l as [|k l IH]; intros n Hr; cbn zeta.
  - cbn. split; [done|set_solver].
  - change (take_all _) with (take_msg (CancelTask k.1 k.2) ++ take_all ((fun k => CancelTask k.1 k.2) <$> l)). rewrite exec_app.
    destruct (take_cancel n k Hr) as [H1 H2]. destruct (IH _ H1) as [H3 H4]. split; [done|]. rewrite H4, H2. set_solver.
Qed.

(** Tasks sent again, under the keys they are filed under. *)
Lemma take_resends (f : key -> option ServerMessage) l : forall n,
  ready n -> (forall k, k ∈ l -> exists tid data md, f k = Some (NewTask tid data md) /\ k = (proof_id data, tid)) ->
  let n' := exec cfg init n (take_all (omap f l)) in
  ready n' /\ dom (n_tasks n') = dom (n_tasks n) ∪ list_to_set l.
Proof.
  induction l as [|k l IH]; intros n Hr Hf; cbn zeta.
  - cbn. split; [done|set_solver].
  - destruct (Hf k) as (tid & data & md & Hk & ->); [by left|]. cbn [omap list_omap]. rewrite Hk.
    change (take_all _) with (take_msg (NewTask tid data md) ++ take_all (omap f l)). rewrite exec_app.
    destruct (take_new n tid data md Hr) as [H1 H2]. destruct (IH _ H1) as [H3 H4]; [intros; apply Hf; by right|].
    split; [done|]. rewrite H4, H2. set_solver.
Qed.

Lemma zip_fst_snd (l : list key) : zip l.*1 l.*2 = l.
Proof. induction l as [|[p t] l IH]; cbn; [done|]. by rewrite IH. Qed.

End sync.
