(* ===== verification/NodeWitness.v ===== *)
(** * Concrete runs of the worker node

    A node that takes a task, finishes it and drains; one whose task ignores its abort; and
    one that runs a task the coordinator has not assigned to it. *)
From stdpp Require Import base gmap strings list.
From S2P Require Import Prelude Proto TaskChannel CoordState Coordinator AssignSpec Capacity CoordInv PolicyQueue DefaultPolicy CoordSteps CoordLifecycle HandlerFacts Reach Demo HandlerProps Server Node NodeInv NodeProps NodeSync.
Local Open Scope string_scope.
Local Open Scope list_scope.
Local Open Scope Z_scope.
Import Nd.

#[local] Existing Instance demo_env.
#[local] Existing Instance Default.types.
#[local] Existing Instance Default.policy.
#[local] Instance demo_metadata : TaskMetadataJson := {| Metadata := Z; metadata_to_string := fun _ => Some "{}" |}.

Definition demo_cfg : NodeConfig := mkNodeConfig "w1" All "http://c" None "c" DEFAULT_TASK_TIMEOUT DEFAULT_DRAIN_TIMEOUT None.
Definition demo_init : Serve.OpenRequest := Serve.mkOpen "w1" All 64 "1" "sha" "" "" 0 None.
Definition demo_boot : node := start_open demo_init Boot (boot 0).

Lemma exec_reachable es : forall n, node_reachable demo_cfg demo_init n -> node_reachable demo_cfg demo_init (exec demo_cfg demo_init n es).
Proof.
  induction es as [|e es IH]; intros n Hn; [done|]. cbn [exec foldl]. apply IH.
  destruct (step demo_cfg demo_init n e) as [n'|] eqn:He; [by eapply node_step|done].
Qed.

Lemma run_reachable es : node_reachable demo_cfg demo_init (exec demo_cfg demo_init demo_boot es).
Proof. apply exec_reachable, node_boot. Qed.

(** A task received, done and reported; then the shutdown signal. *)
Definition serve_one : list event := [Reply true; Deliver (NewTask "t1" demo_shard ""); Recv; Insert].
Definition drained_run : list event :=
  serve_one ++ [WorkEnds 0 (inr (Succeeded, Some 7)); ReporterDecides 0; ReporterMoves 0; ReporterMoves 0; ReporterMoves 0;
    TokenFires; TakeToken; Reply true].
Definition drained_node : node := exec demo_cfg demo_init demo_boot drained_run.

Lemma drained_node_lost_nothing_witness : exists j res, n_jobs drained_node !! 0%nat = Some j /\
  j_result j = Some res /\ sent_by 0 (n_log drained_node) = [complete_request demo_cfg ("p1", "t1") "{}"].
Proof.
  destruct (n_jobs drained_node !! 0%nat) as [j|] eqn:Hj; [|vm_compute in Hj; discriminate Hj].
  destruct (drained_node_lost_nothing demo_cfg demo_init drained_node (run_reachable drained_run)
    ltac:(vm_compute; reflexivity) 0%nat j Hj) as (res & Hres & Hs & _).
  exists j, res. split; [reflexivity|]. split; [exact Hres|]. rewrite Hs. clear Hs.
  vm_compute in Hj. injection Hj as <-. injection Hres as <-. vm_compute. reflexivity.
Defined.

Lemma node_stays_well_formed_witness : node_inv demo_cfg [] drained_node.
Proof. apply (node_stays_well_formed demo_cfg demo_init drained_node (run_reachable drained_run)). Defined.

(** A task delivered again after its cancellation, while the first attempt still runs. *)
Definition redelivered : node :=
  exec demo_cfg demo_init demo_boot
    (serve_one ++ [Deliver (CancelTask "p1" "t1"); Recv; Deliver (NewTask "t1" demo_shard ""); Recv; Insert]).

Lemma one_attempt_at_a_time_witness :
  (exists j0 j1, n_jobs redelivered !! 0%nat = Some j0 /\ n_jobs redelivered !! 1%nat = Some j1 /\
     j_key j0 = j_key j1 /\ j_result j0 = None /\ j_result j1 = None /\ j_abort j0 = true /\ j_abort j1 = false) /\
  forall w j, n_jobs redelivered !! w = Some j -> j_key j = ("p1", "t1") -> j_result j = None -> j_abort j = false -> w = 1%nat.
Proof.
  split; [by eexists _, _; split_and!; vm_compute; reflexivity|].
  intros w j Hw Hk Hr Ha.
  destruct (n_jobs redelivered !! 1%nat) as [j1|] eqn:Hj1; [|vm_compute in Hj1; discriminate Hj1].
  apply (one_attempt_at_a_time demo_cfg demo_init redelivered w 1%nat j j1 (run_reachable _) Hw Hj1);
    try assumption; vm_compute in Hj1; injection Hj1 as <-; [exact Hk|reflexivity..].
Defined.

(** A task past its timeout; then past the grace of its abort. *)
Definition overdue : node :=
  exec demo_cfg demo_init demo_boot (serve_one ++ [Advance (DEFAULT_TASK_TIMEOUT + 1000)]).
Definition wedged_run : list event :=
  serve_one ++ [Advance (DEFAULT_TASK_TIMEOUT + 1000); Tick; Reply true;
    Deliver ServerHeartbeat; Recv; Reply true; Advance 11000; Deliver ServerHeartbeat; Recv; Reply true; Tick;
    BatchInit 0; BatchReply 0 true].
Definition wedged_node : node := exec demo_cfg demo_init demo_boot wedged_run.



(** The worker of a coordinator's run still runs an old task, and has not heard of the one
    it was assigned. *)
Definition assigned0 : Coordinator := (run OpenWorkerChannel demo0).2.
Definition assigned1 : Coordinator := (run (CreateProof demo_req) assigned0).2.
Definition assigned2 : Coordinator := (run (AddWorker "w1" All 64 0%nat demo_identity) assigned1).2.

Lemma assigned2_reachable : reachable demo_W assigned2.
Proof.
  apply reach_step; [|vm_compute; split; intros H; discriminate H].
  apply reach_step; [|vm_compute; split; intros H; discriminate H].
  apply reach_step; [apply reach_init|exact I].
Qed.

Definition stray_node : node :=
  exec demo_cfg demo_init demo_boot [Reply true; Deliver (NewTask "task_9" (mkTaskData ProveShard [] [] "{}" "p9" None 4 "0x1") ""); Recv; Insert].

