(* ===== verification/WorkerClient.v ===== *)
(** * The worker's client of the coordinator

    [crates/worker/src/client.rs]: the retry policies, the requests each method sends, the
    pump behind [open], the task-message stream with its reconnects, and the subscriber
    with its two tasks. The stream and the subscriber are step machines whose events are
    what the server, the connection and the caller do. *)
From stdpp Require Import base gmap strings list.
From S2P Require Import Prelude Proto TaskChannel CoordState Coordinator AssignSpec Capacity CoordInv CoordSteps Reach Server ApiStore.
Local Open Scope string_scope.
Local Open Scope list_scope.
Local Open Scope Z_scope.

Module Wc.

(** ** Retries

    An attempt is answered by the server, loses its answer after the server has acted, or
    never arrives. [backoff::future::retry] goes on after a transient error while the
    policy allows another attempt; the attempts it allows are the list. *)
Inductive attempt := Answered | LostReply (e : Status) | Refused (e : Status).

Section calls.
Context `{E : ClusterEnv} {PT : PolicyTypes} {AP : AssignmentPolicy} {MC : Serve.MetadataCodec}.

Definition once (a : attempt) (r : Serve.rpc) (s : Serve.Service) : outcome Serve.response * Serve.Service :=
  match a with
  | Answered => Serve.serve r s
  | LostReply e => (Err e, (Serve.serve r s).2)
  | Refused e => (Err e, s)
  end.

Fixpoint retry (a : attempt) (more : list attempt) (r : Serve.rpc) (s : Serve.Service) : outcome Serve.response * Serve.Service :=
  match once a r s, more with
  | (Err e, s), a' :: more' => if is_transient (code e) then retry a' more' r s else (Err e, s)
  | res, _ => res
  end.
End calls.

(** ** Requests *)

(** [WorkerServiceClient], without the connection. *)
Record Client := mkClient {
  worker_id : string;
  worker_type : WorkerType;
  location : option string;
}.

(** What [open] reads besides: the weight of limiter.rs, the build, [IMAGE_TAG] and the GPU. *)
Record Host := mkHost {
  max_weight : Z;
  version : string;
  git_sha : string;
  image_tag : option string;
  gpu_identity : string * Z;
}.

Definition open_request (c : Client) (h : Host) : Serve.OpenRequest :=
  Serve.mkOpen (worker_id c) (worker_type c) (Int.wrap u32 (max_weight h)) (version h) (git_sha h)
    (default "" (image_tag h)) (gpu_identity h).1 (gpu_identity h).2 (location c).

Definition close (c : Client) : Serve.rpc := Serve.Close (worker_id c).
Definition complete_task (c : Client) (proof_id task_id metadata : string) : Serve.rpc :=
  Serve.CompleteTask (worker_id c) proof_id task_id metadata.
Definition fail_task (c : Client) (proof_id task_id : string) (retryable : bool) : Serve.rpc :=
  Serve.FailTask (worker_id c) proof_id task_id retryable.

(** [RawTaskRequest] with its [TaskContext]; the metadata is the tracing context as JSON. *)
Record RawTaskRequest := mkRaw {
  raw_inputs : list string;
  raw_outputs : list string;
  raw_proof_id : string;
  raw_parent_id : option string;
  raw_requester_id : string;
}.

Definition submit_task (ws : Weights) (t : TaskType) (task : RawTaskRequest) (metadata : string) : Serve.rpc :=
  Serve.CreateTask (Some (mkTaskData t (raw_inputs task) (raw_outputs task) metadata (raw_proof_id task)
    (raw_parent_id task) (Int.wrap u32 (task_weight ws t)) (raw_requester_id task))).

(** [worker_task_to_raw_task_request]. *)
Definition worker_task_to_raw_task_request (d : TaskData) : RawTaskRequest :=
  mkRaw (inputs d) (outputs d) (proof_id d) (parent_id d) (requester d).

Definition complete_proof (proof_id : string) (task_id : option string) (status : ProofRequestStatus) (extra_data : string)
    : Serve.rpc :=
  let extra := if decide (extra_data = "") then None else Some extra_data in
  match status with
  | PrCompleted => Serve.CompleteProof proof_id extra
  | _ => Serve.FailProof proof_id task_id extra
  end.

(** ** The pump of [open]

    Items of the inbound stream up to the first error or empty message. *)
Fixpoint pump (inbound : list (Status + option ServerMessage)) : list ServerMessage :=
  match inbound with
  | inr (Some m) :: rest => m :: pump rest
  | _ => []
  end.

(** ** The task-message stream *)

(** What [inbound.next()] yields: a response, whose message may be missing; an error; or
    the end of the stream. *)
Inductive item := Response (m : option StreamMessage) | StreamError (e : Status) | StreamEnd.

(** [drive_message_stream] between two items: the count and what went to the caller. *)
Record drive := mkDrive { forwarded : nat; delivered : list (list Z) }.
Definition drive_init : drive := mkDrive 0 [].

Inductive verdict := Continue | Reconnect | Break.

(** One item. [tx_open] is whether the caller still holds its receiver; the count grows
    before the send is tried. *)
Definition on_item (tx_open : bool) (i : item) (d : drive) : verdict * drive :=
  match i with
  | Response (Some (Payload data)) =>
      if tx_open then (Continue, mkDrive (S (forwarded d)) (delivered d ++ [data]))
      else (Break, mkDrive (S (forwarded d)) (delivered d))
  | Response (Some EndOfStream) | Response None => (Break, d)
  | StreamError _ | StreamEnd => (Reconnect, d)
  end.

(** The loop over a list of streams: the first, then what each reconnect yields, with the
    offset it asked for. *)
Fixpoint drive_items (items : list item) (d : drive) : verdict * drive :=
  match items with
  | [] => on_item true StreamEnd d
  | i :: items =>
      match on_item true i d with
      | (Continue, d) => drive_items items d
      | r => r
      end
  end.

Fixpoint drive_message_stream (inbound : list item) (reconnects : list (nat -> option (list item))) (d : drive) : drive :=
  match drive_items inbound d, reconnects with
  | (Reconnect, d), reconnect :: rest =>
      match reconnect (forwarded d) with
      | Some inbound => drive_message_stream inbound rest d
      | None => d
      end
  | (_, d), _ => d
  end.

(** *** Against the coordinator's channel

    [subscribe_task_messages]: a subscription at offset 0, and reconnects at the number of
    messages forwarded, to the task channel of TaskChannel.v, which goes on living in
    between. *)
Inductive phase := Streaming | Lost | Complete | Stopped.

Record session := mkSession {
  q_chan : chan_run;
  q_rx : nat;
  q_read : nat;
  q_drive : drive;
  q_phase : phase;
  q_tx_open : bool;
}.

Inductive session_event :=
  | Server (o : chan_op)
  | Next
  | Fails (i : item)
  | Reopen (ok : bool)
  | CallerGone.

(** The receiver an [OpAttach] creates. *)
Definition attach_at (k : nat) (r : chan_run) : nat * chan_run := (next_chan (run_net r), chan_exec r (OpAttach k)).

Definition session_start (r : chan_run) : session :=
  let (rx, r) := attach_at 0 r in mkSession r rx 0 drive_init Streaming true.

(** Other clients come and go; the client's own receiver is only dropped by itself. *)
Definition foreign (q : session) (o : chan_op) : bool :=
  match o with OpDrop ch => negb (bool_decide (ch = q_rx q)) | _ => true end.

Definition receive (i : item) (q : session) : session :=
  let (v, d) := on_item (q_tx_open q) i (q_drive q) in
  let p := match v, i with
           | Continue, _ => Streaming
           | Reconnect, _ => Lost
           | Break, Response (Some EndOfStream) => Complete
           | Break, _ => Stopped
           end in
  mkSession (q_chan q) (q_rx q) (S (q_read q)) d p (q_tx_open q).

Definition session_step (q : session) (e : session_event) : session :=
  match e, q_phase q with
  | Server o, _ =>
      if foreign q o
      then mkSession (chan_exec (q_chan q) o) (q_rx q) (q_read q) (q_drive q) (q_phase q) (q_tx_open q)
      else q
  | Next, Streaming =>
      match boxes (run_net (q_chan q)) !! q_rx q with
      | Some mb => match sent mb !! q_read q with Some m => receive (Response (Some m)) q | None => q end
      | None => q
      end
  | Fails i, Streaming =>
      match i with
      | Response (Some _) => q
      | _ => receive i q
      end
  | Reopen true, Lost =>
      let (rx, r) := attach_at (forwarded (q_drive q)) (chan_exec (q_chan q) (OpDrop (q_rx q))) in
      mkSession r rx 0 (q_drive q) Streaming (q_tx_open q)
  | Reopen false, Lost => mkSession (q_chan q) (q_rx q) (q_read q) (q_drive q) Stopped (q_tx_open q)
  | CallerGone, _ => mkSession (q_chan q) (q_rx q) (q_read q) (q_drive q) (q_phase q) false
  | _, _ => q
  end.

Definition session_run (os : list chan_op) (es : list session_event) : session :=
  foldl session_step (session_start (chan_execs chan_init os)) es.

(** ** The subscriber

    Two tasks over a shared set: the writer adds the ids the caller subscribes to, the
    reader removes each as its result comes, acknowledges every message, and keeps the
    subscription alive. *)
Inductive reader := Reading | Reopening | Ended.

Record Subscription := mkSubscription {
  u_now : Z;
  u_tasks_set : gset string;
  u_reader : reader;
  u_input_closed : bool;
  u_last_heartbeat : Z;
  u_requested : list string;
  u_results : list (string * TaskStatus);
  u_log : list Serve.rpc;
}.

Inductive sub_event :=
  | Wait (d : Z)
  | Subscribe (task_id : string)
  | InputCloses
  | Incoming (msg_id : string) (m : option SubMessage) (picked : list string)
  | ConnectionError
  | ReopenAttempt (res : option Status) (budget_left : bool)
  | ClosedChanged
  | Interval.

Section subscriber.
Context {HI : HashIter} (sub_id proof_id : string).

Definition set_reader (r : reader) (u : Subscription) : Subscription :=
  mkSubscription (u_now u) (u_tasks_set u) r (u_input_closed u) (u_last_heartbeat u) (u_requested u) (u_results u) (u_log u).
Definition set_tasks_set (x : gset string) (u : Subscription) : Subscription :=
  mkSubscription (u_now u) x (u_reader u) (u_input_closed u) (u_last_heartbeat u) (u_requested u) (u_results u) (u_log u).
Definition send_rpc (r : Serve.rpc) (u : Subscription) : Subscription :=
  mkSubscription (u_now u) (u_tasks_set u) (u_reader u) (u_input_closed u) (u_last_heartbeat u) (u_requested u) (u_results u) (u_log u ++ [r]).
Definition beat (u : Subscription) : Subscription :=
  mkSubscription (u_now u) (u_tasks_set u) (u_reader u) (u_input_closed u) (u_now u) (u_requested u) (u_results u) (u_log u).
Definition report (task_id : string) (st : TaskStatus) (u : Subscription) : Subscription :=
  mkSubscription (u_now u) (u_tasks_set u ∖ {[task_id]}) (u_reader u) (u_input_closed u) (u_last_heartbeat u) (u_requested u)
    (u_results u ++ [(task_id, st)]) (u_log u).

(** [subscriber] once its first [open_sub] has been answered. *)
Definition subscribed (now : Z) : Subscription :=
  mkSubscription now ∅ Reading false now [] [] [Serve.OpenSub sub_id proof_id []].

(** The check at the head of the reader's loop. *)
Definition loop_head (u : Subscription) : Subscription :=
  if u_input_closed u && bool_decide (u_tasks_set u = ∅) then set_reader Ended u else u.

(** [choose_multiple]: that many distinct members, all of them if there are fewer. *)
Definition chosen (n : nat) (X : gset string) (picked : list string) : bool :=
  bool_decide (NoDup picked) && forallb (fun i => bool_decide (i ∈ X)) picked && bool_decide (length picked = Nat.min n (size X)).

Definition on_sub_message (msg_id : string) (m : option SubMessage) (picked : list string) (u : Subscription) : Subscription :=
  let u := send_rpc (Serve.AckSub sub_id msg_id) u in
  match m with
  | Some (TaskResult task_id task_status) => loop_head (report task_id task_status u)
  | Some SubEndOfStream => set_reader Ended u
  | Some (UnknownTask _ task_id) => loop_head (report task_id FailedFatal u)
  | Some SubHeartbeat => loop_head (send_rpc (Serve.UpdateSub sub_id picked) (beat u))
  | None => set_reader Ended u
  end.

(** The writer: the id goes into the set first, then to the coordinator. *)
Definition on_subscribe (task_id : string) (u : Subscription) : Subscription :=
  send_rpc (Serve.UpdateSub sub_id [task_id])
    (mkSubscription (u_now u) ({[task_id]} ∪ u_tasks_set u) (u_reader u) (u_input_closed u) (u_last_heartbeat u)
       (u_requested u ++ [task_id]) (u_results u) (u_log u)).

Definition sub_step (u : Subscription) (e : sub_event) : Subscription :=
  match e, u_reader u with
  | Wait d, _ =>
      if 0 <=? d then mkSubscription (u_now u + d) (u_tasks_set u) (u_reader u) (u_input_closed u) (u_last_heartbeat u)
                        (u_requested u) (u_results u) (u_log u) else u
  | Subscribe task_id, _ =>
      if u_input_closed u then u
      else on_subscribe task_id u
  | InputCloses, _ =>
      mkSubscription (u_now u) (u_tasks_set u) (u_reader u) true (u_last_heartbeat u) (u_requested u) (u_results u) (u_log u)
  | Incoming msg_id m picked, Reading =>
      if match m with Some SubHeartbeat => chosen 30 (u_tasks_set u) picked | _ => true end
      then on_sub_message msg_id m picked u else u
  | ConnectionError, Reading => set_reader Reopening u
  | Interval, Reading =>
      if 10000 <? u_now u - u_last_heartbeat u then set_reader Reopening u else u
  | ReopenAttempt res budget_left, Reopening =>
      let u := send_rpc (Serve.OpenSub sub_id proof_id (iter_ids (u_tasks_set u))) u in
      match res with
      | None => loop_head (set_reader Reading (beat u))
      | Some e => if is_transient (code e) && budget_left then u else set_reader Ended u
      end
  | ClosedChanged, Reading =>
      if u_input_closed u && bool_decide (u_tasks_set u = ∅) then set_reader Ended u else u
  | _, _ => u
  end.

Definition sub_run (now : Z) (es : list sub_event) : Subscription := foldl sub_step (subscribed now) es.
End subscriber.
End Wc.
