(* ===== verification/WorkerClientProps.v ===== *)
(** * What the worker's client promises

    The stream of a task's messages is exact across reconnects; a subscriber forgets no
    task; a call that succeeds has reached the coordinator. *)
From stdpp Require Import base gmap strings list.
From S2P Require Import Prelude Proto TaskChannel CoordState Coordinator AssignSpec Capacity CoordInv PolicyQueue DefaultPolicy CoordSteps Reach Demo Server ApiStore WorkerClient.
Local Open Scope string_scope.
Local Open Scope list_scope.
Local Open Scope Z_scope.
Import Wc.

(** ** The message stream *)
Section stream.

(** While it streams, the client has read its own mailbox up to [q_read], and the caller
    has the first [forwarded] messages of the channel. *)
Record session_inv (q : session) : Prop := {
  qi_chan : chan_inv (q_chan q);
  qi_prefix : delivered (q_drive q) `prefix_of` buffer (run_inner (q_chan q));
  qi_count : q_phase q <> Stopped -> forwarded (q_drive q) = length (delivered (q_drive q));
  qi_stream : q_phase q = Streaming -> exists k0 mb,
    (q_rx q, k0) ∈ attached (q_chan q) /\ boxes (run_net (q_chan q)) !! q_rx q = Some mb /\ rx_open mb = true /\
    forwarded (q_drive q) = (k0 + q_read q)%nat;
  qi_complete : q_phase q = Complete ->
    closed (run_inner (q_chan q)) = true /\ delivered (q_drive q) = buffer (run_inner (q_chan q));
}.

(** The buffer only grows, and not after the close. *)
Lemma chan_exec_buffer r o :
  buffer (run_inner r) `prefix_of` buffer (run_inner (chan_exec r o)) /\
  (closed (run_inner r) = true -> closed (run_inner (chan_exec r o)) = true /\ buffer (run_inner (chan_exec r o)) = buffer (run_inner r)).
Proof.
  destruct o as [p|k|now|ch]; cbn.
  - unfold push. destruct (closed (run_inner r)) eqn:Hc; [by split|]. destruct (retain_send _ _ _). cbn. split; [by exists [p]|done].
  - unfold attach_subscriber. destruct (closed (run_inner r)) eqn:Hc; cbn; rewrite ?Hc; by split.
  - unfold close_inner. destruct (closed (run_inner r)) eqn:Hc; by split.
  - by split.
Qed.

Lemma chan_exec_inv r o : chan_inv r -> chan_inv (chan_exec r o).
Proof. apply (chan_execs_inv r [o]). Qed.

Lemma broadcast_open {M} (m : M) subs : forall n ch mb,
  boxes n !! ch = Some mb -> rx_open mb = true ->
  exists mb', boxes (broadcast m subs n) !! ch = Some mb' /\ rx_open mb' = true.
Proof.
  induction subs as [|tx subs IH]; intros n ch mb Hmb Ho; [eauto|]. unfold broadcast. cbn [foldl]. apply (IH _ _
    (if decide (tx = ch) then mkMailbox (sent mb ++ [m]) true else mb)); [|by case_decide].
  case_decide as Heq; [subst tx; by rewrite (send_same _ _ _ _ Hmb), Ho|by rewrite send_other].
Qed.

(** Someone else's operation leaves the client's mailbox in place. *)
Lemma chan_exec_keeps r o ch k0 mb :
  chan_inv r -> (ch, k0) ∈ attached r -> boxes (run_net r) !! ch = Some mb -> rx_open mb = true -> o <> OpDrop ch ->
  (ch, k0) ∈ attached (chan_exec r o) /\
  exists mb', boxes (run_net (chan_exec r o)) !! ch = Some mb' /\ rx_open mb' = true.
Proof.
  intros HI Hat Hmb Ho Hne. destruct o as [p|k|now|ch']; cbn [chan_exec].
  - unfold push. destruct (closed (run_inner r)); [by eauto|].
    pose proof (retain_send_net (subscribers (run_inner r)) (Payload p) (run_net r)) as Hnet.
    destruct (retain_send _ _ _) as [subs n]. cbn in *. subst n. split; [done|]. by eapply broadcast_open.
  - destruct (attach_subscriber k (run_inner r) (run_net r)) as [[tx i] n] eqn:E.
    destruct (attach_spec _ _ _ _ _ _ (ci_wf _ HI) E) as (Hf & _ & _ & Hoth & _). cbn. split; [by right|].
    rewrite Hoth by (intros ->; congruence). eauto.
  - unfold close_inner. destruct (closed (run_inner r)); cbn; [by eauto|]. split; [done|]. by eapply broadcast_open.
  - split; [done|]. cbn. rewrite lookup_alter_ne by congruence. eauto.
Qed.

Lemma attach_at_spec k r rx r' :
  chan_inv r -> (k <= length (buffer (run_inner r)))%nat -> attach_at k r = (rx, r') ->
  chan_inv r' /\ run_inner r' = run_inner (chan_exec r (OpAttach k)) /\ (rx, k) ∈ attached r' /\
  exists mb, boxes (run_net r') !! rx = Some mb /\ rx_open mb = true.
Proof.
  intros HI Hk. unfold attach_at. intros [<- <-]%pair_equal_spec. split; [by apply chan_exec_inv|]. split; [done|]. cbn [chan_exec].
  destruct (attach_subscriber k (run_inner r) (run_net r)) as [[tx i] n] eqn:E.
  destruct (attach_spec _ _ _ _ _ _ (ci_wf _ HI) E) as (_ & _ & Hmb & _).
  assert (tx = next_chan (run_net r)) as -> by (unfold attach_subscriber in E; destruct (closed _); cbn in E; congruence).
  cbn. rewrite Nat.min_l by done. split; [by left|]. eexists. by split; [exact Hmb|].
Qed.

Lemma session_start_inv os : session_inv (session_start (chan_execs chan_init os)).
Proof.
  unfold session_start. destruct (attach_at 0 _) as [rx r] eqn:E.
  destruct (attach_at_spec _ _ _ _ (chan_execs_inv _ os chan_init_inv) (Nat.le_0_l _) E) as (HI & _ & Hat & mb & Hmb & Ho).
  constructor; cbn; try done; [apply prefix_nil|]. intros _. exists 0%nat, mb. done.
Qed.

Lemma session_server_inv q o : session_inv q -> session_inv (session_step q (Server o)).
Proof.
  intros [H1 H2 H3 H4 H5]. cbn. destruct (foreign q o) eqn:Hf; [|done].
  destruct (chan_exec_buffer (q_chan q) o) as [Hb Hc]. constructor; cbn; [by apply chan_exec_inv|by etrans|done|..].
  - intros Hp. destruct (H4 Hp) as (k0 & mb & Hat & Hmb & Ho & Hk).
    destruct (chan_exec_keeps (q_chan q) o _ _ _ H1 Hat Hmb Ho) as [? (mb' & ? & ?)]; [|by exists k0, mb'].
    intros ->. cbn in Hf. by rewrite bool_decide_eq_true_2 in Hf.
  - intros Hp. destruct (H5 Hp) as [Hcl ->]. destruct (Hc Hcl) as [-> ->]. done.
Qed.

(** The next message of the mailbox is the next of the channel, or its end. *)
Lemma next_message q mb m k0 :
  session_inv q -> (q_rx q, k0) ∈ attached (q_chan q) -> boxes (run_net (q_chan q)) !! q_rx q = Some mb ->
  rx_open mb = true -> sent mb !! q_read q = Some m ->
  match m with
  | Payload p => buffer (run_inner (q_chan q)) !! (k0 + q_read q)%nat = Some p
  | EndOfStream => closed (run_inner (q_chan q)) = true /\ length (buffer (run_inner (q_chan q))) = (k0 + q_read q)%nat
  end.
Proof.
  intros HI Hat Hmb Ho Hm. destruct (ci_view _ (qi_chan _ HI) _ _ Hat) as [Hk (mb' & Hmb' & Hv)]. simplify_eq.
  destruct (Hv Ho) as [Hs _]. rewrite Hs in Hm. unfold expected_stream in Hm.
  apply lookup_app_Some in Hm as [Hm|[Hlen Hm]].
  - rewrite list_lookup_fmap, lookup_drop in Hm. destruct (buffer _ !! _) eqn:E; [|done]. cbn in Hm. injection Hm as <-. done.
  - rewrite length_fmap, length_drop in *. destruct (closed (run_inner (q_chan q))); [|done].
    destruct (q_read q - _)%nat eqn:E; [|done]. cbn in Hm. injection Hm as <-. split; [done|lia].
Qed.

Lemma session_next_inv q : session_inv q -> session_inv (session_step q Next).
Proof.
  intros HI. cbn. destruct (q_phase q) eqn:Hp; try done.
  destruct (qi_stream _ HI Hp) as (k0 & mb & Hat & Hmb & Ho & Hk). rewrite Hmb.
  destruct (sent mb !! q_read q) as [m|] eqn:Hm; [|done].
  pose proof (next_message q mb m k0 HI Hat Hmb Ho Hm) as Hnext. pose proof (qi_count _ HI ltac:(congruence)) as Hc.
  pose proof (qi_prefix _ HI) as Hpre.
  assert (Htake : delivered (q_drive q) = take (forwarded (q_drive q)) (buffer (run_inner (q_chan q)))).
  { destruct Hpre as [rest ->]. rewrite Hc. by rewrite take_app_length. }
  unfold receive. destruct m as [p|]; cbn.
  - destruct (q_tx_open q); cbn; (constructor; cbn; [apply HI| | | |]; try done).
    + rewrite Htake. rewrite <- Hk in Hnext. rewrite <- (take_S_r _ _ _ Hnext). apply prefix_take.
    + intros _. rewrite length_app, <- Hc. cbn. lia.
    + intros _. exists k0, mb. split_and!; [done..|lia].
  - destruct Hnext as [Hcl Hlen]. constructor; cbn; [apply HI|done|done|done|]. intros _. split; [done|].
    rewrite Htake, Hk, <- Hlen. by rewrite firstn_all.
Qed.

Lemma session_step_inv q e : session_inv q -> session_inv (session_step q e).
Proof.
  intros HI. destruct e as [o| |i|ok|]; [by apply session_server_inv|by apply session_next_inv|..]; cbn [session_step].
  - destruct (q_phase q) eqn:Hp; try done. pose proof (qi_count _ HI ltac:(congruence)) as Hc.
    destruct i as [[m|]|e|]; [done| | |]; unfold receive; cbn; constructor; cbn; try done; apply HI.
  - pose proof (qi_count _ HI) as Hc. destruct (q_phase q) eqn:Hp; destruct ok; try done.
    + specialize (Hc ltac:(done)).
      assert (Hlen : (forwarded (q_drive q) <= length (buffer (run_inner (chan_exec (q_chan q) (OpDrop (q_rx q))))))%nat).
      { rewrite Hc. apply prefix_length, HI. }
      destruct (attach_at _ _) as [rx r] eqn:E.
      destruct (attach_at_spec _ _ _ _ (chan_exec_inv _ (OpDrop (q_rx q)) (qi_chan _ HI)) Hlen E) as (HI' & Hin & Hat & mb & Hmb & Ho).
      constructor; cbn; try done.
      * rewrite Hin. etrans; [apply HI|]. apply (chan_exec_buffer (chan_exec (q_chan q) (OpDrop (q_rx q)))).
      * intros _. exists (forwarded (q_drive q)), mb. split_and!; [done..|lia].
    + constructor; cbn; try done; apply HI.
  - destruct HI as [H1 H2 H3 H4 H5]. destruct (q_phase q); by constructor.
Qed.

Lemma session_run_inv os es : session_inv (session_run os es).
Proof.
  unfold session_run. generalize (session_start_inv os). generalize (session_start (chan_execs chan_init os)).
  induction es as [|e es IH]; intros q Hq; [done|]. cbn. by apply IH, session_step_inv.
Qed.

End stream.

(** ** The subscriber *)
Section subscriber.
Context {HI : HashIter} {HIO : HashIterOk HI} (sub_id proof_id : string).

(** Ids are dropped from the set only with a result; the reader ends by itself only when
    nothing is left. *)
Record sub_inv (u : Subscription) : Prop := {
  ui_kept : forall i, i ∈ u_requested u -> i ∈ u_tasks_set u \/ i ∈ (u_results u).*1;
  ui_known : forall i, i ∈ u_tasks_set u -> i ∈ u_requested u;
}.

Lemma sub_inv_same u u' :
  sub_inv u -> u_tasks_set u' = u_tasks_set u -> u_requested u' = u_requested u -> u_results u' = u_results u -> sub_inv u'.
Proof. intros [H1 H2] Ht Hr Hs. constructor; intros i; rewrite ?Ht, ?Hr, ?Hs; auto. Qed.

Lemma report_inv i st u : sub_inv u -> sub_inv (report i st u).
Proof.
  intros [H1 H2]. constructor; intros i'; cbn.
  - intros Hi. rewrite fmap_app, elem_of_app. destruct (decide (i' = i)) as [->|Hne]; [right; right; set_solver|].
    destruct (H1 _ Hi); [left; set_solver|by right; left].
  - intros [Hi _]%elem_of_difference. auto.
Qed.

Lemma loop_head_inv u : sub_inv u -> sub_inv (loop_head u).
Proof. intros Hu. unfold loop_head. destruct (_ && _); [by eapply sub_inv_same|done]. Qed.

Lemma sub_step_inv u e : sub_inv u -> sub_inv (sub_step sub_id proof_id u e).
Proof.
  intros Hu. destruct e as [d|i| |mid m picked| |res budget| |]; cbn.
  - destruct (0 <=? d); [by eapply sub_inv_same|done].
  - destruct (u_input_closed u); [done|]. destruct Hu as [H1 H2]. constructor; intros i'; cbn.
    + intros [Hi|Hi]%elem_of_app; [destruct (H1 _ Hi); [left; set_solver|by right]|left; set_solver].
    + intros [Hi|Hi]%elem_of_union; [set_solver|]. apply elem_of_app. left. auto.
  - by eapply sub_inv_same.
  - destruct (u_reader u); try done. destruct (match m with Some SubHeartbeat => _ | _ => _ end); [|done].
    unfold on_sub_message. destruct m as [[tid st|pid tid| |]|].
    + apply loop_head_inv, report_inv. by eapply sub_inv_same.
    + apply loop_head_inv, report_inv. by eapply sub_inv_same.
    + apply loop_head_inv. by eapply sub_inv_same.
    + by eapply sub_inv_same.
    + by eapply sub_inv_same.
  - destruct (u_reader u); try done. by eapply sub_inv_same.
  - destruct (u_reader u); try done. destruct res as [e|]; [|apply loop_head_inv; by eapply sub_inv_same].
    destruct (_ && _); by eapply sub_inv_same.
  - destruct (u_reader u); try done. destruct (_ && _); [by eapply sub_inv_same|done].
  - destruct (u_reader u); try done. destruct (_ <? _); [by eapply sub_inv_same|done].
Qed.

Lemma sub_run_inv now es : sub_inv (sub_run sub_id proof_id now es).
Proof.
  unfold sub_run. assert (Hs : sub_inv (subscribed sub_id proof_id now)) by (constructor; cbn; set_solver).
  revert Hs. generalize (subscribed sub_id proof_id now). induction es as [|e es IH]; intros u Hu; [done|].
  cbn. by apply IH, sub_step_inv.
Qed.

(** C14. A subscriber forgets no task. At any moment, every task the caller subscribed to has
    been answered, or is among the ids a reconnect sends with its [open_sub], and nothing
    else is; so an eviction by the coordinator while the connection was down costs no
    result. *)
Theorem subscriber_forgets_no_task now es i :
  let u := sub_run sub_id proof_id now es in
  i ∈ u_requested u ->
  i ∈ (u_results u).*1 \/
  (u_reader u = Reopening -> forall res budget, exists ids,
     u_log (sub_step sub_id proof_id u (ReopenAttempt res budget)) = u_log u ++ [Serve.OpenSub sub_id proof_id ids] /\
     i ∈ ids /\ (forall i', i' ∈ ids -> i' ∈ u_requested u)).
Proof.
  intros u Hi. destruct (sub_run_inv now es) as [H1 H2]. fold u in H1, H2.
  destruct (H1 i Hi) as [Ht|?]; [right|by left]. intros Hr res budget. exists (iter_ids (u_tasks_set u)). split_and!.
  - cbn. rewrite Hr. destruct res as [e|]; [by destruct (_ && _)|]. unfold loop_head. cbn. by destruct (_ && _).
  - by apply elem_of_iter_ids.
  - intros i' Hi'%elem_of_iter_ids. auto.
Qed.
End subscriber.

(** ** Retries *)
Section retries.
Context `{E : ClusterEnv} {PT : PolicyTypes} {AP : AssignmentPolicy} {MC : Serve.MetadataCodec}.

Definition served (r : Serve.rpc) (k : nat) (s : Serve.Service) : Serve.Service :=
  Nat.iter k (fun s => (Serve.serve r s).2) s.

Lemma served_S r k s : served r k (Serve.serve r s).2 = served r (S k) s.
Proof. unfold served. by rewrite Nat.iter_succ_r. Qed.

(** A call that succeeds was answered by the coordinator, after some number of earlier
    deliveries whose answers were lost; one that fails may have been delivered too. *)
Lemma retry_at_least_once a more r s res s' :
  retry a more r s = (res, s') ->
  exists k, (k <= length more)%nat /\ (res, s') = Serve.serve r (served r k s)
    \/ (k <= S (length more))%nat /\ s' = served r k s /\ exists e, res = Err e.
Proof.
  revert a s. induction more as [|a' more IH]; intros a s; cbn [retry].
  - destruct a; cbn; intros H.
    + exists 0%nat. left. split; [lia|]. cbn. destruct (Serve.serve r s) as [[] ?]; congruence.
    + injection H as <- <-. exists 1%nat. right. split; [cbn; lia|]. split; [done|eauto].
    + injection H as <- <-. exists 0%nat. right. split; [cbn; lia|]. split; [done|eauto].
  - destruct a; cbn [once].
    + destruct (Serve.serve r s) as [o s1] eqn:Hs. destruct o as [x|e| |];
        try (intros H; injection H as <- <-; exists 0%nat; left; split; [lia|by cbn; rewrite Hs]).
      destruct (is_transient (code e)); [|intros H; injection H as <- <-; exists 0%nat; left; split; [lia|by cbn; rewrite Hs]].
      intros H. destruct (IH _ _ H) as (k & [[? Hk]|(? & Hk & He)]).
      * exists (S k). left. split; [cbn; lia|]. rewrite <- served_S, Hs. done.
      * exists (S k). right. split; [cbn; lia|]. rewrite <- served_S, Hs. done.
    + destruct (is_transient (code e)); [|intros H; injection H as <- <-; exists 1%nat; right; split; [cbn; lia|]; split; [done|eauto]].
      intros H. destruct (IH _ _ H) as (k & [[? Hk]|(? & Hk & He)]).
      * exists (S k). left. split; [cbn; lia|]. by rewrite <- served_S.
      * exists (S k). right. split; [cbn; lia|]. by rewrite <- served_S.
    + destruct (is_transient (code e)); [|intros H; injection H as <- <-; exists 0%nat; right; split; [cbn; lia|]; split; [done|eauto]].
      intros H. destruct (IH _ _ H) as (k & [[? Hk]|(? & Hk & He)]).
      * exists k. left. split; [cbn; lia|done].
      * exists k. right. split; [cbn; lia|done].
Qed.
End retries.

(** ** Concrete runs *)

(** Two messages, a stream that breaks after the first, and a reconnect that is sent the
    second and what follows. *)
Lemma task_stream_example :
  let q := session_run [OpPush [1]; OpPush [2]]
             [Next; Server (OpPush [3]); Fails StreamEnd; Reopen true; Next; Server (OpClose 5); Next; Next] in
  q_phase q = Complete /\ delivered (q_drive q) = [[1]; [2]; [3]].
Proof. vm_compute. split; reflexivity. Qed.

(** The same loop over given streams: the reconnect asks for the third message on. *)
Lemma drive_message_stream_example :
  delivered (drive_message_stream [Response (Some (Payload [1])); Response (Some (Payload [2]))]
    [fun k => if decide (k = 2%nat) then Some [Response (Some (Payload [3])); Response (Some EndOfStream)] else None] drive_init)
  = [[1]; [2]; [3]].
Proof. vm_compute. reflexivity. Qed.

Section witness.
#[local] Existing Instance canonical_iter.

Lemma subscriber_forgets_no_task_witness :
  let es := [Subscribe "a"; Subscribe "b"; Incoming "m1" (Some (TaskResult "b" Succeeded)) []; ConnectionError] in
  let u := sub_run "sub" "p" 0 es in
  u_results u = [("b", Succeeded)] /\
  exists ids, u_log (sub_step "sub" "p" u (ReopenAttempt None true)) = u_log u ++ [Serve.OpenSub "sub" "p" ids] /\ "a" ∈ ids.
Proof.
  intros es u. split; [vm_compute; reflexivity|].
  assert (Ha : "a" ∈ u_requested u) by (apply (bool_decide_unpack _); vm_compute; exact I).
  destruct (subscriber_forgets_no_task "sub" "p" 0 es "a" Ha) as [Hres|Hre].
  - exfalso. apply (bool_decide_unpack (~ "a" ∈ (u_results u).*1)); [vm_compute; exact I|exact Hres].
  - destruct (Hre ltac:(vm_compute; reflexivity) None true) as (ids & Hlog & Hin & _). exists ids. split; [exact Hlog|exact Hin].
Defined.
End witness.
