(* ===== verification/Auth.v ===== *)
(** * Bearer-token authentication

    [crates/common/src/auth.rs]: how a server and a client resolve their token, the layer
    in front of the API and the coordinator, and the client's interceptor. Strings are
    their bytes. *)
From Stdlib Require Import Ascii.
From stdpp Require Import base gmap strings list.
From S2P Require Import Prelude Proto TaskChannel CoordState Coordinator AssignSpec Capacity.
Local Open Scope string_scope.
Local Open Scope list_scope.
Local Open Scope Z_scope.

Module Auth.

Definition TOKEN_ENV : string := "CLUSTER_ACCESS_TOKEN".
Definition REQUIRED_ENV : string := "CLUSTER_AUTH_REQUIRED".
Definition BEARER_PREFIX : string := "Bearer ".

(** [str::strip_prefix], and predicates on all bytes of a string. *)
Fixpoint strip_prefix (p s : string) : option string :=
  match p, s with
  | "", _ => Some s
  | String a p, String b s => if decide (a = b) then strip_prefix p s else None
  | String _ _, "" => None
  end.
Fixpoint all_bytes (f : ascii -> bool) (s : string) : bool :=
  match s with "" => true | String a s => f a && all_bytes f s end.

(** [u8::is_ascii_graphic]; [HeaderValue::to_str] takes those, space and tab. *)
Definition is_ascii_graphic (a : ascii) : bool := (33 <=? Z.of_nat (nat_of_ascii a)) && (Z.of_nat (nat_of_ascii a) <=? 126).
Definition is_visible (a : ascii) : bool :=
  is_ascii_graphic a || (Z.of_nat (nat_of_ascii a) =? 32) || (Z.of_nat (nat_of_ascii a) =? 9).

Inductive AuthConfigError := RequiredWithoutToken | InvalidRequiredFlag | InvalidToken.
Record AuthConfig := mkAuth { token : option string; required : bool }.

(** The environment of the process. *)
Definition Environ : Type := string -> option string.

Definition resolve_token (prefixed bare : option string) : option string :=
  snd <$> list_find (fun t => t <> "") (option_list prefixed ++ option_list bare).

Definition token_from_env (env : Environ) (prefix : option string) : option string :=
  resolve_token (p ← prefix; env (p +:+ "_" +:+ TOKEN_ENV)) (env TOKEN_ENV).

Definition parse_required_flag (value : option string) : AuthConfigError + bool :=
  match value with
  | None | Some "" => inr false
  | Some v =>
      if decide (to_lowercase v = "true") then inr true
      else if decide (to_lowercase v = "false") then inr false
      else inl InvalidRequiredFlag
  end.

(** The header value of a token. The prefix and a graphic token are always a valid value. *)
Definition bearer_header (t : string) : AuthConfigError + string :=
  if all_bytes is_ascii_graphic t then inr (BEARER_PREFIX +:+ t) else inl InvalidToken.

Definition resolve (t : option string) (req : option string) : AuthConfigError + AuthConfig :=
  match parse_required_flag req with
  | inl e => inl e
  | inr req =>
      match t with
      | Some tok =>
          match bearer_header tok with
          | inl e => inl e
          | inr _ => inr (mkAuth t req)
          end
      | None => if req then inl RequiredWithoutToken else inr (mkAuth None req)
      end
  end.

Definition from_env (env : Environ) (prefix : option string) : AuthConfigError + AuthConfig :=
  resolve (token_from_env env prefix) (env REQUIRED_ENV).

(** ** The server's layer *)

(** Header names are lower case; [get] returns the first value of a name. *)
Definition HeaderMap : Type := list (string * string).
Definition get (name : string) (h : HeaderMap) : option string :=
  match list_find (fun kv => kv.1 = name) h with Some (_, kv) => Some kv.2 | None => None end.

Definition token_matches (c : AuthConfig) (h : HeaderMap) : bool :=
  match token c with
  | None => false
  | Some expected =>
      match get "authorization" h with
      | Some value =>
          if all_bytes is_visible value
          then match strip_prefix BEARER_PREFIX value with Some presented => bool_decide (expected = presented) | None => false end
          else false
      | None => false
      end
  end.

(** [BearerAuth::call]: the inner service's answer, or the refusal. *)
Definition call {A} (c : AuthConfig) (h : HeaderMap) (inner : outcome A) : outcome A :=
  if token_matches c h then inner
  else if negb (required c) then inner
  else Err (mkStatus Unauthenticated "missing or invalid bearer token").

(** The same in front of a service with a state: what it refuses is not run. *)
Definition bearer_auth {S R} (c : AuthConfig) (h : HeaderMap) (s : S) (inner : S -> outcome R * S) : outcome R * S :=
  match call c h (Ok tt) with
  | Ok _ => inner s
  | Err e => (Err e, s)
  | Panic => (Panic, s)
  | Fuel => (Fuel, s)
  end.

(** ** The client's interceptor *)
Definition BearerInterceptor : Type := option string.
Definition interceptor_new (t : option string) : AuthConfigError + BearerInterceptor :=
  match t with
  | None => inr None
  | Some t => match bearer_header t with inl e => inl e | inr h => inr (Some h) end
  end.

(** [metadata_mut().insert] replaces every value of the name. *)
Definition intercept (i : BearerInterceptor) (h : HeaderMap) : HeaderMap :=
  match i with
  | Some v => ("authorization", v) :: filter (fun kv => kv.1 <> "authorization") h
  | None => h
  end.

(** ** Properties *)
Lemma strip_prefix_spec p s r : strip_prefix p s = Some r <-> s = p +:+ r.
Proof.
  revert s. induction p as [|a p IH]; intros s; cbn [strip_prefix].
  - change ("" +:+ r) with r. split; congruence.
  - change (String a p +:+ r) with (String a (p +:+ r)). destruct s as [|b s]; [done|]. case_decide as Hab.
    + subst b. rewrite IH. split; congruence.
    + split; congruence.
Qed.

Lemma all_bytes_app f s t : all_bytes f (s +:+ t) = all_bytes f s && all_bytes f t.
Proof.
  induction s as [|a s IH]; [done|]. change (String a s +:+ t) with (String a (s +:+ t)). cbn [all_bytes]. by rewrite IH, andb_assoc.
Qed.

Lemma graphic_visible s : all_bytes is_ascii_graphic s = true -> all_bytes is_visible s = true.
Proof.
  induction s as [|a s IH]; [done|]. cbn [all_bytes]. intros [Ha Hs]%andb_true_iff. rewrite (IH Hs). unfold is_visible. by rewrite Ha.
Qed.

Lemma bearer_header_inv t h : bearer_header t = inr h -> h = BEARER_PREFIX +:+ t /\ all_bytes is_visible h = true.
Proof.
  unfold bearer_header. destruct (all_bytes _ t) eqn:Ht; [|done]. intros [= <-]. split; [done|].
  rewrite all_bytes_app, (graphic_visible t Ht). done.
Qed.

Lemma resolve_inv t req c :
  resolve t req = inr c ->
  token c = t /\ (required c = true -> exists tok, t = Some tok) /\
  (forall tok, t = Some tok -> all_bytes is_visible (BEARER_PREFIX +:+ tok) = true).
Proof.
  unfold resolve. destruct (parse_required_flag req) as [|r]; [done|]. destruct t as [tok|].
  - destruct (bearer_header tok) as [|h] eqn:Hb; [done|]. intros [= <-]. split; [done|]. split; [eauto|].
    intros tok' [= <-]. by destruct (bearer_header_inv _ _ Hb) as [<- ?].
  - destruct r; [done|]. intros [= <-]. done.
Qed.

(** A server that requires authentication serves exactly the requests that carry its own
    token. For any configuration the process starts with: if the check is on, a request
    is passed on exactly when its authorization header is the prefix and the token, byte
    for byte, and is refused as unauthenticated otherwise; if it is off, everything is
    passed on. *)
Theorem auth_layer_is_exact env prefix c h {A} (inner : outcome A) :
  from_env env prefix = inr c ->
  (required c = true -> exists tok, token_from_env env prefix = Some tok /\
     call c h inner = (if decide (get "authorization" h = Some (BEARER_PREFIX +:+ tok)) then inner
                       else Err (mkStatus Unauthenticated "missing or invalid bearer token"))) /\
  (required c = false -> call c h inner = inner).
Proof.
  intros Hc. destruct (resolve_inv _ _ _ Hc) as (Ht & Hreq & Hvis). unfold call. split.
  - intros Hr. destruct (Hreq Hr) as [tok Htok]. exists tok. split; [done|]. rewrite Hr. cbn [negb].
    unfold token_matches. rewrite Ht, Htok. destruct (get "authorization" h) as [v|]; [|by rewrite decide_False].
    destruct (decide (v = BEARER_PREFIX +:+ tok)) as [->|Hne].
    + rewrite (Hvis tok Htok), (decide_True (P := Some _ = Some _)) by done.
      by rewrite (proj2 (strip_prefix_spec BEARER_PREFIX _ tok) eq_refl), bool_decide_eq_true_2.
    + rewrite (decide_False (P := Some v = _)) by congruence. destruct (all_bytes is_visible v); [|done].
      destruct (strip_prefix BEARER_PREFIX v) as [p|] eqn:Hp; [|done].
      rewrite bool_decide_eq_false_2; [done|]. intros <-. apply strip_prefix_spec in Hp. done.
  - intros Hr. rewrite Hr. by destruct (token_matches c h).
Qed.

(** A client and a server given the same token understand each other: if both start,
    every request of the client passes the server's check, whatever headers it carried
    before. *)
Theorem client_token_is_accepted env prefix c t i h {A} (inner : outcome A) :
  from_env env prefix = inr c -> token c = Some t -> interceptor_new (Some t) = inr i ->
  call c (intercept i h) inner = inner.
Proof.
  intros Hc Ht Hi. destruct (resolve_inv _ _ _ Hc) as (Hte & _ & Hvis). cbn in Hi.
  destruct (bearer_header t) as [|v] eqn:Hb; [done|]. injection Hi as <-.
  destruct (bearer_header_inv _ _ Hb) as [-> Hv].
  assert (Hg : get "authorization" (intercept (Some (BEARER_PREFIX +:+ t)) h) = Some (BEARER_PREFIX +:+ t)) by done.
  unfold call, token_matches. rewrite Ht, Hg, Hv, (proj2 (strip_prefix_spec BEARER_PREFIX _ t) eq_refl).
  by rewrite bool_decide_eq_true_2.
Qed.

(** ** A concrete deployment *)
Definition demo_environ : Environ := fun k =>
  if decide (k = "COORDINATOR_CLUSTER_ACCESS_TOKEN") then Some ""
  else if decide (k = TOKEN_ENV) then Some "s3cret" else if decide (k = REQUIRED_ENV) then Some "TRUE" else None.

Lemma auth_layer_is_exact_witness : exists c, from_env demo_environ (Some "COORDINATOR") = inr c /\
  call c [("authorization", "Bearer s3cret ")] (Ok 1) = Err (mkStatus Unauthenticated "missing or invalid bearer token").
Proof.
  exists (mkAuth (Some "s3cret") true). split; [vm_compute; reflexivity|].
  destruct (auth_layer_is_exact demo_environ (Some "COORDINATOR") (mkAuth (Some "s3cret") true) [("authorization", "Bearer s3cret ")] (Ok 1)
    ltac:(vm_compute; reflexivity)) as [H _].
  destruct (H eq_refl) as (tok & Htok & Hcall). vm_compute in Htok. injection Htok as <-. rewrite Hcall. vm_compute. reflexivity.
Defined.

Lemma client_token_is_accepted_witness :
  call (mkAuth (Some "s3cret") true) (intercept (Some "Bearer s3cret") [("authorization", "old")]) (Ok 1) = Ok 1.
Proof.
  apply (client_token_is_accepted demo_environ (Some "COORDINATOR") (mkAuth (Some "s3cret") true) "s3cret" (Some "Bearer s3cret")
    [("authorization", "old")] (Ok 1)); vm_compute; reflexivity.
Defined.
End Auth.

(** [tonic_web::GrpcWebLayer]: what it makes of a request's headers. *)
Class WebLayer := { web_headers : Auth.HeaderMap -> Auth.HeaderMap }.

(** It translates the encoding of a body and leaves the caller's credentials alone. *)
Class WebLayerOk (WL : WebLayer) : Prop := {
  web_keeps_authorization : forall h, Auth.get "authorization" (web_headers h) = Auth.get "authorization" h;
}.
