(* ===== verification/WorkerUtil.v ===== *)
(** * The worker's helpers

    The parts of crates/worker and of the node's set-up that compute: the concurrency
    budget (limiter.rs), the worker's place (location.rs), the node's configuration
    (bin/node/src/config.rs), the shapes of trees and chunks (utils.rs), what becomes of a
    task's result (lib.rs), and the execute-only task (tasks/execute_only.rs). *)
From Stdlib Require Import Ascii String.
From stdpp Require Import base gmap strings list.
From S2P Require Import Prelude Proto TaskChannel CoordState Coordinator AssignSpec Capacity CoordInv CoordSteps Reach Server ApiStore ProgramStore GatewayIds Auth WorkerClient Node.
Local Open Scope string_scope.
Local Open Scope list_scope.
Local Open Scope Z_scope.

Module Wu.

(** ** Concurrency budget *)

Definition parse_cgroup_v2 (content : string) : option Z :=
  let s := trim content in
  if decide (s = "max") then None else parse_uint u64 s.

Definition parse_cgroup_v1 (content : string) : option Z :=
  match parse_uint u64 (trim content) with
  | Some v => if Z.shiftl 1 50 <=? v then None else Some v
  | None => None
  end.

(** What the machine answers: the two cgroup files, [sys_info::mem_info] in KB, and
    [statvfs] of [/dev/shm] as fragment size and blocks. *)
Record Machine := mkMachine {
  memory_max : option string;
  memory_limit_in_bytes : option string;
  mem_info_total : option Z;
  dev_shm : option (Z * Z);
}.

Definition cgroup_memory_limit_bytes (m : Machine) : option Z :=
  match memory_max m ≫= parse_cgroup_v2 with
  | Some v => Some v
  | None => memory_limit_in_bytes m ≫= parse_cgroup_v1
  end.

Definition total_memory_gb (m : Machine) : Z :=
  let total_bytes := match cgroup_memory_limit_bytes m with
                     | Some b => b
                     | None => match mem_info_total m with Some total => Int.wrap u64 (total * 1024) | None => 0 end
                     end in
  total_bytes / (1024 * 1024 * 1024).

Definition dev_shm_gb (m : Machine) : option Z :=
  match dev_shm m with
  | Some (frsize, blocks) =>
      if (frsize =? 0) || (blocks =? 0) then None
      else Some (Int.sat_mul u64 blocks frsize / 1024 / 1024 / 1024)
  | None => None
  end.

Definition compute_max_weight (total_ram_gb : Z) (shm_gb override_weight : option Z) : Z :=
  match override_weight with
  | Some max_weight => max_weight
  | None =>
      match shm_gb with
      | Some shm => if shm =? 0 then 0 else if shm <? total_ram_gb then shm else total_ram_gb
      | None => total_ram_gb
      end
  end.

Definition get_max_weight (m : Machine) (MAX_WEIGHT_OVERRIDE : option Z) : Z :=
  compute_max_weight (total_memory_gb m) (dev_shm_gb m) MAX_WEIGHT_OVERRIDE.

(** ** Where the worker runs *)
Record ECSTaskInfo := mkEcs { ecs_cluster : string; task_arn : string }.

(** [rsplit_once('/')] gives the last of the segments, the whole when there is one. *)
Definition task_id (i : ECSTaskInfo) : string := default (task_arn i) (last (split "/" (task_arn i))).

Definition region (i : ECSTaskInfo) : option string :=
  match split ":" (task_arn i) with
  | "arn" :: _ :: _ :: r :: _ :: _ :: _ => if decide (r = "") then None else Some r
  | _ => None
  end.

Definition resolve (from_task_arn ambient : option string) : option string :=
  snd <$> list_find (fun r => r <> "") (option_list from_task_arn ++ option_list ambient).

(** ** Configuration of the node

    [from_str_name] is the generated enum's; [unknown_id] is the random id of a worker that
    cannot reach its metadata endpoint. *)
Section config.
Context (from_str_name : string -> option WorkerType) (env : Auth.Environ) (unknown_id : string).

(** [NodeConfig::load]: a missing or unknown worker type panics. *)
Definition load (ecs_task_info : string + ECSTaskInfo) : outcome Nd.NodeConfig :=
  let ambient_region := env "AWS_REGION" in
  let '(worker_id, location, cluster) :=
    match ecs_task_info with
    | inr info => (task_id info, resolve (region info) ambient_region, ecs_cluster info)
    | inl _ => (unknown_id, resolve None ambient_region, "unknown")
    end in
  match env "WORKER_TYPE" ≫= from_str_name with
  | None => Panic
  | Some worker_type =>
      Ok (Nd.mkNodeConfig worker_id worker_type
            (default "http://[::1]:50051" (env "NODE_COORDINATOR_RPC"))
            (Auth.token_from_env env (Some "NODE")) cluster
            Nd.DEFAULT_TASK_TIMEOUT Nd.DEFAULT_DRAIN_TIMEOUT location)
  end.

Inductive ArtifactStoreConfig :=
  | S3Store (region bucket : string) (concurrency : Z)
  | RedisStore (nodes : list string) (pool_max_size : Z).

(** [ArtifactStoreConfig::from_env]. *)
Definition artifact_store_from_env : outcome ArtifactStoreConfig :=
  let artifact_store := default "s3" (env "NODE_ARTIFACT_STORE") in
  if decide (artifact_store = "s3") then
    match env "NODE_S3_REGION", env "NODE_S3_BUCKET" with
    | Some region, Some bucket =>
        Ok (S3Store region bucket
              (match env "NODE_S3_CONCURRENCY" with Some s => default 32 (parse_uint u64 s) | None => 32 end))
    | _, _ => Panic
    end
  else if decide (artifact_store = "redis") then
    match env "NODE_REDIS_NODES", parse_uint u64 (default "16" (env "NODE_REDIS_POOL_MAX_SIZE")) with
    | Some nodes, Some size => Ok (RedisStore (split "," nodes) size)
    | _, _ => Panic
    end
  else Panic.
End config.

(** ** Chunks and trees *)

(** [chunk_vec]; a chunk size of zero never empties the vector. *)
Fixpoint chunk_vec {A} (fuel : nat) (l : list A) (chunk_size : nat) : outcome (list (list A)) :=
  match l with
  | [] => Ok []
  | _ =>
      match fuel with
      | O => Fuel
      | S fuel =>
          let current_chunk_size := Nat.min chunk_size (length l) in
          match chunk_vec fuel (drop current_chunk_size l) chunk_size with
          | Ok rest => Ok (take current_chunk_size l :: rest)
          | r => r
          end
      end
  end.

(** The loop body of [get_tree_layer_size]: the width and whether a node is held back. *)
Definition next_layer (wx : Z * bool) : Z * bool :=
  let (width, has_extra) := wx in
  let width := width / 2 in
  if width mod 2 =? 1 then
    if has_extra then (width + 1, false)
    else if 1 <? width then (width - 1, true) else (width, has_extra)
  else (width, has_extra).

Definition first_layer (leaf_count : Z) : Z * bool :=
  let has_extra := (1 <? leaf_count) && (leaf_count mod 2 =? 1) in
  (if has_extra then leaf_count - 1 else leaf_count, has_extra).

Definition get_tree_layer_size (leaf_count : Z) (layer : nat) : Z := (Nat.iter layer next_layer (first_layer leaf_count)).1.

(** ** Running a task *)

(** [TaskError], each with the [Debug] text of what it wraps. *)
Inductive TaskError := Retryable (e : string) | Fatal (e : string) | Execution (e : string).

Section run_task.
Context {TM : Nd.TaskMetadataJson} (default_metadata : Nd.Metadata).
(** [serde_json::from_str] at the task's metadata, and [ProvingFailure::to_extra_data]. *)
Context (metadata_parses : string -> bool) (proving_failure : TaskType -> string -> string).

(** [try_unclaim_proof]: its request; an error of the call is only logged. *)
Definition try_unclaim_proof (task_id : string) (data : TaskData) (err : string) : Serve.rpc :=
  Wc.complete_proof (proof_id data) (Some task_id) PrFailed (proving_failure (task_type data) err).

(** [run_task] over what the handler of the task's type returns: how the work ends, and the
    requests it sends on the way. *)
Definition run_task (process : TaskType -> TaskError + Nd.Metadata) (task_id : string) (data : TaskData)
    : outcome (TaskStatus * option Nd.Metadata) * list Serve.rpc :=
  if metadata_parses (metadata data) then
    let result := match task_type data with
                  | MarkerDeferredRecord | UnspecifiedTaskType => inr default_metadata
                  | t => process t
                  end in
    match result with
    | inr md => (Ok (Succeeded, Some md), [])
    | inl (Retryable _) => (Ok (FailedRetryable, None), [])
    | inl (Fatal err) => (Ok (FailedFatal, None), [try_unclaim_proof task_id data err])
    | inl (Execution err) => (Ok (Succeeded, None), [try_unclaim_proof task_id data err])
    end
  else (Panic, []).

(** How the spawned work ends for the node. *)
Definition work_result_of (o : outcome (TaskStatus * option Nd.Metadata)) : Nd.work_result :=
  match o with Ok r => inr r | _ => inl Nd.Panicked end.
End run_task.

(** ** Execute only *)

(** Failures of the executor, with their message. *)
Inductive ExecutionError :=
  | ExceededCycleLimit | InvalidMemoryAccess | UnsupportedSyscall | Breakpoint | InvalidSyscallUsage
  | Unimplemented | OtherExecutionError.
Inductive ExecuteFailureCause :=
  | UnspecifiedCause | HaltWithNonZeroExitCode | CauseCycleLimit | CauseMemoryAccess | CauseUnsupportedSyscall
  | CauseBreakpoint | CauseSyscallUsage | CauseUnimplemented.

Definition cause_of (e : ExecutionError) : ExecuteFailureCause :=
  match e with
  | ExceededCycleLimit => CauseCycleLimit
  | InvalidMemoryAccess => CauseMemoryAccess
  | UnsupportedSyscall => CauseUnsupportedSyscall
  | Breakpoint => CauseBreakpoint
  | InvalidSyscallUsage => CauseSyscallUsage
  | Unimplemented => CauseUnimplemented
  | OtherExecutionError => UnspecifiedCause
  end.

Definition FAILURE_MESSAGE_MAX : nat := 2048.

(** [is_char_boundary]: the ends, and any byte that does not continue a character. *)
Definition is_char_boundary (m : bytes) (i : nat) : bool :=
  bool_decide (i = 0%nat) || bool_decide (i = length m) || (bool_decide (i < length m)%nat && negb (is_cont (m !! i))).

(** The loop of [bound_failure_message], downwards from [cut]. *)
Fixpoint back_to_boundary (m : bytes) (cut : nat) : nat :=
  match cut with
  | O => O
  | S c => if is_char_boundary m cut then cut else back_to_boundary m c
  end.

Definition bound_failure_message (message : bytes) : bytes :=
  if bool_decide (length message <= FAILURE_MESSAGE_MAX)%nat then message
  else take (back_to_boundary message FAILURE_MESSAGE_MAX) message.

Definition stderr_failure_message (stderr : bytes) : option bytes :=
  if decide (trim (of_bytes stderr) = "") then None else Some (bound_failure_message stderr).

(** [max_cycles] of the context. *)
Definition max_cycles (cycle_limit : option Z) : option Z :=
  match cycle_limit with
  | Some l => if l =? 0 then None else Some (Int.sat_add u64 l 1)
  | None => None
  end.

Record ExecutionReport := mkReport { exit_code : Z; total_instruction_count : Z; gas : option Z }.
Record ExecutionResult := mkResult {
  r_executed : bool;
  r_failure_cause : ExecuteFailureCause;
  r_cycles : Z;
  r_gas : Z;
  r_public_values_hash : bytes;
}.

(** What is written for an execution: the result, a message and an exit code. [err_message]
    is the error's [Display]. *)
Definition execution_outcome (err_message : ExecutionError -> bytes) (stderr : bytes)
    (result : ExecutionError + bytes * ExecutionReport) : ExecutionResult * option bytes * option Z :=
  match result with
  | inr (pv_hash, report) =>
      if exit_code report =? 0
      then (mkResult true UnspecifiedCause (total_instruction_count report) (default 0 (gas report)) pv_hash, None, None)
      else (mkResult false HaltWithNonZeroExitCode (total_instruction_count report) (default 0 (gas report)) [],
            stderr_failure_message stderr, Some (exit_code report))
  | inl err => (mkResult false (cause_of err) 0 0 [], Some (bound_failure_message (err_message err)), None)
  end.

(** The request that ends the proof; [encode] is [build_execute_extra_data]. *)
Definition execute_only_request (encode : ExecutionResult * option bytes * option Z -> option string)
    (task_id : string) (data : TaskData) (o : ExecutionResult * option bytes * option Z) : TaskError + Serve.rpc :=
  match encode o with
  | Some extra => inr (Wc.complete_proof (proof_id data) (Some task_id) (if r_executed o.1.1 then PrCompleted else PrFailed) extra)
  | None => inl (Fatal "serde")
  end.

End Wu.
