(* ===== verification/WorkerUtilProps.v ===== *)
(** * What the worker's helpers promise *)
From Stdlib Require Import Ascii String.
From stdpp Require Import base gmap strings list.
From S2P Require Import Prelude Proto TaskChannel CoordState Coordinator AssignSpec Capacity CoordInv CoordSteps Reach Server ApiStore ProgramStore GatewayIds Auth WorkerClient Node NodeInv WorkerUtil.
Local Open Scope string_scope.
Local Open Scope list_scope.
Local Open Scope Z_scope.
Import Wu.

Abbreviation GIB := (1024 * 1024 * 1024).

(** ** Budget *)
Lemma compute_max_weight_min ram shm :
  0 <= ram -> match shm with Some s => 0 <= s | None => True end ->
  compute_max_weight ram shm None = Z.min ram (default ram shm).
Proof. intros Hr Hs. unfold compute_max_weight. destruct shm as [s|]; cbn; [|lia]. case_all; lia. Qed.

(** Without an override the worker never advertises more than it has: the budget in
    GiB fits into the cgroup's memory limit when there is one, and into [/dev/shm] when
    its size is known. *)
Theorem budget_fits_memory m b :
  (cgroup_memory_limit_bytes m = Some b -> 0 <= b -> get_max_weight m None * GIB <= b) /\
  (forall frsize blocks, dev_shm m = Some (frsize, blocks) -> 0 < frsize -> 0 < blocks -> 0 <= total_memory_gb m ->
     get_max_weight m None * GIB <= frsize * blocks).
Proof.
  assert (Hdiv : forall x y, 0 <= x -> y <= x / GIB -> y * GIB <= x).
  { intros x y Hx Hy. pose proof (Z.mul_div_le x GIB ltac:(lia)). lia. }
  assert (Hle : get_max_weight m None <= Z.max 0 (total_memory_gb m) /\
    forall s, dev_shm_gb m = Some s -> get_max_weight m None <= Z.max 0 s).
  { unfold get_max_weight, compute_max_weight. split.
    - destruct (dev_shm_gb m); case_all; lia.
    - intros s ->. case_all; lia. }
  destruct Hle as [H1 H2]. split.
  - intros Hb Hpos. apply Hdiv; [done|]. unfold total_memory_gb in H1. rewrite Hb in H1.
    pose proof (Z.div_pos b GIB Hpos ltac:(lia)). lia.
  - intros f bl Hs Hf Hbl _. assert (Hg : dev_shm_gb m = Some (Int.sat_mul u64 bl f / 1024 / 1024 / 1024)).
    { unfold dev_shm_gb. rewrite Hs. by rewrite (proj2 (Z.eqb_neq f 0)), (proj2 (Z.eqb_neq bl 0)) by lia. }
    specialize (H2 _ Hg). assert (Hsat : 0 <= Int.sat_mul u64 bl f <= f * bl) by (assert (0 < bl * f) by nia; assert (0 <= Int.umax u64) by (vm_compute; discriminate); unfold Int.sat_mul; lia).
    rewrite !Z.div_div in H2 by lia. change (1024 * (1024 * 1024)) with GIB in H2. pose proof (Z.div_pos (Int.sat_mul u64 bl f) (1024 * 1024 * 1024) ltac:(lia) ltac:(lia)).
    pose proof (Hdiv (Int.sat_mul u64 bl f) (get_max_weight m None) ltac:(lia) ltac:(lia)). lia.
Qed.

(** ** Chunks and trees *)
Lemma chunk_vec_chunks {A} (l : list A) n fuel :
  (0 < n)%nat -> (length l <= fuel)%nat -> chunk_vec fuel l n = Ok (chunks_fuel fuel n l).
Proof.
  intros Hn. revert l. induction fuel as [|fuel IH]; intros [|x l] Hl; cbn [chunk_vec chunks_fuel]; try done; [cbn in Hl; lia|].
  assert (Hd : drop (Nat.min n (length (x :: l))) (x :: l) = drop n (x :: l)) by (by rewrite <- drop_min_length).
  assert (Ht : take (Nat.min n (length (x :: l))) (x :: l) = take n (x :: l)).
  { destruct (Nat.min_spec n (length (x :: l))) as [[? ->]|[? ->]]; [done|]. by rewrite !take_ge by lia. }
  rewrite Hd, Ht, IH; [done|]. rewrite length_drop. cbn in *. lia.
Qed.

(** A chunk size of zero runs for ever on any vector that is not empty. *)
Lemma chunk_vec_zero_diverges {A} (x : A) l fuel : chunk_vec fuel (x :: l) 0 = Fuel.
Proof. induction fuel as [|fuel IH]; [done|]. cbn [chunk_vec]. rewrite Nat.min_0_l. cbn [drop]. by rewrite IH. Qed.

(** Layers: even, or a single node with nothing held back. *)
Definition layer_ok (wx : Z * bool) : Prop := 0 <= wx.1 /\ (wx.1 mod 2 = 0 /\ (wx.2 = true -> 2 <= wx.1) \/ wx = (1, false)).

Lemma mod2_cases x : x mod 2 = 0 \/ x mod 2 = 1.
Proof. pose proof (Z.mod_pos_bound x 2). lia. Qed.

Lemma next_layer_ok wx : layer_ok wx -> layer_ok (next_layer wx).
Proof.
  destruct wx as [w x]. unfold layer_ok, next_layer. cbn [fst snd]. intros [H0 [[He Hx]|[= -> ->]]]; [|vm_compute; split; [discriminate|by left]].
  pose proof (Z.div_mod w 2 ltac:(lia)) as Hd. pose proof (Z.div_pos w 2 H0 ltac:(lia)).
  destruct (w / 2 mod 2 =? 1) eqn:Ho.
  - apply Z.eqb_eq in Ho. destruct x; cbn [fst snd].
    + split; [lia|]. left. split; [|done]. rewrite Zplus_mod, Ho. done.
    + destruct (1 <? w / 2) eqn:H1; cbn [fst snd].
      * apply Z.ltb_lt in H1. split; [lia|]. left. split; [rewrite Zminus_mod, Ho; done|]. intros _.
        assert (w / 2 <> 2) by (intros Heq; rewrite Heq in Ho; done). lia.
      * apply Z.ltb_ge in H1. split; [lia|]. right. f_equal. assert (w / 2 <> 0) by (intros Heq; rewrite Heq in Ho; done). lia.
  - apply Z.eqb_neq in Ho. cbn [fst snd]. split; [lia|]. destruct (mod2_cases (w / 2)) as [Hm|?]; [|done]. left. split; [done|].
    intros Hxt. specialize (Hx Hxt). destruct (decide (w / 2 = 1)) as [Heq|]; [rewrite Heq in Ho; done|]. lia.
Qed.

(** Every layer of the tree has an even number of nodes, or at most one. *)
Lemma tree_layers_even leaf_count layer :
  0 <= leaf_count -> let n := get_tree_layer_size leaf_count layer in n mod 2 = 0 \/ n = 1.
Proof.
  intros Hl. unfold get_tree_layer_size. assert (Hok : layer_ok (Nat.iter layer next_layer (first_layer leaf_count))).
  { induction layer as [|layer IH]; [|by apply next_layer_ok]. unfold layer_ok, first_layer. cbn [Nat.iter fst snd].
    destruct (mod2_cases leaf_count) as [Hm|Hm]; rewrite Hm; cbn.
    - rewrite andb_false_r. cbn. split; [done|]. left. done.
    - rewrite andb_true_r. destruct (1 <? leaf_count) eqn:H1; cbn.
      + apply Z.ltb_lt in H1. split; [lia|]. left. split; [rewrite Zminus_mod, Hm; done|]. intros _.
        assert (leaf_count <> 2) by (intros ->; done). lia.
      + apply Z.ltb_ge in H1. split; [done|]. right. f_equal. assert (leaf_count <> 0) by (intros ->; done). lia. }
  destruct Hok as [_ [[? _]|Heq]]; [by left|right; by rewrite Heq].
Qed.

(** ** Failure messages *)
Lemma back_to_boundary_spec m : forall cut,
  let c := back_to_boundary m cut in
  (c <= cut)%nat /\ is_char_boundary m c = true /\
  (forall i, (i <= cut)%nat -> is_char_boundary m i = true -> (i <= c)%nat).
Proof.
  induction cut as [|cut IH]; cbn [back_to_boundary].
  - split_and!; [lia|done|intros; lia].
  - destruct (is_char_boundary m (S cut)) eqn:Hb; [split_and!; [lia|done|intros; lia]|].
    destruct IH as (H1 & H2 & H3). split_and!; [lia|done|]. intros i Hi Hbi.
    destruct (decide (i = S cut)) as [->|]; [congruence|]. apply H3; [lia|done].
Qed.

(** A failure message is cut to the cap without breaking a character: it is a prefix of
    the original of at most 2048 bytes that ends on a character boundary, and the longest
    such prefix. *)
Theorem failure_message_is_bounded m :
  let r := bound_failure_message m in
  r `prefix_of` m /\ (length r <= FAILURE_MESSAGE_MAX)%nat /\ is_char_boundary m (length r) = true /\
  (forall i, (i <= FAILURE_MESSAGE_MAX)%nat -> (i <= length m)%nat -> is_char_boundary m i = true -> (i <= length r)%nat).
Proof.
  intros r. unfold r, bound_failure_message. case_bool_decide as Hl.
  - split_and!; [done|done| |auto]. unfold is_char_boundary. rewrite (bool_decide_eq_true_2 (length m = length m)) by done. by rewrite orb_true_r.
  - destruct (back_to_boundary_spec m FAILURE_MESSAGE_MAX) as (H1 & H2 & H3).
    assert (Hlen : length (take (back_to_boundary m FAILURE_MESSAGE_MAX) m) = back_to_boundary m FAILURE_MESSAGE_MAX).
    { rewrite length_take. lia. }
    rewrite Hlen. split_and!; [apply prefix_take|done|done|]. intros i Hi _ Hb. by apply H3.
Qed.

(** ** A task's end, as the coordinator hears it *)
Section outcome.
Context {TM : Nd.TaskMetadataJson} (default_metadata : Nd.Metadata).
Context (metadata_parses : string -> bool) (proving_failure : TaskType -> string -> string).

(** The reports of a task that was not aborted, by what its handler returned; a fatal or
    execution error has failed the proof before the task is reported, and only a retryable
    error is reported as one. *)
Lemma task_outcome_report process tid data timed_out :
  metadata_parses (metadata data) = true ->
  let '(o, rpcs) := run_task default_metadata metadata_parses proving_failure process tid data in
  let report := Nd.report_for (work_result_of o) timed_out in
  match (match task_type data with MarkerDeferredRecord | UnspecifiedTaskType => inr default_metadata | t => process t end) with
  | inr md => report = Nd.Complete md /\ rpcs = []
  | inl (Retryable _) => report = Nd.Fail true /\ rpcs = []
  | inl (Fatal e) | inl (Execution e) =>
      report = Nd.Fail false /\
      exists extra, rpcs = [Serve.FailProof (proof_id data) (Some tid) extra] /\
        (extra = Some (proving_failure (task_type data) e) \/ proving_failure (task_type data) e = "")
  end.
Proof.
  intros Hm. unfold run_task. rewrite Hm. destruct (match task_type data with MarkerDeferredRecord | UnspecifiedTaskType => _ | t => _ end)
    as [[e|e|e]|md]; cbn; try done; split; try done; unfold try_unclaim_proof, Wc.complete_proof; case_decide; eauto.
Qed.
End outcome.

(** ** Concrete values *)
Lemma budget_fits_memory_example :
  let m := mkMachine (Some "51539607552
") None (Some 999999999) (Some (4096, 2097152)) in get_max_weight m None = 8.
Proof. vm_compute. reflexivity. Qed.

Lemma region_example :
  region (mkEcs "c" "arn:aws:ecs:us-west-2:123456789012:task/my-cluster/abc123") = Some "us-west-2" /\
  task_id (mkEcs "c" "arn:aws:ecs:us-west-2:123456789012:task/my-cluster/abc123") = "abc123" /\
  region (mkEcs "c" "arn:aws:ecs::123456789012:task/c/x") = None.
Proof. vm_compute. repeat split; reflexivity. Qed.
