(* ===== verification/Pool.v ===== *)
(** * Transfer threads

    The shape both directions of the S3 client share ([crates/artifact/src/s3.rs]): a
    [JoinSet] of tasks, each with a list of jobs, that wait for a permit of a semaphore,
    do their jobs in order and send every output into a bounded [mpsc] channel the caller
    drains. A run is any interleaving of the steps. The file shows that a run always
    ends, and what the caller has received when it does. *)
From stdpp Require Import base list gmap.
From S2P Require Import Prelude.
Local Open Scope nat_scope.

Module Pool.

(** A task of the set: before its permit, between two jobs, holding an output it has not
    sent yet, returned, or stopped by an error or a panic. *)
Inductive stage (O : Type) := Waiting | Working | Holding (o : O) | Finished | Crashed.
Arguments Waiting {O}.
Arguments Working {O}.
Arguments Holding {O} o.
Arguments Finished {O}.
Arguments Crashed {O}.

Record thread (J O : Type) := mkThread { jobs : list J; at_stage : stage O }.
Arguments mkThread {J O} jobs at_stage.
Arguments jobs {J O} _.
Arguments at_stage {J O} _.

(** The caller's view: the tasks, the free permits, the channel, what was received, and
    the state the jobs act on. *)
Record pool (W J O : Type) := mkPool {
  threads : list (thread J O);
  permits : nat;
  chan : list O;
  received : list O;
  world : W;
}.
Arguments mkPool {W J O} threads permits chan received world.
Arguments threads {W J O} _.
Arguments permits {W J O} _.
Arguments chan {W J O} _.
Arguments received {W J O} _.
Arguments world {W J O} _.

(** [Work t f] does the next job of task [t]; [f] is what the environment adds to it. *)
Inductive event (F : Type) := Acquire (t : nat) | Work (t : nat) (f : F) | Send (t : nat) | Finish (t : nat) | Recv.
Arguments Acquire {F} t.
Arguments Work {F} t f.
Arguments Send {F} t.
Arguments Finish {F} t.
Arguments Recv {F}.

Section pool.
Context {W J O F : Type} (perform : F -> J -> W -> option O * W) (cap : nat).

Definition start (free : nat) (lists : list (list J)) (w : W) : pool W J O :=
  mkPool ((fun js => mkThread js Waiting) <$> lists) free [] [] w.

Definition set_thread (t : nat) (th : thread J O) (p : pool W J O) : list (thread J O) := <[t := th]> (threads p).

Definition step (e : event F) (p : pool W J O) : option (pool W J O) :=
  match e with
  | Recv =>
      match chan p with
      | o :: c => Some (mkPool (threads p) (permits p) c (received p ++ [o]) (world p))
      | [] => None
      end
  | Acquire t =>
      match threads p !! t, permits p with
      | Some (mkThread js Waiting), S n =>
          Some (mkPool (set_thread t (mkThread js Working) p) n (chan p) (received p) (world p))
      | _, _ => None
      end
  | Work t f =>
      match threads p !! t with
      | Some (mkThread (j :: js) Working) =>
          match perform f j (world p) with
          | (Some o, w) => Some (mkPool (set_thread t (mkThread js (Holding o)) p) (permits p) (chan p) (received p) w)
          | (None, w) =>
              Some (mkPool (set_thread t (mkThread (j :: js) Crashed) p) (S (permits p)) (chan p) (received p) w)
          end
      | _ => None
      end
  | Send t =>
      match threads p !! t with
      | Some (mkThread js (Holding o)) =>
          if length (chan p) <? cap
          then Some (mkPool (set_thread t (mkThread js Working) p) (permits p) (chan p ++ [o]) (received p) (world p))
          else None
      | _ => None
      end
  | Finish t =>
      match threads p !! t with
      | Some (mkThread [] Working) =>
          Some (mkPool (set_thread t (mkThread [] Finished) p) (S (permits p)) (chan p) (received p) (world p))
      | _ => None
      end
  end.

Fixpoint exec (es : list (event F)) (p : pool W J O) : option (pool W J O) :=
  match es with
  | [] => Some p
  | e :: es => match step e p with Some p' => exec es p' | None => None end
  end.

(** [rx.recv()] yields [None]: every sender is gone and the channel is empty. *)
Definition ended (th : thread J O) : bool :=
  match at_stage th with Finished | Crashed => true | _ => false end.
Definition crashed (th : thread J O) : bool := match at_stage th with Crashed => true | _ => false end.
Definition final (p : pool W J O) : bool := forallb ended (threads p) && match chan p with [] => true | _ => false end.

(** ** Every run ends *)

Definition thread_cost (th : thread J O) : nat :=
  match at_stage th with
  | Waiting => 2 + 3 * length (jobs th)
  | Working => 1 + 3 * length (jobs th)
  | Holding _ => 3 + 3 * length (jobs th)
  | _ => 0
  end.
Definition sum_costs (l : list (thread J O)) : nat := foldr (fun th n => thread_cost th + n) 0 l.
Definition cost (p : pool W J O) : nat := sum_costs (threads p) + length (chan p).

Lemma sum_insert t th th' l :
  l !! t = Some th -> sum_costs (<[t := th']> l) + thread_cost th = sum_costs l + thread_cost th'.
Proof.
  revert t. induction l as [|x l IH]; intros [|t] Hl; simplify_eq/=; [lia|]. specialize (IH t Hl). lia.
Qed.

Ltac step_cases H :=
  repeat (case_match; try discriminate H); simplify_eq/=.

Lemma step_cost e p p' : step e p = Some p' -> cost p' < cost p.
Proof.
  unfold step, cost, set_thread. intros Hs. step_cases Hs;
    try match goal with
    | H : threads p !! ?t = Some ?th |- context [<[?t := ?th']> _] => pose proof (sum_insert t th th' _ H)
    end; cbn in *; rewrite ?length_app; cbn; lia.
Qed.

(** No run is longer than the cost of the state it starts in. *)
Lemma exec_bound es p p' : exec es p = Some p' -> length es + cost p' <= cost p.
Proof.
  revert p. induction es as [|e es IH]; intros p; cbn [exec]; [intros [= ->]; cbn; lia|].
  destruct (step e p) as [q|] eqn:Hq; [|done]. intros H%IH. apply step_cost in Hq. cbn. lia.
Qed.

Definition running (th : thread J O) : bool := match at_stage th with Working | Holding _ => true | _ => false end.
Definition busy (l : list (thread J O)) : nat := length (filter (fun th => running th = true) l).

Lemma busy_cons th l : busy (th :: l) = (if running th then 1 else 0) + busy l.
Proof. unfold busy. rewrite filter_cons. destruct (running th) eqn:Hr; by repeat case_decide. Qed.

Lemma busy_insert t th th' l :
  l !! t = Some th ->
  busy (<[t := th']> l) + (if running th then 1 else 0) = busy l + (if running th' then 1 else 0).
Proof.
  revert t. induction l as [|x l IH]; intros [|t] Hl; simplify_eq/=; rewrite !busy_cons; [lia|].
  specialize (IH t Hl). lia.
Qed.

(** A permit is free or held by a running task. *)
Lemma step_permits e p p' :
  step e p = Some p' -> permits p' + busy (threads p') = permits p + busy (threads p).
Proof.
  unfold step, set_thread. intros Hs. step_cases Hs;
    try match goal with
    | H : threads p !! ?t = Some ?th |- context [<[?t := ?th']> _] => pose proof (busy_insert t th th' _ H)
    end; cbn in *; lia.
Qed.

Lemma exec_permits es p p' :
  exec es p = Some p' -> permits p' + busy (threads p') = permits p + busy (threads p).
Proof.
  revert p. induction es as [|e es IH]; intros p; cbn [exec]; [by intros [= ->]|].
  destruct (step e p) eqn:Hq; [|done]. intros H%IH. apply step_permits in Hq. lia.
Qed.

Lemma busy_start l : busy ((fun js => mkThread js Waiting) <$> l) = 0.
Proof. induction l as [|x l IH]; [done|]. by rewrite fmap_cons, busy_cons, IH. Qed.

(** What the environment adds to the jobs of a run. *)
Definition adds (ok : F -> Prop) (e : event F) : Prop := match e with Work _ f => ok f | _ => True end.

(** With a permit to be had and room in the channel for one output, a state that is not
    final has a step: no task waits for ever. *)
Lemma busy_running l : 0 < busy l -> exists t th, l !! t = Some th /\ running th = true.
Proof.
  induction l as [|x l IH]; [unfold busy; cbn; lia|]. rewrite busy_cons. destruct (running x) eqn:Hx.
  - intros _. by exists 0, x.
  - intros (t & th & Ht & Hr)%IH. by exists (S t), th.
Qed.

Lemma progress (f : F) p :
  0 < cap -> 0 < permits p + busy (threads p) -> final p = false ->
  exists e, adds (eq f) e /\ is_Some (step e p).
Proof.
  intros Hcap Hp Hf. destruct (chan p) as [|o c] eqn:Hc; [|exists Recv; cbn; rewrite Hc; eauto].
  destruct (decide (0 < busy (threads p))) as [(t & [js st] & Ht & Hr)%busy_running|Hb].
  - destruct st as [| |o| |]; try done.
    + destruct js as [|j js]; [exists (Finish t); cbn; rewrite Ht; eauto|].
      exists (Work t f). cbn. rewrite Ht. split; [done|]. destruct (perform f j (world p)) as [[o|] w]; eauto.
    + exists (Send t). cbn. rewrite Ht, Hc. destruct cap; [lia|]. cbn. eauto.
  - unfold final in Hf. rewrite Hc, andb_true_r in Hf.
    assert (exists t js, threads p !! t = Some (mkThread js Waiting)) as (t & js & Ht).
    { clear Hp. induction (threads p) as [|[js st] l IH]; [done|]. rewrite busy_cons in Hb. cbn in Hf.
      destruct st; cbn in Hb, Hf; try lia; try (by exists 0, js);
        destruct IH as (t & js' & Ht); try done; try lia; by exists (S t), js'. }
    exists (Acquire t). cbn. rewrite Ht. destruct (permits p); [lia|eauto].
Qed.

Lemma run_app es es' p : exec (es ++ es') p = match exec es p with Some q => exec es' q | None => None end.
Proof. revert p. induction es as [|e es IH]; intros p; [done|]. cbn. by destruct (step e p). Qed.

(** So every run can be carried on to a final state. *)
Lemma completes (f : F) p :
  0 < cap -> 0 < permits p + busy (threads p) -> exists es p', Forall (adds (eq f)) es /\ exec es p = Some p' /\ final p' = true.
Proof.
  intros Hcap. remember (cost p) as n eqn:Hn. revert p Hn.
  induction (lt_wf n) as [n _ IH]. intros p -> Hp. destruct (final p) eqn:Hf; [by exists [], p|].
  destruct (progress f p Hcap Hp Hf) as (e & Hadd & q & Hq). pose proof (step_permits _ _ _ Hq).
  destruct (IH (cost q) (step_cost _ _ _ Hq) q eq_refl ltac:(lia)) as (es & p' & Hadds & He & Hfin).
  exists (e :: es), p'. cbn. rewrite Hq. by split; [constructor|].
Qed.

(** ** What the caller has received *)

Section outputs.
(** [made w j o]: in state [w], [o] is a right output of job [j]; the other jobs keep it. *)
Context (made : W -> J -> O -> Prop) (all : list J) (Hnodup : NoDup all).
Context (inv : W -> Prop).
Context (Hinv : forall f j w r w', j ∈ all -> inv w -> perform f j w = (r, w') -> inv w').
Context (Hmade : forall f j w o w', j ∈ all -> inv w -> perform f j w = (Some o, w') -> made w' j o).
Context (Hkeep : forall f j j0 w r w' o0, j ∈ all -> inv w -> perform f j w = (r, w') -> j0 <> j -> made w j0 o0 -> made w' j0 o0).

Definition left_over (l : list (thread J O)) : list J := concat (jobs <$> l).
Definition held (l : list (thread J O)) : list O :=
  concat ((fun th => match at_stage th with Holding o => [o] | _ => [] end) <$> l).

(** Every job is still to be done or has been done once; every output of a job done is
    with its task, in the channel or received. *)
Definition accounted (p : pool W J O) : Prop :=
  inv (world p) /\ exists done : list (J * O),
    left_over (threads p) ++ done.*1 ≡ₚ all /\
    held (threads p) ++ chan p ++ received p ≡ₚ done.*2 /\
    Forall (fun jo => made (world p) jo.1 jo.2) done.

Lemma concat_insert {A B} (g : A -> list B) t x y l :
  l !! t = Some x -> exists rest, concat (g <$> l) ≡ₚ g x ++ rest /\ concat (g <$> <[t := y]> l) ≡ₚ g y ++ rest.
Proof.
  revert t. induction l as [|z l IH]; intros [|t] Hl; simplify_eq/=; [by eexists|].
  destruct (IH t Hl) as (rest & H1 & H2). exists (g z ++ rest). rewrite H1, H2. split; by rewrite !(assoc_L (++)), (comm (++) (g z)).
Qed.

Lemma start_accounted free lists w : concat lists = all -> inv w -> accounted (start free lists w).
Proof.
  intros Hc Hi. split; [done|]. exists []. split; [|split; [|done]].
  - rewrite app_nil_r. unfold left_over, start. cbn. by rewrite <- list_fmap_compose, list_fmap_id, Hc.
  - cbn. rewrite app_nil_r. unfold held. clear. by induction lists.
Qed.

(** A step that does no job moves an output on, or none. *)
Lemma accounted_move (p : pool W J O) l n c r :
  left_over l ≡ₚ left_over (threads p) -> held l ++ c ++ r ≡ₚ held (threads p) ++ chan p ++ received p ->
  accounted p -> accounted (mkPool l n c r (world p)).
Proof.
  intros Hl Ho (Hi & done & Hjobs & Houts & Hall). split; [done|]. exists done. cbn. by rewrite Hl, Ho.
Qed.

Definition outputs (th : thread J O) : list O := match at_stage th with Holding o => [o] | _ => [] end.

Lemma accounted_thread (p : pool W J O) t th th' n c r :
  threads p !! t = Some th -> jobs th' = jobs th -> outputs th' ++ c ++ r ≡ₚ outputs th ++ chan p ++ received p ->
  accounted p -> accounted (mkPool (<[t := th']> (threads p)) n c r (world p)).
Proof.
  intros Ht Hj Ho. destruct (concat_insert jobs t th th' _ Ht) as (rj & Hj1 & Hj2).
  destruct (concat_insert outputs t th th' _ Ht) as (ro & Ho1 & Ho2). apply accounted_move; unfold left_over, held; fold outputs.
  - by rewrite Hj1, Hj2, Hj.
  - rewrite Ho1, Ho2, <- !(assoc_L (++)), !(Permutation_app_swap_app _ ro). by rewrite Ho.
Qed.

(** The job a task does next has not been done. *)
Lemma job_is_new (p : pool W J O) t j js st done :
  threads p !! t = Some (mkThread (j :: js) st) -> left_over (threads p) ++ done.*1 ≡ₚ all ->
  j ∈ all /\ forall jo : J * O, jo ∈ done -> jo.1 <> j.
Proof.
  intros Ht Hjobs. destruct (concat_insert jobs t _ (mkThread [] st) _ Ht) as (rj & Hj1 & _).
  cbn in Hj1. fold (left_over (threads p)) in Hj1. rewrite Hj1 in Hjobs. split; [rewrite <- Hjobs; by left|].
  intros jo Hjo <-. rewrite <- Hjobs in Hnodup. cbn in Hnodup. apply NoDup_cons in Hnodup as [Hn _].
  apply Hn. apply elem_of_app. right. by apply list_elem_of_fmap_2.
Qed.

Lemma work_accounted f t j js p r w :
  threads p !! t = Some (mkThread (j :: js) Working) -> perform f j (world p) = (r, w) -> accounted p ->
  accounted (mkPool (<[t := match r with Some o => mkThread js (Holding o) | None => mkThread (j :: js) Crashed end]> (threads p))
    (match r with Some _ => permits p | None => S (permits p) end) (chan p) (received p) w).
Proof.
  intros Ht Hw (Hi & done & Hjobs & Houts & Hall). destruct (job_is_new _ _ _ _ _ _ Ht Hjobs) as [Hin Hnew].
  assert (Forall (fun jo => made w jo.1 jo.2) done) as Hall'.
  { apply Forall_forall. intros jo Hjo. rewrite Forall_forall in Hall. eapply Hkeep; eauto. }
  set (th' := match r with Some o => _ | None => _ end).
  destruct (concat_insert jobs t _ th' _ Ht) as (rj & Hj1 & Hj2).
  destruct (concat_insert outputs t _ th' _ Ht) as (ro & Ho1 & Ho2).
  fold (left_over (threads p)) in Hj1. fold (left_over (<[t := th']> (threads p))) in Hj2.
  change (held (threads p) ≡ₚ ro) in Ho1. fold (held (<[t := th']> (threads p))) in Ho2.
  split; [cbn; by eapply Hinv|]. rewrite Hj1 in Hjobs. rewrite Ho1 in Houts. destruct r as [o|].
  - exists ((j, o) :: done). cbn. fold th'. rewrite Hj2, Ho2. cbn. split; [|split].
    + rewrite <- Hjobs. cbn. by rewrite <- Permutation_middle.
    + by rewrite Houts.
    + constructor; [by eapply Hmade|done].
  - exists done. cbn. fold th'. rewrite Hj2, Ho2. by cbn in *.
Qed.

Lemma step_accounted e p p' : step e p = Some p' -> accounted p -> accounted p'.
Proof.
  unfold step, set_thread. intros Hs. step_cases Hs.
  - by eapply accounted_thread.
  - by eapply (work_accounted _ _ _ _ _ (Some _)).
  - by eapply (work_accounted _ _ _ _ _ None).
  - eapply accounted_thread; [done..|]. cbn. rewrite <- (assoc_L (++)). cbn. by rewrite <- Permutation_middle.
  - by eapply accounted_thread.
  - apply accounted_move; [done|]. match goal with Hc : chan p = _ |- _ => rewrite Hc end. cbn.
    rewrite (assoc_L (++) _ (received p)). by rewrite <- Permutation_cons_append.
Qed.

Lemma exec_accounted es p p' : exec es p = Some p' -> accounted p -> accounted p'.
Proof.
  revert p. induction es as [|e es IH]; intros p; cbn [exec]; [by intros [= ->]|].
  destruct (step e p) eqn:Hq; [|done]. intros He Hp. by eapply IH, step_accounted.
Qed.

(** A task that finished has done all its jobs. *)
Definition finished_idle (p : pool W J O) : Prop := Forall (fun th => at_stage th = Finished -> jobs th = []) (threads p).

Lemma step_idle e p p' : step e p = Some p' -> finished_idle p -> finished_idle p'.
Proof.
  unfold step, set_thread, finished_idle. intros Hs Hf. step_cases Hs; try done; by apply Forall_insert.
Qed.

Lemma exec_idle es p p' : exec es p = Some p' -> finished_idle p -> finished_idle p'.
Proof.
  revert p. induction es as [|e es IH]; intros p; cbn [exec]; [by intros [= ->]|].
  destruct (step e p) eqn:Hq; [|done]. intros He Hp. by eapply IH, step_idle.
Qed.

Lemma final_received (p : pool W J O) :
  accounted p -> finished_idle p -> final p = true -> existsb crashed (threads p) = false ->
  exists done : list (J * O), done.*1 ≡ₚ all /\ received p ≡ₚ done.*2 /\ Forall (fun jo => made (world p) jo.1 jo.2) done.
Proof.
  intros (_ & done & Hjobs & Houts & Hall) Hidle [Hend Hchan]%andb_true_iff Hc. exists done.
  destruct (chan p); [|done].
  assert (left_over (threads p) = [] /\ held (threads p) = []) as [Hl Hh].
  { unfold left_over, held. clear -Hidle Hend Hc. unfold finished_idle in Hidle.
    induction (threads p) as [|[js st] l IH]; [done|]. apply Forall_cons in Hidle as [Hx Hidle].
    cbn in Hend, Hc, Hx. destruct st; try done. destruct (IH Hidle Hend Hc) as [IH1 IH2]. cbn. rewrite IH1, IH2.
    by rewrite Hx. }
  by rewrite Hl, Hh in *.
Qed.

Lemma run_received free lists w es p :
  concat lists = all -> inv w -> exec es (start free lists w) = Some p -> final p = true ->
  existsb crashed (threads p) = false ->
  exists done : list (J * O), done.*1 ≡ₚ all /\ received p ≡ₚ done.*2 /\ Forall (fun jo => made (world p) jo.1 jo.2) done.
Proof.
  intros Hc Hi He. apply final_received; [by eapply exec_accounted, start_accounted|].
  eapply exec_idle; [done|]. apply Forall_forall. intros th (js & -> & _)%list_elem_of_fmap. done.
Qed.

(** Whatever happened, the invariant of the jobs' state holds. *)
Lemma run_inv free lists w es p :
  concat lists = all -> inv w -> exec es (start free lists w) = Some p -> inv (world p).
Proof. intros Hc Hi He. by eapply exec_accounted, start_accounted. Qed.

(** Only outputs of jobs are received. *)
Lemma run_outputs free lists w es p o :
  concat lists = all -> inv w -> exec es (start free lists w) = Some p -> o ∈ received p ->
  exists j, j ∈ all /\ made (world p) j o.
Proof.
  intros Hc Hi He Ho. destruct (exec_accounted _ _ _ He (start_accounted free lists w Hc Hi)) as (_ & outs & Hjobs & Houts & Hall).
  assert (o ∈ outs.*2) as Hin by (rewrite <- Houts; set_solver). apply list_elem_of_fmap in Hin as (jo & -> & Hjo).
  exists jo.1. split; [rewrite <- Hjobs; apply elem_of_app; right; by apply list_elem_of_fmap_2|].
  rewrite Forall_forall in Hall. by apply Hall.
Qed.

(** A run whose jobs all succeed crashes no task. *)
Lemma run_no_crash (ok : F -> Prop) free lists w es p :
  (forall f j w, ok f -> j ∈ all -> inv w -> is_Some (perform f j w).1) ->
  concat lists = all -> inv w -> Forall (adds ok) es -> exec es (start free lists w) = Some p ->
  existsb crashed (threads p) = false.
Proof.
  intros Hok Hc Hi Hes He. pose proof (start_accounted free lists w Hc Hi) as Ha.
  assert (existsb crashed (threads (start free lists w)) = false) as Hn by (cbn; clear; by induction lists).
  revert He Ha Hn. generalize (start free lists w). induction Hes as [|e es Hadd _ IH]; intros q; cbn [exec]; [by intros [= ->]|].
  destruct (step e q) as [q'|] eqn:Hq; [|done]. intros He Ha Hn.
  apply (IH q' He); [by eapply step_accounted|]. revert Hq. destruct Ha as (Hinv' & done & Hjobs & _).
  unfold step, set_thread. intros Hs. rewrite <- not_true_iff_false, existsb_exists in *.
  step_cases Hs; try done; intros (x & Hx%list_elem_of_In & Hcr);
    apply list_elem_of_lookup in Hx as [k Hk]; apply list_lookup_insert_Some in Hk as [(-> & <- & _)|[_ Hk]];
    try done; try (apply Hn; exists x; split; [apply list_elem_of_In; by eapply list_elem_of_lookup_2|done]).
  match goal with H : threads q !! _ = Some (mkThread (?j :: _) _) |- _ => destruct (job_is_new _ _ _ _ _ _ H Hjobs) as [Hin _] end.
  match goal with H : perform ?f ?j ?w = (None, _) |- _ => destruct (Hok f j w Hadd Hin Hinv') as [o Ho]; by rewrite H in Ho end.
Qed.
End outputs.
End pool.
End Pool.
