(* ===== verification/S3.v ===== *)
(** * The S3 artifact store

    [crates/artifact/src/s3.rs] with its two download clients [s3_sdk.rs] and
    [s3_rest.rs]: keys and prefixes, the classification of download errors, the parallel
    ranged download, the multipart upload, and the operations of [ArtifactClient] built
    on them. S3 itself, reached through the AWS SDK or plain HTTP, is the class
    [S3Server] with its documented behaviour as the laws [S3ServerOk]; the retries
    the SDK does by itself are part of one call. The tasks of a transfer run in any
    order (Pool.v). *)
From stdpp Require Import base gmap strings list pretty.
From S2P Require Import Prelude GatewayIds Pool.
Local Open Scope string_scope.
Local Open Scope list_scope.

Module S3.

Abbreviation bytes := (list Z).

(** [anyhow::Error] as far as the code looks into it: an [SdkError] of a GET or a HEAD,
    with whether its service error is [NoSuchKey] or [NotFound], or anything else. *)
Inductive S3Error :=
  | GetFailed (no_such_key : bool)
  | HeadFailed (not_found : bool)
  | OtherFailed (m : string).

(** A [reqwest] response; its body is read whatever the status. *)
Record HttpResponse := mkResponse { http_status : Z; content_length : option Z; body : bytes }.

(** ** The service *)

(** [pieces d a b]: the bytes [a..=b] of [d]. *)
Definition pieces (d : bytes) (a b : nat) : bytes := take (b + 1 - a) (drop a d).

(** The bucket, what a key and a part of an open upload hold, and the calls. A range
    ["bytes=a-b"] is the pair of its bounds. *)
Class S3Server := {
  Bucket : Type;
  object : Bucket -> string -> option bytes;
  part : Bucket -> string -> Z -> option (string * bytes);
  min_part_size : nat;
  max_part_number : Z;
  head_object : Bucket -> string -> S3Error + option Z;
  get_object : Bucket -> string -> option (nat * nat) -> S3Error + bytes;
  http_get : Bucket -> string -> option (nat * nat) -> HttpResponse;
  put_object : string -> bytes -> Bucket -> unit * Bucket;
  delete_object : string -> Bucket -> unit * Bucket;
  create_multipart_upload : string -> Bucket -> string * Bucket;
  upload_part : string -> string -> Z -> bytes -> Bucket -> string * Bucket;
  complete_multipart_upload : string -> string -> list (Z * string) -> Bucket -> (S3Error + unit) * Bucket;
}.

(** [same_but k s s']: the two states agree on every object but [k]. *)
Definition same_but {Srv : S3Server} (k : string) (s s' : Bucket) : Prop := forall k', k' <> k -> object s' k' = object s k'.
Definition same_objects {Srv : S3Server} (s s' : Bucket) : Prop := forall k, object s' k = object s k.

(** The listed parts are the ones uploaded, under the ETags they were given. *)
Definition parts_are {Srv : S3Server} (s : Bucket) (u : string) (ps : list (Z * string)) (bs : list bytes) : Prop :=
  Forall2 (fun p b => part s u p.1 = Some (p.2, b)) ps bs.

Class S3ServerOk (Srv : S3Server) := {
  head_found s k d : object s k = Some d -> head_object s k = inr (Some (Z.of_nat (length d)));
  head_missing s k : object s k = None -> head_object s k = inl (HeadFailed true);
  get_found s k d : object s k = Some d -> get_object s k None = inr d;
  get_range s k d a b : object s k = Some d -> (a <= b < length d)%nat -> get_object s k (Some (a, b)) = inr (pieces d a b);
  get_missing s k r : object s k = None -> get_object s k r = inl (GetFailed true);
  put_object_spec s k d : let s' := (put_object k d s).2 in object s' k = Some d /\ same_but k s s';
  delete_object_spec s k : let s' := (delete_object k s).2 in object s' k = None /\ same_but k s s';
  create_spec s k : let '(u, s') := create_multipart_upload k s in same_objects s s' /\ forall n, part s' u n = None;
  upload_part_spec s k u n d :
    let '(etag, s') := upload_part k u n d s in
    same_objects s s' /\ part s' u n = Some (etag, d) /\
    forall u' n', (u', n') <> (u, n) -> part s' u' n' = part s u' n';
  complete_sound s k u ps s' :
    complete_multipart_upload k u ps s = (inr tt, s') ->
    exists bs, parts_are s u ps bs /\ object s' k = Some (concat bs) /\ same_but k s s';
  complete_failed s k u ps e s' : complete_multipart_upload k u ps s = (inl e, s') -> same_objects s s';
  (* The parts are named in ascending order, and all but the last have the minimal size. *)
  complete_accepts s k u ps bs :
    parts_are s u ps bs -> ps <> [] -> ps.*1 = Z.of_nat <$> seq 1 (length ps) -> (Z.of_nat (length ps) <= max_part_number)%Z ->
    (forall i b, bs !! i = Some b -> S i < length bs -> min_part_size <= length b)%nat ->
    exists s', complete_multipart_upload k u ps s = (inr tt, s');
}.

(** zstd at level 3. *)
Class Zstd := { encode_all : bytes -> S3Error + bytes; decode_all : bytes -> S3Error + bytes }.
Class ZstdOk (Z : Zstd) := { zstd_inverse d c : encode_all d = inr c -> decode_all c = inr d }.

(** ** Keys *)

Definition get_s3_prefix (t : ArtifactType) : string :=
  match t with
  | UnspecifiedArtifactType => "artifacts"
  | Program => "programs"
  | Stdin => "stdins"
  | Proof => "proofs"
  | Groth16Circuit => ""
  | PlonkCircuit => ""
  | PrivateStdin => "private-stdins"
  end.

Definition get_s3_key_from_id (t : ArtifactType) (id : string) : string :=
  match t with
  | Groth16Circuit => id +:+ "-groth16.tar.gz"
  | PlonkCircuit => id +:+ "-plonk.tar.gz"
  | _ => get_s3_prefix t +:+ "/" +:+ id
  end.

(** [S3ArtifactClient], without its SDK client and semaphore; the mode tells the
    download clients apart. *)
Inductive S3DownloadMode := REST | AwsSDK.
Record S3ArtifactClient := mkClient { bucket : string; region : string; concurrency : nat; s3_dl_mode : S3DownloadMode }.

Definition get_s3_url_from_id (cl : S3ArtifactClient) (t : ArtifactType) (id : string) : string :=
  let url_base := "https://" +:+ bucket cl +:+ ".s3." +:+ region cl +:+ ".amazonaws.com" in
  match t with
  | Groth16Circuit => url_base +:+ "/" +:+ id +:+ "-groth16.tar.gz"
  | PlonkCircuit => url_base +:+ "/" +:+ id +:+ "-plonk.tar.gz"
  | _ => url_base +:+ "/" +:+ get_s3_prefix t +:+ "/" +:+ id
  end.

(** The function of the same name in s3_rest.rs. *)
Definition rest_url (cl : S3ArtifactClient) (key : string) : string :=
  "https://" +:+ bucket cl +:+ ".s3." +:+ region cl +:+ ".amazonaws.com/" +:+ key.

Definition CHUNK_SIZE : Z := (32 * 1024 * 1024)%Z.

(** ** Reading *)

(** One attempt is answered, or fails as the network or the service lets it. The pair is
    the first attempt and those the backoff's 120 seconds still allow. *)
Abbreviation attempts := (option S3Error * list (option S3Error))%type.

Definition is_object_missing (e : S3Error) : bool :=
  match e with GetFailed b => b | HeadFailed b => b | OtherFailed _ => false end.

(** [backoff::future::retry] with [classify_download_error]: a missing object is
    permanent, everything else is retried. *)
Fixpoint retry {A} (read : S3Error + A) (a : option S3Error) (more : list (option S3Error)) : S3Error + A :=
  match (match a with Some e => inl e | None => read end), more with
  | inl e, a' :: more' => if is_object_missing e then inl e else retry read a' more'
  | r, _ => r
  end.

Section client.
Context {Srv : S3Server} {Zs : Zstd} (CHUNK : nat) (cl : S3ArtifactClient).

Definition sdk_get_object_size (s : Bucket) (key : string) : S3Error + Z :=
  match head_object s key with
  | inr (Some len) => inr len
  | inr None => inl (OtherFailed ("failed to get content size of s3 obj " +:+ bucket cl +:+ "/" +:+ key))
  | inl e => inl e
  end.
Definition sdk_read_bytes (s : Bucket) (key : string) (range : option (nat * nat)) : S3Error + bytes :=
  get_object s key range.

(** The status of the response is not looked at. *)
Definition rest_get_object_size (s : Bucket) (key : string) : S3Error + Z :=
  match content_length (http_get s (rest_url cl key) None) with
  | Some len => inr (if (len <? 2 ^ 63)%Z then len else (len - 2 ^ 64)%Z)
  | None => inl (OtherFailed ("failed to get content size of " +:+ rest_url cl key))
  end.
Definition rest_read_bytes (s : Bucket) (key : string) (range : option (nat * nat)) : S3Error + bytes :=
  inr (body (http_get s (rest_url cl key) range)).

Definition object_size (s : Bucket) (key : string) : S3Error + Z :=
  match s3_dl_mode cl with REST => rest_get_object_size s key | AwsSDK => sdk_get_object_size s key end.
Definition read_bytes (s : Bucket) (key : string) (range : option (nat * nat)) : S3Error + bytes :=
  match s3_dl_mode cl with REST => rest_read_bytes s key range | AwsSDK => sdk_read_bytes s key range end.

(** A call returns, with an error or a value, or panics. *)
Inductive ending (A : Type) := Returned (r : S3Error + A) | Panicked.
Arguments Returned {A} r.
Arguments Panicked {A}.

(** ** Download *)

(** [(0..size).step_by(CHUNK_SIZE).enumerate()]. *)
Definition starts (size : nat) : list (nat * nat) := (fun i => (i, i * CHUNK)%nat) <$> seq 0 (div_ceil size CHUNK).

(** The jobs of one download task: the chunk at [start], retried. *)
Definition fetch (key : string) (size : nat) (f : attempts) (job : nat * nat) (s : Bucket) : option (nat * bytes) * Bucket :=
  let '(index, start) := job in
  match retry (read_bytes s key (Some (start, Nat.min (start + CHUNK) size - 1)%nat)) f.1 f.2 with
  | inr body => (Some (index, body), s)
  | inl _ => (None, s)
  end.

(** [result[index * CHUNK_SIZE..end].copy_from_slice(&chunk)]; [None] is its panic. *)
Definition copy_chunk (size : nat) (result : option bytes) (o : nat * bytes) : option bytes :=
  let '(index, chunk) := o in
  let first := (index * CHUNK)%nat in
  let last := Nat.min (first + length chunk) size in
  match result with
  | Some buf =>
      if decide (first <= last /\ last <= length buf /\ length chunk = last - first)%nat
      then Some (take first buf ++ chunk ++ drop last buf) else None
  | None => None
  end.

(** What becomes of one download: its two plain requests, the permits free when it starts,
    and the steps of its tasks. *)
Record transfer (F : Type) := mkTransfer { on_size : attempts; on_read : attempts; free : nat; steps : list (Pool.event F) }.
Arguments mkTransfer {F} on_size on_read free steps.
Arguments on_size {F} _.
Arguments on_read {F} _.
Arguments free {F} _.
Arguments steps {F} _.

(** How the starts are split: [starts.chunks(thread_size)]. *)
Definition download_lists (size : nat) : list (list (nat * nat)) :=
  let threads := Nat.min (concurrency cl) (length (starts size)) in
  chunks (Nat.max (div_ceil (length (starts size)) threads) 1) (starts size).

(** [None]: the steps are not a run of the tasks to its end. *)
Definition par_download_file (x : transfer attempts) (t : ArtifactType) (id : string) (s : Bucket) : option (ending bytes) :=
  let key := get_s3_key_from_id t id in
  match retry (object_size s key) (on_size x).1 (on_size x).2 with
  | inl e => Some (Returned (inl e))
  | inr size =>
      if decide (size <= Z.of_nat CHUNK)%Z
      then Some (Returned (retry (read_bytes s key None) (on_read x).1 (on_read x).2))
      else
        let size := Z.to_nat size in
        match Nat.min (concurrency cl) (length (starts size)) with
        | O => Some Panicked
        | threads =>
            match Pool.exec (fetch key size) threads (steps x) (Pool.start (free x) (download_lists size) s) with
            | Some p =>
                if Pool.final p then
                  match foldl (copy_chunk size) (Some (replicate size 0%Z)) (Pool.received p) with
                  | Some result =>
                      if existsb Pool.crashed (Pool.threads p) then Some Panicked else Some (Returned (inr result))
                  | None => Some Panicked
                  end
                else None
            | None => None
            end
        end
  end.

(** ** Upload *)

(** What becomes of a call that writes: answered, failed without having run, or failed
    with its reply lost. *)
Inductive reply := Answered | NotRun (e : S3Error) | Lost (e : S3Error).

Definition send {A} (r : reply) (call : Bucket -> A * Bucket) (s : Bucket) : (S3Error + A) * Bucket :=
  match r with
  | Answered => let '(a, s') := call s in (inr a, s')
  | NotRun e => (inl e, s)
  | Lost e => (inl e, (call s).2)
  end.

(** The jobs of one upload task: [upload_part] of the chunk at [start], unwrapped. The
    cast [i as i32] is exact: 2^31 chunks are 2^56 bytes. *)
Definition put_part (key upload_id : string) (data : bytes) (r : reply) (job : nat * nat) (s : Bucket)
  : option (nat * (Z * string)) * Bucket :=
  let '(i, start) := job in
  let last := Nat.min (start + CHUNK) (length data) in
  let number := (Z.of_nat i + 1)%Z in
  match send r (upload_part key upload_id number (take (last - start) (drop start data))) s with
  | (inr e_tag, s') => (Some (i, (number, e_tag)), s')
  | (inl _, s') => (None, s')
  end.

(** [parts[i] = Some(part)], which panics out of range. *)
Definition set_part {P} (parts : option (list (option P))) (o : nat * P) : option (list (option P)) :=
  match parts with
  | Some l => if decide (o.1 < length l)%nat then Some (<[o.1 := Some o.2]> l) else None
  | None => None
  end.

Definition num_chunks (data : bytes) : nat := Nat.max (div_ceil (length data) CHUNK) 1.
Definition chunk_starts (data : bytes) : list (nat * nat) := (fun i => (i, i * CHUNK)%nat) <$> seq 0 (num_chunks data).

(** What becomes of one upload: its plain put or the creation of the multipart upload, the
    permits free, the steps of its tasks, and the completion. *)
Record upload := mkUpload { on_first : reply; up_free : nat; up_steps : list (Pool.event reply); on_complete : reply }.

(** [chunk_starts.chunks(threads)]: pieces of [threads] jobs each. *)
Definition upload_lists (data : bytes) : list (list (nat * nat)) :=
  chunks (Nat.min (concurrency cl) (length data)) (chunk_starts data).

Definition par_upload_file (x : upload) (t : ArtifactType) (id : string) (data : bytes) (s : Bucket) : option (ending unit * Bucket) :=
  let key := get_s3_key_from_id t id in
  if decide (length data <= CHUNK)%nat
  then let '(r, s') := send (on_first x) (put_object key data) s in Some (Returned r, s')
  else
    match send (on_first x) (create_multipart_upload key) s with
    | (inl e, s') => Some (Returned (inl e), s')
    | (inr upload_id, s') =>
        match Nat.min (concurrency cl) (length data) with
        | O => Some (Panicked, s')
        | _ =>
            match Pool.exec (put_part key upload_id data) (num_chunks data) (up_steps x)
                    (Pool.start (up_free x) (upload_lists data) s') with
            | Some p =>
                if Pool.final p then
                  match foldl set_part (Some (replicate (num_chunks data) None)) (Pool.received p) with
                  | Some parts =>
                      match mapM (fun part_option => part_option) parts with
                      | Some upload_parts =>
                          let '(r, s'') := send (on_complete x) (complete_multipart_upload key upload_id upload_parts) (Pool.world p) in
                          Some (Returned (match r with inr (inr tt) => inr tt | inr (inl e) | inl e => inl e end), s'')
                      | None => Some (Panicked, Pool.world p)
                      end
                  | None => Some (Panicked, Pool.world p)
                  end
                else None
            | None => None
            end
        end
    end.

(** ** [ArtifactClient] and [CompressedUpload] *)

Definition upload_raw (x : upload) (t : ArtifactType) (id : string) (data : bytes) (s : Bucket) : option (ending unit * Bucket) :=
  match encode_all data with
  | inl _ => Some (Returned (inl (OtherFailed "Failed to compress artifact")), s)
  | inr compressed => par_upload_file x t id compressed s
  end.

Definition upload_raw_compressed (x : upload) (t : ArtifactType) (id : string) (data : bytes) (s : Bucket)
  : option (ending unit * Bucket) := par_upload_file x t id data s.

Definition download_raw (x : transfer attempts) (t : ArtifactType) (id : string) (s : Bucket) : option (ending bytes) :=
  match par_download_file x t id s with
  | Some (Returned (inr compressed)) =>
      match decode_all compressed with
      | inr d => Some (Returned (inr d))
      | inl _ => Some (Returned (inl (OtherFailed "Failed to decompress artifact")))
      end
  | r => r
  end.

Definition exists_artifact (a : option S3Error) (t : ArtifactType) (id : string) (s : Bucket) : S3Error + bool :=
  match (match a with Some e => inl e | None => head_object s (get_s3_key_from_id t id) end) with
  | inr _ => inr true
  | inl (HeadFailed true) => inr false
  | inl e => inl e
  end.

Definition delete (r : reply) (t : ArtifactType) (id : string) (s : Bucket) : (S3Error + unit) * Bucket :=
  send r (delete_object (get_s3_key_from_id t id)) s.

(** One request per artifact, in the order the replies are joined; the first error is
    returned, and the requests still open then are aborted, run or not. *)
Fixpoint delete_batch (t : ArtifactType) (joined : list (string * reply)) (s : Bucket) : (S3Error + unit) * Bucket :=
  match joined with
  | [] => (inr tt, s)
  | (id, r) :: rest =>
      let '(a, s1) := delete r t id s in
      let '(b, s2) := delete_batch t rest s1 in
      (match a with inl e => inl e | inr _ => b end, s2)
  end.
End client.

Arguments Returned {A} r.
Arguments Panicked {A}.
Arguments mkTransfer {F} on_size on_read free steps.
Arguments on_size {F} _.
Arguments on_read {F} _.
Arguments free {F} _.
Arguments steps {F} _.
End S3.
