(* ===== verification/S3Facts.v ===== *)
(** * Retries and chunks of the S3 transfers

    When a retried read is answered, how an artifact is cut into chunks, and that chunks
    copied in any order rebuild it. *)
From stdpp Require Import base gmap strings list pretty.
From S2P Require Import Prelude S3.
Import S3.
Local Open Scope string_scope.
Local Open Scope list_scope.

(** ** Retries *)

(** Some attempt is answered before the policy or a missing object ends them. *)
Fixpoint gets_through (a : option S3Error) (more : list (option S3Error)) : bool :=
  match a, more with
  | None, _ => true
  | Some e, a' :: more' => negb (is_object_missing e) && gets_through a' more'
  | Some _, [] => false
  end.

Lemma retry_sound {A} (read : S3Error + A) a more x : retry read a more = inr x -> read = inr x.
Proof.
  revert a. induction more as [|a' more IH]; intros [e|]; destruct read as [e'|y]; cbn; try done;
    (case_match; [done|apply IH]).
Qed.

Lemma retry_answered {A} (read : S3Error + A) a more x :
  gets_through a more = true -> read = inr x -> retry read a more = inr x.
Proof.
  intros H ->. revert a H. induction more as [|a' more IH]; intros [e|]; cbn; try done.
  intros [Hm Hg]%andb_true_iff. destruct (is_object_missing e); [done|by apply IH].
Qed.

(** ** Slices *)
Section slices.
Context (CHUNK : nat) (HC : (0 < CHUNK)%nat).

Definition last_of (size i : nat) : nat := Nat.min (i * CHUNK + CHUNK) size.
Definition slice (d : bytes) (i : nat) : bytes := take (last_of (length d) i - i * CHUNK) (drop (i * CHUNK) d).

Lemma in_chunks size i : (i < div_ceil size CHUNK <-> i * CHUNK < size)%nat.
Proof.
  unfold div_ceil. split; intros H.
  - pose proof (Nat.Div0.mul_div_le (size + (CHUNK - 1)) CHUNK). nia.
  - assert (S i <= (size + (CHUNK - 1)) / CHUNK)%nat; [|lia]. apply Nat.div_le_lower_bound; nia.
Qed.

Lemma length_slice d i : (i * CHUNK < length d)%nat -> length (slice d i) = (last_of (length d) i - i * CHUNK)%nat.
Proof. intros Hi. unfold slice, last_of. rewrite length_take, length_drop. lia. Qed.

Lemma lookup_slice d i p :
  slice d i !! p = if decide (i * CHUNK + p < last_of (length d) i)%nat then d !! (i * CHUNK + p)%nat else None.
Proof.
  unfold slice. case_decide as Hp.
  - rewrite lookup_take_lt by lia. by rewrite lookup_drop.
  - rewrite lookup_take_ge by lia. done.
Qed.

Lemma concat_slices d n : concat (slice d <$> seq 0 n) = take (n * CHUNK) d.
Proof.
  induction n as [|n IH]; [done|]. rewrite seq_S, fmap_app, concat_app, IH. cbn. rewrite app_nil_r.
  replace (CHUNK + n * CHUNK)%nat with (n * CHUNK + CHUNK)%nat by lia. rewrite <- take_take_drop. f_equal.
  unfold slice, last_of. destruct (decide (n * CHUNK + CHUNK <= length d)%nat).
  - f_equal. lia.
  - rewrite !take_ge; [done| |]; rewrite length_drop; lia.
Qed.

Lemma concat_all_slices d n : (length d <= n * CHUNK)%nat -> concat (slice d <$> seq 0 n) = d.
Proof. intros H. rewrite concat_slices. by apply take_ge. Qed.

Lemma enough_chunks size : (size <= div_ceil size CHUNK * CHUNK)%nat.
Proof. destruct (decide (div_ceil size CHUNK * CHUNK < size)%nat) as [H%in_chunks|]; lia. Qed.

(** ** Putting the chunks together *)

Definition covered (d buf : bytes) (idx : list nat) : Prop :=
  length buf = length d /\ forall p i, i ∈ idx -> (i * CHUNK <= p < last_of (length d) i)%nat -> buf !! p = d !! p.

Lemma copy_slice d buf idx i :
  (i * CHUNK < length d)%nat -> covered d buf idx ->
  exists buf', copy_chunk CHUNK (length d) (Some buf) (i, slice d i) = Some buf' /\ covered d buf' (i :: idx).
Proof.
  intros Hi [Hlen Hcov]. pose proof (length_slice d i Hi) as Hs. unfold last_of in Hs. cbn [copy_chunk]. eexists. split.
  { rewrite decide_True; [done|]. rewrite Hlen, Hs. lia. }
  split; [rewrite !length_app, length_take, length_drop, Hs, Hlen; lia|].
  intros p j Hj Hp. rewrite Hs.
  assert (forall q, (take (i * CHUNK) buf ++ slice d i ++ drop (Nat.min (i * CHUNK + (Nat.min (i * CHUNK + CHUNK) (length d) - i * CHUNK)) (length d)) buf) !! q
    = if decide (i * CHUNK <= q < last_of (length d) i)%nat then d !! q else buf !! q) as Hq.
  { intros q. unfold last_of. destruct (decide (q < i * CHUNK)%nat).
    { rewrite lookup_app_l by (rewrite length_take; lia). rewrite lookup_take_lt by lia. by rewrite decide_False by lia. }
    rewrite lookup_app_r by (rewrite length_take; lia). rewrite length_take. replace (Nat.min (i * CHUNK) (length buf)) with (i * CHUNK)%nat by lia.
    case_decide as Hin.
    - rewrite lookup_app_l by lia. rewrite lookup_slice. unfold last_of. rewrite decide_True by lia. f_equal. lia.
    - rewrite lookup_app_r by lia. rewrite lookup_drop. f_equal. lia. }
  rewrite Hq. case_decide; [done|]. apply elem_of_cons in Hj as [->|Hj]; [done|]. by eapply Hcov.
Qed.

Lemma copy_slices d os buf idx :
  covered d buf idx -> Forall (fun o => (o.1 * CHUNK < length d)%nat /\ o.2 = slice d o.1) os ->
  exists buf', foldl (copy_chunk CHUNK (length d)) (Some buf) os = Some buf' /\ covered d buf' (os.*1 ++ idx).
Proof.
  revert buf idx. induction os as [|[i c] os IH]; intros buf idx Hc Hos; [by exists buf|].
  apply Forall_cons in Hos as [[Hi Hs] Hos]. cbn in Hi, Hs. subst c.
  destruct (copy_slice d buf idx i Hi Hc) as (buf' & He & Hc').
  destruct (IH buf' (i :: idx) Hc' Hos) as (b & Hb & Hcov). exists b. split; [by rewrite <- He in Hb|].
  destruct Hcov as [Hl Hcov]. split; [done|]. intros p j Hj. apply Hcov. cbn in Hj. set_solver.
Qed.

Lemma rebuilt d os :
  os.*1 ≡ₚ seq 0 (div_ceil (length d) CHUNK) -> Forall (fun o => o.2 = slice d o.1) os ->
  foldl (copy_chunk CHUNK (length d)) (Some (replicate (length d) 0%Z)) os = Some d.
Proof.
  intros Hperm Hos. destruct (copy_slices d os (replicate (length d) 0%Z) []) as (buf & -> & Hl & Hcov).
  - split; [by rewrite length_replicate|]. intros p i Hi. by apply not_elem_of_nil in Hi.
  - rewrite Forall_forall in *. intros o Ho. split; [|by apply Hos]. apply in_chunks.
    assert (o.1 ∈ os.*1) as Hin by by apply list_elem_of_fmap_2. rewrite Hperm in Hin. apply elem_of_seq in Hin. lia.
  - f_equal. apply list_eq. intros p. destruct (decide (p < length d)%nat).
    + apply (Hcov p (p / CHUNK)%nat).
      * rewrite app_nil_r, Hperm. apply elem_of_seq. split; [lia|]. cbn. apply in_chunks.
        pose proof (Nat.Div0.mul_div_le p CHUNK). lia.
      * pose proof (Nat.Div0.mul_div_le p CHUNK). pose proof (Nat.mul_succ_div_gt p CHUNK). unfold last_of. lia.
    + rewrite !lookup_ge_None_2 by lia. done.
Qed.
End slices.
