(* ===== verification/S3Props.v ===== *)
(** * Correctness of the S3 artifact store

    A transfer yields the artifact whatever the order its tasks run in, a download never
    returns bytes that were not uploaded, and no transfer gets stuck. *)
From stdpp Require Import base gmap strings list pretty.
From S2P Require Import Prelude ProgramStore GatewayIds Pool S3 S3Facts.
Import S3.
Local Open Scope string_scope.
Local Open Scope list_scope.

(** ** Transfers *)
Section transfers.
Context {Srv : S3Server} {Zs : Zstd} {Ok : S3ServerOk Srv}.
Context (CHUNK : nat) (HC : (0 < CHUNK)%nat) (cl : S3ArtifactClient).

Lemma starts_nodup n : NoDup ((fun i => (i, i * CHUNK)%nat) <$> seq 0 n).
Proof. apply NoDup_fmap_2; [by intros x y [= ->]|apply NoDup_seq]. Qed.

Lemma elem_of_starts j n : j ∈ (fun i => (i, i * CHUNK)%nat) <$> seq 0 n -> (j.1 < n)%nat /\ j.2 = (j.1 * CHUNK)%nat.
Proof. intros (i & -> & Hi%elem_of_seq)%list_elem_of_fmap. cbn. lia. Qed.

(** *** Download *)

Definition fetched (d : bytes) (_ : Bucket) (job : nat * nat) (o : nat * bytes) : Prop := o = (job.1, slice CHUNK d job.1).

Lemma fetch_reads key d s f job :
  s3_dl_mode cl = AwsSDK -> object s key = Some d -> job ∈ starts CHUNK (length d) ->
  read_bytes cl s key (Some (job.2, Nat.min (job.2 + CHUNK) (length d) - 1)%nat) = inr (slice CHUNK d job.1) /\
  forall r s', fetch CHUNK cl key (length d) f job s = (r, s') -> s' = s /\ forall o, r = Some o -> fetched d s job o.
Proof.
  intros Hm Hobj [Hi Hst]%elem_of_starts. apply in_chunks in Hi; [|done]. destruct job as [i st]. cbn in Hi, Hst. subst st.
  assert (read_bytes cl s key (Some (i * CHUNK, Nat.min (i * CHUNK + CHUNK) (length d) - 1)%nat) = inr (slice CHUNK d i)) as Hr.
  { unfold read_bytes, sdk_read_bytes. rewrite Hm, (get_range s key d) by (done || lia).
    unfold pieces, slice, last_of. do 2 f_equal. lia. }
  cbn [fst snd]. split; [done|]. intros r s'. unfold fetch. destruct (retry _ _ _) as [e|b] eqn:Hb; intros [= <- <-].
  - done.
  - split; [done|]. intros o [= <-]. apply retry_sound in Hb. rewrite Hr in Hb. by simplify_eq.
Qed.

Lemma download_lists_concat size : (0 < concurrency cl)%nat -> concat (download_lists CHUNK cl size) = starts CHUNK size.
Proof. intros Hc. apply concat_chunks. lia. Qed.

(** The steps of a download whose every read is answered in the end. *)
Definition answered (x : transfer attempts) : Prop :=
  gets_through (on_size x).1 (on_size x).2 = true /\ gets_through (on_read x).1 (on_read x).2 = true /\
  Forall (Pool.adds (fun f : attempts => gets_through f.1 f.2 = true)) (steps x).

Section download.
Context (t : ArtifactType) (id : string) (s : Bucket) (d : bytes).
Let key := get_s3_key_from_id t id.
Context (Hm : s3_dl_mode cl = AwsSDK) (Hobj : object s key = Some d).

Lemma size_read : object_size cl s key = inr (Z.of_nat (length d)).
Proof. unfold object_size, sdk_get_object_size. by rewrite Hm, (head_found s key d). Qed.

Lemma whole_read : read_bytes cl s key None = inr d.
Proof. unfold read_bytes, sdk_read_bytes. by rewrite Hm, (get_found s key d). Qed.

Lemma download_run cap es free p :
  (0 < concurrency cl)%nat ->
  Pool.exec (fetch CHUNK cl key (length d)) cap es (Pool.start free (download_lists CHUNK cl (length d)) s) = Some p ->
  Pool.final p = true -> existsb Pool.crashed (Pool.threads p) = false ->
  foldl (copy_chunk CHUNK (length d)) (Some (replicate (length d) 0%Z)) (Pool.received p) = Some d.
Proof.
  intros Hc He Hf Hn.
  destruct (Pool.run_received (fetch CHUNK cl key (length d)) cap (fetched d) (starts CHUNK (length d)) (starts_nodup _)
    (fun w => w = s)) with (6 := He) as (outs & Hjobs & Hrec & Hmade); [..|by apply download_lists_concat|done|done|done|].
  - intros f j w r w' Hj -> Hp. by eapply (fetch_reads key d s f j).
  - intros f j w o w' Hj -> Hp. by eapply (fetch_reads key d s f j).
  - by intros.
  - rewrite Forall_forall in Hmade. apply rebuilt; [done| |].
    + rewrite Hrec, <- list_fmap_compose. rewrite (list_fmap_ext _ (fst ∘ fst) outs).
      * rewrite list_fmap_compose, Hjobs. unfold starts. by rewrite <- list_fmap_compose, list_fmap_id.
      * intros i jo Hjo%list_elem_of_lookup_2. cbn. by rewrite (Hmade jo Hjo).
    + apply Forall_forall. intros o Ho. rewrite Hrec in Ho. apply list_elem_of_fmap in Ho as (jo & -> & Hjo).
      by rewrite (Hmade jo Hjo).
Qed.

Lemma download_exact x r :
  par_download_file CHUNK cl x t id s = Some r ->
  (forall d', r = Returned (inr d') -> d' = d) /\
  (answered x -> (0 < concurrency cl)%nat -> r = Returned (inr d)).
Proof.
  unfold par_download_file. fold key. rewrite size_read, whole_read.
  destruct (retry (inr (Z.of_nat (length d))) _ _) as [e|size] eqn:Hsz.
  { intros [= <-]. split; [done|]. intros (Hg & _) _. by rewrite (retry_answered _ _ _ _ Hg eq_refl) in Hsz. }
  apply retry_sound in Hsz as [= <-]. case_decide as Hle.
  { intros [= <-]. split; [intros d' [= Hd]; apply retry_sound in Hd; by simplify_eq|].
    intros (_ & Hg & _) _. by rewrite (retry_answered _ _ _ _ Hg eq_refl). }
  rewrite Nat2Z.id. destruct (Nat.min (concurrency cl) _) as [|cap] eqn:Hcap.
  { intros [= <-]. split; [done|]. intros _ Hc. exfalso. unfold starts in Hcap. rewrite length_fmap, length_seq in Hcap.
    assert (0 < div_ceil (length d) CHUNK)%nat; [apply in_chunks; lia|lia]. }
  destruct (Pool.exec _ _ _ _) as [p|] eqn:He; [|done]. destruct (Pool.final p) eqn:Hf; [|done].
  destruct (existsb Pool.crashed (Pool.threads p)) eqn:Hn.
  - intros Hr. split; [intros d' ->; by case_match|]. intros (_ & _ & Hes) Hc.
    rewrite (Pool.run_no_crash (fetch CHUNK cl key (length d)) (S cap) (fetched d) (starts CHUNK (length d)) (starts_nodup _) (fun w => w = s)) with (8 := He) (ok := fun f : attempts => gets_through f.1 f.2 = true) in Hn; try done.
    + intros f j w r' w' Hj -> Hp. by eapply (fetch_reads key d s f j).
    + intros f j w o w' Hj -> Hp. by eapply (fetch_reads key d s f j).
    + intros f j w Hg Hj ->. destruct (fetch_reads key d s f j Hm Hobj Hj) as [Hr' _]. destruct j as [i st].
      unfold fetch. cbn in Hr'. rewrite (retry_answered _ _ _ _ Hg Hr'). by eexists.
    + by apply download_lists_concat.
  - rewrite (download_run _ _ _ _ ltac:(lia) He Hf Hn). intros [= <-]. split; [by intros d' [= ->]|done].
Qed.
End download.

(** *** Upload *)

Lemma set_parts {P} (os : list (nat * P)) (l0 : list (option P)) :
  Forall (fun o => o.1 < length l0)%nat os ->
  exists l, foldl set_part (Some l0) os = Some l /\ length l = length l0 /\
    (forall i v, l !! i = Some (Some v) -> (i, v) ∈ os \/ l0 !! i = Some (Some v)) /\
    (forall i, i ∈ os.*1 \/ (exists v, l0 !! i = Some (Some v)) -> exists v, l !! i = Some (Some v)).
Proof.
  revert l0. induction os as [|[k v] os IH]; intros l0 Hos.
  { exists l0. repeat split; [by right|]. intros i [Hi|Hi]; [by apply not_elem_of_nil in Hi|done]. }
  apply Forall_cons in Hos as [Hk Hos]. cbn in Hk.
  destruct (IH (<[k := Some v]> l0)) as (l & Hf & Hl & Hin & Hset); [by rewrite length_insert|].
  exists l. rewrite length_insert in Hl. split; [|split; [done|split]].
  - rewrite <- Hf. cbn. by rewrite decide_True.
  - intros i w [Hw|Hw]%Hin; [left; by right|]. apply list_lookup_insert_Some in Hw as [(<- & [= <-] & _)|[_ Hw]]; [left; by left|by right].
  - intros i Hi. apply Hset. destruct (decide (k = i)) as [<-|Hne].
    + right. exists v. by apply list_lookup_insert_eq.
    + destruct Hi as [Hi|[w Hw]]; [left; cbn in Hi; set_solver|]. right. exists w. by rewrite list_lookup_insert_ne.
Qed.

Lemma all_parts {P} (l : list (option P)) vs : mapM (fun o => o) l = Some vs <-> l = Some <$> vs.
Proof. rewrite mapM_Some. split; [induction 1; cbn; by subst|]. intros ->. by induction vs; constructor. Qed.

Section upload.
Context (key u : string) (data : bytes) (s0 : Bucket).
Let n := num_chunks CHUNK data.
Let all := chunk_starts CHUNK data.

Definition uploaded (w : Bucket) (job : nat * nat) (o : nat * (Z * string)) : Prop :=
  job.2 = (job.1 * CHUNK)%nat /\ o.1 = job.1 /\ o.2.1 = (Z.of_nat job.1 + 1)%Z /\ part w u o.2.1 = Some (o.2.2, slice CHUNK data job.1).

Lemma put_part_spec r job s o s' :
  job ∈ all -> put_part CHUNK key u data r job s = (o, s') ->
  same_objects s s' /\ (forall job' o', job' <> job -> uploaded s job' o' -> uploaded s' job' o') /\
  (forall o', o = Some o' -> uploaded s' job o') /\ (r = Answered -> is_Some o).
Proof.
  intros [_ Hst]%elem_of_starts. destruct job as [i st]. cbn in Hst. subst st. unfold put_part.
  pose proof (upload_part_spec s key u (Z.of_nat i + 1) (take (Nat.min (i * CHUNK + CHUNK) (length data) - i * CHUNK) (drop (i * CHUNK) data))) as Hs.
  destruct (upload_part _ _ _ _ s) as [e s1] eqn:Hu. destruct Hs as (Hobj & Hpart & Hrest).
  assert (forall job' o', job' <> (i, (i * CHUNK)%nat) -> uploaded s job' o' -> uploaded s1 job' o') as Hkeep.
  { intros [i' st'] [i'' [m e']] Hne (Hs' & Hi & Hm & Hp). cbn in *. subst. repeat split. cbn. rewrite Hrest; [done|].
    intros [= Heq]. apply Hne. assert (i' = i) as -> by lia. done. }
  destruct r as [|e'|e']; cbn [send]; rewrite ?Hu; intros [= <- <-]; cbn.
  - split; [done|split; [done|split; [|by eexists]]]. intros o' [= <-]. by repeat split.
  - split; [done|split; [by intros|by split]].
  - split; [done|split; [exact Hkeep|by split]].
Qed.

Context (cap free : nat) (es : list (Pool.event reply)) (p : Pool.pool Bucket (nat * nat) (nat * (Z * string))).
Context (Hc : (0 < Nat.min (concurrency cl) (length data))%nat).
Context (He : Pool.exec (put_part CHUNK key u data) cap es (Pool.start free (upload_lists CHUNK cl data) s0) = Some p).

Lemma upload_lists_concat : concat (upload_lists CHUNK cl data) = all.
Proof. by apply concat_chunks. Qed.

Lemma put_inv f j w r w' : j ∈ all -> same_objects s0 w -> put_part CHUNK key u data f j w = (r, w') -> same_objects s0 w'.
Proof. intros Hj Hw Hp k. destruct (put_part_spec _ _ _ _ _ Hj Hp) as (Hs & _). by rewrite Hs, Hw. Qed.
Lemma put_made f j w o w' : j ∈ all -> same_objects s0 w -> put_part CHUNK key u data f j w = (Some o, w') -> uploaded w' j o.
Proof. intros Hj _ Hp. by eapply put_part_spec. Qed.
Lemma put_keep f j j0 w r w' o0 :
  j ∈ all -> same_objects s0 w -> put_part CHUNK key u data f j w = (r, w') -> j0 <> j -> uploaded w j0 o0 -> uploaded w' j0 o0.
Proof. intros Hj _ Hp. by eapply put_part_spec. Qed.

Lemma upload_objects : same_objects s0 (Pool.world p).
Proof. by eapply (Pool.run_inv _ cap uploaded all (starts_nodup n) (same_objects s0) put_inv put_made put_keep _ _ _ _ _ upload_lists_concat). Qed.

Lemma upload_outputs o : o ∈ Pool.received p -> exists j, j ∈ all /\ uploaded (Pool.world p) j o.
Proof.
  by eapply (Pool.run_outputs _ cap uploaded all (starts_nodup n) (same_objects s0) put_inv put_made put_keep _ _ _ _ _ _ upload_lists_concat).
Qed.

Lemma upload_job o : o ∈ Pool.received p -> exists j, j ∈ all /\ o.1 = j.1.
Proof. intros (j & Hj & _ & Ho & _)%upload_outputs. eauto. Qed.

Lemma filled (outs : list ((nat * nat) * (nat * (Z * string)))) i :
  (i < n)%nat -> outs.*1 ≡ₚ all -> Forall (fun jo => uploaded (Pool.world p) jo.1 jo.2) outs -> i ∈ outs.*2.*1.
Proof.
  intros Hi Hjobs Hall. assert ((i, i * CHUNK)%nat ∈ outs.*1) as Hin.
  { rewrite Hjobs. apply list_elem_of_fmap. exists i. split; [done|]. apply elem_of_seq. lia. }
  apply list_elem_of_fmap in Hin as (jo & Hj & Hjo). rewrite Forall_forall in Hall. destruct (Hall jo Hjo) as (_ & Ho & _).
  rewrite <- list_fmap_compose. apply list_elem_of_fmap. exists jo. split; [cbn; by rewrite Ho, <- Hj|done].
Qed.

(** The slots of the parts after the loop: no slot is out of range; when they are all
    filled the parts are the chunks, numbered from 1, and they are all filled unless a
    task crashed. *)
Lemma upload_parts :
  exists parts, foldl set_part (Some (replicate n None)) (Pool.received p) = Some parts /\
    (forall vs, mapM (fun o => o) parts = Some vs ->
       vs.*1 = Z.of_nat <$> seq 1 (length vs) /\ length vs = n /\ parts_are (Pool.world p) u vs (slice CHUNK data <$> seq 0 n)) /\
    (Pool.final p = true -> existsb Pool.crashed (Pool.threads p) = false -> exists vs, mapM (fun o => o) parts = Some vs).
Proof.
  destruct (set_parts (Pool.received p) (replicate n None)) as (parts & Hf & Hl & Hin & Hset).
  { apply Forall_forall. intros o (j & [Hj _]%elem_of_starts & Ho)%upload_job. rewrite length_replicate. by rewrite Ho. }
  rewrite length_replicate in Hl. exists parts. split; [done|split].
  - intros vs ->%all_parts. rewrite length_fmap in Hl.
    assert (forall i v, vs !! i = Some v -> v.1 = (Z.of_nat i + 1)%Z /\ part (Pool.world p) u v.1 = Some (v.2, slice CHUNK data i)) as Hv.
    { intros i v Hv. destruct (Hin i v) as [Ho|Ho]; [by rewrite list_lookup_fmap, Hv| |apply lookup_replicate in Ho as [? _]; done].
      apply upload_outputs in Ho as ([k st] & _ & _ & Hk & Hm & Hp). cbn in *. by subst. }
    split; [|split; [done|]].
    + apply list_eq. intros i. rewrite !list_lookup_fmap. destruct (vs !! i) as [v|] eqn:Hi.
      * rewrite lookup_seq_lt by (by eapply lookup_lt_Some). cbn. f_equal. destruct (Hv i v Hi) as [-> _]. lia.
      * rewrite lookup_seq_ge by (by apply lookup_ge_None_1). done.
    + apply Forall2_same_length_lookup. rewrite length_fmap, length_seq. split; [done|].
      intros i v b Hi Hb. apply list_lookup_fmap_Some in Hb as (k & -> & Hk). apply lookup_seq in Hk as [-> _]. by apply Hv.
  - intros Hfin Hn.
    destruct (Pool.run_received _ cap uploaded all (starts_nodup n) (same_objects s0) put_inv put_made put_keep _ _ _ _ _ upload_lists_concat (fun k => eq_refl) He Hfin Hn)
      as (outs & Hjobs & Hrec & Hall).
    assert (forall i, (i < n)%nat -> exists v, parts !! i = Some (Some v)) as Hfull.
    { intros i Hi. apply Hset. left. rewrite Hrec. by apply filled. }
    exists (omap (fun o => o) parts). apply all_parts. clear -Hfull Hl. rewrite <- Hl in Hfull. clear Hl. induction parts as [|o l IH]; [done|].
    destruct (Hfull 0%nat) as [v Hv]; [cbn; lia|]. cbn in Hv. simplify_eq. cbn. f_equal. apply IH.
    intros i Hi. apply (Hfull (S i)). cbn. lia.
Qed.
End upload.

Lemma parts_are_functional w u ps bs bs' : parts_are w u ps bs -> parts_are w u ps bs' -> bs = bs'.
Proof.
  intros H. revert bs'. induction H as [|p b ps bs Hp _ IH]; intros bs' H'; inversion H' as [|? b' ? bs'' Hp' Hrest]; subst; [done|].
  f_equal; [congruence|by apply IH].
Qed.

Lemma data_of_chunks data : concat (slice CHUNK data <$> seq 0 (num_chunks CHUNK data)) = data.
Proof.
  pose proof (enough_chunks CHUNK HC (length data)). apply concat_all_slices; unfold num_chunks; [done|nia].
Qed.

(** What the completion of an upload whose parts are [bs] leaves. *)
Lemma complete_effect r key u vs bs w a s1 :
  parts_are w u vs bs -> send r (complete_multipart_upload key u vs) w = (a, s1) ->
  same_but key w s1 /\ (object s1 key = object w key \/ object s1 key = Some (concat bs)) /\
  (a = inr (inr tt) -> object s1 key = Some (concat bs)).
Proof.
  intros Hb. destruct (complete_multipart_upload key u vs w) as [[e|[]] w'] eqn:Hcm.
  - apply complete_failed in Hcm as Hs. assert (same_but key w w') by (intros k _; apply Hs).
    destruct r; cbn; rewrite ?Hcm; intros [= <- <-]; (split; [done|split; [by left|done]]).
  - apply complete_sound in Hcm as Hs. destruct Hs as (bs' & Hp & Ho & Hbut). rewrite <- (parts_are_functional _ _ _ _ _ Hb Hp) in Ho.
    destruct r; cbn; rewrite ?Hcm; intros [= <- <-]; (split; [done|split; [by auto|done]]).
Qed.

(** An upload that returns [Ok] has stored the artifact; however it ends, the artifact is
    as it was or complete, and no other object has changed. *)
Lemma upload_effect x t id data s r s1 :
  par_upload_file CHUNK cl x t id data s = Some (r, s1) ->
  let key := get_s3_key_from_id t id in
  same_but key s s1 /\ (object s1 key = object s key \/ object s1 key = Some data) /\
  (r = Returned (inr tt) -> object s1 key = Some data).
Proof.
  unfold par_upload_file. cbn zeta. set (key := get_s3_key_from_id t id). case_decide as Hle.
  { destruct (put_object_spec s key data) as [Ho Hb].
    destruct (on_first x); cbn; [destruct (put_object key data s) as [[] s'] eqn:Hput| |]; intros [= <- <-]; cbn in *;
      (split; [done|split; [by auto|done]]). }
  pose proof (create_spec s key) as Hcr. destruct (create_multipart_upload key s) as [u s2] eqn:Hcreate. destruct Hcr as [Hs2 _].
  assert (forall w, same_objects s2 w -> same_but key s w /\ object w key = object s key) as Hsame.
  { intros w Hw. split; [intros k _|]; by rewrite Hw, Hs2. }
  destruct (send (on_first x) _ s) as [[e|u'] s'] eqn:Hsend.
  { assert (s' = s \/ s' = s2) as Hs' by (destruct (on_first x); cbn in Hsend; rewrite ?Hcreate in Hsend; simplify_eq/=; auto).
    intros [= <- <-]. destruct Hs' as [->| ->]; [by split; [|split; [left|]]|].
    destruct (Hsame s2) as [? ?]; [done|]. by split; [|split; [left|]]. }
  assert (u' = u /\ s' = s2) as [-> ->] by (destruct (on_first x); cbn in Hsend; rewrite ?Hcreate in Hsend; by simplify_eq/=).
  destruct (Nat.min _ _) as [|m] eqn:Hmin; [intros [= <- <-]; destruct (Hsame s2) as [? ?]; [done|]; by split; [|split; [left|]]|].
  destruct (Pool.exec _ _ _ _) as [p|] eqn:He; [|done]. destruct (Pool.final p); [|done].
  assert (0 < Nat.min (concurrency cl) (length data))%nat as Hc by lia.
  destruct (Hsame _ (upload_objects _ _ _ _ _ _ _ _ Hc He)) as [Hbut Hkey].
  destruct (upload_parts _ _ _ _ _ _ _ _ Hc He) as (parts & -> & Hvs & _).
  destruct (mapM _ parts) as [vs|] eqn:Hm; [|intros [= <- <-]; by split; [|split; [left|]]].
  destruct (Hvs vs eq_refl) as (_ & _ & Hparts). destruct (send (on_complete x) _ _) as [a s3] eqn:Hdone.
  destruct (complete_effect _ _ _ _ _ _ _ _ Hparts Hdone) as (Hb & Ho & Hok). rewrite data_of_chunks in Ho, Hok.
  intros [= <- <-]. split; [intros k Hk; by rewrite Hb, Hbut|]. split; [rewrite Hkey in Ho; done|].
  intros Hr. apply Hok. by destruct a as [|[|[]]]; simplify_eq/=.
Qed.

(** *** No transfer gets stuck *)

Lemma busy_at_start {W J O F} (perform : F -> J -> W -> option O * W) cap free lists w es p :
  Pool.exec perform cap es (Pool.start free lists w) = Some p -> (Pool.permits p + Pool.busy (Pool.threads p) = free)%nat.
Proof.
  intros H. apply Pool.exec_permits in H. rewrite H. unfold Pool.start.
  cbn [Pool.permits Pool.threads]. rewrite Pool.busy_start. lia.
Qed.

Lemma start_cost {W J O} free (lists : list (list J)) (w : W) :
  Pool.cost (Pool.start (O := O) free lists w) = (2 * length lists + 3 * length (concat lists))%nat.
Proof.
  unfold Pool.cost. cbn. induction lists as [|l lists IH]; [done|]. cbn in *. rewrite length_app. lia.
Qed.

Lemma num_chunks_pos data : (0 < num_chunks CHUNK data)%nat.
Proof. unfold num_chunks. lia. Qed.

(** The completion accepts the parts the tasks have uploaded. *)
Lemma complete_ok key u data vs w :
  (min_part_size <= CHUNK)%nat -> (Z.of_nat (num_chunks CHUNK data) <= max_part_number)%Z -> (0 < length data)%nat ->
  vs.*1 = Z.of_nat <$> seq 1 (length vs) -> length vs = num_chunks CHUNK data ->
  parts_are w u vs (slice CHUNK data <$> seq 0 (num_chunks CHUNK data)) ->
  exists s1, complete_multipart_upload key u vs w = (inr tt, s1) /\ object s1 key = Some data.
Proof.
  intros Hmin Hmax Hdata Hnum Hl Hp. pose proof (num_chunks_pos data).
  destruct (complete_accepts w key u vs _ Hp) as [s1 Hs1]; [intros ->; cbn in Hl; lia|done|by rewrite Hl| |].
  - intros i b Hb Hi. rewrite length_fmap, length_seq in Hi. apply list_lookup_fmap_Some in Hb as (k & -> & [-> _]%lookup_seq).
    assert (S i * CHUNK < length data)%nat as Hin.
    { apply in_chunks; [done|]. revert Hi. unfold num_chunks. pose proof (proj2 (in_chunks CHUNK HC (length data) 0)). lia. }
    rewrite length_slice by nia. unfold last_of. nia.
  - exists s1. split; [done|]. apply complete_sound in Hs1 as (bs & Hb & -> & _).
    rewrite <- (parts_are_functional _ _ _ _ _ Hp Hb). by rewrite data_of_chunks.
Qed.

Lemma upload_completes t id data s u s2 free es p :
  let key := get_s3_key_from_id t id in
  (0 < concurrency cl)%nat -> (0 < free)%nat -> (CHUNK < length data)%nat -> (min_part_size <= CHUNK)%nat ->
  (Z.of_nat (num_chunks CHUNK data) <= max_part_number)%Z -> create_multipart_upload key s = (u, s2) ->
  Forall (Pool.adds (eq Answered)) es ->
  Pool.exec (put_part CHUNK key u data) (num_chunks CHUNK data) es (Pool.start free (upload_lists CHUNK cl data) s2) = Some p ->
  exists es' s1, par_upload_file CHUNK cl (mkUpload Answered free (es ++ es') Answered) t id data s = Some (Returned (inr tt), s1) /\
    object s1 key = Some data.
Proof.
  intros key Hconc Hfree Hlen Hmin Hmax Hcreate Hes He.
  destruct (Pool.completes (put_part CHUNK key u data) (num_chunks CHUNK data) Answered p (num_chunks_pos data))
    as (es' & q & Hes' & He' & Hfin); [rewrite (busy_at_start _ _ _ _ _ _ _ He); lia|].
  assert (Pool.exec (put_part CHUNK key u data) (num_chunks CHUNK data) (es ++ es') (Pool.start free (upload_lists CHUNK cl data) s2) = Some q)
    as Hrun by (by rewrite Pool.run_app, He).
  assert (0 < Nat.min (concurrency cl) (length data))%nat as Hc by lia.
  assert (existsb Pool.crashed (Pool.threads q) = false) as Hn.
  { eapply (Pool.run_no_crash _ _ (uploaded u data) (chunk_starts CHUNK data) (starts_nodup _) (same_objects s2)
      (put_inv key u data s2) (put_made key u data s2) (put_keep key u data s2) (eq Answered)) with (5 := Hrun); [| | |by apply Forall_app].
    - intros f j w <- Hj _. destruct (put_part CHUNK key u data Answered j w) as [o w'] eqn:Hp. by eapply put_part_spec.
    - by apply upload_lists_concat.
    - done. }
  destruct (upload_parts key u data s2 _ _ _ _ Hc Hrun) as (parts & Hf & Hvs & Hall).
  destruct (Hall Hfin Hn) as [vs Hm]. destruct (Hvs vs Hm) as (Hnum & Hl & Hparts).
  destruct (complete_ok key u data vs _ Hmin Hmax ltac:(lia) Hnum Hl Hparts) as (s1 & Hdone & Hobj).
  exists es', s1. split; [|done]. unfold par_upload_file. fold key. rewrite decide_False by lia. cbn [send on_first]. rewrite Hcreate.
  destruct (Nat.min (concurrency cl) (length data)) eqn:Hz; [lia|]. cbn [up_steps up_free]. rewrite Hrun, Hfin, Hf, Hm.
  cbn [send on_complete]. by rewrite Hdone.
Qed.

Lemma download_completes t id d s free es p :
  let key := get_s3_key_from_id t id in
  (0 < concurrency cl)%nat -> (0 < free)%nat -> (CHUNK < length d)%nat -> s3_dl_mode cl = AwsSDK -> object s key = Some d ->
  let threads := Nat.min (concurrency cl) (length (starts CHUNK (length d))) in
  Forall (Pool.adds (fun f : attempts => gets_through f.1 f.2 = true)) es ->
  Pool.exec (fetch CHUNK cl key (length d)) threads es (Pool.start free (download_lists CHUNK cl (length d)) s) = Some p ->
  exists es', par_download_file CHUNK cl (mkTransfer (None, []) (None, []) free (es ++ es')) t id s = Some (Returned (inr d)).
Proof.
  intros key Hconc Hfree Hlen Hm Hobj threads Hes He.
  assert (0 < threads)%nat as Ht.
  { unfold threads, starts. rewrite length_fmap, length_seq. pose proof (proj2 (in_chunks CHUNK HC (length d) 0)). lia. }
  destruct (Pool.completes (fetch CHUNK cl key (length d)) threads (None, []) p Ht)
    as (es' & q & Hes' & He' & Hfin); [rewrite (busy_at_start _ _ _ _ _ _ _ He); lia|].
  exists es'. set (x := mkTransfer _ _ _ _).
  destruct (par_download_file CHUNK cl x t id s) as [r|] eqn:Hr.
  - f_equal. apply (download_exact t id s d Hm Hobj x r Hr); [|done]. split; [done|split; [done|]]. apply Forall_app. split; [done|].
    eapply Forall_impl; [exact Hes'|]. by intros [] ; cbn; try done; intros <-.
  - exfalso. revert Hr. unfold par_download_file. rewrite (size_read t id s d Hm Hobj). fold key. cbn [retry on_size x fst snd].
    rewrite decide_False by lia. rewrite Nat2Z.id. fold threads. destruct threads as [|th] eqn:Hth; [lia|].
    unfold x. cbn [steps S3.free]. rewrite Pool.run_app, He, He', Hfin. by repeat case_match.
Qed.


Lemma div_ceil_le m k : (0 < k)%nat -> (div_ceil m k <= m)%nat.
Proof. intros Hk. unfold div_ceil. destruct m; [rewrite Nat.div_small; lia|]. apply Nat.Div0.div_le_upper_bound. nia. Qed.

Lemma run_length {W J O F} (perform : F -> J -> W -> option O * W) cap free k (l : list J) w es p :
  (0 < k)%nat -> Pool.exec perform cap es (Pool.start free (chunks k l) w) = Some p -> (length es <= 5 * length l)%nat.
Proof.
  intros Hk H. apply Pool.exec_bound in H. rewrite start_cost, length_chunks, concat_chunks in H by done.
  pose proof (div_ceil_le (length l) k Hk). lia.
Qed.


(** *** What else the code does *)

(** The comment "Split into up to S3_CONCURRENCY threads" is not what the upload does: the
    chunks are cut into pieces of [concurrency] chunks, so an upload of at most
    [concurrency] chunks has one task, and a large one more tasks than [concurrency]. *)
Lemma small_upload_is_sequential data :
  (0 < num_chunks CHUNK data <= Nat.min (concurrency cl) (length data))%nat -> length (upload_lists CHUNK cl data) = 1%nat.
Proof.
  intros Hn. unfold upload_lists. rewrite length_chunks by lia. unfold chunk_starts. rewrite length_fmap, length_seq.
  unfold div_ceil. symmetry. apply Nat.div_unique with (num_chunks CHUNK data - 1)%nat; lia.
Qed.

(** Over plain HTTP the error page of a missing object is returned as the artifact. *)
Lemma rest_returns_error_page t id s page x :
  s3_dl_mode cl = REST -> on_size x = (None, []) -> on_read x = (None, []) -> (length page <= CHUNK)%nat ->
  (Z.of_nat (length page) < 2 ^ 63)%Z ->
  http_get s (rest_url cl (get_s3_key_from_id t id)) None = mkResponse 404 (Some (Z.of_nat (length page))) page ->
  par_download_file CHUNK cl x t id s = Some (Returned (inr page)).
Proof.
  intros Hm Hs Hr Hl Hlt Hp. unfold par_download_file, object_size, read_bytes, rest_get_object_size, rest_read_bytes.
  rewrite Hm, Hs, Hr, Hp. cbn [content_length body retry fst snd].
  rewrite (proj2 (Z.ltb_lt _ _) Hlt). cbn [retry]. by rewrite decide_True by lia.
Qed.

(** The SDK reports it as missing at the first answer. *)
Lemma sdk_reports_missing t id s x :
  s3_dl_mode cl = AwsSDK -> on_size x = (None, []) -> object s (get_s3_key_from_id t id) = None ->
  par_download_file CHUNK cl x t id s = Some (Returned (inl (HeadFailed true))).
Proof.
  intros Hm Hs Ho. unfold par_download_file, object_size, sdk_get_object_size. rewrite Hm, Hs, head_missing by done. done.
Qed.

(** [exists] tells, when it is answered, whether the object is there; [delete] and
    [delete_batch] touch nothing else. *)
Lemma exists_exact t id s : exists_artifact None t id s = inr (bool_decide (is_Some (object s (get_s3_key_from_id t id)))).
Proof.
  unfold exists_artifact. destruct (object s _) as [d|] eqn:Ho; [by rewrite (head_found _ _ _ Ho)|by rewrite (head_missing _ _ Ho)].
Qed.

Lemma delete_effect r t id s a s' :
  delete r t id s = (a, s') ->
  let key := get_s3_key_from_id t id in
  same_but key s s' /\ (object s' key = object s key \/ object s' key = None) /\ (a = inr tt -> object s' key = None).
Proof.
  destruct (delete_object_spec s (get_s3_key_from_id t id)) as [Hn Hb]. unfold delete.
  destruct r; cbn; [destruct (delete_object _ s) as [[] s1]| |]; intros [= <- <-]; cbn in *; (split; [done|split; [by auto|done]]).
Qed.

Lemma delete_batch_effect t joined s a s' :
  delete_batch t joined s = (a, s') ->
  (forall k, k ∉ get_s3_key_from_id t <$> joined.*1 -> object s' k = object s k) /\
  (a = inr tt -> forall id, id ∈ joined.*1 -> object s' (get_s3_key_from_id t id) = None).
Proof.
  revert s a. induction joined as [|[id r] joined IH]; intros s a; cbn [delete_batch].
  { intros [= <- <-]. split; [done|]. intros _ id Hid. by apply not_elem_of_nil in Hid. }
  destruct (delete r t id s) as [b s1] eqn:Hd. destruct (delete_batch t joined s1) as [c s2] eqn:Hb.
  intros [= <- <-]. destruct (delete_effect _ _ _ _ _ _ Hd) as (Hbut & _ & Hnone). destruct (IH s1 c Hb) as [Hrest Hgone]. split.
  - intros k Hk. cbn in Hk. apply not_elem_of_cons in Hk as [Hne Hk]. by rewrite Hrest, Hbut.
  - destruct b as [e|[]]; [done|]. intros -> id' Hid. cbn in Hid. apply elem_of_cons in Hid as [->|Hid]; [|by apply Hgone].
    destruct (decide (get_s3_key_from_id t id ∈ get_s3_key_from_id t <$> joined.*1)) as [(i & -> & Hi)%list_elem_of_fmap|Hk].
    + by apply Hgone.
    + rewrite Hrest by done. by apply Hnone.
Qed.
End transfers.

(** Two artifacts of a type never share an object. *)
Lemma s3_key_inj t id id' : get_s3_key_from_id t id = get_s3_key_from_id t id' -> id = id'.
Proof.
  destruct t; intros H; apply (f_equal as_bytes) in H; unfold get_s3_key_from_id in H; rewrite !as_bytes_app in H;
    rewrite <- (of_bytes_as_bytes id), <- (of_bytes_as_bytes id'); f_equal; by simplify_list_eq.
Qed.

(** ** A server *)
Module S3Demo.
Record demo := mkDemo { objects : gmap string bytes; uploads : gmap string (gmap Z (string * bytes)); minted : nat }.

Definition demo_parts (b : demo) (u : string) : gmap Z (string * bytes) := default ∅ (uploads b !! u).

Definition named_body (b : demo) (u : string) (p : Z * string) : option bytes :=
  match demo_parts b u !! p.1 with
  | Some (e, d) => if decide (e = p.2) then Some d else None
  | None => None
  end.

#[export] Instance demo_server : S3Server := {
  Bucket := demo;
  object b k := objects b !! k;
  part b u n := demo_parts b u !! n;
  min_part_size := 2;
  max_part_number := 10000;
  head_object b k := match objects b !! k with Some d => inr (Some (Z.of_nat (length d))) | None => inl (HeadFailed true) end;
  get_object b k r :=
    match objects b !! k, r with
    | Some d, Some (x, y) => inr (pieces d x y)
    | Some d, None => inr d
    | None, _ => inl (GetFailed true)
    end;
  http_get b url r := mkResponse 404 (Some 0%Z) [];
  put_object k d b := (tt, mkDemo (<[k := d]> (objects b)) (uploads b) (minted b));
  delete_object k b := (tt, mkDemo (base.delete k (objects b)) (uploads b) (minted b));
  create_multipart_upload k b :=
    (pretty (minted b), mkDemo (objects b) (<[pretty (minted b) := ∅]> (uploads b)) (S (minted b)));
  upload_part k u n d b := ("etag", mkDemo (objects b) (<[u := <[n := ("etag", d)]> (demo_parts b u)]> (uploads b)) (minted b));
  complete_multipart_upload k u ps b :=
    match mapM (named_body b u) ps with
    | Some ds => (inr tt, mkDemo (<[k := concat ds]> (objects b)) (uploads b) (minted b))
    | None => (inl (OtherFailed "InvalidPart"), b)
    end;
}.

Lemma named_bodies b u ps ds : mapM (named_body b u) ps = Some ds <-> parts_are b u ps ds.
Proof.
  assert (forall p d, named_body b u p = Some d <-> demo_parts b u !! p.1 = Some (p.2, d)) as Hiff.
  { intros [n e] d. unfold named_body. cbn [fst snd].
    destruct (demo_parts b u !! n) as [[e' d']|]; [case_decide|]; naive_solver. }
  rewrite mapM_Some. unfold parts_are. split; intros H; (eapply Forall2_impl; [exact H|]); intros p d; apply Hiff.
Qed.

#[export] Instance demo_server_ok : S3ServerOk demo_server.
Proof.
  split; cbn [object part head_object get_object put_object delete_object create_multipart_upload upload_part
    complete_multipart_upload demo_server].
  - by intros s k d ->.
  - by intros s k ->.
  - by intros s k d ->.
  - by intros s k d a b -> _.
  - by intros s k r ->.
  - intros s k d. cbn. split; [apply lookup_insert_eq|]. intros k' Hk. by apply lookup_insert_ne.
  - intros s k. cbn. split; [apply lookup_delete_eq|]. intros k' Hk. by apply lookup_delete_ne.
  - intros s k. split; [done|]. intros n. unfold demo_parts. cbn. by rewrite lookup_insert_eq.
  - intros s k u n d. split; [done|]. unfold demo_parts. cbn. rewrite lookup_insert_eq. cbn. split; [apply lookup_insert_eq|].
    intros u' n' Hne. destruct (decide (u' = u)) as [->|Hu]; [|by rewrite lookup_insert_ne].
    rewrite lookup_insert_eq. cbn. rewrite lookup_insert_ne; [done|]. congruence.
  - intros s k u ps s' H. destruct (mapM (named_body s u) ps) as [ds|] eqn:Hm; [|done]. injection H as <-.
    exists ds. apply named_bodies in Hm. split; [done|]. cbn. split; [apply lookup_insert_eq|]. intros k' Hk. by apply lookup_insert_ne.
  - intros s k u ps e s' H. by destruct (mapM (named_body s u) ps) as [ds|]; simplify_eq/=.
  - intros s k u ps bs Hp _ _ _ _. apply named_bodies in Hp. rewrite Hp. eauto.
Qed.

(** A codec that marks what it encoded. *)
#[export] Instance demo_zstd : Zstd := {
  encode_all d := inr (7%Z :: d);
  decode_all c := match c with 7%Z :: d => inr d | _ => inl (OtherFailed "bad magic") end;
}.
#[export] Instance demo_zstd_ok : ZstdOk demo_zstd.
Proof. split. by intros d c [= <-]. Qed.

Definition demo_client : S3ArtifactClient := mkClient "artifacts" "us-east-1" 2 AwsSDK.
Definition demo_data : bytes := [1; 2; 3; 4]%Z.
Definition demo_empty : Bucket := mkDemo ∅ ∅ 0.
Definition demo_opened : Bucket := mkDemo ∅ {["0" := ∅]} 1.

(** Two tasks whose parts arrive out of order. *)
Definition demo_upload : upload :=
  mkUpload Answered 2
    [Pool.Acquire 0; Pool.Acquire 1; Pool.Work 1 Answered; Pool.Send 1; Pool.Recv; Pool.Work 0 Answered; Pool.Send 0;
     Pool.Work 0 Answered; Pool.Finish 1; Pool.Recv; Pool.Send 0; Pool.Finish 0; Pool.Recv]
    Answered.
Definition demo_stored : Bucket :=
  match upload_raw 2 demo_client demo_upload Stdin "a" demo_data demo_empty with Some (_, s) => s | None => demo_empty end.

(** A download whose first read is retried. *)
Definition demo_download : transfer attempts :=
  mkTransfer (None, []) (None, []) 1
    [Pool.Acquire 1; Pool.Work 1 (Some (OtherFailed "reset"), [None]); Pool.Send 1; Pool.Finish 1; Pool.Acquire 0;
     Pool.Work 0 (None, []); Pool.Send 0; Pool.Recv; Pool.Work 0 (None, []); Pool.Recv; Pool.Send 0; Pool.Recv; Pool.Finish 0].
End S3Demo.
Import S3Demo.


