(* ===== verification/Requests.v ===== *)
(** * Requesting proofs from a cluster

    [crates/utils/src/lib.rs], which the command line uses: a batch of proof requests is
    created, polled until every proof is there, and cancelled when anything goes wrong.
    The API is ApiStore.v behind its retrying client, the artifact store the interface of
    Gateway.v. Between two calls the rest of the cluster may do anything the API lets it
    do. *)
From Stdlib Require Import Ascii String.
From stdpp Require Import base gmap strings list pretty.
From S2P Require Import Prelude ApiStore ProgramStore GatewayIds Gateway Auth.
Local Open Scope string_scope.
Local Open Scope list_scope.
Local Open Scope Z_scope.

(** What the process takes from outside: the codecs of [upload_with_type] and
    [download_with_type], the text of an error, the clock in nanoseconds, the fate of each
    API call, and what others have done to the table and to the store by then. *)
Class CliIo {A : ArtifactStore} := {
  SP1Stdin : Type;
  ProofFromNetwork : Type;
  encode_elf : bytes -> bytes;
  encode_stdin : SP1Stdin -> bytes;
  decode_proof : bytes -> result ProofFromNetwork;
  show_error : Error -> string;
  clock : nat -> Z;
  fate : nat -> Attempt * list Attempt;
  others : nat -> list api_op;
  elsewhere : nat -> AS -> AS;
}.

Module Cli.
Inductive ClusterElf := NewElf (elf : bytes) | ExistingElf (id : string).
Inductive ArtifactStoreConfig := RedisStore (nodes : list string) | S3Store (bucket region : string).

Record ProofRequestConfig := mkConfig {
  cluster_rpc : string;
  cluster_access_token : option string;
  mode : Z;
  timeout_hours : Z;
  artifact_store : ArtifactStoreConfig;
}.

(** [ProofRequest] of the library; its [start_time] only shows in messages. *)
Record Handle := mkHandle { proof_id : string; proof_output_id : string; deadline : Z }.

Section requests.
Context {E : ApiEnv} {G : GatewayEnv} {A : ArtifactStore} {Io : CliIo}.

Record ProofRequestResults := mkResults { res_proof_id : string; res_proof : ProofFromNetwork }.

(** The store, the table, and the number of calls made; the clock is read between calls. *)
Record World := mkWorld { w_store : AS; w_db : Db; w_calls : nat }.

(** A computation returns, with an [eyre] report or a value, or panics; a loop may run out
    of fuel. *)
Definition M (T : Type) : Type := World -> outcome (result T) * World.
Definition ret {T} (x : T) : M T := fun w => (Ok (inr x), w).
Definition bail {T} (e : Error) : M T := fun w => (Ok (inl e), w).
Definition bindM {T U} (m : M T) (k : T -> M U) : M U := fun w =>
  bind (m w) (fun r w => match r with inr x => k x w | inl e => (Ok (inl e), w) end).
Definition unwrap {T} (m : M T) : M T := fun w =>
  match m w with (Ok (inl _), w') => (Panic, w') | r => r end.

(** [SystemTime::now()]. *)
Definition now : M Z := fun w => (Ok (inr (clock (w_calls w))), mkWorld (w_store w) (w_db w) (S (w_calls w))).

Definition store_call {T} (f : nat -> AS -> result T * AS) : M T := fun w =>
  let (r, s) := f (w_calls w) (elsewhere (w_calls w) (w_store w)) in (Ok r, mkWorld s (w_db w) (S (w_calls w))).

(** A call of [ClusterServiceClient]. *)
Definition api_call {T} (call : Fault -> Db -> outcome T * Db) : World -> result T * World := fun w =>
  let '(a, more) := fate (w_calls w) in
  let (o, db) := retry_call a more call (api_runs (others (w_calls w)) (w_db w)) in
  (match o with Ok x => inr x | Err e => inl (Rpc e) | _ => inl (Msg "panicked") end, mkWorld (w_store w) db (S (w_calls w))).
Definition on_api {T} (call : Fault -> Db -> outcome T * Db) : M T := fun w => let (r, w) := api_call call w in (Ok r, w).
End requests.

Declare Scope request_scope.
Notation "'let*' x := m 'in' k" := (bindM m (fun x => k))
  (at level 10, x name, m at level 100, k at level 200) : request_scope.
Local Open Scope request_scope.

Section operations.
Context {E : ApiEnv} {G : GatewayEnv} {A : ArtifactStore} {Io : CliIo}.

(** [ClusterServiceClient::new] ends in time with a result, or [CONNECT_TIMEOUT] does. *)
Definition CONNECT_TIMEOUT : Z := 10.
Definition connect (cfg : ProofRequestConfig) (dial : option (result unit)) : M unit :=
  match dial with
  | Some (inr tt) => ret tt
  | Some (inl e) => bail e
  | None => bail (Msg ("no cluster at " +:+ cluster_rpc cfg +:+ " after 10s: start the cluster, or set CLI_CLUSTER_RPC to its API"))
  end.

Definition setup_artifacts (elf : ClusterElf) (stdin : SP1Stdin) : M (string * string) :=
  let* elf_id :=
    match elf with
    | NewElf elf =>
        let* elf_id := unwrap (store_call as_create_artifact) in
        let* done := store_call (fun n => as_upload_raw n elf_id Program (encode_elf elf)) in
        ret elf_id
    | ExistingElf elf_id => ret elf_id
    end in
  let* stdin_id := unwrap (store_call as_create_artifact) in
  let* done := store_call (fun n => as_upload_raw n stdin_id Stdin (encode_stdin stdin)) in
  ret (elf_id, stdin_id).

(** [cancel_pending_requests]: every request is asked to be cancelled; the failures. *)
Fixpoint cancel_each (pending : list Handle) : World -> list string * World := fun w =>
  match pending with
  | [] => ([], w)
  | request :: pending =>
      let (r, w) := api_call (fun f db => proof_request_cancel f (proof_id request) db) w in
      let (failures, w) := cancel_each pending w in
      (match r with inl e => (proof_id request +:+ ": " +:+ show_error e) :: failures | inr _ => failures end, w)
  end.

Fixpoint join_with (sep : string) (l : list string) : string :=
  match l with [] => "" | [x] => x | x :: l => x +:+ sep +:+ join_with sep l end.

Definition cancel_pending_requests (pending : list Handle) : World -> result unit * World := fun w =>
  match cancel_each pending w with
  | ([], w) => (inr tt, w)
  | (failures, w) =>
      (inl (Msg ("failed to cancel " +:+ pretty (length failures) +:+ " proof requests: " +:+ join_with "; " failures)), w)
  end.

Definition cleanup_failed (error cancel_error : Error) : Error :=
  Msg (show_error error +:+ "; batch cleanup also failed: " +:+ show_error cancel_error).

Definition error_after_cancelling {T} (pending : list Handle) (error : Error) : M T := fun w =>
  match cancel_pending_requests pending w with
  | (inr tt, w) => (Ok (inl error), w)
  | (inl cancel_error, w) => (Ok (inl (cleanup_failed error cancel_error)), w)
  end.

(** The row asked for. *)
Definition create_request_for (cfg : ProofRequestConfig) (id elf_id stdin_id output_id : string) (deadline : Z) : ProofRequestCreateRequest :=
  mkCreateRequest id [] stdin_id elf_id (Some (i32_to_string (mode cfg))) (Some output_id)
    (Int.umax u64) (deadline / 10 ^ 9) (Int.umax u64) None false.

(** [m], or what [error_after_cancelling] makes of its error. *)
Definition or_cancel {T U} (requests : list Handle) (m : M T) (k : T -> M U) : M U := fun w =>
  match m w with
  | (Ok (inl e), w) => error_after_cancelling requests e w
  | (Ok (inr x), w) => k x w
  | (Err e, w) => (Err e, w)
  | (Panic, w) => (Panic, w)
  | (Fuel, w) => (Fuel, w)
  end.

(** The loop of [create_requests] over the indices still to do. [created_at] is the time
    the database gives the row. *)
Fixpoint create_from (cfg : ProofRequestConfig) (elf_id stdin_id base_id : string) (deadline : Z)
    (indices : list nat) (requests : list Handle) : M (list Handle) :=
  match indices with
  | [] => ret requests
  | i :: indices =>
      let id := base_id +:+ "_" +:+ pretty i in
      or_cancel requests (store_call as_create_artifact) (fun output_id =>
        or_cancel requests
          (let* created_at := now in
           on_api (fun f db => proof_request_create f created_at (create_request_for cfg id elf_id stdin_id output_id deadline) db))
          (fun _ => create_from cfg elf_id stdin_id base_id deadline indices (requests ++ [mkHandle id output_id deadline])))
  end.

(** [SystemTime + Duration] panics past the platform's range. *)
Definition deadline_from (cfg : ProofRequestConfig) (now : Z) : option Z :=
  let d := now + Int.wrap u64 (timeout_hours cfg * 60 * 60) * 10 ^ 9 in
  if d <? 2 ^ 63 * 10 ^ 9 then Some d else None.

Definition create_requests (cfg : ProofRequestConfig) (elf : ClusterElf) (stdin : SP1Stdin) (count : nat) : M (list Handle) :=
  let* ids := setup_artifacts elf stdin in
  let* t := now in
  let base_id := "cli_" +:+ pretty (t / 10 ^ 6) in
  let* t' := now in
  match deadline_from cfg t' with
  | None => fun w => (Panic, w)
  | Some deadline => create_from cfg ids.1 ids.2 base_id deadline (seq 0 count) []
  end.

(** [download_with_type] of the proof, its error explained. *)
Definition download_proof (n : nat) (h : Handle) (s : AS) : result ProofFromNetwork :=
  match bind_result (as_download_raw n (proof_output_id h) Proof s) decode_proof with
  | inr p => inr p
  | inl e => inl (Msg ("failed to download proof " +:+ proof_id h +:+ ": " +:+ show_error e))
  end.

(** [check_proof_status]; an unknown status reads as the enum's default. *)
Definition check_proof_status (h : Handle) : M (option ProofRequestResults) :=
  let* t := now in
  if deadline h <? t then bail (Msg "Timeout exceeded for proof request")
  else
    let* found := on_api (fun f db => (proof_request_get f (proof_id h) db, db)) in
    match found with
    | None => bail (Msg "Proof request not found")
    | Some q =>
        match proof_status (q_proof_status q) with
        | Some PrCompleted =>
            let* data := store_call (fun n s => (download_proof n h s, s)) in
            ret (Some (mkResults (proof_id h) data))
        | Some PrFailed | Some PrCancelled => bail (Msg "Proof request failed or cancelled")
        | _ => ret None
        end
    end.

(** One pass of the polling loop over what is pending. *)
Fixpoint poll (todo : list Handle) (results : list ProofRequestResults) (still_pending : list Handle)
  : M (list ProofRequestResults * list Handle) :=
  match todo with
  | [] => ret (results, still_pending)
  | h :: todo =>
      or_cancel (still_pending ++ h :: todo) (check_proof_status h) (fun found =>
        match found with
        | Some result => poll todo (results ++ [result]) still_pending
        | None => poll todo results (still_pending ++ [h])
        end)
  end.

Fixpoint poll_all (fuel : nat) (pending : list Handle) (results : list ProofRequestResults) : M (list ProofRequestResults) :=
  match pending, fuel with
  | [], _ => ret results
  | _, O => fun w => (Fuel, w)
  | _, S fuel => let* r := poll pending results [] in poll_all fuel r.2 r.1
  end.

Definition request_proofs (fuel : nat) (dial : option (result unit)) (cfg : ProofRequestConfig) (elf : ClusterElf)
    (stdin : SP1Stdin) (count : nat) : M (list ProofRequestResults) :=
  let* connected := connect cfg dial in
  let* pending := create_requests cfg elf stdin count in
  poll_all fuel pending [].

(** [results.pop().expect(..)]. *)
Definition pop_expect {T} (m : M (list T)) : M T :=
  let* l := m in match last l with Some x => ret x | None => fun w => (Panic, w) end.

Definition create_request (dial : option (result unit)) (cfg : ProofRequestConfig) (elf : ClusterElf) (stdin : SP1Stdin) : M Handle :=
  let* connected := connect cfg dial in
  pop_expect (create_requests cfg elf stdin 1).

Definition request_proof (fuel : nat) (dial : option (result unit)) (cfg : ProofRequestConfig) (elf : ClusterElf)
    (stdin : SP1Stdin) : M ProofRequestResults :=
  pop_expect (request_proofs fuel dial cfg elf stdin 1).

End operations.

(** [request_config_from_env]; its [unwrap]s and its [panic!] are [Panic]. *)
Definition request_config_from_env (env : Auth.Environ) (proof_mode hours : Z) : outcome ProofRequestConfig :=
  match env "CLI_CLUSTER_RPC" with
  | None => Panic
  | Some rpc =>
      let config store := Ok (mkConfig rpc (Auth.token_from_env env (Some "CLI")) proof_mode hours store) in
      match env "CLI_REDIS_NODES", env "CLI_S3_BUCKET" with
      | Some nodes, None => config (RedisStore (split "," nodes))
      | None, Some bucket => match env "CLI_S3_REGION" with Some region => config (S3Store bucket region) | None => Panic end
      | _, _ => Panic
      end
  end.
End Cli.
