(* ===== verification/RequestsProps.v ===== *)
(** * A batch of proof requests is always settled

    However polling a batch ends, no request of it is left for the cluster to prove,
    unless the error says that cancelling failed; and polling does end. *)
From stdpp Require Import base gmap strings list pretty.
From S2P Require Import Prelude ApiStore ProgramStore GatewayIds GatewayFacts Gateway Requests.
Import Cli.
Local Open Scope string_scope.
Local Open Scope list_scope.

Section props.
Context `{EO : ApiEnvOk} {G : GatewayEnv} {A : ArtifactStore} {Io : CliIo}.

Definition tracked (hs : list Handle) (db : Db) : Prop := forall h, h ∈ hs -> is_Some (db !! proof_id h).
Definition settled (hs : list Handle) (db : Db) : Prop := forall h, h ∈ hs -> row_settled (proof_id h) db.
Definition completed (id : string) (db : Db) : Prop :=
  exists r, db !! id = Some r /\ r_proof_status r = status_i32 PrCompleted.

Lemma row_kept id db db' : is_Some (db !! id) -> db_step db db' -> is_Some (db' !! id).
Proof. intros [r Hr] [Ho _]. destruct (Ho id r Hr) as (r' & -> & _). eauto. Qed.

Lemma tracked_step hs db db' : tracked hs db -> db_step db db' -> tracked hs db'.
Proof. intros Ht Hs h Hh. eapply row_kept; [by apply Ht|done]. Qed.

Lemma settled_step hs db db' : tracked hs db -> settled hs db -> db_step db db' -> settled hs db'.
Proof. intros Ht Hs Hst h Hh. eapply row_settled_step; [by apply Ht|by apply Hs|done]. Qed.

Lemma completed_settled id db : completed id db -> row_settled id db.
Proof. intros (r & Hr & Hst) r' Hr'. simplify_eq. rewrite Hst. by intros ?%(inj status_i32). Qed.

Lemma completed_step id db db' : completed id db -> db_step db db' -> completed id db'.
Proof.
  intros (r & Hr & Hst) [Ho _]. destruct (Ho id r Hr) as (r' & Hr' & Hrow). exists r'. split; [done|].
  rewrite (rs_final _ _ Hrow); [done|]. rewrite Hst. by intros ?%(inj status_i32).
Qed.

(** ** Calls *)

Lemma retry_step {T} (call : Fault -> Db -> outcome T * Db) a more db :
  (forall f db, db_step db (call f db).2) -> db_step db (retry_call a more call db).2.
Proof.
  intros Hc. assert (forall a db, db_step db (with_timeout a call db).2) as Hw.
  { intros [f|e|[f|]] d; cbn; try apply db_step_refl; apply Hc. }
  revert a db. induction more as [|a' more IH]; intros a db; cbn [retry_call]; specialize (Hw a db);
    destruct (with_timeout a call db) as [[x|e| |] db']; try exact Hw.
  case_match; [|exact Hw]. eapply db_step_trans; [exact Hw|apply IH].
Qed.

(** An [Ok] is the answer of an attempt that was served. *)
Lemma retry_ok {T} (call : Fault -> Db -> outcome T * Db) a more db x db' :
  retry_call a more call db = (Ok x, db') -> exists f db0, call f db0 = (Ok x, db').
Proof.
  assert (forall a d, with_timeout a call d = (Ok x, db') -> exists f db0, call f db0 = (Ok x, db')) as Hw.
  { intros [f|e|[f|]] d; cbn; try done. eauto. }
  revert a db. induction more as [|a' more IH]; intros a db; cbn [retry_call];
    destruct (with_timeout a call db) as [[y|e| |] d'] eqn:Ha; intros H; simplify_eq; eauto.
  revert H. by case_match; [apply IH|].
Qed.

Lemma api_call_step {T} (call : Fault -> Db -> outcome T * Db) w r w' :
  (forall f db, db_step db (call f db).2) -> api_call call w = (r, w') ->
  db_step (w_db w) (w_db w') /\ w_calls w' = S (w_calls w) /\ w_store w' = w_store w /\
  forall x, r = inr x -> exists f db0, call f db0 = (Ok x, w_db w').
Proof.
  intros Hc. unfold api_call. destruct (fate (w_calls w)) as [a more].
  pose proof (retry_step call a more (api_runs (others (w_calls w)) (w_db w)) Hc) as Hs.
  destruct (retry_call _ _ _ _) as [o db] eqn:Hr. intros [= <- <-]. cbn.
  split; [eapply db_step_trans; [apply api_runs_step|exact Hs]|]. split; [done|split; [done|]].
  intros x Hx. destruct o; simplify_eq. by eapply retry_ok.
Qed.

Lemma cancel_ok f id db db' : proof_request_cancel f id db = (Ok tt, db') -> row_settled id db'.
Proof.
  unfold proof_request_cancel, update_where. destruct f; cbn; try done.
  intros H r Hr. destruct (db !! id) as [r0|] eqn:Hr0; [|cbn in H; congruence].
  destruct (is_pending r0) eqn:Hp; cbn in H; injection H as <-.
  - rewrite lookup_insert_eq in Hr. simplify_eq. cbn. by intros ?%(inj status_i32).
  - rewrite Hr0 in Hr. simplify_eq. intros Hpend%is_pending_iff. congruence.
Qed.

Lemma get_ok f id db q db' :
  (proof_request_get f id db, db) = (Ok (Some q), db') -> exists r, db' !! id = Some r /\ q_proof_status q = r_proof_status r.
Proof.
  unfold proof_request_get. intros [= Hg <-]. destruct f; cbn in Hg; try done. destruct (db !! id) as [r|] eqn:Hr; [|done].
  exists r. split; [done|]. revert Hg. unfold into_proto. intros H. by repeat case_match; simplify_eq/=.
Qed.

(** ** Cancelling *)

Lemma cancel_each_spec pending w failures w' :
  cancel_each pending w = (failures, w') -> tracked pending (w_db w) ->
  db_step (w_db w) (w_db w') /\ (w_calls w <= w_calls w')%nat /\ (failures = [] -> settled pending (w_db w')).
Proof.
  revert w failures. induction pending as [|h pending IH]; intros w failures; cbn [cancel_each].
  { intros [= <- <-] _. split; [apply db_step_refl|]. split; [done|]. intros _ h Hh. by apply not_elem_of_nil in Hh. }
  destruct (api_call _ w) as [r w1] eqn:Hc. destruct (cancel_each pending w1) as [fs w2] eqn:Hrest. intros Heq Ht.
  apply pair_equal_spec in Heq as [Heq ->].
  destruct (api_call_step _ _ _ _ (fun f db => proof_request_cancel_step f (proof_id h) db) Hc) as (Hs1 & Hn & _ & Hok).
  assert (tracked (h :: pending) (w_db w1)) as Ht1 by by eapply tracked_step.
  destruct (IH w1 fs Hrest) as (Hs2 & Hn2 & Hset); [intros h' Hh'; apply Ht1; by right|].
  split; [by eapply db_step_trans|]. split; [lia|].
  intros ->. destruct r as [e|[]]; [done|]. subst fs. destruct (Hok tt eq_refl) as (f & db0 & Hcall). apply cancel_ok in Hcall.
  intros h' [->|Hh']%elem_of_cons; [|by apply Hset]. eapply row_settled_step; [|exact Hcall|done]. apply Ht1. by left.
Qed.

(** The error a batch ends with: what went wrong, every request left settled; or the text
    that says that cancelling failed too. *)
Definition ended_well (hs : list Handle) (e : Error) (db : Db) : Prop :=
  (exists e1 e2, e = cleanup_failed e1 e2) \/ settled hs db.

Lemma error_after_cancelling_spec {T} pending e w (o : outcome (result T)) w' :
  error_after_cancelling pending e w = (o, w') -> tracked pending (w_db w) ->
  exists e', o = Ok (inl e') /\ db_step (w_db w) (w_db w') /\ (w_calls w <= w_calls w')%nat /\ ended_well pending e' (w_db w').
Proof.
  unfold error_after_cancelling, cancel_pending_requests. intros H Ht.
  destruct (cancel_each pending w) as [fs w1] eqn:Hc. destruct (cancel_each_spec _ _ _ _ Hc Ht) as (Hs & Hn & Hset).
  destruct fs as [|f fs]; injection H as <- <-; eexists; (split; [done|]); (split; [done|]); (split; [done|]).
  - right. by apply Hset.
  - left. eauto.
Qed.

(** ** Polling *)

Lemma check_spec h w o w' :
  check_proof_status h w = (o, w') ->
  exists r, o = Ok r /\ db_step (w_db w) (w_db w') /\ (w_calls w < w_calls w')%nat /\
    ((deadline h < clock (w_calls w))%Z -> exists e, r = inl e) /\
    (forall x, r = inr (Some x) -> res_proof_id x = proof_id h /\ completed (proof_id h) (w_db w')).
Proof.
  unfold check_proof_status, bindM. cbn [now bind]. destruct (deadline h <? clock (w_calls w))%Z eqn:Hd.
  { intros [= <- <-]. eexists. split; [done|]. split; [apply db_step_refl|]. cbn. split; [lia|]. split; [by eauto|done]. }
  unfold on_api. destruct (api_call _ _) as [r w1] eqn:Hc. cbn [bind].
  destruct (api_call_step (fun f db => (proof_request_get f (proof_id h) db, db)) _ _ _ (fun f db => db_step_refl db) Hc) as (Hs & Hn & _ & Hok). cbn in Hs, Hn.
  apply Z.ltb_ge in Hd.
  assert (forall o', (o', w1) = (o, w') -> forall r, o' = Ok r -> (forall x, r <> inr (Some x)) ->
    exists r, o = Ok r /\ db_step (w_db w) (w_db w') /\ (w_calls w < w_calls w')%nat /\
      ((deadline h < clock (w_calls w))%Z -> exists e, r = inl e) /\
      (forall x, r = inr (Some x) -> res_proof_id x = proof_id h /\ completed (proof_id h) (w_db w'))) as Hend.
  { intros o' [= <- <-] r' -> Hx. exists r'. split; [done|]. split; [done|]. split; [lia|]. split; [lia|]. intros x Hr. by apply Hx in Hr. }
  destruct r as [e|[q|]]; [by intros H; eapply Hend| |by intros H; eapply Hend].
  destruct (Hok _ eq_refl) as (f & db0 & Hget). apply get_ok in Hget as (row & Hrow & Hst).
  destruct (proof_status (q_proof_status q)) as [[]|] eqn:Hps; try (by intros H; eapply Hend).
  apply proof_status_sound in Hps. unfold store_call. cbn [bind].
  intros H. destruct (download_proof _ _ _) as [e|p]; injection H as <- <-;
    eexists; (split; [done|]); (split; [done|]); cbn; (split; [lia|]); (split; [lia|]); intros x Hx; simplify_eq/=.
  split; [done|]. exists row. split; [done|congruence].
Qed.

Definition all_completed (rs : list ProofRequestResults) (db : Db) : Prop := forall x, x ∈ rs -> completed (res_proof_id x) db.

Lemma all_completed_step rs db db' : all_completed rs db -> db_step db db' -> all_completed rs db'.
Proof. intros H Hs x Hx. eapply completed_step; [by apply H|done]. Qed.

(** What one pass leaves: an error with the rest of the batch settled, or every request
    accounted for as a result or still pending. *)
Definition pass_ends (results : list ProofRequestResults) (batch : list Handle) (db : Db)
    (r : result (list ProofRequestResults * list Handle)) : Prop :=
  match r with
  | inr (rs, still) =>
      (res_proof_id <$> rs) ++ (proof_id <$> still) ≡ₚ (res_proof_id <$> results) ++ (proof_id <$> batch) /\
      all_completed rs db /\ still ⊆ batch
  | inl e => ended_well batch e db
  end.

(** A request settled in passing can be added to the batch. *)
Lemma pass_weaken results results' batch batch' db0 db r :
  pass_ends results' batch' db r -> batch' ⊆ batch -> tracked batch db0 -> db_step db0 db ->
  (res_proof_id <$> results') ++ (proof_id <$> batch') ≡ₚ (res_proof_id <$> results) ++ (proof_id <$> batch) ->
  (forall h, h ∈ batch -> h ∈ batch' \/ row_settled (proof_id h) db0) -> pass_ends results batch db r.
Proof.
  intros Hend Hsub Ht Hs Hperm Hcov. destruct r as [e|[rs st]]; cbn in *.
  - destruct Hend as [?|Hset]; [by left|right]. intros h Hh. destruct (Hcov h Hh) as [Hin|Hrow]; [by apply Hset|].
    eapply row_settled_step; [by apply Ht|exact Hrow|done].
  - destruct Hend as (Hperm' & Hall & Hst). split; [by rewrite Hperm'|]. split; [done|]. by etrans.
Qed.

Lemma poll_spec todo results still w o w' :
  poll todo results still w = (o, w') -> tracked (still ++ todo) (w_db w) -> all_completed results (w_db w) ->
  exists r, o = Ok r /\ db_step (w_db w) (w_db w') /\ (Nat.min 1 (length todo) + w_calls w <= w_calls w')%nat /\
    pass_ends results (still ++ todo) (w_db w') r /\
    (forall h, head todo = Some h -> (deadline h < clock (w_calls w))%Z -> exists e, r = inl e).
Proof.
  revert results still w. induction todo as [|h todo IH]; intros results still w Hp Ht Hres; cbn [poll] in Hp.
  { injection Hp as <- <-. eexists. split; [done|]. split; [apply db_step_refl|]. split; [done|]. split; [|done].
    cbn. by rewrite app_nil_r. }
  unfold or_cancel in Hp. destruct (check_proof_status h w) as [o1 w1] eqn:Hc.
  destruct (check_spec h w o1 w1 Hc) as (r & -> & Hs1 & Hn1 & Hlate & Hdone).
  assert (tracked (still ++ h :: todo) (w_db w1)) as Ht1 by by eapply tracked_step.
  pose proof (all_completed_step _ _ _ Hres Hs1) as Hres1. destruct r as [e|[x|]].
  - destruct (error_after_cancelling_spec _ _ _ _ _ Hp Ht1) as (e' & -> & Hs2 & Hn2 & Hend). eexists. split; [done|].
    split; [by eapply db_step_trans|]. split; [cbn; lia|]. split; [done|by eauto].
  - destruct (Hdone x eq_refl) as [Hid Hcomp]. destruct (IH (results ++ [x]) still w1 Hp) as (r' & -> & Hs2 & Hn2 & Hend & _).
    { intros h' Hh'. apply Ht1. set_solver. }
    { intros y [Hy|Hy]%elem_of_app; [by apply Hres1|]. apply list_elem_of_singleton in Hy as ->. by rewrite Hid. }
    exists r'. split; [done|]. split; [by eapply db_step_trans|]. split; [cbn; lia|].
    split; [|intros h' [= <-] Hl; by destruct (Hlate Hl)]. eapply pass_weaken; [exact Hend|set_solver|exact Ht1|done| |].
    + rewrite !fmap_app. cbn. rewrite Hid, <- !(assoc_L (++)). apply Permutation_app_head. cbn [app]. apply Permutation_middle.
    + intros h' [Hh'|[->|Hh']%elem_of_cons]%elem_of_app; [left; set_solver|right; by apply completed_settled|left; set_solver].
  - destruct (IH results (still ++ [h]) w1 Hp) as (r' & -> & Hs2 & Hn2 & Hend & _);
      [rewrite <- (assoc_L (++)); exact Ht1|done|].
    exists r'. split; [done|]. split; [by eapply db_step_trans|]. split; [cbn; lia|]. rewrite <- (assoc_L (++)) in Hend.
    split; [exact Hend|]. intros h' [= <-] Hl. by destruct (Hlate Hl).
Qed.

(** Polling ends once the clock has passed the deadlines, with every request settled. *)
Lemma poll_all_spec fuel N hs results w o w' :
  poll_all fuel hs results w = (o, w') -> tracked hs (w_db w) -> all_completed results (w_db w) ->
  (forall n h, (N <= n)%nat -> h ∈ hs -> (deadline h < clock n)%Z) -> (N - w_calls w < fuel)%nat ->
  exists r, o = Ok r /\ db_step (w_db w) (w_db w') /\
    match r with
    | inr rs => res_proof_id <$> rs ≡ₚ (res_proof_id <$> results) ++ (proof_id <$> hs) /\ all_completed rs (w_db w') /\ settled hs (w_db w')
    | inl e => ended_well hs e (w_db w')
    end.
Proof.
  revert hs results w. induction fuel as [|fuel IH]; intros hs results w Hp Ht Hres Hclock Hfuel; [lia|].
  destruct hs as [|h hs]; cbn [poll_all] in Hp.
  { injection Hp as <- <-. eexists. split; [done|]. split; [apply db_step_refl|]. cbn. rewrite app_nil_r.
    split; [done|]. split; [done|]. by intros ? ?%not_elem_of_nil. }
  unfold bindM in Hp. destruct (poll (h :: hs) results [] w) as [o1 w1] eqn:Hpass.
  destruct (poll_spec _ _ _ _ _ _ Hpass) as (r & -> & Hs1 & Hn1 & Hend & Hlate); [done|done|]. cbn [app] in Hend. cbn [bind] in Hp.
  destruct r as [e|[rs st]]; [injection Hp as <- <-; by eexists|]. destruct Hend as (Hperm & Hall & Hsub). cbn in Hp, Hn1.
  assert (w_calls w < N)%nat as Hlt.
  { destruct (decide (w_calls w < N)%nat); [done|]. destruct (Hlate h eq_refl) as [e He]; [|done]. apply Hclock; [lia|by left]. }
  pose proof (tracked_step _ _ _ Ht Hs1) as Ht1.
  destruct (IH st rs w1 Hp) as (r & -> & Hs2 & Hend); [intros h' Hh'; by apply Ht1, Hsub|done|intros n h' Hn Hh'; by apply Hclock, Hsub|lia|].
  exists r. split; [done|]. split; [by eapply db_step_trans|].
  assert (forall h', h' ∈ h :: hs -> proof_id h' ∈ (res_proof_id <$> rs) ++ (proof_id <$> st)) as Hcov.
  { intros h' Hh'. rewrite Hperm. apply elem_of_app. right. by apply list_elem_of_fmap_2. }
  assert (forall db, db_step (w_db w1) db -> settled st db -> settled (h :: hs) db) as Hset.
  { intros db Hs Hst h' Hh'. destruct (proj1 (elem_of_app _ _ _) (Hcov h' Hh')) as [(x & -> & Hx)%list_elem_of_fmap|(h'' & -> & Hh'')%list_elem_of_fmap].
    - apply completed_settled. by eapply all_completed_step.
    - by apply Hst. }
  destruct r as [e|rs'].
  - destruct Hend as [?|Hst]; [by left|right]. by apply Hset.
  - destruct Hend as (Hperm' & Hall' & Hst). split; [by rewrite Hperm'|]. split; [done|by apply Hset].
Qed.

(** ** Creating *)

Lemma create_ok f t req db db' : proof_request_create f t req db = (Ok tt, db') -> is_Some (db' !! cr_proof_id req).
Proof.
  unfold proof_request_create, insert_row. destruct f; cbn; try done.
  destruct (db !! cr_proof_id req) eqn:Hr; cbn; [done|]. intros [= <-]. rewrite lookup_insert_eq. eauto.
Qed.

Lemma create_from_spec cfg elf_id stdin_id base_id dl indices requests w o w' :
  create_from cfg elf_id stdin_id base_id dl indices requests w = (o, w') -> tracked requests (w_db w) ->
  exists r, o = Ok r /\ db_step (w_db w) (w_db w') /\
    match r with
    | inr hs => tracked hs (w_db w') /\ proof_id <$> hs = (proof_id <$> requests) ++ ((fun i => base_id +:+ "_" +:+ pretty i) <$> indices)
    | inl e => ended_well requests e (w_db w')
    end.
Proof.
  revert requests w. induction indices as [|i indices IH]; intros requests w; cbn [create_from].
  { intros [= <- <-] Ht. eexists. split; [done|]. split; [apply db_step_refl|]. by rewrite app_nil_r. }
  unfold or_cancel at 1. unfold store_call. destruct (as_create_artifact _ _) as [[e|out] st].
  { intros H Ht. destruct (error_after_cancelling_spec _ _ _ _ _ H Ht) as (e' & -> & Hs & _ & Hend). by eexists. }
  unfold or_cancel, bindM, on_api. cbn [now bind w_store w_db w_calls].
  destruct (api_call _ _) as [r w1] eqn:Hc. intros H Ht.
  destruct (api_call_step _ _ _ _ (fun f db => proof_request_create_step f _ _ db) Hc) as (Hs1 & _ & _ & Hok). cbn in Hs1.
  pose proof (tracked_step _ _ _ Ht Hs1) as Ht1. destruct r as [e|[]].
  { destruct (error_after_cancelling_spec _ _ _ _ _ H Ht1) as (e' & -> & Hs & _ & Hend). eexists. split; [done|]. split; [by eapply db_step_trans|done]. }
  destruct (Hok tt eq_refl) as (f & db0 & Hcr). apply create_ok in Hcr. cbn in Hcr.
  destruct (IH _ _ H) as (r & -> & Hs2 & Hend).
  { intros h [Hh|Hh]%elem_of_app; [by apply Ht1|]. apply list_elem_of_singleton in Hh as ->. done. }
  exists r. split; [done|]. split; [by eapply db_step_trans|]. destruct r as [e|hs].
  - destruct Hend as [?|Hset]; [by left|right]. intros h Hh. apply Hset, elem_of_app. by left.
  - by rewrite fmap_app, <- (assoc_L (++)) in Hend.
Qed.

Lemma create_requests_tracked cfg elf stdin count w hs w' :
  create_requests cfg elf stdin count w = (Ok (inr hs), w') -> tracked hs (w_db w') /\ length hs = count.
Proof.
  unfold create_requests, bindM. destruct (setup_artifacts elf stdin w) as [[[e|ids]|e| |] w1]; cbn [bind now]; try done.
  destruct (deadline_from _ _) as [dl|]; [|done]. intros H.
  destruct (create_from_spec _ _ _ _ _ _ _ _ _ _ H) as (r & [= <-] & _ & Ht & Hids); [by intros h Hh%not_elem_of_nil|].
  split; [done|]. apply (f_equal length) in Hids. by rewrite length_app, !length_fmap, length_seq in Hids.
Qed.

(** C39. Once a batch of requests is created, polling it ends after the deadline at the
    latest, whatever the rest of the cluster does and whatever calls fail. It ends with
    the proof of every request, each request completed, or with an error, and then no
    request of the batch is left pending, unless the error says that cancelling failed. *)
Theorem batch_is_settled fuel N cfg elf stdin count w hs w1 o w2 :
  create_requests cfg elf stdin count w = (Ok (inr hs), w1) ->
  (forall n h, (N <= n)%nat -> h ∈ hs -> (deadline h < clock n)%Z) -> (N - w_calls w1 < fuel)%nat ->
  poll_all fuel hs [] w1 = (o, w2) ->
  length hs = count /\
  ((exists results, o = Ok (inr results) /\ res_proof_id <$> results ≡ₚ proof_id <$> hs /\
      forall x, x ∈ results -> completed (res_proof_id x) (w_db w2)) \/
   (exists e, o = Ok (inl e) /\
      ((exists e1 e2, e = cleanup_failed e1 e2) \/ forall h, h ∈ hs -> row_settled (proof_id h) (w_db w2)))).
Proof.
  intros Hcr Hclock Hfuel Hp. destruct (create_requests_tracked _ _ _ _ _ _ _ Hcr) as [Ht Hl]. split; [done|].
  destruct (poll_all_spec fuel N hs [] w1 o w2 Hp Ht) as (r & -> & _ & Hend); [by intros x Hx%not_elem_of_nil|done|done|].
  destruct r as [e|rs]; [right; by eexists|left]. exists rs. by destruct Hend as (Hperm & Hall & _).
Qed.
End props.
