(* ===== verification/RequestsWitness.v ===== *)
(** * Requests at work

    A batch that is proved, at which the theorem of RequestsProps.v applies, and a
    creation whose reply is lost: the request stays with the cluster while the call
    reports an error. *)
From stdpp Require Import base gmap strings list pretty.
From S2P Require Import Prelude ApiStore SyncProps ProgramStore GatewayIds Gateway GatewayWitness Requests RequestsProps.
Import Cli.
Local Open Scope string_scope.
Local Open Scope list_scope.
Local Open Scope Z_scope.

Definition demo_complete (id : string) : api_op :=
  ApiUpdate Healthy (mkUpdateRequest id (Some (status_i32 PrCompleted)) None None None None None).

(** A hundred seconds pass between two calls. The cluster completes the second request
    before the first. *)
Definition demo_cli (lost_create : bool) : CliIo := {|
  SP1Stdin := bytes;
  ProofFromNetwork := bytes;
  encode_elf := fun d => d;
  encode_stdin := fun d => d;
  decode_proof := inr;
  show_error := fun e => match e with Msg m => m | Rpc s => message s end;
  clock := fun n => Z.of_nat n * 10 ^ 11;
  fate := fun n => if lost_create && (n =? 9)%nat then (TimedOut (Some Healthy), [Served Healthy]) else (Served Healthy, []);
  others := fun n => if (n =? 13)%nat then [demo_complete "cli_200000_1"] else if (n =? 16)%nat then [demo_complete "cli_200000_0"] else [];
  elsewhere := fun n s => if (n =? 14)%nat then fn_update "artifact_4" Proof (Some [chr 1]) (fn_update "artifact_7" Proof (Some [chr 2]) s) else s;
|}.

Definition demo_cli_cfg : ProofRequestConfig := mkConfig "http://api" None 3 1 (RedisStore ["redis://a"]).
Definition demo_start : World := mkWorld (fun _ _ => None) ∅ 0.

Section good.
#[local] Instance good_io : CliIo := demo_cli false.

Definition demo_created : outcome (result (list Handle)) * World :=
  create_requests demo_cli_cfg (ExistingElf "elf") ([] : bytes) 2 demo_start.
Definition demo_handles : list Handle := match demo_created.1 with Ok (inr hs) => hs | _ => [] end.
Definition demo_polled : outcome (result (list ProofRequestResults)) * World := poll_all 50 demo_handles [] demo_created.2.

Lemma batch_is_settled_witness :
  match demo_polled.1 with Ok (inr results) => length results = 2%nat | _ => False end /\
  length demo_handles = 2%nat /\
  ((exists results, demo_polled.1 = Ok (inr results) /\ res_proof_id <$> results ≡ₚ proof_id <$> demo_handles /\
      forall x, x ∈ results -> completed (res_proof_id x) (w_db demo_polled.2)) \/
   (exists e, demo_polled.1 = Ok (inl e) /\
      ((exists e1 e2, e = cleanup_failed e1 e2) \/ forall h, h ∈ demo_handles -> row_settled (proof_id h) (w_db demo_polled.2)))).
Proof.
  split; [vm_compute; reflexivity|].
  apply (batch_is_settled (Io := good_io) 50 40 demo_cli_cfg (ExistingElf "elf") ([] : bytes) 2 demo_start demo_handles demo_created.2 demo_polled.1 demo_polled.2).
  - rewrite (surjective_pairing (create_requests _ _ _ _ _)). apply pair_equal_spec. split; [vm_compute; reflexivity|reflexivity].
  - assert (Forall (fun h => deadline h = 3900000000000) demo_handles) as Hd by (vm_compute; repeat constructor).
    intros n h Hn Hh. rewrite Forall_forall in Hd. rewrite (Hd h Hh). cbn [clock good_io demo_cli]. lia.
  - assert (w_calls demo_created.2 = 10%nat) as -> by (vm_compute; reflexivity). lia.
  - apply surjective_pairing.
Defined.
End good.

Definition demo_leak : outcome (result (list (ProofRequestResults (Io := demo_cli true)))) * World :=
  request_proofs (Io := demo_cli true) 50 (Some (inr tt)) demo_cli_cfg (ExistingElf "elf") ([] : bytes) 2 demo_start.

(** When the API commits a creation but the reply is lost, the client's second attempt
    is told that the request exists, the batch fails with that error, and the request is
    left for the cluster to prove: it is not among those that are cancelled. *)
Example lost_create_is_not_cancelled :
  match demo_leak.1 with Ok (inl e) => e = Rpc (mkStatus AlreadyExists "proof request already exists") | _ => False end /\
  r_proof_status <$> (w_db demo_leak.2 !! "cli_200000_0") = Some (status_i32 PrCancelled) /\
  r_proof_status <$> (w_db demo_leak.2 !! "cli_200000_1") = Some (status_i32 PrPending).
Proof. apply conj; [vm_compute; reflexivity|apply conj; vm_compute; reflexivity]. Qed.
