(* ===== verification/BidderRun.v ===== *)
(** * The bidder's process

    [bin/bidder/src/config.rs], [main.rs] and the rest of [lib.rs]: the settings and
    what is built from them, the start of [run], and the bidder at work. A pass reads
    the network and its caches at several points; between them the tasks that keep the
    price and the policy fresh write those caches, and the bids a pass spawns run side
    by side. The machine below is any interleaving of these. *)
From Stdlib Require Import Ascii String.
From stdpp Require Import base gmap strings list.
From S2P Require Import Prelude Proto Bidder ApiStore ProgramStore GatewayIds.
Local Open Scope string_scope.
Local Open Scope list_scope.
Local Open Scope Z_scope.
Local Open Scope handler_scope.

Module BidRun.
Import Bid.

Section run.
Context {E : BidEnv}.

(** ** Settings *)

(** What the environment gave for each field, already parsed; those with a [serde]
    default may be absent. The addresses, key, version, domain and log format of the
    process, on which no decision depends, are left out. *)
Record Environment := mkEnvironment {
  e_throughput_mgas : f64;
  e_cpu_worker_max_weights : string;
  e_bid_amount : Z;
  e_buffer_sec : option Z;
  e_groth16_buffer_sec : option Z;
  e_plonk_buffer_sec : option Z;
  e_groth16_enabled : option bool;
  e_plonk_enabled : option bool;
  e_aggressive_mode : option bool;
  e_min_deadline_secs : option Z;
  e_gas_estimate_multiplier : option f64;
  e_usd_bid_enabled : option bool;
  e_usd_bid_target : option Z;
  e_usd_bid_refresh_interval_secs : option Z;
  e_usd_bid_staleness_max_secs : option Z;
}.

Record Settings := mkSettings {
  s_throughput_mgas : f64;
  s_cpu_worker_max_weights : string;
  s_bid_amount : Z;
  s_buffer_sec : Z;
  s_groth16_buffer_sec : Z;
  s_plonk_buffer_sec : Z;
  s_groth16_enabled : bool;
  s_plonk_enabled : bool;
  s_aggressive_mode : bool;
  s_min_deadline_secs : option Z;
  s_gas_estimate_multiplier : f64;
  s_usd_bid_enabled : bool;
  s_usd_bid_target : Z;
  s_usd_bid_refresh_interval_secs : Z;
  s_usd_bid_staleness_max_secs : Z;
}.

(** [Settings::new] with the [default_*] functions. *)
Definition settings_new (e : Environment) : Settings :=
  mkSettings (e_throughput_mgas e) (e_cpu_worker_max_weights e) (e_bid_amount e)
    (default 30 (e_buffer_sec e)) (default 30 (e_groth16_buffer_sec e)) (default 80 (e_plonk_buffer_sec e))
    (default true (e_groth16_enabled e)) (default true (e_plonk_enabled e)) (default false (e_aggressive_mode e))
    (e_min_deadline_secs e) (default (f64_of_u64 1) (e_gas_estimate_multiplier e))
    (default true (e_usd_bid_enabled e)) (default 120000 (e_usd_bid_target e))
    (default 60 (e_usd_bid_refresh_interval_secs e)) (default 7200 (e_usd_bid_staleness_max_secs e)).

(** [Settings::usd_bid]. *)
Definition usd_bid (s : Settings) : option UsdBidConfig :=
  if s_usd_bid_enabled s
  then Some (mkUsdBid (s_usd_bid_target s) (s_usd_bid_refresh_interval_secs s) (s_usd_bid_staleness_max_secs s))
  else None.

(** The weights of [main]: every piece a [u32], at least one, none zero. *)
Definition parse_weights (value : string) : result (list Z) :=
  match mapM (fun w => parse_uint u32 (trim w)) (split "," value) with
  | None => inl (Msg "BIDDER_CPU_WORKER_MAX_WEIGHTS must be comma-separated integers")
  | Some ws =>
      if negb (bool_decide (ws = [])) && forallb (fun w => 0 <? w) ws then inr ws
      else inl (Msg "BIDDER_CPU_WORKER_MAX_WEIGHTS must contain at least one positive weight")
  end.

(** [Bidder::new]: the caches are empty, the tick is not known yet. *)
Definition new (cache : EstimateCache) (pending : PendingBids) (s : Settings) (weights : list Z) : Bidder :=
  mkBidder (s_throughput_mgas s) (s_bid_amount s) (s_buffer_sec s) (s_groth16_buffer_sec s) (s_plonk_buffer_sec s)
    (s_groth16_enabled s) (s_plonk_enabled s) (s_aggressive_mode s) (s_min_deadline_secs s)
    (s_gas_estimate_multiplier s) weights (usd_bid s) 0 cache pending None None 0.

(** [main] up to the spawned task. *)
Definition main_bidder (cache : EstimateCache) (pending : PendingBids) (e : Environment) : result Bidder :=
  let s := settings_new e in
  let^ weights := parse_weights (s_cpu_worker_max_weights s) in inr (new cache pending s weights).

(** ** Refreshing the caches *)

(** [fetch_prove_price]. *)
Definition fetch_prove_price (resp : result (string * Z)) : result ProvePrice :=
  let^ r := resp in prove_price_parse r.1 r.2.

(** [prime_prove_usd_cache]; [None] when the call did not answer in [PRIME_TIMEOUT]. *)
Definition prime_prove_usd_cache (reply : option (result (string * Z))) (b : Bidder) : Bidder :=
  match reply with
  | Some resp => (fetch_and_cache_prove_usd (fetch_prove_price resp) b).2
  | None => b
  end.

(** What [record_suspension_status] reports: the gauge and the line it logs. *)
Inductive suspension_log := LogSuspended | LogExpired | LogNothing.
Definition suspension_report (previous until now : Z) : bool * suspension_log :=
  let is_suspended := now <? until in
  (is_suspended,
   if is_suspended && negb (until =? previous) then LogSuspended
   else if negb is_suspended && (0 <? previous) then LogExpired
   else LogNothing).

(** ** The machine *)

(** A spawned bid: before its nonce arrived, with its body sent, or over. *)
Inductive task := Spawned | Sent (body : BidRequestBody) | Finished.

(** Where the pass stands, with what it holds: each constructor is a point at which
    [bid_requests] waits. *)
Inductive phase :=
  | Sleeping
  | Listing
  | Assigning (requests : list ProofRequest) (page : Z) (assigned : list ProofRequest)
  | Assigned (requests assigned : list ProofRequest)
  | Estimating (requests assigned : list ProofRequest) (now : Instant) (batches : list (list bytes)) (resolved : Resolved)
  | Reconciled (requests : list ProofRequest) (gas_estimates : Resolved) (cl : ClusterState f64)
  | Priced (requests : list ProofRequest) (gas_estimates : Resolved) (cl : ClusterState f64) (bid_amount : Z)
  | Joining (bids : list (ProofRequest * Z)) (tasks : list task).

Record Metrics := mkMetrics {
  main_loop_errors : Z;
  requests_bid : Z;
  total_requests_processed : Z;
  request_bid_rejections : Z;
  request_bid_failures : Z;
  suspended : bool;
}.

(** The running process: the bidder behind its shared caches, the prover it bids for,
    the pass, the counters, every body sent and every suspension line logged. *)
Record process := mkProcess {
  bidder : Bidder;
  prover : bytes;
  at_phase : phase;
  metrics : Metrics;
  sent : list BidRequestBody;
  logged : list suspension_log;
}.

Definition set_bidder (b : Bidder) (s : process) : process :=
  mkProcess b (prover s) (at_phase s) (metrics s) (sent s) (logged s).
Definition set_phase (p : phase) (s : process) : process :=
  mkProcess (bidder s) (prover s) p (metrics s) (sent s) (logged s).
Definition set_metrics (m : Metrics) (s : process) : process :=
  mkProcess (bidder s) (prover s) (at_phase s) m (sent s) (logged s).
Definition set_sent (l : list BidRequestBody) (s : process) : process :=
  mkProcess (bidder s) (prover s) (at_phase s) (metrics s) l (logged s).
Definition set_logged (l : list suspension_log) (s : process) : process :=
  mkProcess (bidder s) (prover s) (at_phase s) (metrics s) (sent s) l.

Definition set_suspended (v : bool) (m : Metrics) : Metrics :=
  mkMetrics (main_loop_errors m) (requests_bid m) (total_requests_processed m) (request_bid_rejections m)
    (request_bid_failures m) v.

(** [sync_requirements], and [sync_prover_status] with what [record_suspension_status]
    shows of it. *)
Definition requirements_synced (resp : result (option PerformanceRequirementsWire)) (s : process) : process :=
  set_bidder (sync_requirements resp (bidder s)) s.

Definition status_synced (now : Z) (resp : result (option Z)) (s : process) : process :=
  let s' := set_bidder (sync_prover_status resp (bidder s)) s in
  match resp with
  | inr until =>
      let '(gauge, line) := suspension_report (b_suspended_until (bidder s)) (default 0 until) now in
      let s' := set_metrics (set_suspended gauge (metrics s)) s' in
      match line with LogNothing => s' | _ => set_logged (logged s ++ [line]) s' end
  | inl _ => s'
  end.

(** [prime_performance_policy]: the two calls in order, dropped where the time ran out. *)
Definition prime_performance_policy (now : Z) (req : option (result (option PerformanceRequirementsWire)))
    (status : option (result (option Z))) (s : process) : process :=
  match req with
  | Some req =>
      let s := requirements_synced req s in
      match status with Some status => status_synced now status s | None => s end
  | None => s
  end.

(** [run]'s branch on a pass that failed, before it sleeps. *)
Definition pass_failed (s : process) : process :=
  let m := metrics s in
  set_phase Sleeping
    (set_metrics (mkMetrics (main_loop_errors m + 1) (requests_bid m) (total_requests_processed m)
                    (request_bid_rejections m) (request_bid_failures m) (suspended m)) s).

(** How a bid's task ends. *)
Definition count_bid (r : result unit) (m : Metrics) : Metrics :=
  match r with
  | inr _ => mkMetrics (main_loop_errors m) (requests_bid m + 1) (total_requests_processed m + 1)
               (request_bid_rejections m) (request_bid_failures m) (suspended m)
  | inl e =>
      if is_expected_bid_rejection e
      then mkMetrics (main_loop_errors m) (requests_bid m) (total_requests_processed m)
             (request_bid_rejections m + 1) (request_bid_failures m) (suspended m)
      else mkMetrics (main_loop_errors m) (requests_bid m) (total_requests_processed m)
             (request_bid_rejections m) (request_bid_failures m + 1) (suspended m)
  end.

(** [run] before its loop: the checks of [startup], the price path, the owner and the
    policy. [tokio::time::interval] panics on a zero period, [Address::from_slice] on
    other than twenty bytes. *)
Record StartInput := mkStart {
  st_tick : result Z;
  st_price : option (result (string * Z));
  st_owner : result bytes;
  st_requirements : option (result (option PerformanceRequirementsWire));
  st_status : option (result (option Z));
  st_now : Z;
}.

Definition start_prices (reply : option (result (string * Z))) (b : Bidder) : outcome Bidder :=
  match b_usd_bid b with
  | Some bid => let b := prime_prove_usd_cache reply b in if refresh_interval_secs bid =? 0 then Panic else Ok b
  | None => Ok b
  end.

Definition no_metrics : Metrics := mkMetrics 0 0 0 0 0 false.

Definition run_start (inp : StartInput) (b : Bidder) : outcome (result process) :=
  match startup (st_tick inp) b with
  | Ok (inr b) =>
      match start_prices (st_price inp) b with
      | Ok b =>
          match st_owner inp with
          | inl e => Ok (inl e)
          | inr owner =>
              if Z.of_nat (length owner) =? 20
              then Ok (inr (prime_performance_policy (st_now inp) (st_requirements inp) (st_status inp)
                              (mkProcess b owner Sleeping no_metrics [] [])))
              else Panic
          end
      | Err e => Err e
      | Panic => Panic
      | Fuel => Fuel
      end
  | Ok (inl e) => Ok (inl e)
  | Err e => Err e
  | Panic => Panic
  | Fuel => Fuel
  end.

(** What happens next: the pass gets an answer or reads a clock, a bid's task gets an
    answer, or a background task refreshes a cache. *)
Inductive event :=
  | Begin (now : Z)
  | Listed (r : result (list ProofRequest))
  | Page (r : result (list ProofRequest))
  | Lookup (now : Instant)
  | Estimates (r : result (list (bytes * Z)))
  | Reconcile (now : Instant)
  | ReadPrice (now_utc : Z)
  | Decide (clock : nat -> Z * Instant)
  | NonceReply (i : nat) (r : result Z)
  | BidReply (i : nat) (r : result unit)
  | Join
  | SyncRequirements (r : result (option PerformanceRequirementsWire))
  | SyncStatus (now : Z) (r : result (option Z))
  | RefreshPrice (r : result (string * Z)).

(** One page of [fetch_assigned_requests]. *)
Definition page_read (requests : list ProofRequest) (page : Z) (assigned batch : list ProofRequest) (s : process) : process :=
  let full_page := Int.wrap u32 (Z.of_nat (length batch)) =? REQUEST_LIMIT in
  let assigned := assigned ++ batch in
  if negb full_page || (controller_slots (b_cpu_worker_max_weights (bidder s)) <? Int.wrap u32 (Z.of_nat (length assigned)))
  then set_phase (Assigned requests assigned) s
  else set_phase (Assigning requests (Int.wadd u32 page 1) assigned) s.

(** The end of a bid's task. *)
Definition finish (i : nat) (r : result unit) (bids : list (ProofRequest * Z)) (tasks : list task) (s : process) : process :=
  set_metrics (count_bid r (metrics s)) (set_phase (Joining bids (<[i := Finished]> tasks)) s).

Definition pass_step (e : event) (s : process) : option process :=
  match e, at_phase s with
  | Begin now, Sleeping =>
      Some (if now <? b_suspended_until (bidder s) then s else set_phase Listing s)
  | Listed r, Listing =>
      Some (match r with
            | inl _ => pass_failed s
            | inr requests => set_phase (Assigning requests 1 []) s
            end)
  | Page r, Assigning requests page assigned =>
      Some (match r with
            | inl _ => pass_failed s
            | inr batch => page_read requests page assigned batch s
            end)
  | Lookup now, Assigned requests assigned =>
      let '(resolved, batches) := lookup_estimates now requests assigned (b_estimate_cache (bidder s)) in
      Some (set_phase (Estimating requests assigned now batches resolved) s)
  | Estimates r, Estimating requests assigned now (chunk :: batches) resolved =>
      let '(resolved, cache) := resolve_chunk (fun _ => r) now (resolved, b_estimate_cache (bidder s)) chunk in
      Some (set_phase (Estimating requests assigned now batches resolved) (set_bidder (set_b_estimate_cache cache (bidder s)) s))
  | Reconcile now, Estimating requests assigned _ [] resolved =>
      let '(cl, b) := reconcile_pending_bids (assigned_load (bidder s) resolved assigned) requests assigned now (bidder s) in
      Some (set_phase (match requests with [] => Sleeping | _ => Reconciled requests resolved cl end) (set_bidder b s))
  | ReadPrice now_utc, Reconciled requests g cl =>
      Some (set_phase (Priced requests g cl (effective_bid_amount now_utc (bidder s))) s)
  | Decide clock, Priced requests g cl amount =>
      let '(bids, _, b) := bid_loop clock g (b_requirements (bidder s)) amount 0 requests cl (bidder s) in
      Some (set_phase (Joining bids ((fun _ => Spawned) <$> bids)) (set_bidder b s))
  | NonceReply i r, Joining bids tasks =>
      match bids !! i, tasks !! i with
      | Some (request, amount), Some Spawned =>
          Some (match bid_request r (prover s) (hex_encode (request_id request)) amount with
                | inl e => finish i (inl e) bids tasks s
                | inr body => set_sent (sent s ++ [body]) (set_phase (Joining bids (<[i := Sent body]> tasks)) s)
                end)
      | _, _ => None
      end
  | BidReply i r, Joining bids tasks =>
      match tasks !! i with
      | Some (Sent _) => Some (finish i r bids tasks s)
      | _ => None
      end
  | Join, Joining bids tasks =>
      if forallb (fun t => match t with Finished => true | _ => false end) tasks then Some (set_phase Sleeping s) else None
  | _, _ => None
  end.

Definition step (e : event) (s : process) : option process :=
  match e with
  | SyncRequirements r => Some (requirements_synced r s)
  | SyncStatus now r => Some (status_synced now r s)
  | RefreshPrice r =>
      match b_usd_bid (bidder s) with
      | Some _ => Some (set_bidder (fetch_and_cache_prove_usd (fetch_prove_price r) (bidder s)).2 s)
      | None => None
      end
  | _ => pass_step e s
  end.

Fixpoint exec (es : list event) (s : process) : option process :=
  match es with
  | [] => Some s
  | e :: es => step e s ≫= exec es
  end.
End run.
End BidRun.
