(* ===== verification/BidderRunProps.v ===== *)
(** * The bidder's process: properties

    A pass that runs between cache refreshes does what [bid_requests] does in one go on
    the caches as the pass read them, whatever the interleaving; so what holds of a pass
    holds of every bid the process sends. *)
From Stdlib Require Import Ascii String.
From stdpp Require Import base gmap strings list.
From S2P Require Import Prelude Proto Bidder BidderProps ApiStore ProgramStore GatewayIds BidderRun.
Local Open Scope string_scope.
Local Open Scope list_scope.
Local Open Scope Z_scope.
Import Bid BidRun.

Section facts.
Context {E : BidEnv} {EO : BidEnvOk E}.

(** ** What the background tasks leave alone *)

(** [b'] is [b] but for the caches the background tasks write. *)
Definition quiet (b b' : Bidder) : Prop :=
  b' = set_b_suspended_until (b_suspended_until b')
         (set_b_requirements (b_requirements b') (set_b_prove_usd_cache (b_prove_usd_cache b') b)).

Lemma quiet_refl b : quiet b b.
Proof. by destruct b. Qed.

Lemma quiet_config b b' : quiet b b' -> same_config b b'.
Proof. unfold quiet. intros ->. by constructor. Qed.

Lemma quiet_requirements r b b' : quiet b b' -> quiet b (sync_requirements r b').
Proof. unfold quiet, sync_requirements. intros ->. by destruct r. Qed.

Lemma quiet_status r b b' : quiet b b' -> quiet b (sync_prover_status r b').
Proof. unfold quiet, sync_prover_status. intros ->. by destruct r. Qed.

Lemma quiet_price r b b' : quiet b b' -> quiet b (fetch_and_cache_prove_usd r b').2.
Proof. unfold quiet, fetch_and_cache_prove_usd. intros ->. by destruct r. Qed.

Lemma quiet_pending p b b' : quiet b b' -> quiet (set_b_pending_bids p b) (set_b_pending_bids p b').
Proof. unfold quiet. by intros ->. Qed.

Lemma quiet_cache c b b' : quiet b b' -> quiet (set_b_estimate_cache c b) (set_b_estimate_cache c b').
Proof. unfold quiet. by intros ->. Qed.

Lemma consider_quiet ck g req k r cl b b' :
  quiet b b' ->
  (consider ck g req k r cl b').1 = (consider ck g req k r cl b).1 /\
  quiet (consider ck g req k r cl b).2 (consider ck g req k r cl b').2.
Proof.
  intros Hq. unfold consider, admit_request.
  assert (mode_enabled b' (mode r) = mode_enabled b (mode r) /\ mode_wrap_demand b' (mode r) = mode_wrap_demand b (mode r)
    /\ b_aggressive_mode b' = b_aggressive_mode b /\ b_min_deadline_secs b' = b_min_deadline_secs b
    /\ b_gas_estimate_multiplier b' = b_gas_estimate_multiplier b /\ b_buffer_sec b' = b_buffer_sec b
    /\ b_pending_bids b' = b_pending_bids b) as (-> & -> & -> & -> & -> & -> & ->).
  { unfold quiet in Hq. rewrite Hq. by destruct (mode r). }
  repeat case_match; (split; [done|]); try done. by apply quiet_pending.
Qed.

Lemma bid_loop_quiet ck g req amt k rs cl b b' :
  quiet b b' ->
  (bid_loop ck g req amt k rs cl b').1 = (bid_loop ck g req amt k rs cl b).1 /\
  quiet (bid_loop ck g req amt k rs cl b).2 (bid_loop ck g req amt k rs cl b').2.
Proof.
  revert k cl b b'. induction rs as [|r rs IH]; intros k cl b b' Hq; cbn [bid_loop]; [done|].
  case_match; [by apply IH|]. pose proof (consider_quiet ck g req k r cl b b' Hq) as [Hc Hq1].
  destruct (consider _ _ _ _ _ _ b) as [[go cl1] b1], (consider _ _ _ _ _ _ b') as [[go' cl1'] b1'].
  cbn in Hc, Hq1. simplify_eq. pose proof (IH (S k) cl1 b1 b1' Hq1) as [Hl Hq2].
  destruct (bid_loop _ _ _ _ _ _ _ b1) as [[bids cl2] b2], (bid_loop _ _ _ _ _ _ _ b1') as [[bids' cl2'] b2'].
  cbn in Hl, Hq2 |- *. by simplify_eq.
Qed.

(** ** Runs *)
Lemma exec_events_app es es' s : exec (es ++ es') s = exec es s ≫= exec es'.
Proof.
  revert s. induction es as [|e es IH]; intros s; [done|]. cbn [exec app].
  destruct (step e s) as [s'|]; [apply IH|done].
Qed.

Lemma exec_snoc es e s : exec (es ++ [e]) s = exec es s ≫= step e.
Proof.
  rewrite exec_events_app. destruct (exec es s) as [s'|]; [|done]. cbn [mbind option_bind exec].
  by destruct (step e s').
Qed.

Definition background (e : event) : Prop :=
  match e with SyncRequirements _ | SyncStatus _ _ | RefreshPrice _ => True | _ => False end.
#[export] Instance background_dec e : Decision (background e).
Proof. destruct e; apply _. Defined.

Lemma status_synced_bidder now r s :
  bidder (status_synced now r s) = sync_prover_status r (bidder s) /\ at_phase (status_synced now r s) = at_phase s
  /\ sent (status_synced now r s) = sent s /\ prover (status_synced now r s) = prover s.
Proof. unfold status_synced, suspension_report. repeat case_match; by simplify_eq. Qed.

(** A background event changes neither the pass nor what it has sent. *)
Lemma step_background e s s' :
  background e -> step e s = Some s' ->
  at_phase s' = at_phase s /\ sent s' = sent s /\ prover s' = prover s /\
  forall b, quiet b (bidder s) -> quiet b (bidder s').
Proof.
  destruct e; cbn [background step]; intros []; try (intros [= <-]).
  - repeat split. intros b. apply quiet_requirements.
  - destruct (status_synced_bidder now r s) as (-> & -> & -> & ->). repeat split. intros b. apply quiet_status.
  - case_match; [|done]. intros [= <-]. repeat split. intros b'. apply quiet_price.
Qed.

Lemma step_pass e s : ~ background e -> step e s = pass_step e s.
Proof. by destruct e. Qed.

(** ** The pages and the estimates read so far *)
Definition answers (fetch : Z -> result (list ProofRequest)) (batches : list (list ProofRequest)) : Prop :=
  forall i l, batches !! i = Some l -> fetch (1 + Z.of_nat i) = inr l.

(** The pages before [page] were full and the loop of [fetch_assigned_requests] is at
    its next one; [P] holds of every page. *)
Definition pages_ok (P : list ProofRequest -> Prop) (slots page : Z) (assigned : list ProofRequest) : Prop :=
  exists batches, Forall P batches /\ page = 1 + Z.of_nat (length batches) /\ assigned = concat batches /\
    Z.of_nat (length assigned) = REQUEST_LIMIT * Z.of_nat (length batches) /\ Z.of_nat (length assigned) <= slots /\
    forall fetch, answers fetch batches -> forall fuel,
      fetch_assigned_from (length batches + fuel) fetch slots 1 [] = fetch_assigned_from fuel fetch slots page assigned.

Lemma pages_start P slots : 0 <= slots -> pages_ok P slots 1 [].
Proof. intros Hs. by exists []. Qed.

Lemma pages_mono (P Q : list ProofRequest -> Prop) slots page assigned :
  (forall l, P l -> Q l) -> pages_ok P slots page assigned -> pages_ok Q slots page assigned.
Proof. intros HPQ (batches & Hall & ?). exists batches. split; [by eapply Forall_impl|done]. Qed.

Definition last_page (slots : Z) (assigned batch : list ProofRequest) : bool :=
  negb (Int.wrap u32 (Z.of_nat (length batch)) =? REQUEST_LIMIT) ||
  (slots <? Int.wrap u32 (Z.of_nat (length (assigned ++ batch)))).

Lemma answers_snoc fetch batches batch :
  answers fetch (batches ++ [batch]) -> answers fetch batches /\ fetch (1 + Z.of_nat (length batches)) = inr batch.
Proof.
  intros Ha. split.
  - intros i l Hi. apply Ha. by apply lookup_app_l_Some.
  - apply Ha. rewrite lookup_app_r, Nat.sub_diag by done. done.
Qed.

Lemma fetch_page fuel fetch slots page assigned batch :
  fetch page = inr batch ->
  fetch_assigned_from (S fuel) fetch slots page assigned =
    if last_page slots assigned batch then Ok (inr (assigned ++ batch))
    else fetch_assigned_from fuel fetch slots (Int.wadd u32 page 1) (assigned ++ batch).
Proof. intros Hf. cbn [fetch_assigned_from]. by rewrite Hf. Qed.

Lemma pages_more (P : list ProofRequest -> Prop) slots page assigned batch :
  slots < 2 ^ 32 - REQUEST_LIMIT -> Z.of_nat (length batch) <= REQUEST_LIMIT -> P batch ->
  pages_ok P slots page assigned -> last_page slots assigned batch = false ->
  pages_ok P slots (Int.wadd u32 page 1) (assigned ++ batch).
Proof.
  intros Hslots Hb HP (batches & Hall & -> & -> & Hlen & Hle & Hrun) Hlast. pose proof Hlast as Hl.
  unfold last_page, REQUEST_LIMIT in *. apply orb_false_elim in Hl as [Hfull%negb_false_iff%Z.eqb_eq Hcap%Z.ltb_ge].
  unfold Int.wrap, Int.modulus in Hfull, Hcap. rewrite length_app, Nat2Z.inj_add in Hcap.
  rewrite Z.mod_small in Hfull by lia. rewrite Z.mod_small in Hcap by lia.
  assert (Hp : Int.wadd u32 (1 + Z.of_nat (length batches)) 1 = 1 + Z.of_nat (length (batches ++ [batch]))).
  { rewrite Int.wadd_small; rewrite ?length_app; cbn [length]; [lia|]. unfold Int.in_range, Int.modulus. lia. }
  exists (batches ++ [batch]). split; [by apply Forall_app_2; [|constructor]|]. split; [done|]. split; [rewrite concat_app; cbn; by rewrite app_nil_r|].
  rewrite !length_app, !Nat2Z.inj_add. cbn [length]. unfold REQUEST_LIMIT. split; [lia|]. split; [lia|].
  intros fetch [Ha Hf]%answers_snoc fuel. rewrite <- Nat.add_assoc. cbn [Nat.add].
  rewrite (Hrun fetch Ha), (fetch_page _ _ _ _ _ _ Hf). unfold last_page, REQUEST_LIMIT. by rewrite Hlast.
Qed.

(** The replies to the pages, as the network's answers to them. *)
Definition page_answers (batches : list (list ProofRequest)) (page : Z) : result (list ProofRequest) :=
  match batches !! Z.to_nat (page - 1) with Some l => inr l | None => inl (Msg "not read") end.

Lemma page_answers_ok batches : answers (page_answers batches) batches.
Proof. intros i l Hi. unfold page_answers. replace (Z.to_nat (1 + Z.of_nat i - 1)) with i by lia. by rewrite Hi. Qed.

Lemma pages_end (P : list ProofRequest -> Prop) slots page assigned batch :
  P batch -> pages_ok P slots page assigned -> last_page slots assigned batch = true ->
  exists fetch, (forall p l, fetch p = inr l -> P l) /\ fetch_assigned_from (S (Z.to_nat (slots / REQUEST_LIMIT))) fetch slots 1 [] = Ok (inr (assigned ++ batch)).
Proof.
  intros HP (batches & Hall & -> & -> & Hlen & Hle & Hrun) Hlast. exists (page_answers (batches ++ [batch])). split.
  { intros p l. unfold page_answers. destruct (_ !! _) as [l'|] eqn:Hl; [|done]. intros [= <-].
    eapply (Forall_lookup_1 P (batches ++ [batch])); [|done]. by apply Forall_app_2; [|constructor]. }
  destruct (answers_snoc _ _ _ (page_answers_ok (batches ++ [batch]))) as [Ha Hf].
  assert (exists fuel, S (Z.to_nat (slots / REQUEST_LIMIT)) = (length batches + S fuel)%nat) as [fuel ->].
  { exists (Z.to_nat (slots / REQUEST_LIMIT) - length batches)%nat.
    assert (Z.of_nat (length batches) <= slots / REQUEST_LIMIT); [|lia].
    unfold REQUEST_LIMIT in *. apply Z.div_le_lower_bound; lia. }
  by rewrite (Hrun _ Ha), (fetch_page _ _ _ _ _ _ Hf), Hlast.
Qed.

(** The batches answered so far, in order, took the lookup to where the pass is; [P] holds of
    each answer. *)
Definition estimates_ok (P : list (bytes * Z) -> Prop) (now : Instant) (requests assigned : list ProofRequest) (cache0 cache : EstimateCache)
    (batches : list (list bytes)) (resolved : Resolved) : Prop :=
  exists replies : list (result (list (bytes * Z))),
    (forall i l, replies !! i = Some (inr l) -> P l) /\
    forall fetch, (forall i r, replies !! i = Some r -> forall c, fetch i c = r) ->
      (let '(resolved0, batches0) := lookup_estimates now requests assigned cache0 in
       resolve_chunks fetch now 0 batches0 (resolved0, cache0)) =
      resolve_chunks fetch now (length replies) batches (resolved, cache).

Lemma estimates_mono (P Q : list (bytes * Z) -> Prop) now rs assigned cache0 cache batches resolved :
  (forall l, P l -> Q l) -> estimates_ok P now rs assigned cache0 cache batches resolved ->
  estimates_ok Q now rs assigned cache0 cache batches resolved.
Proof. intros HPQ (replies & Hall & ?). exists replies. split; [eauto|done]. Qed.

Lemma estimates_more P now rs assigned cache0 cache chunk batches resolved r :
  (forall l, r = inr l -> P l) ->
  estimates_ok P now rs assigned cache0 cache (chunk :: batches) resolved ->
  let acc := resolve_chunk (fun _ => r) now (resolved, cache) chunk in
  estimates_ok P now rs assigned cache0 acc.2 batches acc.1.
Proof.
  intros HP (replies & Hall & Hrun). exists (replies ++ [r]). split.
  { intros i l [Hi|[_ Hi]]%lookup_app_Some; [eauto|]. by apply list_lookup_singleton_Some in Hi as [_ ->]; eauto. }
  intros fetch Hf. rewrite (Hrun fetch).
  - cbn [resolve_chunks]. rewrite length_app, Nat.add_1_r, <- surjective_pairing. f_equal.
    unfold resolve_chunk. rewrite (Hf (length replies) r); [done|]. by rewrite lookup_app_r, Nat.sub_diag.
  - intros i r' Hi. apply Hf. by apply lookup_app_l_Some.
Qed.

(** ** Serialising a pass *)

(** The caches as a pass read them: the suspension, the estimates and the ledger when it
    began, the price and the requirements at their own reads. *)
Definition as_read (sa sb sc : process) : Bidder :=
  set_b_requirements (b_requirements (bidder sc)) (set_b_prove_usd_cache (b_prove_usd_cache (bidder sb)) (bidder sa)).

(** An event of the run [es] after its prefix [ea]. *)
Definition during (ea es : list event) (e : event) : Prop := e ∈ drop (length ea) es.

(** The pass in progress began in [sa], after the events [ea], and was not suspended. *)
Record Began (s0 : process) (es ea : list event) (sa : process) (now : Z) : Prop := {
  bg_prefix : ea `prefix_of` es;
  bg_exec : exec ea s0 = Some sa;
  bg_begin : during ea es (Begin now);
  bg_live : b_suspended_until (bidder sa) <= now;
}.

(** The answers and clocks of [inp] are those the pass met after [ea]: all but the two
    reads at its end. *)
Record Heard (ea es : list event) (inp : PassInput) (rs : list ProofRequest) : Prop := {
  hd_requests : in_requests inp = inr rs;
  hd_listed : during ea es (Listed (inr rs));
  hd_pages : forall p l, in_assigned inp p = inr l -> during ea es (Page (inr l));
  hd_lookup : during ea es (Lookup (in_lookup inp));
  hd_estimates : forall i c l, in_estimates inp i c = inr l -> during ea es (Estimates (inr l));
  hd_reconcile : during ea es (Reconcile (in_reconcile inp));
}.

(** The pass is [bid_requests] on the caches as it read them, with the answers that
    arrived during it. *)
Definition serialised (s0 : process) (es : list event) (s : process) (bids : list (ProofRequest * Z)) : Prop :=
  exists ea sa eb sb ec sc inp rs, Began s0 es ea sa (in_now inp) /\ Heard ea es inp rs /\
    during ea es (ReadPrice (in_now_utc inp)) /\ during ea es (Decide (in_clock inp)) /\
    ea `prefix_of` eb /\ exec eb s0 = Some sb /\ eb `prefix_of` ec /\ exec ec s0 = Some sc /\ ec `prefix_of` es /\
    (bid_requests inp (as_read sa sb sc)).1 = Ok (inr bids) /\
    quiet (bid_requests inp (as_read sa sb sc)).2 (bidder s).

(** The load of the pass is that of [pass_load] on the bidder it began with. *)
Definition loaded (ea es : list event) (sa s : process) (inp : PassInput) (rs : list ProofRequest) (g : Resolved) (cl : ClusterState f64)
    (b1 : Bidder) : Prop :=
  Heard ea es inp rs /\ exists r rs' assigned, rs = r :: rs' /\
    fetch_assigned_requests (in_assigned inp) (bidder sa) = Ok (inr assigned) /\
    pass_load inp rs assigned (bidder sa) = (g, cl, b1) /\ quiet b1 (bidder s).

Definition inv (s0 : process) (es : list event) (s : process) : Prop :=
  match at_phase s with
  | Sleeping => True
  | Listing => exists ea sa now, Began s0 es ea sa now /\ quiet (bidder sa) (bidder s)
  | Assigning rs page assigned =>
      exists ea sa now, Began s0 es ea sa now /\ during ea es (Listed (inr rs)) /\ quiet (bidder sa) (bidder s) /\
        pages_ok (fun l => during ea es (Page (inr l))) (controller_slots (b_cpu_worker_max_weights (bidder sa))) page assigned
  | Assigned rs assigned =>
      exists ea sa now fetch, Began s0 es ea sa now /\ during ea es (Listed (inr rs)) /\ quiet (bidder sa) (bidder s) /\
        (forall p l, fetch p = inr l -> during ea es (Page (inr l))) /\
        fetch_assigned_requests fetch (bidder sa) = Ok (inr assigned)
  | Estimating rs assigned t batches resolved =>
      exists ea sa now fetch, Began s0 es ea sa now /\ during ea es (Listed (inr rs)) /\ during ea es (Lookup t) /\
        (forall p l, fetch p = inr l -> during ea es (Page (inr l))) /\
        quiet (set_b_estimate_cache (b_estimate_cache (bidder s)) (bidder sa)) (bidder s) /\
        fetch_assigned_requests fetch (bidder sa) = Ok (inr assigned) /\
        estimates_ok (fun l => during ea es (Estimates (inr l))) t rs assigned (b_estimate_cache (bidder sa)) (b_estimate_cache (bidder s)) batches resolved
  | Reconciled rs g cl =>
      exists ea sa inp b1, Began s0 es ea sa (in_now inp) /\ loaded ea es sa s inp rs g cl b1
  | Priced rs g cl amount =>
      exists ea sa eb sb inp b1, Began s0 es ea sa (in_now inp) /\ loaded ea es sa s inp rs g cl b1 /\
        during ea es (ReadPrice (in_now_utc inp)) /\ ea `prefix_of` eb /\ exec eb s0 = Some sb /\ eb `prefix_of` es /\
        amount = effective_bid_amount (in_now_utc inp) (set_b_prove_usd_cache (b_prove_usd_cache (bidder sb)) b1)
  | Joining bids _ => serialised s0 es s bids
  end.

Lemma during_snoc ea es e e' : during ea es e -> during ea (es ++ [e']) e.
Proof. unfold during. rewrite drop_app. intros He. apply elem_of_app. by left. Qed.

Lemma during_here ea es e : ea `prefix_of` es -> during ea (es ++ [e]) e.
Proof. intros [k ->]. unfold during. rewrite <- app_assoc, drop_app_length. apply elem_of_app. right. by left. Qed.

Hint Resolve during_snoc during_here prefix_app_r : core.

Lemma began_snoc s0 es ea sa now e : Began s0 es ea sa now -> Began s0 (es ++ [e]) ea sa now.
Proof. intros [Hp He Hb Hl]. split; auto. Qed.

Lemma began_here s0 es s now :
  exec es s0 = Some s -> b_suspended_until (bidder s) <= now -> Began s0 (es ++ [Begin now]) es s now.
Proof. intros He Hl. split; auto. Qed.

Lemma heard_snoc ea es inp rs e : Heard ea es inp rs -> Heard ea (es ++ [e]) inp rs.
Proof. intros []. split; eauto. Qed.

Hint Resolve began_snoc heard_snoc : core.

Lemma quiet_estimates b b' : quiet b b' -> b_estimate_cache b' = b_estimate_cache b.
Proof. unfold quiet. by intros ->. Qed.

Lemma loaded_snoc ea es sa s s' inp rs g cl b1 e :
  (forall b, quiet b (bidder s) -> quiet b (bidder s')) ->
  loaded ea es sa s inp rs g cl b1 -> loaded ea (es ++ [e]) sa s' inp rs g cl b1.
Proof. intros Hq (Hh & r & rs' & asg & ? & ? & ? & ?). split; [auto|]. exists r, rs', asg. auto 10. Qed.

(** The invariant looks at the phase, and at the bidder up to the background's caches. *)
Lemma inv_quiet s0 es s s' e :
  at_phase s' = at_phase s -> (forall b, quiet b (bidder s) -> quiet b (bidder s')) ->
  inv s0 es s -> inv s0 (es ++ [e]) s'.
Proof.
  intros Hph Hq. unfold inv. rewrite Hph. pose proof (quiet_estimates _ _ (Hq _ (quiet_refl _))) as Hc.
  destruct (at_phase s) as [| |? ? ?|? ?|? ? ? ? ?|? ? ?|? ? ? ?|? ?]; [done| | | |rewrite Hc| | |].
  - intros (ea & sa & nw & ? & ?). exists ea, sa, nw. auto.
  - intros (ea & sa & nw & ? & ? & ? & ?). exists ea, sa, nw. repeat (split; [by auto|]).
    eapply pages_mono; [|done]. intros l. apply during_snoc.
  - intros (ea & sa & nw & fetch & ? & ? & ? & ? & ?). exists ea, sa, nw, fetch. eauto 10.
  - intros (ea & sa & nw & fetch & ? & ? & ? & ? & ? & ? & ?). exists ea, sa, nw, fetch.
    repeat (split; [by eauto|]). eapply estimates_mono; [|done]. intros l. apply during_snoc.
  - intros (ea & sa & inp & b1 & ? & ?). exists ea, sa, inp, b1. split; [auto|]. by eapply loaded_snoc.
  - intros (ea & sa & eb & sb & inp & b1 & ? & ? & ? & ? & ? & ? & ?).
    exists ea, sa, eb, sb, inp, b1. split; [auto|]. split; [by eapply loaded_snoc|]. auto 10.
  - intros (ea & sa & eb & sb & ec & sc & inp & rs & ? & ? & ? & ? & ? & ? & ? & ? & ? & ? & ?).
    exists ea, sa, eb, sb, ec, sc, inp, rs. repeat (split; [by eauto|]). auto.
Qed.

Lemma inv_background s0 es e s s' : background e -> step e s = Some s' -> inv s0 es s -> inv s0 (es ++ [e]) s'.
Proof. intros Hb Hs. destruct (step_background e s s' Hb Hs) as (Hph & _ & _ & Hq). by apply inv_quiet. Qed.

(** One page: the loop of [fetch_assigned_requests] goes on or ends. *)
Lemma inv_page s0 es s r rs page assigned :
  controller_slots (b_cpu_worker_max_weights (bidder s)) < 2 ^ 32 - REQUEST_LIMIT ->
  Z.of_nat (length r) <= REQUEST_LIMIT ->
  at_phase s = Assigning rs page assigned -> inv s0 es s ->
  inv s0 (es ++ [Page (inr r)]) (page_read rs page assigned r s).
Proof.
  intros Hslots Hr Hph. unfold inv at 1. rewrite Hph. intros (ea & sa & now & Hb & Hls & Hq & Hp).
  assert (Hnew : during ea (es ++ [Page (inr r)]) (Page (inr r))) by (apply during_here, Hb).
  eapply pages_mono in Hp; [|intros l; exact (during_snoc _ _ _ (Page (inr r)))].
  rewrite (sc_weights _ _ (quiet_config _ _ Hq)) in Hslots. unfold page_read.
  rewrite (sc_weights _ _ (quiet_config _ _ Hq)).
  fold (last_page (controller_slots (b_cpu_worker_max_weights (bidder sa))) assigned r).
  destruct (last_page _ _ _) eqn:Hlast; unfold inv; cbn [at_phase set_phase bidder].
  - destruct (pages_end _ _ _ _ _ Hnew Hp Hlast) as (fetch & Hall & Hf). exists ea, sa, now, fetch. auto 10.
  - exists ea, sa, now. split; [auto|]. split; [auto|]. split; [done|]. by apply pages_more.
Qed.

Lemma inv_lookup s0 es s t rs assigned :
  at_phase s = Assigned rs assigned -> inv s0 es s ->
  forall s', pass_step (Lookup t) s = Some s' -> inv s0 (es ++ [Lookup t]) s'.
Proof.
  intros Hph Hi s'. unfold pass_step, inv in *. rewrite Hph in *. destruct Hi as (ea & sa & now & fetch & Hb & Hls & Hq & Hpg & Hf).
  destruct (lookup_estimates _ _ _ _) as [resolved batches] eqn:Hl. intros [= <-].
  cbn [at_phase set_phase bidder]. exists ea, sa, now, fetch. split; [auto|]. split; [auto|].
  split; [apply during_here, Hb|]. split; [eauto|]. rewrite (quiet_estimates _ _ Hq) in *. split; [|split; [done|]].
  - unfold quiet in *. rewrite Hq. by destruct (bidder sa).
  - exists []. split; [done|]. intros f _. by rewrite Hl.
Qed.

Lemma inv_estimates s0 es s r rs assigned t chunk batches resolved :
  at_phase s = Estimating rs assigned t (chunk :: batches) resolved -> inv s0 es s ->
  forall s', pass_step (Estimates r) s = Some s' -> inv s0 (es ++ [Estimates r]) s'.
Proof.
  intros Hph Hi s'. unfold pass_step, inv in *. rewrite Hph in *.
  destruct Hi as (ea & sa & now & fetch & Hb & Hls & Hlk & Hpg & Hq & Hf & He).
  eapply estimates_mono in He; [|intros l; exact (during_snoc _ _ _ (Estimates r))].
  apply (estimates_more _ _ _ _ _ _ _ _ _ r) in He; [|intros l ->; apply during_here, Hb].
  destruct (resolve_chunk _ _ _ _) as [resolved' cache']. cbn in He. intros [= <-].
  cbn [at_phase set_phase bidder set_bidder set_b_estimate_cache b_estimate_cache].
  exists ea, sa, now, fetch. split; [auto|]. split; [auto|]. split; [auto|]. split; [eauto|].
  split; [|done]. by apply (quiet_cache cache') in Hq.
Qed.

(** The replies to the batches, as the network's answers to them. *)
Definition batch_answers (replies : list (result (list (bytes * Z)))) (i : nat) (c : list bytes)
  : result (list (bytes * Z)) := default (inl (Msg "not read")) (replies !! i).

Lemma inv_reconcile s0 es s t rs assigned tl resolved :
  at_phase s = Estimating rs assigned tl [] resolved -> inv s0 es s ->
  forall s', pass_step (Reconcile t) s = Some s' -> inv s0 (es ++ [Reconcile t]) s'.
Proof.
  intros Hph Hi s'. unfold pass_step, inv in *. rewrite Hph in *.
  destruct Hi as (ea & sa & now & fetch & Hb & Hls & Hlk & Hpg & Hq & Hf & replies & Hrep & He).
  set (inp := mkInput now 0 tl t (fun _ => (0, t)) (inr rs) fetch (batch_answers replies)).
  specialize (He (batch_answers replies)). cbn [resolve_chunks] in He.
  assert (Hload : resolve_gas_estimates (in_estimates inp) tl rs assigned (bidder sa) =
    (resolved, set_b_estimate_cache (b_estimate_cache (bidder s)) (bidder sa))).
  { unfold resolve_gas_estimates, inp. cbn [in_estimates]. destruct (lookup_estimates _ _ _ _) as [resolved0 batches0].
    rewrite He; [done|]. intros i r Hi c. unfold batch_answers. by rewrite Hi. }
  unfold reconcile_pending_bids.
  assert (assigned_load (bidder s) resolved assigned =
      assigned_load (set_b_estimate_cache (b_estimate_cache (bidder s)) (bidder sa)) resolved assigned /\
    b_pending_bids (bidder s) = b_pending_bids (bidder sa)) as [-> ->].
  { unfold quiet in Hq. by rewrite Hq. }
  destruct (pending_reconcile _ _ _ _) as [pending cl] eqn:Hpr. intros [= <-].
  destruct rs as [|r rs]; [done|]. cbn [at_phase set_phase bidder set_bidder].
  exists ea, sa, inp, (set_b_pending_bids pending (set_b_estimate_cache (b_estimate_cache (bidder s)) (bidder sa))).
  split; [by apply began_snoc|]. split.
  { split; cbn; [done|by auto|by eauto|by auto| |apply during_here, Hb]. intros i c l. unfold batch_answers.
    destruct (replies !! i) as [[e|l']|] eqn:Hi; try done. intros [= <-]. eauto. }
  exists r, rs, assigned. split; [done|]. split; [done|].
  split; [|by apply quiet_pending]. unfold pass_load. change (in_lookup inp) with tl. rewrite Hload.
  unfold reconcile_pending_bids. cbn [in_reconcile inp b_pending_bids set_b_estimate_cache]. by rewrite Hpr.
Qed.

Definition set_in_now_utc (t : Z) (inp : PassInput) : PassInput :=
  mkInput (in_now inp) t (in_lookup inp) (in_reconcile inp) (in_clock inp) (in_requests inp) (in_assigned inp) (in_estimates inp).
Definition set_in_clock (ck : nat -> Z * Instant) (inp : PassInput) : PassInput :=
  mkInput (in_now inp) (in_now_utc inp) (in_lookup inp) (in_reconcile inp) ck (in_requests inp) (in_assigned inp) (in_estimates inp).

Lemma inv_price s0 es s t rs g cl :
  exec es s0 = Some s -> at_phase s = Reconciled rs g cl -> inv s0 es s ->
  forall s', pass_step (ReadPrice t) s = Some s' -> inv s0 (es ++ [ReadPrice t]) s'.
Proof.
  intros Hex Hph Hi s'. unfold pass_step, inv in *. rewrite Hph in *.
  destruct Hi as (ea & sa & inp & b1 & Hb & Hl). intros [= <-]. cbn [at_phase set_phase].
  assert (Hq : quiet b1 (bidder s)) by by destruct Hl as (_ & r & rs' & assigned & _ & _ & _ & Hq).
  exists ea, sa, es, s, (set_in_now_utc t inp), b1. split; [by apply began_snoc|]. split.
  { destruct Hl as (Hh & Hl). split; [|done]. apply heard_snoc. by destruct Hh. }
  split; [apply during_here, Hb|]. split; [apply Hb|]. split; [done|]. split; [by eexists|].
  unfold quiet in Hq. by rewrite Hq.
Qed.

Lemma pass_load_caches inp rs assigned q p b :
  pass_load inp rs assigned (set_b_requirements q (set_b_prove_usd_cache p b)) =
  let '(g, cl, b1) := pass_load inp rs assigned b in (g, cl, set_b_requirements q (set_b_prove_usd_cache p b1)).
Proof.
  unfold pass_load, resolve_gas_estimates, reconcile_pending_bids.
  cbn [b_estimate_cache set_b_requirements set_b_prove_usd_cache].
  destruct (lookup_estimates _ _ _ _) as [resolved batches]. destruct (resolve_chunks _ _ _ _ _) as [resolved' cache].
  unfold assigned_load. cbn. by destruct (pending_reconcile _ _ _ _).
Qed.

Lemma quiet_caches q p b b' : quiet b b' -> quiet (set_b_requirements q (set_b_prove_usd_cache p b)) b'.
Proof. unfold quiet. by intros ->. Qed.

Lemma inv_decide s0 es s ck rs g cl amount :
  exec es s0 = Some s -> at_phase s = Priced rs g cl amount -> inv s0 es s ->
  forall s', pass_step (Decide ck) s = Some s' -> inv s0 (es ++ [Decide ck]) s'.
Proof.
  intros Hex Hph Hi s'. unfold pass_step. unfold inv in Hi. rewrite Hph in *.
  destruct Hi as (ea & sa & eb & sb & inp & b1 & Hb & Hl & Hrp & Hab & Hsb & Hbs & ->).
  destruct Hl as (Hh & r & rs' & assigned & -> & Has & Hload & Hq). pose proof (hd_requests _ _ _ _ Hh) as Hrs.
  apply (quiet_caches (b_requirements (bidder s)) (b_prove_usd_cache (bidder sb))) in Hq.
  set (b2 := set_b_requirements _ _) in Hq. pose proof (bid_loop_quiet ck g (b_requirements (bidder s))
    (effective_bid_amount (in_now_utc inp) b2) 0 (r :: rs') cl b2 (bidder s) Hq) as [Hbids Hq'].
  change (effective_bid_amount _ (set_b_prove_usd_cache _ _)) with (effective_bid_amount (in_now_utc inp) b2).
  assert (Hpass : bid_requests (set_in_clock ck inp) (as_read sa sb s) =
    let '(bids, _, b) := bid_loop ck g (b_requirements (bidder s)) (effective_bid_amount (in_now_utc inp) b2) 0 (r :: rs') cl b2 in
    (Ok (inr bids), b)).
  { unfold bid_requests. destruct Hb as [_ _ _ Hlive].
    change (in_now (set_in_clock ck inp) <? b_suspended_until (as_read sa sb s)) with (in_now inp <? b_suspended_until (bidder sa)).
    rewrite (proj2 (Z.ltb_ge _ _) Hlive). cbn [in_requests set_in_clock]. rewrite Hrs.
    change (fetch_assigned_requests _ (as_read sa sb s)) with (fetch_assigned_requests (in_assigned inp) (bidder sa)). rewrite Has.
    unfold as_read. rewrite pass_load_caches. change (pass_load (set_in_clock ck inp)) with (pass_load inp).
    by rewrite Hload. }
  destruct (bid_loop _ _ _ _ _ _ _ b2) as [[bids cl2] b3], (bid_loop _ _ _ _ _ _ _ (bidder s)) as [[bids' cl2'] b3'].
  cbn in Hbids, Hq'. simplify_eq. intros [= <-]. unfold inv. cbn [at_phase set_phase].
  exists ea, sa, eb, sb, es, s, (set_in_clock ck inp), (r :: rs'). split; [by apply began_snoc|].
  split; [apply heard_snoc; by destruct Hh|]. split; [by apply during_snoc|]. split; [apply during_here, Hb|].
  rewrite Hpass. repeat (split; [done|]). split; [by eexists|]. done.
Qed.

(** The steps of the bids' tasks. *)
Lemma joining_step e s s' bids tasks :
  at_phase s = Joining bids tasks -> pass_step e s = Some s' ->
  bidder s' = bidder s /\ prover s' = prover s /\
  ((at_phase s' = Sleeping /\ sent s' = sent s) \/
   (exists tasks', at_phase s' = Joining bids tasks') /\
   (sent s' = sent s \/ exists i r req amount body, bids !! i = Some (req, amount) /\
      bid_request r (prover s) (hex_encode (request_id req)) amount = inr body /\ sent s' = sent s ++ [body])).
Proof.
  intros Hph. unfold pass_step. rewrite Hph. destruct e; try done.
  - destruct (bids !! i) as [[req amount]|] eqn:Hb; [|done]. destruct (tasks !! i) as [[]|]; try done.
    destruct (bid_request _ _ _ _) as [err|body] eqn:Hbody; intros [= <-]; (split; [done|]); (split; [done|]); right.
    + split; [by eexists|by left].
    + split; [by eexists|]. right. by exists i, r, req, amount, body.
  - destruct (tasks !! i) as [[]|]; try done. intros [= <-]. split; [done|]. split; [done|]. right.
    split; [by eexists|by left].
  - case_match; [|done]. intros [= <-]. split; [done|]. split; [done|]. by left.
Qed.

Lemma inv_joining s0 es s s' bids tasks e :
  at_phase s = Joining bids tasks -> inv s0 es s -> pass_step e s = Some s' -> inv s0 (es ++ [e]) s'.
Proof.
  intros Hph Hi Hs. destruct (joining_step e s s' bids tasks Hph Hs) as (Hb & _ & [[Hp _]|[[tasks' Hp] _]]).
  { unfold inv. by rewrite Hp. }
  apply (inv_quiet s0 es (set_phase (Joining bids tasks') s)); [done|cbn; by rewrite Hb|].
  unfold inv in *. by rewrite Hph in Hi.
Qed.

(** ** Configuration *)
Lemma step_config e s s' : step e s = Some s' -> same_config (bidder s) (bidder s').
Proof.
  intros Hs. destruct (decide (background e)) as [Hb|Hb].
  { destruct (step_background e s s' Hb Hs) as (_ & _ & _ & Hq). apply quiet_config, Hq, quiet_refl. }
  rewrite step_pass in Hs by done. revert Hs. unfold pass_step, page_read, pass_failed, finish.
  destruct e, (at_phase s); try done; try (repeat case_match; intros [= <-]; by constructor).
  - destruct (reconcile_pending_bids _ _ _ _ _) as [cl b] eqn:Hr. unfold reconcile_pending_bids in Hr.
    repeat case_match; simplify_eq; try done; intros [= <-]; by constructor.
  - pose proof (bid_loop_config clock gas_estimates (b_requirements (bidder s)) bid_amount 0 requests cl (bidder s)) as Hc.
    destruct (bid_loop _ _ _ _ _ _ _ _) as [[bids cl'] b]. by intros [= <-].
Qed.

Lemma exec_config es s s' : exec es s = Some s' -> same_config (bidder s) (bidder s').
Proof.
  revert s. induction es as [|e es IH]; intros s; cbn [exec]; [by intros [= <-]|].
  intros (s1 & Hs & He)%bind_Some. etrans; [by eapply step_config|by apply IH].
Qed.

(** ** Every run *)

(** What the network keeps to: a page is no longer than asked for, an id is made of
    bytes. *)
Definition network_ok (e : event) : Prop :=
  match e with
  | Page (inr l) => Z.of_nat (length l) <= REQUEST_LIMIT
  | Listed (inr rs) => Forall (fun r => Forall (fun x => 0 <= x < 256) (request_id r)) rs
  | _ => True
  end.

(** The capacity leaves room for a page in a [u32]. *)
Definition slots_ok (b : Bidder) : Prop :=
  0 <= controller_slots (b_cpu_worker_max_weights b) < 2 ^ 32 - REQUEST_LIMIT.

Lemma slots_config b b' : same_config b b' -> slots_ok b -> slots_ok b'.
Proof. intros Hc. unfold slots_ok. by rewrite (sc_weights _ _ Hc). Qed.

Lemma inv_step s0 es e s s' :
  exec es s0 = Some s -> slots_ok (bidder s) -> network_ok e -> step e s = Some s' -> inv s0 es s -> inv s0 (es ++ [e]) s'.
Proof.
  intros Hex [Hlo Hhi] Hn Hs Hi. destruct (decide (background e)) as [Hb|Hb]; [by eapply inv_background|].
  rewrite step_pass in Hs by done. destruct (at_phase s) as [| |rs page asg|rs asg|rs asg t batches g|rs g cl|rs g cl amount|bids tasks] eqn:Hph;
    [| | | | | | |by eapply inv_joining]; destruct e; unfold pass_step in Hs; rewrite ?Hph in Hs; try done.
  - destruct (Z.ltb_spec now (b_suspended_until (bidder s))); simplify_eq; unfold inv; cbn; [by rewrite Hph|].
    exists es, s, now. split; [by apply began_here|apply quiet_refl].
  - unfold inv in Hi. rewrite Hph in Hi. destruct Hi as (ea & sa & now & Hbg & Hq).
    destruct r as [err|rs]; simplify_eq; unfold inv; cbn; [done|]. exists ea, sa, now. split; [by apply began_snoc|].
    split; [apply during_here, Hbg|]. split; [done|]. apply pages_start. by rewrite <- (sc_weights _ _ (quiet_config _ _ Hq)).
  - destruct r as [err|r]; simplify_eq; [done|]. by apply inv_page.
  - eapply inv_lookup; [done..|]. unfold pass_step. by rewrite Hph.
  - destruct batches as [|chunk batches]; [done|]. eapply inv_estimates; [done..|]. unfold pass_step. by rewrite Hph.
  - destruct batches as [|chunk batches]; [|done]. eapply inv_reconcile; [done..|]. unfold pass_step. by rewrite Hph.
  - eapply inv_price; [done..|]. unfold pass_step. by rewrite Hph.
  - eapply inv_decide; [done..|]. unfold pass_step. by rewrite Hph.
Qed.

Lemma inv_exec s0 es s :
  at_phase s0 = Sleeping -> slots_ok (bidder s0) -> Forall network_ok es -> exec es s0 = Some s -> inv s0 es s.
Proof.
  intros H0 Hslots. revert s. induction es as [|e es IH] using rev_ind; intros s Hn.
  { cbn. intros [= <-]. unfold inv. by rewrite H0. }
  apply Forall_app in Hn as [Hn He]. rewrite Forall_singleton in He. rewrite exec_snoc. intros (s1 & Hs1 & Hs)%bind_Some.
  eapply inv_step; [done| |done|done|by apply IH]. eapply slots_config; [|done]. by eapply exec_config.
Qed.

(** C24. However the refreshes of the price, the requirements and the suspension fall
    between its steps, a pass makes exactly the bids, and leaves exactly the ledger and
    estimates, that [bid_requests] makes in one go with the answers that arrived during
    it, on the caches as it read them: the suspension, ledger and estimates of the state
    it began in, the price and the requirements of two later states in that order. *)
Theorem pass_serialisable (s0 s : process) (es : list event) (bids : list (ProofRequest * Z)) (tasks : list task) :
  at_phase s0 = Sleeping -> slots_ok (bidder s0) -> Forall network_ok es -> exec es s0 = Some s ->
  at_phase s = Joining bids tasks -> serialised s0 es s bids.
Proof. intros H0 Hs Hn He Hp. pose proof (inv_exec s0 es s H0 Hs Hn He) as Hi. unfold inv in Hi. by rewrite Hp in Hi. Qed.

(** A bid the operator and the requester allow, on a request of a listing. *)
Definition good_body (s0 : process) (es : list event) (body : BidRequestBody) : Prop :=
  body_prover body = prover s0 /\
  exists rs r, Listed (inr rs) ∈ es /\ r ∈ rs /\ body_request_id body = request_id r /\
    0 < body_amount body /\ bid_floor r <= body_amount body <= bid_ceiling r /\
    ((b_tick_size (bidder s0) | bid_floor r) -> (b_tick_size (bidder s0) | body_amount body)) /\
    (b_aggressive_mode (bidder s0) = false -> mode_enabled (bidder s0) (mode r) = true).

Lemma good_body_snoc s0 es e body : good_body s0 es body -> good_body s0 (es ++ [e]) body.
Proof. intros (Hp & rs & r & Hl & H). split; [done|]. exists rs, r. split; [|done]. apply elem_of_app. by left. Qed.

Lemma serialised_good s0 es s bids i req amount nonce body :
  priced (bidder s0) -> 0 <= b_bid_amount (bidder s0) -> Forall network_ok es -> prover s = prover s0 ->
  serialised s0 es s bids -> bids !! i = Some (req, amount) ->
  bid_request nonce (prover s) (hex_encode (request_id req)) amount = inr body -> good_body s0 es body.
Proof.
  intros Hpr Hamt Hn Hprover (ea & sa & eb & sb & ec & sc & inp & rs & Hb & Hh & _ & _ & _ & _ & _ & _ & _ & Hbids & _) Hi.
  unfold bid_request. destruct nonce as [|nc]; [done|]. cbn [bind_result].
  assert (Hc : same_config (bidder s0) (as_read sa sb sc)).
  { etrans; [by eapply exec_config, Hb|]. by constructor. }
  assert (Hin : Listed (inr rs) ∈ es) by (eapply elem_of_subseteq, Hh; apply subseteq_drop).
  assert (bids <> []) as Hne by by destruct bids.
  destruct (pass_bids_sound _ inp bids (priced_config _ _ Hc Hpr) ltac:(by rewrite (sc_bid _ _ Hc)) Hbids Hne)
    as (_ & (rs' & Hrs' & Hsub) & Hall). rewrite (hd_requests _ _ _ _ Hh) in Hrs'. simplify_eq.
  destruct (Forall_lookup_1 _ _ _ _ Hall Hi) as (Hpos & Hrange & Htick & Hmode). cbn [fst snd] in *.
  assert (Hr : req ∈ rs').
  { eapply elem_of_submseteq; [|by apply sublist_submseteq]. apply list_elem_of_fmap. exists (req, amount). split; [done|]. by eapply list_elem_of_lookup_2. }
  rewrite hex_roundtrip.
  - intros [= <-]. split; [done|]. exists rs', req. rewrite (sc_tick _ _ Hc) in Htick. rewrite (sc_mode _ _ Hc), (sc_aggressive _ _ Hc) in Hmode. auto 10.
  - rewrite Forall_forall in Hn. specialize (Hn _ Hin). cbn in Hn. rewrite Forall_forall in Hn. by apply Hn.
Qed.

Lemma step_sent e s s' :
  step e s = Some s' -> prover s' = prover s /\
  (sent s' = sent s \/ exists bids tasks i r req amount body, at_phase s = Joining bids tasks /\ bids !! i = Some (req, amount) /\
     bid_request r (prover s) (hex_encode (request_id req)) amount = inr body /\ sent s' = sent s ++ [body]).
Proof.
  intros Hs. destruct (decide (background e)) as [Hb|Hb].
  { destruct (step_background e s s' Hb Hs) as (_ & Hsent & Hp & _). auto. }
  rewrite step_pass in Hs by done. destruct (at_phase s) as [| |rs page asg|rs asg|rs asg t batches g|rs g cl|rs g cl amount|bids tasks] eqn:Hph.
  8: { destruct (joining_step e s s' bids tasks Hph Hs) as (_ & Hp & [[_ Hsent]|[_ [Hsent|(i & r & req & amount & body & H)]]]);
       [by auto..|]. split; [done|]. right. by exists bids, tasks, i, r, req, amount, body. }
  all: revert Hs; unfold pass_step, page_read, pass_failed; destruct e; rewrite ?Hph; try done;
    repeat case_match; intros [= <-]; auto.
Qed.

Lemma exec_sent s0 es s :
  at_phase s0 = Sleeping -> sent s0 = [] -> slots_ok (bidder s0) -> priced (bidder s0) -> 0 <= b_bid_amount (bidder s0) ->
  Forall network_ok es -> exec es s0 = Some s -> prover s = prover s0 /\ Forall (good_body s0 es) (sent s).
Proof.
  intros H0 Hsent Hslots Hpr Hamt. revert s. induction es as [|e es IH] using rev_ind; intros s Hn.
  { cbn. intros [= <-]. by rewrite Hsent. }
  apply Forall_app in Hn as [Hn He]. rewrite exec_snoc. intros (s1 & Hs1 & Hs)%bind_Some.
  destruct (IH s1 Hn Hs1) as [Hp1 Hg1]. destruct (step_sent e s1 s Hs) as [Hp Hnew]. split; [congruence|].
  assert (Hg : Forall (good_body s0 (es ++ [e])) (sent s1)).
  { eapply Forall_impl; [done|]. intros body. apply good_body_snoc. }
  destruct Hnew as [->|(bids & tasks & i & r & req & amount & body & Hph & Hi & Hbody & ->)]; [done|].
  apply Forall_app_2; [done|]. constructor; [|done]. apply good_body_snoc.
  pose proof (inv_exec s0 es s1 H0 Hslots Hn Hs1) as Hinv. unfold inv in Hinv. rewrite Hph in Hinv.
  by eapply serialised_good.
Qed.

(** ** Start-up *)
Lemma primed_config now req status s :
  same_config (bidder s) (bidder (prime_performance_policy now req status s)) /\
  at_phase (prime_performance_policy now req status s) = at_phase s /\ sent (prime_performance_policy now req status s) = sent s
  /\ prover (prime_performance_policy now req status s) = prover s.
Proof.
  destruct req as [req|]; [|done]. unfold prime_performance_policy.
  assert (Hq : quiet (bidder s) (bidder (requirements_synced req s))) by apply quiet_requirements, quiet_refl.
  destruct status as [status|]; [|split; [by apply quiet_config|done]].
  destruct (status_synced_bidder now status (requirements_synced req s)) as (-> & -> & -> & ->).
  split; [|done]. by apply quiet_config, quiet_status.
Qed.

Lemma start_prices_config reply b b' : start_prices reply b = Ok b' -> same_config b b'.
Proof.
  unfold start_prices, prime_prove_usd_cache. repeat case_match; intros [= <-]; try done;
    apply quiet_config, quiet_price, quiet_refl.
Qed.

Lemma run_start_ok inp b0 s0 :
  (forall t, st_tick inp = inr t -> 0 <= t) -> run_start inp b0 = Ok (inr s0) ->
  at_phase s0 = Sleeping /\ sent s0 = [] /\ priced (bidder s0) /\ st_owner inp = inr (prover s0) /\
  b_bid_amount (bidder s0) = b_bid_amount b0 /\ b_cpu_worker_max_weights (bidder s0) = b_cpu_worker_max_weights b0.
Proof.
  intros Ht. unfold run_start. destruct (startup (st_tick inp) b0) as [[|b]| | |] eqn:Hst; try done.
  assert (b_bid_amount b = b_bid_amount b0 /\ b_cpu_worker_max_weights b = b_cpu_worker_max_weights b0) as [<- <-].
  { unfold startup in Hst. repeat case_match; by simplify_eq. }
  apply startup_priced in Hst; [|done]. destruct (start_prices (st_price inp) b) as [b1| | |] eqn:Hsp; try done.
  apply start_prices_config in Hsp. destruct (st_owner inp) as [|owner]; [done|]. destruct (_ =? 20); [|done].
  intros [= <-]. destruct (primed_config (st_now inp) (st_requirements inp) (st_status inp) (mkProcess b1 owner Sleeping no_metrics [] []))
    as (Hc & -> & -> & ->). cbn [bidder] in Hc. rewrite (sc_bid _ _ Hc), (sc_weights _ _ Hc), (sc_bid _ _ Hsp), (sc_weights _ _ Hsp).
  repeat (split; [done|]). split; [|done]. by do 2 (eapply priced_config; [done|]).
Qed.

(** The weights [main] accepts are positive, so the capacity is. *)
Lemma parse_weights_positive value ws : parse_weights value = inr ws -> ws <> [] /\ Forall (fun w => 0 < w) ws.
Proof.
  unfold parse_weights. destruct (mapM _ _) as [ws'|]; [|done]. destruct (negb _ && _) eqn:Hc; [|done]. intros [= <-].
  apply andb_prop in Hc as [Hne%negb_true_iff%bool_decide_eq_false Hall]. split; [done|].
  apply Forall_forall. intros w Hw. rewrite forallb_forall in Hall. by apply Z.ltb_lt, Hall, list_elem_of_In.
Qed.

(** C23. Every bid the process sends is one the operator and the requester allow: from
    the settings on, through any interleaving of passes, refreshes and bids, a body that
    is sent names the prover's owner and a listed request, its amount is positive,
    between the requester's floor and ceiling and a multiple of the auction tick whenever
    the floor is, and outside aggressive mode its proof mode is one the operator
    enabled. *)
Theorem run_bids_sound cache pending (env : Environment) (b0 : Bidder) (inp : StartInput) (s0 s : process) (es : list event) :
  main_bidder cache pending env = inr b0 -> 0 <= b_bid_amount b0 ->
  controller_slots (b_cpu_worker_max_weights b0) < 2 ^ 32 - REQUEST_LIMIT ->
  (forall t, st_tick inp = inr t -> 0 <= t) -> run_start inp b0 = Ok (inr s0) ->
  Forall network_ok es -> exec es s0 = Some s ->
  st_owner inp = inr (prover s0) /\ Forall (good_body s0 es) (sent s).
Proof.
  intros Hmain Hamt Hslots Ht Hstart Hn He.
  destruct (run_start_ok inp b0 s0 Ht Hstart) as (Hph & Hsent & Hpr & Hown & Hbid & Hw). split; [done|].
  apply exec_sent; try done; [|by rewrite Hbid]. split; rewrite Hw; [|done].
  unfold main_bidder in Hmain. destruct (parse_weights _) as [|ws] eqn:Hws; [done|]. cbn in Hmain. simplify_eq.
  apply parse_weights_positive in Hws as [_ Hpos]. cbn.
  apply foldl_sat_add_ge; [done|]. eapply Forall_impl; [done|]. cbn. lia.
Qed.
End facts.

(** ** What start-up and the suspension log let through *)

(** The settings are not checked for it: a refresh interval of zero panics [run] before
    the first pass. *)
Lemma zero_refresh_interval_panics {E : BidEnv} inp b b1 bid :
  startup (st_tick inp) b = Ok (inr b1) -> b_usd_bid b1 = Some bid -> refresh_interval_secs bid = 0 ->
  run_start inp b = Panic.
Proof. intros Hs Hb Hr. unfold run_start, start_prices. by rewrite Hs, Hb, Hr. Qed.

(** A status that keeps naming a suspension already over is logged as an expiry at every
    poll, not once. *)
Lemma expired_suspension_logged_every_poll {E : BidEnv} now now' until s :
  0 < until -> until <= now -> until <= now' -> b_suspended_until (bidder s) = until ->
  logged (status_synced now' (inr (Some until)) (status_synced now (inr (Some until)) s)) =
    logged s ++ [LogExpired; LogExpired].
Proof.
  intros Hu Hn Hn' Hs. unfold status_synced, suspension_report. cbn [from_option id]. rewrite Hs.
  rewrite (proj2 (Z.ltb_ge now until) Hn), (proj2 (Z.ltb_lt 0 until) Hu). cbn -[Z.ltb].
  rewrite (proj2 (Z.ltb_ge now' until) Hn'), (proj2 (Z.ltb_lt 0 until) Hu). cbn. by rewrite <- app_assoc.
Qed.

(** ** A concrete process *)
#[local] Existing Instance demo_bid_env.
#[local] Existing Instance demo_bid_env_ok.

Definition demo_environment : Environment :=
  mkEnvironment 1 "1, 1" 10 None None None None (Some false) None None None None None None None.
Definition demo_settled : Bidder := new tt tt (settings_new demo_environment) [1; 1].
Definition demo_start : StartInput :=
  mkStart (inr 5) None (inr (replicate 20 7)) (Some (inl (Msg "down"))) (Some (inr None)) 90.
Definition demo_process : process :=
  mkProcess (set_b_tick_size 5 demo_settled) (replicate 20 7) Sleeping no_metrics [] [].

(** The pass of [demo_pass]; the prover is suspended while it runs, and the price and
    the requirements are refreshed before they are read. *)
Definition demo_events : list event :=
  [Begin 100;
   Listed (inr [demo_bid_request 1 Plonk; demo_bid_request 2 Groth16; demo_bid_request 3 OtherMode]);
   SyncStatus 101 (inr (Some 500)); Page (inr [demo_bid_request 9 OtherMode]); Lookup 0;
   Estimates (inl (Msg "down")); Reconcile 0; RefreshPrice (inr ("1.0", 99)); ReadPrice 100;
   SyncRequirements (inr None); Decide (fun _ => (100, 0)); NonceReply 0 (inr 7)].
Definition demo_body : BidRequestBody := mkBody 7 [2] 20 (replicate 20 7).
Definition demo_final : process :=
  mkProcess (set_b_suspended_until 500 (set_b_tick_size 5 demo_settled)) (replicate 20 7)
    (Joining demo_bids [Sent demo_body]) (set_suspended true no_metrics) [demo_body] [LogSuspended].

Lemma demo_exec : exec demo_events demo_process = Some demo_final.
Proof. vm_cast_no_check (@eq_refl (option process) (Some demo_final)). Qed.

Lemma demo_network : Forall network_ok demo_events.
Proof. repeat constructor; cbn; try done; unfold REQUEST_LIMIT; lia. Qed.

Lemma pass_serialisable_witness : serialised demo_process demo_events demo_final demo_bids.
Proof.
  apply (pass_serialisable demo_process demo_final demo_events demo_bids [Sent demo_body]).
  - reflexivity.
  - vm_compute. split; congruence.
  - apply demo_network.
  - apply demo_exec.
  - reflexivity.
Defined.

Lemma run_bids_sound_witness :
  sent demo_final = [demo_body] /\ st_owner demo_start = inr (prover demo_process) /\
  Forall (good_body demo_process demo_events) (sent demo_final).
Proof.
  split; [reflexivity|].
  apply (run_bids_sound (E := demo_bid_env) tt tt demo_environment demo_settled demo_start demo_process demo_final demo_events).
  - vm_cast_no_check (@eq_refl (result Bidder) (inr demo_settled)).
  - cbn. lia.
  - vm_compute. congruence.
  - by intros t [= <-].
  - vm_cast_no_check (@eq_refl (outcome (result process)) (Ok (inr demo_process))).
  - apply demo_network.
  - apply demo_exec.
Defined.
