(* ===== verification/RedisPermits.v ===== *)
(** * Shard permits of the Redis store

    The rest of [crates/artifact/src/redis.rs]: what [query_memory] reads out of the
    server's [INFO memory], the permit pool each node gets on first use, and
    [acquire_shard_permit] with any number of callers: they find the pool's cell empty and
    size it, wait their turn, hold a permit until it is dropped, or give up. *)
From Stdlib Require Import Ascii String SpecFloat.
From stdpp Require Import base gmap strings list pretty.
From S2P Require Import Prelude ApiStore ProgramStore GatewayIds Auth Redis.
Local Open Scope string_scope.
Local Open Scope list_scope.
Local Open Scope Z_scope.
Local Open Scope handler_scope.

Module Permits.
Import Redis.

(** ** INFO memory *)

(** [str::lines]: pieces between newlines, without a final carriage return, and no empty
    last piece. *)
Definition strip_cr (s : string) : string :=
  match reverse (as_bytes s) with
  | c :: b => if decide (c = chr 13) then of_bytes (reverse b) else s
  | [] => s
  end.
Definition lines (s : string) : list string :=
  let pieces := split (chr 10) s in
  strip_cr <$> match last pieces with Some EmptyString => removelast pieces | _ => pieces end.

Definition info_field (info key : string) : option Z :=
  head (omap (Auth.strip_prefix key) (lines info)) ≫= fun v => parse_uint u64 (trim v).

(** [query_memory] of the server's answer. *)
Definition query_memory (pool : result unit) (reply : result string) : result (option Z * option Z) :=
  match pool, reply with
  | inl e, _ => inl (Msg ("pool get: " +:+ error_text e))
  | _, inl e => inl (Msg ("INFO memory: " +:+ error_text e))
  | inr _, inr info => inr (info_field info "used_memory:", info_field info "maxmemory:")
  end.

Section client.
Context {Srv : RedisServer} {E : RedisEnv}.

(** [upload_raw_compressed]: [upload_raw] without the compression. *)
Definition upload_raw_compressed (admission : result unit) (fs : list Faults) (n : nat) (ks : Keyspace)
    (program : bool) (id : string) (data : bytes) : Keyspace * result unit :=
  upload_to_transport admission fs n ks program id data.

(** [reclaim_staging]: nothing when no connection is to be had, an error only logged. *)
Definition reclaim_staging (pool : result unit) (r : Reply) (ks : Keyspace) (staging : string) : Keyspace :=
  match pool with
  | inl _ => ks
  | inr _ => fst (send r ks (fun ks => (unlink ks staging, inr tt)))
  end.

(** ** The permit pools *)

(** [tokio::sync::Semaphore::new] panics above this. *)
Definition MAX_PERMITS : Z := 2 ^ 61 - 1.

(** A node's cell and semaphore: its size once the cell is set, the free permits, and
    the callers queued for one, first come first. *)
Record NodeSem := mkSem { size_of : option Z; available : Z; queue : list nat }.

(** A caller of [acquire_shard_permit]: at the node's cell, in the queue, with its
    permit, with a no-op permit (a client without nodes), or through. *)
Inductive caller := AtCell (idx : nat) | Queued (idx : nat) | Holding (idx : nat) | NoopPermit | Dropped | Panicked.

Record Client := mkClient { sems : list NodeSem; callers : list caller }.

(** [RedisArtifactClient::new]: one empty cell per node. *)
Definition new_client (num_nodes : nat) : Client := mkClient (replicate num_nodes (mkSem None 0 [])) [].

Inductive permit_event :=
  | Call (id : string)
  | InitCell (t : nat) (query : result (option Z * option Z))
  | EnterQueue (t : nat)
  | Grant (t : nat)
  | DropPermit (t : nat)
  | Cancel (t : nat).

Definition set_caller (t : nat) (c : caller) (s : Client) : Client := mkClient (sems s) (<[t := c]> (callers s)).
Definition set_sem (idx : nat) (n : NodeSem) (s : Client) : Client := mkClient (<[idx := n]> (sems s)) (callers s).

(** [node_semaphore] runs its initialiser only on an empty cell; [Grant] hands the next
    permit to the head of the queue. *)
Definition permit_step (e : permit_event) (s : Client) : option Client :=
  match e with
  | Call id =>
      Some (mkClient (sems s) (callers s ++
        [match get_connection_idx id (length (sems s)) with None => NoopPermit | Some idx => AtCell idx end]))
  | InitCell t query =>
      match callers s !! t with
      | Some (AtCell idx) =>
          match sems s !! idx with
          | Some (mkSem None _ _) =>
              let permits := compute_permits_for_node query in
              Some (if MAX_PERMITS <? permits then set_caller t Panicked s
                    else set_sem idx (mkSem (Some permits) permits []) s)
          | _ => None
          end
      | _ => None
      end
  | EnterQueue t =>
      match callers s !! t with
      | Some (AtCell idx) =>
          match sems s !! idx with
          | Some (mkSem (Some n) free q) => Some (set_caller t (Queued idx) (set_sem idx (mkSem (Some n) free (q ++ [t])) s))
          | _ => None
          end
      | _ => None
      end
  | Grant t =>
      match callers s !! t with
      | Some (Queued idx) =>
          match sems s !! idx with
          | Some (mkSem n free (t' :: q)) =>
              if decide (t' = t /\ 0 < free)
              then Some (set_caller t (Holding idx) (set_sem idx (mkSem n (free - 1) q) s)) else None
          | _ => None
          end
      | _ => None
      end
  | DropPermit t =>
      match callers s !! t with
      | Some (Holding idx) =>
          match sems s !! idx with
          | Some (mkSem n free q) => Some (set_caller t Dropped (set_sem idx (mkSem n (free + 1) q) s))
          | None => None
          end
      | Some NoopPermit => Some (set_caller t Dropped s)
      | _ => None
      end
  | Cancel t =>
      match callers s !! t with
      | Some (AtCell _) => Some (set_caller t Dropped s)
      | Some (Queued idx) =>
          match sems s !! idx with
          | Some (mkSem n free q) =>
              Some (set_caller t Dropped (set_sem idx (mkSem n free (filter (fun x => x <> t) q)) s))
          | None => None
          end
      | _ => None
      end
  end.

Inductive permits_reachable (num_nodes : nat) : Client -> Prop :=
  | permits_new : permits_reachable num_nodes (new_client num_nodes)
  | permits_next e s s' : permits_reachable num_nodes s -> permit_step e s = Some s' -> permits_reachable num_nodes s'.
End client.
End Permits.
