(* ===== verification/RedisPermitsProps.v ===== *)
(** * Shard permits of the Redis store: properties

    The permits of a node are never over-issued, whatever the callers do, the callers
    waiting for one are served in turn, and what [query_memory] reads is what the server
    wrote. *)
From Stdlib Require Import Ascii String SpecFloat.
From stdpp Require Import base gmap strings list pretty.
From S2P Require Import Prelude ApiStore ProgramStore GatewayIds GatewayFacts Auth Redis RedisFacts RedisProps RedisPermits.
Local Open Scope string_scope.
Local Open Scope list_scope.
Local Open Scope Z_scope.
Import Redis Permits.

#[export] Instance caller_eq_dec : EqDecision caller.
Proof. solve_decision. Defined.

Section facts.
Context {Srv : RedisServer} {E : RedisEnv}.

(** The live permits of a node. *)
Definition held_at (idx : nat) (c : caller) : Z := if decide (c = Holding idx) then 1 else 0.
Definition holders (idx : nat) (s : Client) : Z := list_Zsum (held_at idx) (callers s).
#[local] Arguments holders : simpl never.

Lemma holders_nonneg idx s : 0 <= holders idx s.
Proof. apply list_Zsum_nonneg. intros c _. unfold held_at. case_decide; lia. Qed.

Lemma holders_set idx s t c0 c :
  callers s !! t = Some c0 -> holders idx (set_caller t c s) = holders idx s - held_at idx c0 + held_at idx c.
Proof. apply list_Zsum_insert. Qed.

Definition sem_ok (idx : nat) (s : Client) (sem : NodeSem) : Prop :=
  match size_of sem with
  | None => available sem = 0 /\ queue sem = [] /\ holders idx s = 0
  | Some n => (exists query, n = compute_permits_for_node query) /\ 0 <= available sem /\ available sem + holders idx s = n
  end /\
  NoDup (queue sem) /\ forall t, t ∈ queue sem <-> callers s !! t = Some (Queued idx).

Definition permits_ok (s : Client) : Prop := forall idx sem, sems s !! idx = Some sem -> sem_ok idx s sem.

Definition touches (c : caller) (idx : nat) : Prop := c = Queued idx \/ c = Holding idx.

(** A caller that has nothing to do with the node, before and after. *)
Lemma sem_ok_caller idx s t c0 c sem :
  callers s !! t = Some c0 -> ~ touches c0 idx -> ~ touches c idx -> sem_ok idx s sem -> sem_ok idx (set_caller t c s) sem.
Proof.
  unfold touches, sem_ok. intros Ht H0 H1 (Hs & Hnd & Hq).
  assert (holders idx (set_caller t c s) = holders idx s) as ->.
  { rewrite (holders_set idx s t c0 c Ht). unfold held_at. rewrite !decide_False by tauto. lia. }
  split; [done|]. split; [done|]. intros t'. rewrite Hq. cbn. pose proof (lookup_lt_Some _ _ _ Ht).
  destruct (decide (t' = t)) as [->|Hne]; [|by rewrite list_lookup_insert_ne].
  rewrite list_lookup_insert_eq by done. rewrite Ht. naive_solver.
Qed.

(** The step of one caller at one node: the other nodes keep what they had. *)
Lemma permits_ok_at s t c0 c idx sem' :
  permits_ok s -> callers s !! t = Some c0 ->
  (forall idx', idx' <> idx -> ~ touches c0 idx' /\ ~ touches c idx') ->
  sem_ok idx (set_caller t c s) sem' -> permits_ok (set_caller t c (set_sem idx sem' s)).
Proof.
  intros Hok Ht Hoth Hnew idx' sem Hs. cbn in Hs. destruct (decide (idx' = idx)) as [->|Hne].
  - assert (idx < length (sems s))%nat by (apply lookup_lt_Some in Hs; by rewrite length_insert in Hs).
    rewrite list_lookup_insert_eq in Hs by done. by simplify_eq.
  - rewrite list_lookup_insert_ne in Hs by done. destruct (Hoth idx' Hne).
    by apply (sem_ok_caller idx' s t c0 c); [..|apply Hok].
Qed.

Lemma permits_at_least query : MIN_PERMITS_PER_NODE <= compute_permits_for_node query.
Proof.
  unfold compute_permits_for_node. destruct query as [e|[used [m|]]]; try done. destruct (decide (0 < m)); [|done].
  apply Z.le_max_r.
Qed.
Lemma init_ok s idx free q query :
  permits_ok s -> sems s !! idx = Some (mkSem None free q) ->
  permits_ok (set_sem idx (mkSem (Some (compute_permits_for_node query)) (compute_permits_for_node query) []) s).
Proof.
  intros Hok Hs idx' sem Hs'. pose proof (permits_at_least query) as Hp. unfold MIN_PERMITS_PER_NODE in Hp. cbn in Hs'. destruct (decide (idx' = idx)) as [->|Hne].
  - pose proof (lookup_lt_Some _ _ _ Hs). rewrite list_lookup_insert_eq in Hs' by done. simplify_eq.
    destruct (Hok _ _ Hs) as ((_ & Hq0 & Hh) & Hnd & Hq). cbn in Hq0. subst q. split; [|done]. cbn. split; [by eexists|].
    change (holders idx (set_sem idx _ s)) with (holders idx s). lia.
  - rewrite list_lookup_insert_ne in Hs' by done. by apply Hok.
Qed.


Lemma enter_ok s t idx n free q :
  permits_ok s -> callers s !! t = Some (AtCell idx) -> sems s !! idx = Some (mkSem (Some n) free q) ->
  sem_ok idx (set_caller t (Queued idx) s) (mkSem (Some n) free (q ++ [t])).
Proof.
  intros Hok Ht Hs. destruct (Hok _ _ Hs) as ((Hq0 & Hf & Hsum) & Hnd & Hq). cbn in *.
  assert (Hnew : t ∉ q) by (rewrite Hq, Ht; congruence).
  split; [|split]; cbn.
  - rewrite (holders_set _ _ _ _ _ Ht). unfold held_at. rewrite !decide_False by done. split; [done|]. lia.
  - apply NoDup_app. split; [done|]. split; [set_solver|apply NoDup_singleton].
  - intros t'. rewrite elem_of_app, list_elem_of_singleton, Hq. pose proof (lookup_lt_Some _ _ _ Ht).
    destruct (decide (t' = t)) as [->|Hne]; [rewrite list_lookup_insert_eq by done; tauto|].
    rewrite list_lookup_insert_ne by done. tauto.
Qed.

Lemma grant_ok s t idx n free q :
  permits_ok s -> callers s !! t = Some (Queued idx) -> sems s !! idx = Some (mkSem n free (t :: q)) -> 0 < free ->
  sem_ok idx (set_caller t (Holding idx) s) (mkSem n (free - 1) q).
Proof.
  intros Hok Ht Hs Hfree. destruct (Hok _ _ Hs) as (Hn & Hnd & Hq). cbn in *.
  destruct n as [n|]; [|by destruct Hn as (_ & ? & _)]. destruct Hn as (Hq0 & Hf & Hsum).
  apply NoDup_cons in Hnd as [Hnew Hnd]. split; [|split]; cbn; [|done|].
  - rewrite (holders_set _ _ _ _ _ Ht). unfold held_at. rewrite decide_False, decide_True by done. split; [done|]. lia.
  - intros t'. pose proof (lookup_lt_Some _ _ _ Ht).
    destruct (decide (t' = t)) as [->|Hne]; [rewrite list_lookup_insert_eq by done; naive_solver|].
    rewrite list_lookup_insert_ne by done. rewrite <- Hq. set_solver.
Qed.

Lemma drop_ok s t idx n free q :
  permits_ok s -> callers s !! t = Some (Holding idx) -> sems s !! idx = Some (mkSem n free q) ->
  sem_ok idx (set_caller t Dropped s) (mkSem n (free + 1) q).
Proof.
  intros Hok Ht Hs. destruct (Hok _ _ Hs) as (Hn & Hnd & Hq). cbn in *.
  assert (Hpos : 1 <= holders idx s).
  { pose proof (holders_nonneg idx (set_caller t Dropped s)) as H. rewrite (holders_set _ _ _ _ _ Ht) in H.
    unfold held_at in H. rewrite decide_True, decide_False in H by done. lia. }
  destruct n as [n|]; [|lia]. destruct Hn as (Hq0 & Hf & Hsum). split; [|split]; cbn; [|done|].
  - rewrite (holders_set _ _ _ _ _ Ht). unfold held_at. rewrite decide_True, decide_False by done. split; [done|]. lia.
  - intros t'. rewrite Hq. pose proof (lookup_lt_Some _ _ _ Ht).
    destruct (decide (t' = t)) as [->|Hne]; [rewrite list_lookup_insert_eq, Ht by done; naive_solver|].
    by rewrite list_lookup_insert_ne.
Qed.

Lemma cancel_permit_ok s t idx n free q :
  permits_ok s -> callers s !! t = Some (Queued idx) -> sems s !! idx = Some (mkSem n free q) ->
  sem_ok idx (set_caller t Dropped s) (mkSem n free (filter (fun x => x <> t) q)).
Proof.
  intros Hok Ht Hs. destruct (Hok _ _ Hs) as (Hn & Hnd & Hq). cbn in *.
  assert (Hin : t ∈ q) by by apply Hq.
  assert (Hh : holders idx (set_caller t Dropped s) = holders idx s).
  { rewrite (holders_set _ _ _ _ _ Ht). unfold held_at. rewrite !decide_False by done. lia. }
  split; [|split]; cbn.
  - rewrite Hh. destruct n as [n|]; [done|]. destruct Hn as (_ & -> & _). set_solver.
  - by apply NoDup_filter.
  - intros t'. rewrite list_elem_of_filter, Hq. pose proof (lookup_lt_Some _ _ _ Ht).
    destruct (decide (t' = t)) as [->|Hne]; [rewrite list_lookup_insert_eq by done; naive_solver|].
    rewrite list_lookup_insert_ne by done. tauto.
Qed.

Lemma permit_step_ok e s s' : permits_ok s -> permit_step e s = Some s' -> permits_ok s'.
Proof.
  intros Hok. destruct e; cbn [permit_step].
  - intros [= <-] idx sem Hs. destruct (Hok _ _ Hs) as (Hn & Hnd & Hq). cbn in Hs.
    set (c := match get_connection_idx _ _ with None => _ | _ => _ end).
    assert (Hc : ~ touches c idx) by (unfold c, touches; destruct (get_connection_idx _ _); naive_solver).
    assert (Hh : holders idx (mkClient (sems s) (callers s ++ [c])) = holders idx s).
    { unfold holders. cbn [callers]. rewrite list_Zsum_app. unfold touches in Hc. unfold list_Zsum at 2. cbn [foldr].
      unfold held_at at 2. rewrite decide_False by tauto. lia. }
    split; [by rewrite Hh|]. split; [done|]. intros t. rewrite Hq. cbn. destruct (decide (t < length (callers s))%nat).
    + by rewrite lookup_app_l.
    + rewrite lookup_app_r, (lookup_ge_None_2 (callers s)) by lia. split; [done|].
      intros [_ ->]%list_lookup_singleton_Some. by destruct Hc; left.
  - destruct (callers s !! t) as [[]|] eqn:Ht; try done. destruct (sems s !! idx) as [[[n|] free q]|] eqn:Hs; try done.
    case_match; intros [= <-]; [|by eapply init_ok].
    intros idx' sem Hs'. by apply (sem_ok_caller idx' s t (AtCell idx)); [done|unfold touches; naive_solver..|apply Hok].
  - destruct (callers s !! t) as [[]|] eqn:Ht; try done. destruct (sems s !! idx) as [[[n|] free q]|] eqn:Hs; try done.
    intros [= <-]. eapply permits_ok_at; [done|done| |by apply enter_ok]. intros idx' Hne. unfold touches. naive_solver.
  - destruct (callers s !! t) as [[]|] eqn:Ht; try done. destruct (sems s !! idx) as [[n free [|t' q]]|] eqn:Hs; try done.
    case_decide as Hd; [|done]. destruct Hd as [-> Hfree]. intros [= <-].
    eapply permits_ok_at; [done|done| |by apply grant_ok]. intros idx' Hne. unfold touches. naive_solver.
  - destruct (callers s !! t) as [[]|] eqn:Ht; try done.
    + destruct (sems s !! idx) as [[n free q]|] eqn:Hs; [|done]. intros [= <-].
      eapply permits_ok_at; [done|done| |by apply drop_ok]. intros idx' Hne. unfold touches. naive_solver.
    + intros [= <-] idx' sem Hs'. by apply (sem_ok_caller idx' s t NoopPermit); [done|unfold touches; naive_solver..|apply Hok].
  - destruct (callers s !! t) as [[]|] eqn:Ht; try done.
    + intros [= <-] idx' sem Hs'. by apply (sem_ok_caller idx' s t (AtCell idx)); [done|unfold touches; naive_solver..|apply Hok].
    + destruct (sems s !! idx) as [[n free q]|] eqn:Hs; [|done]. intros [= <-].
      eapply permits_ok_at; [done|done| |by apply cancel_permit_ok]. intros idx' Hne. unfold touches. naive_solver.
Qed.

Lemma permits_reachable_ok num s : permits_reachable num s -> permits_ok s.
Proof.
  induction 1 as [|e s s' _ IH Hs]; [|by eapply permit_step_ok].
  intros idx sem [-> _]%lookup_replicate. split; [done|]. split; [constructor|]. intros t. cbn. set_solver.
Qed.

Lemma max_shard_bytes_pos : 0 < max_shard_bytes.
Proof. unfold max_shard_bytes, DEFAULT_SHARD_MAX_BYTES. repeat case_match; lia. Qed.

(** What one permit stands for, summed, stays within the input budget or the floor. *)
Lemma permits_within_budget used m n :
  0 < m -> 0 <= n <= compute_permits_for_node (inr (used, Some m)) ->
  n * max_shard_bytes <= Z.max (input_budget m) (MIN_PERMITS_PER_NODE * max_shard_bytes).
Proof.
  intros Hm. unfold compute_permits_for_node. rewrite decide_True by done. intros [Hn Hle].
  pose proof max_shard_bytes_pos as Hb. pose proof (Z.mul_div_le (input_budget m) max_shard_bytes Hb).
  destruct (Z.max_spec (input_budget m / max_shard_bytes) MIN_PERMITS_PER_NODE) as [[_ Hx]|[_ Hx]]; rewrite Hx in Hle; nia.
Qed.

(** A pool that has its size keeps it. *)
Lemma permit_size_stable e s s' idx sem n :
  permit_step e s = Some s' -> sems s !! idx = Some sem -> size_of sem = Some n ->
  exists sem', sems s' !! idx = Some sem' /\ size_of sem' = Some n.
Proof.
  intros Hs Hi Hn. pose proof (lookup_lt_Some _ _ _ Hi) as Hlt.
  assert (Hset : forall i sem0, (i = idx -> size_of sem0 = Some n) ->
    exists sem', <[i := sem0]> (sems s) !! idx = Some sem' /\ size_of sem' = Some n).
  { intros i sem0 H. destruct (decide (i = idx)) as [->|Hne];
      [rewrite list_lookup_insert_eq by done; eauto|rewrite list_lookup_insert_ne by done; eauto]. }
  destruct e; cbn [permit_step] in Hs; repeat case_match; simplify_eq; cbn; try (by eauto); apply Hset; intros ->;
    simplify_eq/=; done.
Qed.

End facts.

(** ** What the server wrote is what is read *)

(** The two lines of [INFO memory] among the others, as Redis ends its lines. *)
Definition info_line (kv : string * string) : string := kv.1 +:+ ":" +:+ kv.2 +:+ of_bytes [chr 13; chr 10].
Definition info_text (fields : list (string * string)) : string := foldr (fun kv s => info_line kv +:+ s) "" fields.


Definition plain (s : string) : Prop := chr 10 ∉ as_bytes s /\ chr 13 ∉ as_bytes s.

Lemma split_line a b : chr 10 ∉ as_bytes a -> split (chr 10) (a +:+ String (chr 10) b) = a :: split (chr 10) b.
Proof.
  induction a as [|c a IH]; intros Ha.
  - change ("" +:+ String (chr 10) b) with (String (chr 10) b). cbn [split]. by rewrite decide_True.
  - change (String c a +:+ String (chr 10) b) with (String c (a +:+ String (chr 10) b)). cbn [split].
    apply not_elem_of_cons in Ha as [Hc Ha]. by rewrite decide_False, IH.
Qed.

Lemma strip_cr_line a : strip_cr (a +:+ String (chr 13) "") = a.
Proof.
  unfold strip_cr. rewrite as_bytes_app. change (as_bytes (String (chr 13) "")) with [chr 13].
  rewrite reverse_snoc. cbn iota. by rewrite decide_True, reverse_involutive, of_bytes_as_bytes by done.
Qed.
Definition info_piece (kv : string * string) : string := kv.1 +:+ ":" +:+ kv.2.

Lemma split_info fields :
  Forall (fun kv => plain kv.1 /\ plain kv.2) fields ->
  split (chr 10) (info_text fields) = ((fun kv => info_piece kv +:+ String (chr 13) "") <$> fields) ++ [""].
Proof.
  induction 1 as [|kv fields [[Hk _] [Hv _]] _ IH]; [done|]. cbn [info_text foldr fmap list_fmap app].
  fold (info_text fields). rewrite <- IH. rewrite <- (split_line (info_piece kv +:+ String (chr 13) "")).
  - f_equal. unfold info_line, info_piece. cbn [of_bytes]. by rewrite !app_string_assoc.
  - unfold info_piece. rewrite !as_bytes_app, !not_elem_of_app. cbn. repeat split; try done; set_solver.
Qed.

Lemma lines_info fields :
  Forall (fun kv => plain kv.1 /\ plain kv.2) fields -> lines (info_text fields) = info_piece <$> fields.
Proof.
  intros H. unfold lines. rewrite (split_info fields H), last_snoc, removelast_last, <- list_fmap_compose.
  apply list_fmap_ext. intros i kv _. apply strip_cr_line.
Qed.

Lemma strip_prefix_key key k v :
  ":"%char ∉ as_bytes key -> ":"%char ∉ as_bytes k ->
  Auth.strip_prefix (key +:+ ":") (k +:+ ":" +:+ v) = if decide (k = key) then Some v else None.
Proof.
  revert k. induction key as [|c key IH]; intros [|d k] Hkey Hk.
  - done.
  - apply not_elem_of_cons in Hk as [Hd Hk]. rewrite (decide_False (P := String d k = "")) by done.
    change (Auth.strip_prefix _ _) with (if decide (":"%char = d) then Auth.strip_prefix "" (k +:+ ":" +:+ v) else None).
    by rewrite decide_False.
  - apply not_elem_of_cons in Hkey as [Hc Hkey]. rewrite (decide_False (P := "" = String c key)) by done.
    change (Auth.strip_prefix _ _) with (if decide (c = ":"%char) then Auth.strip_prefix (key +:+ ":") v else None).
    by rewrite decide_False.
  - apply not_elem_of_cons in Hk as [Hd Hk]. apply not_elem_of_cons in Hkey as [Hc Hkey].
    change (String c key +:+ ":") with (String c (key +:+ ":")). change (String d k +:+ ":" +:+ v) with (String d (k +:+ ":" +:+ v)).
    cbn [Auth.strip_prefix]. destruct (decide (c = d)) as [->|Hne].
    + rewrite IH by done. destruct (decide (k = key)) as [->|Hne]; [by rewrite decide_True|]. rewrite decide_False; congruence.
    + rewrite decide_False; congruence.
Qed.

(** A field of [INFO memory] is read as the server wrote it: the value of the first line
    with exactly that name, whatever names share a prefix with it. *)
Theorem info_field_exact fields key :
  Forall (fun kv => plain kv.1 /\ plain kv.2 /\ ":"%char ∉ as_bytes kv.1) fields -> ":"%char ∉ as_bytes key ->
  info_field (info_text fields) (key +:+ ":") =
    match list_find (fun kv => kv.1 = key) fields with Some (_, kv) => parse_uint u64 (trim kv.2) | None => None end.
Proof.
  intros Hf Hkey. unfold info_field. rewrite lines_info.
  2: { eapply Forall_impl; [done|]. naive_solver. }
  induction Hf as [|kv fields (_ & _ & Hk) _ IH]; [done|]. cbn [fmap list_fmap omap list_omap list_find].
  unfold info_piece at 1. rewrite strip_prefix_key by done. destruct (decide (kv.1 = key)) as [Hx|Hx]; [done|].
  rewrite IH. by destruct (list_find _ fields) as [[]|].
Qed.

(** ** A concrete node

    Four hundred megabytes make nine permits; two callers, of whom the first has its
    permit and the second is next. *)
Definition demo_events : list permit_event :=
  [Call "a"; Call "b"; InitCell 0 (inr (Some 0, Some 400000000)); EnterQueue 0; EnterQueue 1; Grant 0].
Definition demo_client : Client := mkClient [mkSem (Some 9) 8 [1%nat]] [Holding 0; Queued 0].

Lemma demo_client_reachable : permits_reachable (E := demo_redis) 1 demo_client.
Proof.
  assert (Hrun : foldl (fun s e => s ≫= permit_step (E := demo_redis) e) (Some (new_client 1)) demo_events = Some demo_client)
    by (vm_compute; reflexivity).
  revert Hrun. generalize demo_events as es. intros es.
  assert (forall s0, permits_reachable (E := demo_redis) 1 s0 ->
    foldl (fun s e => s ≫= permit_step (E := demo_redis) e) (Some s0) es = Some demo_client ->
    permits_reachable (E := demo_redis) 1 demo_client) as H.
  { induction es as [|e es IH]; intros s0 H0; cbn [foldl mbind option_bind]; [by intros [= <-]|].
    destruct (permit_step e s0) as [s1|] eqn:Hs; [apply IH; by econstructor|].
    clear. induction es as [|e' es IH]; [done|apply IH]. }
  apply H. constructor.
Qed.

