(* ===== verification/Servers.v ===== *)
(** * Two servers and their supervisor

    The gateway ([bin/network-gateway/src/lib.rs], [serve]) and the API
    ([bin/api/src/lib.rs], [run]) end the same way: a gRPC server in a spawned task, whose
    error is only logged, and an HTTP server awaited in place, whose errors return. Then
    the gRPC task is joined. The two bind, serve and stop in any order. *)
From stdpp Require Import base list.
From S2P Require Import Prelude.

Module Servers.
Section servers.
Context {W Rpc Http : Type} (serve_rpc : Rpc -> W -> W) (serve_http : Http -> W -> W).

Inductive server := Binding | Listening | Down.

(** [v_returned] is what the supervising function has returned. *)
Record servers := mkServers {
  v_world : W;
  v_grpc : server;
  v_http : server;
  v_returned : option (result unit);
}.

(** Right after the gRPC task is spawned. *)
Definition spawned (w : W) : servers := mkServers w Binding Binding None.

Inductive event :=
  | GrpcBound (r : result unit)
  | HttpBound (r : result unit)
  | ServeRpc (r : Rpc)
  | ServeHttp (r : Http)
  | GrpcStops
  | HttpStops (r : result unit)
  | GrpcJoined.

Definition set_world (w : W) (p : servers) : servers := mkServers w (v_grpc p) (v_http p) (v_returned p).
Definition set_grpc (x : server) (p : servers) : servers := mkServers (v_world p) x (v_http p) (v_returned p).

(** [None] where the event cannot happen. *)
Definition step (e : event) (p : servers) : option servers :=
  match e with
  | GrpcBound r =>
      match v_grpc p with
      | Binding => Some (set_grpc (if r is inr _ then Listening else Down) p)
      | _ => None
      end
  | HttpBound r =>
      match v_http p with
      | Binding =>
          Some (match r with
                | inr _ => mkServers (v_world p) (v_grpc p) Listening None
                | inl e => mkServers (v_world p) (v_grpc p) Down (Some (inl e))
                end)
      | _ => None
      end
  | ServeRpc r =>
      match v_grpc p with
      | Listening => Some (set_world (serve_rpc r (v_world p)) p)
      | _ => None
      end
  | ServeHttp r =>
      match v_http p with
      | Listening => Some (set_world (serve_http r (v_world p)) p)
      | _ => None
      end
  | GrpcStops => match v_grpc p with Listening => Some (set_grpc Down p) | _ => None end
  | HttpStops r =>
      match v_http p with
      | Listening =>
          Some (mkServers (v_world p) (v_grpc p) Down (match r with inr _ => None | inl e => Some (inl e) end))
      | _ => None
      end
  | GrpcJoined =>
      match v_http p, v_grpc p, v_returned p with
      | Down, Down, None => Some (mkServers (v_world p) Down Down (Some (inr tt)))
      | _, _, _ => None
      end
  end.

(** Runs: [event_ok] restricts what the clients send, [outside] is what others do to the
    world. *)
Context (event_ok : event -> W -> Prop) (outside : W -> W -> Prop).

Inductive reachable (p0 : servers) : servers -> Prop :=
  | started : reachable p0 p0
  | moved e p p' : reachable p0 p -> event_ok e (v_world p) -> step e p = Some p' -> reachable p0 p'
  | elsewhere p w : reachable p0 p -> outside (v_world p) w -> reachable p0 (set_world w p).

(** What the requests served and the others keep, a run keeps. *)
Lemma reachable_world (I : W -> Prop) p0 p :
  (forall r w, event_ok (ServeRpc r) w -> I w -> I (serve_rpc r w)) ->
  (forall r w, event_ok (ServeHttp r) w -> I w -> I (serve_http r w)) ->
  (forall w w', outside w w' -> I w -> I w') ->
  I (v_world p0) -> reachable p0 p -> I (v_world p).
Proof.
  intros Hrpc Hhttp Hout H0. induction 1 as [|e p p' _ IH Hok Hs|p w _ IH Ho]; [done| |by eapply Hout].
  destruct e; cbn [step] in Hs; repeat case_match; simplify_eq/=; auto.
Qed.

(** When the supervisor returns without an error both servers are down and nothing is
    left to do. *)
Theorem clean_return_is_final (p0 p : servers) :
  v_returned p0 = None -> reachable p0 p -> v_returned p = Some (inr tt) ->
  v_grpc p = Down /\ v_http p = Down /\ forall e, step e p = None.
Proof.
  intros H0 Hr Hret.
  assert (Hd : v_grpc p = Down /\ v_http p = Down).
  { revert Hret. induction Hr as [|e p p' _ IH _ Hs|p w _ IH _]; [by rewrite H0| |exact IH].
    destruct e; cbn [step] in Hs; repeat case_match; simplify_eq/=; intros Hret; try done;
      destruct (IH Hret); congruence. }
  destruct Hd as [Hg Hh]. split; [done|]. split; [done|]. intros []; cbn [step]; by rewrite ?Hg, ?Hh, ?Hret.
Qed.

(** An HTTP address that cannot be bound returns the error while the spawned gRPC task
    goes on: it binds, and serves. *)
Theorem failed_http_bind_leaves_grpc (w : W) (e : Error) (r : Rpc) :
  (forall r, event_ok (GrpcBound r) w) -> (forall r, event_ok (HttpBound r) w) ->
  exists p, reachable (spawned w) p /\ v_returned p = Some (inl e) /\
    step (ServeRpc r) p = Some (set_world (serve_rpc r w) p).
Proof.
  intros Hg Hh. exists (mkServers w Listening Down (Some (inl e))). split; [|done].
  apply (moved _ (GrpcBound (inr tt)) (mkServers w Binding Down (Some (inl e)))); [|apply Hg|done].
  by apply (moved _ (HttpBound (inl e)) (spawned w)); [constructor|apply Hh|].
Qed.

(** A gRPC server that could not bind does not stop the HTTP server. *)
Lemma http_serves_without_grpc (w : W) (e : Error) (r : Http) :
  (forall r, event_ok (GrpcBound r) w) -> (forall r, event_ok (HttpBound r) w) ->
  exists p, reachable (spawned w) p /\ v_grpc p = Down /\ v_returned p = None /\
    step (ServeHttp r) p = Some (set_world (serve_http r w) p).
Proof.
  intros Hg Hh. exists (mkServers w Down Listening None). split; [|done].
  apply (moved _ (HttpBound (inr tt)) (mkServers w Down Binding None)); [|apply Hh|done].
  by apply (moved _ (GrpcBound (inl e)) (spawned w)); [constructor|apply Hg|].
Qed.
End servers.
Arguments servers : clear implicits.
Arguments event : clear implicits.
End Servers.
