(* ===== verification/Daemon.v ===== *)
(** * The coordinator's process

    [bin/coordinator/src/util.rs], [config.rs], [latency.rs] and the start of [server.rs]:
    the middleware in front of the gRPC service, the settings, what
    [start_coordinator_server_custom] builds and spawns, the two loops it leaves running,
    and the future that ends with the server, the shutdown signal or the metrics server.
    Requests, the service's own tasks, the claimer, the two loops and the signal
    interleave freely; a round of the periodic loop takes and releases the state lock
    several times. *)
From Stdlib Require Import Ascii.
From stdpp Require Import base gmap strings list.
From S2P Require Import Prelude Proto TaskChannel CoordState Coordinator AssignSpec Capacity CoordInv CoordSteps Reach Server Auth.
Local Open Scope string_scope.
Local Open Scope list_scope.
Local Open Scope Z_scope.
Local Open Scope handler_scope.

Module Daemon.
Import Serve.

(** ** Latencies *)

(** [(min, max, sum, count)] in nanoseconds. *)
Abbreviation LatencyRecord := (Z * Z * Z * Z)%type.

(** [record_latency] with [ENABLE_LATENCY_DEBUG] on. *)
Definition record_latency (kind : string) (nanos : Z) (state : gmap string LatencyRecord) : gmap string LatencyRecord :=
  match state !! kind with
  | Some (mn, mx, sum, count) =>
      <[kind := (Z.min mn nanos, Z.max mx nanos, Int.wadd u128 sum nanos, Int.wadd u64 count 1)]> state
  | None => <[kind := (nanos, nanos, nanos, 1)]> state
  end.

(** A line of [display_latency]: the division panics on a count of zero. *)
Definition display_line (r : LatencyRecord) : outcome (Z * Z * Z * Z) :=
  let '(mn, mx, sum, count) := r in
  if count =? 0 then Panic else Ok (mn, mx, sum / count, count).

Section daemon.
Context `{E : ClusterEnv} {PT : PolicyTypes} {AP : AssignmentPolicy} {MC : MetadataCodec} {WL : WebLayer}.

(** [estimate_gpu_duration]: milliseconds; a negative count is a large [u32], and
    [Duration] panics past [u64::MAX] seconds. *)
Definition DURATION_MAX_MS : Z := Int.umax u64 * 1000 + 999.
Fixpoint estimate_gpu_duration (task_counts : list (TaskType * Z)) (total : Z) : outcome Z :=
  match task_counts with
  | [] => Ok total
  | (ty, count) :: counts =>
      match worker_type_from_task_type ty with
      | Gpu =>
          let d := Int.wrap u64 (estimate_duration ty) * Int.wrap u32 count in
          if DURATION_MAX_MS <? d then Panic
          else if DURATION_MAX_MS <? total + d then Panic
          else estimate_gpu_duration counts (total + d)
      | _ => estimate_gpu_duration counts total
      end
  end.

(** ** Settings *)
Record Settings := mkSettings {
  addr : string;
  cluster_rpc : string;
  metrics_addr : string;
  disable_proof_status_update : bool;
  execute_only_mode : bool;
  worker_heartbeat_timeout_secs : Z;
  auth : Auth.AuthConfig;
}.

(** [Settings::new]: the fields the environment left out take their defaults, and the
    authentication is resolved from the environment itself. *)
Definition settings_new (env : Auth.Environ) (addr cluster_rpc metrics_addr : option string)
    (disable execute_only : option bool) (timeout : option Z) : Auth.AuthConfigError + Settings :=
  let^ auth := Auth.from_env env (Some "COORDINATOR") in
  inr (mkSettings (default "127.0.0.1:50051" addr) (default "http://127.0.0.1:50051" cluster_rpc)
         (default "0.0.0.0:9090" metrics_addr) (default false disable) (default false execute_only)
         (default DEFAULT_WORKER_HEARTBEAT_TIMEOUT timeout) auth).

(** ** The process *)

(** The periodic loop, by the step it is at; [PReap] and [PCancel] hold what their scan
    found when it released the lock. *)
Inductive periodic :=
  | PGpu | PScanWorkers | PReap (dead : list string) | PSubscribers | PChannels
  | PScanProofs | PCancel (expired : list string) | PPrint | PSleep | PStopped | PPanicked.

Inductive beats := BSend | BSleep | BStopped.

(** The server future: serving, in the shutdown branch, or resolved. *)
Inductive exit := Serving | ShuttingDown | Resolved (r : result unit).

Record daemon := mkDaemon {
  d_service : Service;
  d_auth : Auth.AuthConfig;
  d_status_updates : bool;
  d_periodic : periodic;
  d_beats : beats;
  d_cancelled : bool;
  d_exit : exit;
}.

Definition set_service (v : Service) (d : daemon) : daemon :=
  mkDaemon v (d_auth d) (d_status_updates d) (d_periodic d) (d_beats d) (d_cancelled d) (d_exit d).
Definition set_periodic (v : periodic) (d : daemon) : daemon :=
  mkDaemon (d_service d) (d_auth d) (d_status_updates d) v (d_beats d) (d_cancelled d) (d_exit d).
Definition set_beats (v : beats) (d : daemon) : daemon :=
  mkDaemon (d_service d) (d_auth d) (d_status_updates d) (d_periodic d) v (d_cancelled d) (d_exit d).
Definition set_cancelled (v : bool) (d : daemon) : daemon :=
  mkDaemon (d_service d) (d_auth d) (d_status_updates d) (d_periodic d) (d_beats d) v (d_exit d).
Definition set_exit (v : exit) (d : daemon) : daemon :=
  mkDaemon (d_service d) (d_auth d) (d_status_updates d) (d_periodic d) (d_beats d) (d_cancelled d) v.

(** The coordinator behind its setters: the results' channel, the mode and the timeout. *)
Definition configure (cfg : Settings) (c : Coordinator) : Coordinator :=
  let (tx, c) := open_proofs_channel c in
  set_worker_heartbeat_timeout (worker_heartbeat_timeout_secs cfg)
    (set_execute_only_mode (execute_only_mode cfg) (set_proofs_tx tx c)).

(** [start_coordinator_server_custom] up to the server: [parse] is [SocketAddr]'s
    parser, [metrics] and [api] are the outcomes of the two connections. *)
Definition start (parse : string -> bool) (metrics api : result unit) (cfg : Settings) : result daemon :=
  if negb (parse (addr cfg)) then inl (Msg ("Failed to parse coordinator config.addr (" +:+ addr cfg +:+ ")"))
  else if negb (parse (metrics_addr cfg))
  then inl (Msg ("Failed to parse coordinator config.metrics_addr (" +:+ metrics_addr cfg +:+ ")"))
  else
    let^ _ := metrics in
    let^ _ := api in
    inr (mkDaemon (set_coord (configure cfg (v_coord new_service)) new_service) (auth cfg)
           (negb (disable_proof_status_update cfg)) PGpu BSend false Serving).

(** ** The middleware *)

(** What a caller gets: the body of a probe, or the service's answer. *)
Inductive reply := Probe (body : string) | Answer (o : outcome response).

(** [OkService::call], outermost: probes are answered here. *)
Definition ok_service {S} (path : string) (s : S) (inner : S -> reply * S) : reply * S :=
  if decide (path = "/") then (Probe "OK", s)
  else if decide (path = "/healthz") then (Probe "", s)
  else inner s.

(** [middleware]: the three layers around the service; [r] is the request the router
    finds behind the path. *)
Definition middleware (c : Auth.AuthConfig) (path : string) (h : Auth.HeaderMap) (r : rpc) (s : Service) : reply * Service :=
  ok_service path s (fun s =>
    let (o, s) := Auth.bearer_auth c (web_headers h) s (serve r) in (Answer o, s)).

(** ** Steps *)

(** The operations the claimer and the manifest task run on the coordinator. *)
Definition claimer_op (o : op) : bool :=
  match o with
  | Reach.CreateProof _ | Reach.FailProof _ _ _ _ | GetClusterInfo _ _ _ => true
  | _ => false
  end.

Inductive event :=
  | Request (path : string) (h : Auth.HeaderMap) (r : rpc)
  | Internal (o : server_op)
  | Claim (o : op)
  | PeriodicStep
  | BeatStep
  | Signal
  | GrpcExit (error : option string)
  | MetricsExit
  | CancelBranch
  | ShutdownDone.

Definition on_coord (f : Coordinator -> Coordinator) (d : daemon) : daemon :=
  set_service (set_coord (f (v_coord (d_service d))) (d_service d)) d.

(** One operation of the periodic loop: it goes on to [next], or the task panics. *)
Definition periodic_op (o : op) (next : periodic) (d : daemon) : daemon :=
  let (r, c) := run o (v_coord (d_service d)) in
  set_periodic (match r with Ok _ | Err _ => next | _ => PPanicked end) (on_coord (fun _ => c) d).

(** The two scans hold the lock only to look. *)
Definition scan_workers (d : daemon) : daemon :=
  let c := v_coord (d_service d) in
  let next := match (since_epoch c).1 with
              | Ok now =>
                  match scan_dead_workers (c_state c) (as_secs now) with [] => PSubscribers | dead => PReap dead end
              | _ => PPanicked
              end in
  set_periodic next (on_coord tick d).
Definition scan_proofs (d : daemon) : daemon :=
  let c := v_coord (d_service d) in
  let next := match scan_expired_proofs (c_state c) (system_now c).1 with [] => PPrint | expired => PCancel expired end in
  set_periodic next (on_coord tick d).

(** [spawn_coordinator_periodic_task]: one pass through the loop body, then the select
    of the sleep and the token. *)
Definition periodic_step (d : daemon) : option daemon :=
  match d_periodic d with
  | PGpu => Some (periodic_op AccumulateGpuAvailable PScanWorkers d)
  | PScanWorkers => Some (scan_workers d)
  | PReap dead => Some (periodic_op (ReapWorkers dead) PSubscribers d)
  | PSubscribers => Some (periodic_op CleanupDeadSubscribers PChannels d)
  | PChannels => Some (periodic_op CleanupStaleTaskChannels PScanProofs d)
  | PScanProofs => Some (scan_proofs d)
  | PCancel expired => Some (periodic_op (CancelProofs expired) PPrint d)
  | PPrint => Some (set_periodic PSleep d)
  | PSleep => Some (set_periodic (if d_cancelled d then PStopped else PGpu) d)
  | PStopped | PPanicked => None
  end.

(** [spawn_heartbeat_task]. *)
Definition beat_step (d : daemon) : option daemon :=
  match d_beats d with
  | BSend => Some (set_beats BSleep (on_coord send_heartbeats d))
  | BSleep => Some (set_beats (if d_cancelled d then BStopped else BSend) d)
  | BStopped => None
  end.

(** A connection is served by its own task, so a request may still arrive while the
    future is shutting down. *)
Definition step (e : event) (d : daemon) : option daemon :=
  match e with
  | Request path h r => Some (set_service (middleware (d_auth d) path h r (d_service d)).2 d)
  | Internal (Rpc _) | Internal (Background _) => None
  | Internal o => Some (set_service (server_step (d_service d) o) d)
  | Claim o => if claimer_op o then Some (on_coord (fun c => (run o c).2) d) else None
  | PeriodicStep => periodic_step d
  | BeatStep => beat_step d
  | Signal => Some (set_cancelled true d)
  | GrpcExit error =>
      match d_exit d with
      | Serving => Some (set_exit (Resolved (match error with
          | Some e => inl (Msg ("coordinator gRPC server exited: " +:+ e)) | None => inr tt end)) d)
      | _ => None
      end
  | MetricsExit =>
      match d_exit d with
      | Serving => Some (set_exit (Resolved (inl (Msg "coordinator metrics server exited unexpectedly"))) d)
      | _ => None
      end
  | CancelBranch =>
      match d_exit d with
      | Serving => if d_cancelled d then Some (set_exit ShuttingDown (on_coord shutdown d)) else None
      | _ => None
      end
  | ShutdownDone =>
      match d_exit d with ShuttingDown => Some (set_exit (Resolved (inr tt)) d) | _ => None end
  end.

(** The reply a request gets. *)
Definition answer (path : string) (h : Auth.HeaderMap) (r : rpc) (d : daemon) : reply :=
  (middleware (d_auth d) path h r (d_service d)).1.

(** The bounds of [server_admissible] on what is asked for. *)
Definition event_admissible (W : Z) (e : event) (d : daemon) : Prop :=
  match e with
  | Request _ _ r => server_admissible W (Rpc r) (d_service d)
  | Internal o => server_admissible W o (d_service d)
  | Claim o => admissible W o (v_coord (d_service d))
  | _ => True
  end.

Inductive daemon_reachable (W : Z) (cfg : Settings) : daemon -> Prop :=
  | daemon_start parse metrics api d : start parse metrics api cfg = inr d -> daemon_reachable W cfg d
  | daemon_next e d d' :
      daemon_reachable W cfg d -> event_admissible W e d -> step e d = Some d' -> daemon_reachable W cfg d'.
End daemon.
End Daemon.
