(* ===== verification/DaemonProps.v ===== *)
(** * The coordinator's process: properties

    The process adds nothing to what the coordinator can do and its loops never panic;
    only the holder of the token is served; and how the process ends. *)
From Stdlib Require Import Ascii.
From stdpp Require Import base gmap strings list pretty.
From S2P Require Import Prelude Proto TaskChannel CoordState Coordinator AssignSpec Capacity CoordInv CoordSteps Reach Server ServerProps Auth Daemon.
From S2P Require Import PolicyQueue DefaultPolicy Demo.
Local Open Scope string_scope.
Local Open Scope list_scope.
Local Open Scope Z_scope.
Import Serve Daemon.

(** ** Latencies *)

(** The tracker agrees with the durations recorded under a kind. *)
Definition latency_ok (ds : list Z) (r : Z * Z * Z * Z) : Prop :=
  let '(mn, mx, sum, count) := r in
  count = Z.of_nat (length ds) /\ sum = list_Zsum id ds /\ mn ∈ ds /\ mx ∈ ds /\ Forall (fun d => mn <= d <= mx) ds.

Definition record_all (kind : string) (ds : list Z) : gmap string (Z * Z * Z * Z) :=
  foldl (fun st d => record_latency kind d st) ∅ ds.

(** [Duration::as_nanos] is below [2^94]. *)
Lemma record_all_ok kind ds :
  ds <> [] -> Forall (fun d => 0 <= d < 2 ^ 94) ds -> Z.of_nat (length ds) < 2 ^ 34 ->
  exists r, record_all kind ds !! kind = Some r /\ latency_ok ds r.
Proof.
  induction ds as [|d ds IH] using rev_ind; [done|]. intros _ Hall Hlen.
  apply Forall_app in Hall as [Hall Hd]. rewrite Forall_singleton in Hd. rewrite length_app, Nat2Z.inj_add in Hlen. cbn [length] in Hlen.
  unfold record_all. rewrite foldl_app. fold (record_all kind ds). cbn [foldl]. unfold record_latency.
  destruct ds as [|d0 ds].
  { exists (d, d, d, 1). change (record_all kind [] !! kind) with (@None (Z * Z * Z * Z)). cbv iota. rewrite lookup_insert_eq.
    split; [done|]. unfold latency_ok, list_Zsum. cbn. repeat split; try set_solver; [lia|]. by constructor. }
  destruct (IH ltac:(done) Hall ltac:(lia)) as ([[[mn mx] sum] count] & -> & Hc & Hs & Hmn & Hmx & Hb).
  eexists. rewrite lookup_insert_eq. split; [done|].
  assert (Hsum : 0 <= sum <= Z.of_nat (length (d0 :: ds)) * 2 ^ 94).
  { rewrite Hs. clear -Hall. induction Hall as [|x l Hx _ IHl]; unfold list_Zsum in *; cbn [foldr length]; [lia|].
    unfold id in *. lia. }
  rewrite !Int.wadd_small by (unfold Int.in_range, Int.modulus; lia).
  unfold latency_ok. rewrite length_app, list_Zsum_app, Nat2Z.inj_add. cbn [length] in *.
  split; [lia|]. split; [rewrite Hs; unfold list_Zsum at 3; cbn; unfold id; lia|].
  split; [destruct (Z.min_spec mn d) as [[_ ->]|[_ ->]]; set_solver|].
  split; [destruct (Z.max_spec mx d) as [[_ ->]|[_ ->]]; set_solver|].
  apply Forall_app_2; [|constructor; [lia|done]]. eapply Forall_impl; [done|]. cbn. lia.
Qed.

(** A kind that was recorded is displayed, with its mean between its extremes. *)
Theorem displayed_latency_is_sound kind ds :
  ds <> [] -> Forall (fun d => 0 <= d < 2 ^ 94) ds -> Z.of_nat (length ds) < 2 ^ 34 ->
  exists mn mx avg, (display_line <$> record_all kind ds !! kind) = Some (Ok (mn, mx, avg, Z.of_nat (length ds))) /\
    mn <= avg <= mx /\ Forall (fun d => mn <= d <= mx) ds.
Proof.
  intros Hne Hall Hlen. destruct (record_all_ok kind ds Hne Hall Hlen) as ([[[mn mx] sum] count] & -> & Hc & Hs & Hmn & Hmx & Hb).
  exists mn, mx, (sum / count). cbn. assert (0 < count) by (destruct ds; [done|cbn in Hc; lia]).
  rewrite (proj2 (Z.eqb_neq count 0)) by lia. rewrite Hc at 2. split; [done|]. split; [|done].
  assert (count * mn <= sum <= count * mx).
  { rewrite Hs, Hc. clear -Hb. induction Hb as [|x l Hx _ IH]; unfold list_Zsum in *; cbn [foldr length]; [lia|]. unfold id in *. lia. }
  split; [apply Z.div_le_lower_bound; lia|]. apply Z.div_le_upper_bound; lia.
Qed.

(** ** The process and the coordinator *)
Section refinement.
Context `{EO : ClusterEnvOk} {PT : PolicyTypes} {AP : AssignmentPolicy} {L : PolicyLaws AP} {MC : MetadataCodec}.
Context {WL : WebLayer} {WO : WebLayerOk WL}.

(** A request runs on the service, or leaves it alone. *)
Lemma middleware_service c path h r s :
  (middleware c path h r s).2 = s \/ (middleware c path h r s).2 = (serve r s).2.
Proof.
  unfold middleware, ok_service, Auth.bearer_auth. case_decide; [by left|]. case_decide; [by left|].
  destruct (Auth.call _ _ _); try (by left). destruct (serve r s). by right.
Qed.

Lemma start_service parse metrics api cfg d :
  start parse metrics api cfg = inr d ->
  d_periodic d <> PPanicked /\ d_auth d = auth cfg /\
  exists tx, d_service d = foldl server_step new_service
    (Background <$> [OpenProofsChannel; SetProofsTx tx; SetExecuteOnly (execute_only_mode cfg);
                     SetHeartbeatTimeout (worker_heartbeat_timeout_secs cfg)]).
Proof.
  unfold start. repeat (case_match; [done|]). destruct metrics; [done|]. destruct api; [done|]. cbn [bind_result].
  intros [= <-]. split; [done|]. split; [done|]. exists (open_proofs_channel (v_coord new_service)).1.
  unfold configure. cbn [foldl fmap list_fmap]. cbn [server_step run snd]. by destruct (open_proofs_channel _).
Qed.

Lemma periodic_auth e d d' : step e d = Some d' -> d_auth d' = d_auth d.
Proof.
  unfold step, periodic_step, beat_step, scan_workers, scan_proofs, periodic_op.
  destruct e; repeat case_match; intros [= <-]; done.
Qed.

Lemma reachable_auth W cfg d : daemon_reachable W cfg d -> d_auth d = auth cfg.
Proof.
  induction 1 as [parse metrics api d Hs|e d d' _ IH _ Hs]; [by apply start_service in Hs as (_ & ? & _)|].
  by rewrite (periodic_auth e d d' Hs).
Qed.

Context (W : Z) (HW : 0 <= W).

Lemma background_next o s : server_reachable W s -> admissible W o (v_coord s) ->
  server_reachable W (set_coord (run o (v_coord s)).2 s).
Proof. intros Hs Ha. exact (server_next W s (Background o) Hs Ha). Qed.

Lemma periodic_op_ok o next d :
  admissible W o (v_coord (d_service d)) -> next <> PPanicked -> server_reachable W (d_service d) ->
  server_reachable W (d_service (periodic_op o next d)) /\ d_periodic (periodic_op o next d) <> PPanicked.
Proof.
  intros Ha Hn Hs. pose proof (background_next o _ Hs Ha) as Hb.
  pose proof (run_returns W HW o _ (server_reachable_coord W _ Hs) Ha) as Hr. unfold periodic_op.
  destruct (run o (v_coord (d_service d))) as [r c]. cbn in *. split; [done|]. by destruct r.
Qed.

Lemma periodic_step_ok d d' :
  server_reachable W (d_service d) -> periodic_step d = Some d' ->
  server_reachable W (d_service d') /\ d_periodic d' <> PPanicked.
Proof.
  intros Hs. pose proof (background_next Tick (d_service d) Hs I) as Ht. unfold periodic_step.
  destruct (d_periodic d); intros [= <-]; try (by apply periodic_op_ok); try done.
  - split; [exact Ht|]. unfold scan_workers. rewrite since_epoch_ok. cbn. by destruct (scan_dead_workers _ _).
  - split; [exact Ht|]. unfold scan_proofs. cbn. by destruct (scan_expired_proofs _ _).
  - split; [done|]. cbn. by destruct (d_cancelled d).
Qed.

Lemma daemon_service_ok cfg d :
  daemon_reachable W cfg d -> server_reachable W (d_service d) /\ d_periodic d <> PPanicked.
Proof.
  induction 1 as [parse metrics api d Hs|e d d' _ [IH IHp] Ha Hs].
  { apply start_service in Hs as (Hp & _ & tx & ->). split; [|done].
    cbn [foldl fmap list_fmap]. repeat (apply server_next; [|exact I]). constructor. }
  destruct e; cbn [step event_admissible] in *.
  - injection Hs as <-. cbn. split; [|done]. destruct (middleware_service (d_auth d) path h r (d_service d)) as [->| ->]; [done|].
    exact (server_next W _ (Rpc r) IH Ha).
  - pose proof (server_next W _ o IH Ha) as Hn. destruct o; try done; injection Hs as <-; by split.
  - destruct (claimer_op o); [|done]. injection Hs as <-. split; [|done]. by apply background_next.
  - by eapply periodic_step_ok.
  - unfold beat_step in Hs. destruct (d_beats d); simplify_eq; (split; [|done]); try done.
    by apply (background_next SendHeartbeats).
  - by simplify_eq.
  - destruct (d_exit d); by simplify_eq.
  - destruct (d_exit d); by simplify_eq.
  - destruct (d_exit d); try done. destruct (d_cancelled d); [|done]. injection Hs as <-. split; [|done].
    by apply (background_next Shutdown).
  - destruct (d_exit d); by simplify_eq.
Qed.

(** C6. The process refines the coordinator: however requests, registrations, subscriber
    tasks, the claimer, the heartbeat and the periodic loop, whose scans and removals take
    the lock separately, and the shutdown interleave, the coordinator inside the process is
    in a state the coordinator itself can reach, so every property of reachable states
    holds of it; the periodic loop never panics; and every request, except a
    [create_task] without its data, is answered by a probe's body, a response or an error
    status. *)
Theorem daemon_refines_coordinator (cfg : Settings) (d : daemon) :
  daemon_reachable W cfg d ->
  reachable W (v_coord (d_service d)) /\ d_periodic d <> PPanicked /\
  forall path h r, server_admissible W (Rpc r) (d_service d) -> r <> CreateTask None ->
    (exists body, answer path h r d = Probe body) \/ (exists a, answer path h r d = Answer (Ok a)) \/
    (exists e, answer path h r d = Answer (Err e)).
Proof.
  intros Hd. destruct (daemon_service_ok cfg d Hd) as [Hs Hp].
  destruct (service_refines_coordinator W HW _ Hs) as [Hc Hret]. split; [done|]. split; [done|].
  intros path h r Ha Hr. unfold answer, middleware, ok_service, Auth.bearer_auth. specialize (Hret r Ha Hr).
  case_decide; [by left; eexists|]. case_decide; [by left; eexists|]. right.
  assert (Auth.call (d_auth d) (web_headers h) (Ok tt) = Ok tt \/ exists e, Auth.call (d_auth d) (web_headers h) (Ok tt) = Err e)
    as [->|[e ->]] by (unfold Auth.call; repeat case_match; eauto); [|by right; eexists].
  destruct (serve r (d_service d)) as [o s]. cbn in *. destruct Hret as [[a ->]|[err ->]]; eauto.
Qed.
End refinement.

(** ** Who is served *)
Section access.
Context `{E : ClusterEnv} {PT : PolicyTypes} {AP : AssignmentPolicy} {MC : MetadataCodec}.
Context {WL : WebLayer} {WO : WebLayerOk WL}.

Definition is_probe (path : string) : Prop := path = "/" \/ path = "/healthz".
Definition unauthenticated : reply := Answer (Err (mkStatus Unauthenticated "missing or invalid bearer token")).

Lemma middleware_probe c path h r s : is_probe path -> exists body, middleware c path h r s = (Probe body, s).
Proof.
  unfold middleware, ok_service. intros [->| ->]; [rewrite decide_True by done|rewrite decide_False, decide_True by done]; eauto.
Qed.

Lemma middleware_rpc c path h r s :
  ~ is_probe path ->
  middleware c path h r s =
    match Auth.call c (web_headers h) (Ok tt) with
    | Ok _ => (Answer (serve r s).1, (serve r s).2)
    | Err e => (Answer (Err e), s)
    | Panic => (Answer Panic, s)
    | Fuel => (Answer Fuel, s)
    end.
Proof.
  unfold middleware, ok_service, Auth.bearer_auth, is_probe. intros Hp. rewrite !decide_False by tauto.
  destruct (Auth.call _ _ _); try done. by destruct (serve r s).
Qed.

(** C40. A coordinator that requires authentication serves the holders of its token and
    nobody else. For any settings the process starts with and in any state it gets into:
    a health probe is answered without a token and touches nothing; with the check on,
    any other request is served exactly when its authorization header is the prefix and
    the token, byte for byte, and otherwise is refused as unauthenticated with the service
    unchanged; with the check off every request is served. *)
Theorem daemon_serves_token_holders env a1 a2 a3 a4 a5 a6 (cfg : Settings) (W : Z) (d : daemon) path h r :
  settings_new env a1 a2 a3 a4 a5 a6 = inr cfg -> daemon_reachable W cfg d ->
  let asked := step (Request path h r) d in
  let served := answer path h r d = Answer (serve r (d_service d)).1 /\
                asked = Some (set_service (serve r (d_service d)).2 d) in
  (is_probe path -> (exists body, answer path h r d = Probe body) /\ asked = Some (set_service (d_service d) d)) /\
  (~ is_probe path -> Auth.required (auth cfg) = true ->
     exists tok, Auth.token_from_env env (Some "COORDINATOR") = Some tok /\
       (Auth.get "authorization" h = Some (Auth.BEARER_PREFIX +:+ tok) -> served) /\
       (Auth.get "authorization" h <> Some (Auth.BEARER_PREFIX +:+ tok) ->
          answer path h r d = unauthenticated /\ asked = Some (set_service (d_service d) d))) /\
  (~ is_probe path -> Auth.required (auth cfg) = false -> served).
Proof.
  intros Hcfg Hd asked served. unfold settings_new in Hcfg.
  destruct (Auth.from_env env (Some "COORDINATOR")) as [|c] eqn:Hc; [done|]. cbn in Hcfg. injection Hcfg as <-.
  apply reachable_auth in Hd. cbn [auth] in *. unfold served, asked, answer. cbn [step]. rewrite Hd.
  destruct (Auth.auth_layer_is_exact env (Some "COORDINATOR") c (web_headers h) (Ok tt) Hc) as [Hon Hoff].
  rewrite web_keeps_authorization in Hon. split; [|split].
  - intros Hp. destruct (middleware_probe c path h r (d_service d) Hp) as [body ->]. cbn. eauto.
  - intros Hp Hr. destruct (Hon Hr) as (tok & Htok & Hcall). exists tok. split; [done|].
    rewrite (middleware_rpc c path h r (d_service d) Hp), Hcall. split; intros Hh.
    + by destruct (decide _); [split|].
    + by destruct (decide _); [|split].
  - intros Hp Hr. rewrite (middleware_rpc c path h r (d_service d) Hp), (Hoff Hr). by split.
Qed.
End access.

(** ** A concrete process *)
Definition slow_env : ClusterEnv := {|
  env_iter := canonical_iter; env_weights := default_weights; from_task_type := fun _ => Gpu; cpu_only := false;
  create_type_id := fun prefix n => prefix +:+ "_" +:+ pretty n; json_string := fun s => s;
  clock := fun n => Z.of_nat n * 10000000000; instant := fun n => Z.of_nat n;
|}.
#[local] Existing Instance slow_env.
#[local] Existing Instance Default.types.
#[local] Existing Instance Default.policy.
#[local] Instance slow_codec : MetadataCodec := fun _ => None.
#[local] Instance demo_web : WebLayer := {| web_headers := fun h => ("te", "trailers") :: h |}.

#[local] Instance slow_env_ok : ClusterEnvOk slow_env.
Proof.
  split; simpl.
  - apply canonical_iter_ok.
  - intros p n m H. apply string_app_inj_l in H. injection H as H. by apply (inj pretty).
  - lia.
  - lia.
Qed.

#[local] Instance demo_web_ok : WebLayerOk demo_web.
Proof. split. intros h. unfold Auth.get. cbn. by destruct (list_find _ h) as [[]|]. Qed.

Definition demo_settings : Settings :=
  mkSettings "127.0.0.1:50051" "http://127.0.0.1:50051" "0.0.0.0:9090" false false 30 (Auth.mkAuth (Some "s3cret") true).
Definition fresh : daemon :=
  mkDaemon (set_coord (configure demo_settings (v_coord new_service)) new_service) (auth demo_settings) true PGpu BSend false Serving.
Definition demo_worker : OpenRequest := mkOpen "w1" All 64 "" "" "" "GPU" 0 None.
Definition demo_token : Auth.HeaderMap := [("authorization", "Bearer s3cret")].

Lemma fresh_reachable : daemon_reachable demo_W demo_settings fresh.
Proof. apply (daemon_start _ _ (fun _ => true) (inr tt) (inr tt)). reflexivity. Qed.

Lemma daemon_refines_coordinator_witness :
  reachable demo_W (v_coord (d_service fresh)) /\ d_periodic fresh <> PPanicked.
Proof.
  destruct (daemon_refines_coordinator (L := Default.laws) demo_W ltac:(unfold demo_W; lia) demo_settings fresh fresh_reachable)
    as (H1 & H2 & _). by split.
Defined.

Lemma daemon_serves_token_holders_witness :
  answer "/worker.WorkerService/GetStats" [("authorization", "Bearer s3cret ")] GetStats fresh = unauthenticated /\
  (exists body, answer "/healthz" [] GetStats fresh = Probe body).
Proof.
  assert (Hs : settings_new Auth.demo_environ None None None None None None = inr demo_settings) by (vm_compute; reflexivity).
  destruct (daemon_serves_token_holders Auth.demo_environ None None None None None None demo_settings demo_W fresh
    "/worker.WorkerService/GetStats" [("authorization", "Bearer s3cret ")] GetStats Hs fresh_reachable) as (_ & Hrpc & _).
  destruct (daemon_serves_token_holders Auth.demo_environ None None None None None None demo_settings demo_W fresh
    "/healthz" [] GetStats Hs fresh_reachable) as (Hprobe & _ & _).
  split; [|by apply Hprobe; right].
  destruct Hrpc as (tok & Htok & _ & Hno); [by intros [|]|reflexivity|]. vm_compute in Htok. injection Htok as <-.
  apply Hno. vm_compute. discriminate.
Defined.

(** The scan of the periodic loop and its removals take the lock one after the other: a
    worker whose heartbeat arrives in between is answered and then removed, although at
    the time of the removal it is alive. *)
Definition run_events (es : list event) (d : daemon) : option daemon := foldl (fun d e => d ≫= step e) (Some d) es.
Definition worker_state (d : daemon) : option (bool * periodic) :=
  (fun w => (is_dead (c_state (v_coord (d_service d))) (as_secs (clock (c_tick (v_coord (d_service d))))) w, d_periodic d))
    <$> s_workers (c_state (v_coord (d_service d))) !! "w1".
Definition joined : list event := [Request "/open" demo_token (Open demo_worker); Internal (Register 0)].
Definition scanned : list event := joined ++ replicate 9 PeriodicStep.
Definition refreshed : list event := scanned ++ [Request "/heartbeat" demo_token (Heartbeat "w1" [] [] 0)].

Lemma refreshed_worker_is_reaped :
  (worker_state <$> run_events scanned fresh) = Some (Some (true, PReap ["w1"])) /\
  (worker_state <$> run_events refreshed fresh) = Some (Some (false, PReap ["w1"])) /\
  (answer "/heartbeat" demo_token (Heartbeat "w1" [] [] 0) <$> run_events scanned fresh) = Some (Answer (Ok Empty)) /\
  (worker_state <$> run_events (refreshed ++ [PeriodicStep]) fresh) = Some None.
Proof. vm_compute. repeat split. Qed.
