(* ===== verification/Bench.v ===== *)
(** * The command line

    [bin/cli/src]: the benchmark commands ([commands/bench.rs]), which prove a program
    through the API or execute it straight on the coordinator, and the build of the
    verifying-key map ([commands/vk_gen.rs]). The prover, the codecs and the [aws] tool are
    interfaces; elapsed times are left out. *)
From Stdlib Require Import Ascii String.
From stdpp Require Import base gmap strings list pretty.
From S2P Require Import Prelude Proto TaskChannel CoordState Coordinator AssignSpec Capacity CoordInv CoordSteps Reach Server ApiStore ProgramStore GatewayIds GatewayFacts Gateway Auth WorkerClient Requests.
Local Open Scope string_scope.
Local Open Scope list_scope.
Local Open Scope Z_scope.
Local Open Scope handler_scope.
Local Open Scope request_scope.

(** What the commands take from the SP1 crates, and the decoding of inputs. *)
Class BenchIo {A : ArtifactStore} (Io : CliIo) := {
  VerifyingKey : Type;
  setup : bytes -> result VerifyingKey;
  verify : VerifyingKey -> ProofFromNetwork -> bool;
  stdin_write : Z -> SP1Stdin;
  decode_stdin : bytes -> result SP1Stdin;
  mode_from_str_name : string -> option Z;
  fibonacci_elf : bytes;
}.

Module Bench.
Import Cli.

Definition FIBONACCI_ITERS_PER_MCYCLE : Z := 83333.

(** [to_ascii_uppercase]. *)
Definition upper (a : ascii) : ascii :=
  let n := N_of_ascii a in if (97 <=? n)%N && (n <=? 122)%N then ascii_of_N (n - 32) else a.
Fixpoint to_ascii_uppercase (s : string) : string :=
  match s with EmptyString => EmptyString | String a s => String (upper a) (to_ascii_uppercase s) end.

(** [CommonArgs]; [count] is a [NonZeroU16]. *)
Record CommonArgs := mkCommon {
  a_cluster_rpc : string;
  a_execute : bool;
  a_s3_bucket : option string;
  a_s3_region : option string;
  a_redis_nodes : option string;
  a_mode : Z;
  a_count : Z;
}.

(** What [clap] makes of an option with an [env]: the flag, or else the variable. *)
Definition arg (flag : option string) (env : Auth.Environ) (var : string) : option string :=
  match flag with Some v => Some v | None => env var end.

Definition parse_count (s : string) : option Z :=
  match parse_uint 16 s with Some n => if n =? 0 then None else Some n | None => None end.

(** ** The results file *)
Definition CSV_HEADER : string := "proof_id,s3_path,param,duration_ms".
Definition newline : string := String (chr 10) EmptyString.
Definition csv_row (proof_id path : string) (param : option string) (millis : Z) : string :=
  proof_id +:+ "," +:+ path +:+ "," +:+ default "" param +:+ "," +:+ pretty millis.

(** [append_to_csv] on the file's contents; [dir] and [open] are the outcomes of creating
    the directory and opening the file. *)
Definition append_to_csv (dir open : result unit) (row : string) (file : option string) : result unit * option string :=
  match dir, open with
  | inl e, _ => (inl e, file)
  | _, inl e => (inl e, file)
  | inr _, inr _ =>
      let head := match file with None => CSV_HEADER +:+ newline | Some s => s end in
      (inr tt, Some (head +:+ row +:+ newline))
  end.

(** ** Downloads from S3 *)

(** A run of [aws s3 cp]: it may not start, fail with its standard error, or leave the
    object in the file. *)
Definition aws_cp (aws : string -> result (bytes + bytes)) (uri file : string) (fs : gmap string bytes)
  : result (option bytes) * gmap string bytes :=
  match aws uri with
  | inl e => (inl e, fs)
  | inr (inl stderr) => (inr (Some stderr), fs)
  | inr (inr data) => (inr None, <[file := data]> fs)
  end.

Definition read_file (fs : gmap string bytes) (file : string) : result bytes :=
  match fs !! file with Some b => inr b | None => inl (Msg "No such file or directory") end.

Definition stdin_uri (bucket s3_path param : string) : string :=
  if decide (param = "") then "s3://" +:+ bucket +:+ "/" +:+ s3_path +:+ "/stdin.bin"
  else "s3://" +:+ bucket +:+ "/" +:+ s3_path +:+ "/input/" +:+ param +:+ ".bin".
Definition program_uri (bucket s3_path : string) : string := "s3://" +:+ bucket +:+ "/" +:+ s3_path +:+ "/program.bin".

Section bench.
Context {E : ApiEnv} {G : GatewayEnv} {A : ArtifactStore} {Io : CliIo} {B : BenchIo Io}.

Definition parse_proof_mode (s : string) : result Z :=
  match mode_from_str_name (to_ascii_uppercase s) with Some m => inr m | None => inl (Msg "Invalid proof mode") end.

Definition download_from_s3 (aws : string -> result (bytes + bytes)) (bucket s3_path param : string) (fs : gmap string bytes)
  : result (bytes * SP1Stdin) * gmap string bytes :=
  match aws_cp aws (program_uri bucket s3_path) "program.bin" fs with
  | (inl e, fs) => (inl e, fs)
  | (inr (Some stderr), fs) => (inl (Msg ("Failed to download program.bin: " +:+ from_utf8_lossy stderr)), fs)
  | (inr None, fs) =>
      match aws_cp aws (stdin_uri bucket s3_path param) "stdin.bin" fs with
      | (inl e, fs) => (inl e, fs)
      | (inr (Some stderr), fs) => (inl (Msg ("Failed to download stdin.bin: " +:+ from_utf8_lossy stderr)), fs)
      | (inr None, fs) =>
          match (let^ program := read_file fs "program.bin" in
                 let^ stdin_bytes := read_file fs "stdin.bin" in
                 let^ stdin := decode_stdin stdin_bytes in inr (program, stdin)) with
          | inl e => (inl e, fs)
          | inr r => (inr r, delete "stdin.bin" (delete "program.bin" fs))
          end
      end
  end.

(** ** Proving benchmarks *)

Definition lift {T} (o : outcome T) : M T := fun w =>
  match o with Ok x => (Ok (inr x), w) | Err e => (Err e, w) | Panic => (Panic, w) | Fuel => (Fuel, w) end.
Definition expect {T} (r : result T) : M T := lift (match r with inr x => Ok x | inl _ => Panic end).

(** [request_proofs_from_env]: the configuration comes from the environment alone. *)
Definition request_proofs_from_env (fuel : nat) (dial : option (result unit)) (env : Auth.Environ) (mode hours : Z)
    (elf : ClusterElf) (stdin : SP1Stdin) (count : nat) : M (list ProofRequestResults) :=
  let* cfg := lift (request_config_from_env env mode hours) in
  request_proofs fuel dial cfg elf stdin count.

(** The loop that verifies the results, one after the other. *)
Fixpoint verify_all (vk : VerifyingKey) (results : list ProofRequestResults) (proof_ids : list string) : M (list string) :=
  match results with
  | [] => ret proof_ids
  | r :: results =>
      if verify vk (res_proof r) then verify_all vk results (proof_ids ++ [res_proof_id r])
      else lift Panic
  end.

(** What the benchmark logs: how many proofs, and the cycles they add up to. *)
Definition total_cycles (estimate : option Z) (count : Z) : option Z := (fun c => Int.wrap u64 (c * count)) <$> estimate.

Definition run_benchmark (fuel : nat) (dial : option (result unit)) (env : Auth.Environ) (elf : bytes) (stdin : SP1Stdin)
    (common : CommonArgs) (cycles_estimate : option Z) : M (list string * option Z) :=
  let* vk := expect (setup elf) in
  let* results := request_proofs_from_env fuel dial env (a_mode common) 4 (NewElf elf) stdin (Z.to_nat (a_count common)) in
  let* proof_ids := verify_all vk results [] in
  ret (proof_ids, total_cycles cycles_estimate (a_count common)).

(** The [Fibonacci] command: the product is a [u32]. *)
Definition fibonacci_iterations (mcycles : Z) : Z := Int.wrap u32 (mcycles * FIBONACCI_ITERS_PER_MCYCLE).
Definition fibonacci (fuel : nat) (dial : option (result unit)) (env : Auth.Environ) (mcycles : Z) (common : CommonArgs)
  : M (list string * option Z) :=
  run_benchmark fuel dial env fibonacci_elf (stdin_write (fibonacci_iterations mcycles)) common (Some (mcycles * 1000000)).

(** [main]: an error is logged; only a panic fails the process. *)
Definition exit_code {T} (r : outcome (result T)) : Z := match r with Ok _ => 0 | _ => 101 end.
End bench.

(** ** Execute-only benchmarks *)

(** How a request's task ended. *)
Inductive joined := Returned (r : result unit) | PanickedTask.

Definition tally (acc : Z * Z) (j : joined) : Z * Z :=
  match j with Returned (inr _) => (acc.1 + 1, acc.2) | _ => (acc.1, acc.2 + 1) end.

(** The end of [run_execute_benchmark]: the tasks joined in order, and the verdict. *)
Definition summarise (handles : list joined) : (Z * Z) * result unit :=
  let '(success_count, fail_count) := foldl tally (0, 0) handles in
  ((success_count, fail_count), if 0 <? fail_count then inl (Msg (pretty fail_count +:+ " requests failed")) else inr tt).

(** The verdict of [run_single_execute_request] on the task's status. *)
Definition task_verdict (status : TaskStatus) : result unit :=
  match status with
  | Succeeded => inr tt
  | FailedFatal | FailedRetryable => inl (Msg "Task failed with status")
  | _ => inl (Msg "Unexpected task status")
  end.

Section execute.
Context `{E : ClusterEnv} {PT : PolicyTypes} {AP : AssignmentPolicy} {MC : Serve.MetadataCodec}.

Definition EXECUTE_DEADLINE_SECS : Z := 4 * 60 * 60.

(** What happens around one request: the connection, the fate of its calls, the
    subscription, and what [wait_task] reports of the task. *)
Record ExecuteIo := mkExecuteIo {
  x_connect : result unit;
  x_dummy : Wc.attempt;
  x_subscriber : result unit;
  x_submit : Wc.attempt * list Wc.attempt;
  x_wait : string -> result TaskStatus;
  x_millis : Z;
  x_secs : Z;
  x_metadata : string;
}.

Definition as_error {T} (what : string) (r : outcome T) : result T :=
  match r with Ok x => inr x | Err e => inl (Msg (what +:+ message e)) | _ => inl (Msg what) end.

(** [run_single_execute_request]: a dummy proof, a subscriber, the task, its end. *)
Definition run_single_execute_request (io : ExecuteIo) (index : Z) (elf_artifact stdin_artifact : string) (s : Serve.Service)
  : result unit * Serve.Service :=
  match x_connect io with
  | inl e => (inl e, s)
  | inr _ =>
      let proof_id := "cli_exec_" +:+ pretty index +:+ "_" +:+ pretty (x_millis io) in
      let (r, s) := Wc.once (x_dummy io) (Serve.CreateDummyProof proof_id (x_secs io + EXECUTE_DEADLINE_SECS)) s in
      match as_error "Failed to create dummy proof: " r, x_subscriber io with
      | inl e, _ => (inl e, s)
      | _, inl e => (inl e, s)
      | inr _, inr _ =>
          let (r, s) := Wc.retry (x_submit io).1 (x_submit io).2
            (Wc.submit_task env_weights ExecuteOnly (Wc.mkRaw [elf_artifact; stdin_artifact] [] proof_id None "cli") (x_metadata io)) s in
          match as_error "Failed to submit task: " r with
          | inr (Serve.TaskId task_id) =>
              (match x_wait io task_id with inl e => inl e | inr status => task_verdict status end, s)
          | inr _ => (inl (Msg "unexpected response"), s)
          | inl e => (inl e, s)
          end
      end
  end.

(** ** Verifying keys *)

(** The task [BuildVkeys::run] creates for the controller of the vkey map. *)
Definition vk_gen_task (proof_id input_artifact output_artifact metadata : string) : Serve.rpc :=
  Serve.CreateTask (Some (mkTaskData UtilVkeyMapController [input_artifact] [output_artifact] metadata proof_id None 0 "cli")).

(** [BuildVkeys::run] from the dummy proof on: [None] is one of its [unwrap]s and
    [assert!]s; [download] is the output artifact as the map and its failed indices. *)
Definition build_vkeys (dummy create : Wc.attempt) (subscriber : result unit) (wait : string -> result TaskStatus)
    (download : result (bytes * list Z)) (secs : Z) (input output metadata : string) (s : Serve.Service)
  : outcome (result bytes) * Serve.Service :=
  let proof_id := "build-vkeys-" +:+ pretty secs in
  let (r, s) := Wc.once dummy (Serve.CreateDummyProof proof_id (secs + EXECUTE_DEADLINE_SECS)) s in
  match r with
  | Ok _ =>
      let (r, s) := Wc.once create (vk_gen_task proof_id input output metadata) s in
      match as_error "" r, subscriber with
      | inl e, _ => (Ok (inl e), s)
      | _, inl e => (Ok (inl e), s)
      | inr (Serve.TaskId task_id), inr _ =>
          match wait task_id with
          | inl e => (Ok (inl e), s)
          | inr Succeeded =>
              match download with
              | inl e => (Ok (inl e), s)
              | inr (vk_map, panic_indices) => (if decide (panic_indices = []) then Ok (inr vk_map) else Panic, s)
              end
          | inr _ => (Panic, s)
          end
      | inr _, inr _ => (Panic, s)
      end
  | _ => (Panic, s)
  end.
End execute.

(** ** Properties *)
Lemma tally_counts handles acc :
  let r := foldl tally acc handles in
  r.1 + r.2 = acc.1 + acc.2 + Z.of_nat (length handles) /\ acc.2 <= r.2 /\
  (r.2 = acc.2 <-> Forall (fun j => exists u, j = Returned (inr u)) handles).
Proof.
  revert acc. induction handles as [|j handles IH]; intros acc; [cbn; split; [lia|]; split; [lia|]; by split|].
  cbn [foldl length]. specialize (IH (tally acc j)). cbv zeta in *. destruct IH as (Hsum & Hle & Hiff).
  destruct j as [[e|u]|]; cbn [tally fst snd] in *; (split; [lia|]); (split; [lia|]); rewrite Forall_cons.
  - split; [lia|]. intros [[u Hu] _]. done.
  - rewrite Hiff. split; [|tauto]. intros H. split; [by exists u|done].
  - split; [lia|]. intros [[u Hu] _]. done.
Qed.

(** Every request of an execute-only benchmark is counted once, and the command succeeds
    exactly when all of them did. *)
Theorem execute_benchmark_counts handles :
  let '((succeeded, failed), verdict) := summarise handles in
  succeeded + failed = Z.of_nat (length handles) /\
  (verdict = inr tt <-> Forall (fun j => exists u, j = Returned (inr u)) handles).
Proof.
  unfold summarise. pose proof (tally_counts handles (0, 0)) as H. cbv zeta in H.
  destruct (foldl tally (0, 0) handles) as [ok bad]. cbn in H. destruct H as (Hsum & Hle & Hiff). split; [lia|].
  rewrite <- Hiff. destruct (Z.ltb_spec 0 bad); split; try done; lia.
Qed.

(** The iteration count of the Fibonacci program is the product only below 51540 million
    cycles; from there on it wraps, while the cycles reported do not. *)
Theorem fibonacci_iterations_exact mcycles :
  0 <= mcycles -> fibonacci_iterations mcycles = mcycles * FIBONACCI_ITERS_PER_MCYCLE <-> mcycles <= 51539.
Proof.
  intros H. unfold fibonacci_iterations, FIBONACCI_ITERS_PER_MCYCLE, Int.wrap, Int.modulus. split.
  - intros Heq. pose proof (Z.mod_pos_bound (mcycles * 83333) (2 ^ 32) ltac:(lia)). lia.
  - intros Hle. rewrite Z.mod_small; lia.
Qed.

(** A results file that starts empty holds the header and every row, in order. *)
Lemma csv_rows rows :
  rows <> [] ->
  foldl (fun file row => (append_to_csv (inr tt) (inr tt) row file).2) None rows =
    Some (CSV_HEADER +:+ newline +:+ foldr (fun row s => row +:+ newline +:+ s) "" rows).
Proof.
  assert (Hgen : forall rows s, foldl (fun file row => (append_to_csv (inr tt) (inr tt) row file).2) (Some s) rows =
    Some (s +:+ foldr (fun row s => row +:+ newline +:+ s) "" rows)).
  { clear rows. induction rows as [|row rows IH]; intros s; cbn [foldl foldr].
    - f_equal. by induction s as [|a s IHs]; [|change (String a s +:+ "") with (String a (s +:+ "")); f_equal].
    - cbn [append_to_csv snd]. rewrite IH. by rewrite !app_string_assoc. }
  destruct rows as [|row rows]; [done|]. intros _. cbn [foldl append_to_csv snd]. rewrite Hgen. cbn [foldr].
  by rewrite !app_string_assoc.
Qed.

Section properties.
Context {E : ApiEnv} {G : GatewayEnv} {A : ArtifactStore} {Io : CliIo} {B : BenchIo Io}.

Lemma verify_all_ok vk results acc w o w' :
  verify_all vk results acc w = (o, w') ->
  w' = w /\ (o = Panic \/ (o = Ok (inr (acc ++ (res_proof_id <$> results))) /\ Forall (fun r => verify vk (res_proof r) = true) results)).
Proof.
  revert acc. induction results as [|r results IH]; intros acc; cbn [verify_all].
  - intros [= <- <-]. split; [done|]. right. cbn. by rewrite app_nil_r.
  - destruct (verify vk (res_proof r)) eqn:Hv.
    + intros (-> & [->|[-> Hall]])%IH; (split; [done|]); [by left|]. right. split; [by rewrite <- app_assoc|by constructor].
    + intros [= <- <-]. split; [done|by left].
Qed.

(** What a benchmark reports is verified: the proof ids it returns are those of the
    results the API gave, in order, and the proof of each verifies against the key of the
    program that was asked for. *)
Theorem benchmark_results_verify fuel dial env elf stdin common est w ids cycles w' :
  run_benchmark fuel dial env elf stdin common est w = (Ok (inr (ids, cycles)), w') ->
  exists vk cfg results, setup elf = inr vk /\ request_config_from_env env (a_mode common) 4 = Ok cfg /\
    request_proofs fuel dial cfg (NewElf elf) stdin (Z.to_nat (a_count common)) w = (Ok (inr results), w') /\
    ids = res_proof_id <$> results /\ Forall (fun r => verify vk (res_proof r) = true) results.
Proof.
  unfold run_benchmark, request_proofs_from_env, expect, lift, bindM, bind.
  destruct (setup elf) as [|vk]; [done|]. destruct (request_config_from_env env (a_mode common) 4) as [cfg| | |]; try done.
  destruct (request_proofs _ _ _ _ _ _ _) as [[[e|results]| | |] w1] eqn:Hreq; try done.
  destruct (verify_all vk results [] w1) as [o w2] eqn:Hv. destruct (verify_all_ok _ _ _ _ _ _ Hv) as (-> & [->|[-> Hall]]); [done|].
  cbn. intros [= <- _ <-]. exists vk, cfg, results. by rewrite Hreq.
Qed.

(** The connection options of the proving benchmarks have no effect: only the mode and the
    count are read, and without [CLI_CLUSTER_RPC] in the environment the command panics
    whatever [--cluster-rpc] says. *)
Theorem benchmark_flags_ignored fuel dial env elf stdin c1 c2 est :
  a_mode c1 = a_mode c2 -> a_count c1 = a_count c2 ->
  run_benchmark fuel dial env elf stdin c1 est = run_benchmark fuel dial env elf stdin c2 est /\
  (env "CLI_CLUSTER_RPC" = None -> forall w, (run_benchmark fuel dial env elf stdin c1 est w).1 = Panic).
Proof.
  intros Hm Hc. split; [unfold run_benchmark; by rewrite Hm, Hc|]. intros He w.
  unfold run_benchmark, request_proofs_from_env, request_config_from_env, expect, lift, bindM, bind. rewrite He.
  by destruct (setup elf).
Qed.

(** A download that succeeds gives the two objects as S3 holds them and leaves no file. *)
Theorem download_from_s3_exact aws bucket s3_path param fs program stdin fs' :
  download_from_s3 aws bucket s3_path param fs = (inr (program, stdin), fs') ->
  aws (program_uri bucket s3_path) = inr (inr program) /\
  (exists bytes, aws (stdin_uri bucket s3_path param) = inr (inr bytes) /\ decode_stdin bytes = inr stdin) /\
  fs' = delete "stdin.bin" (delete "program.bin" fs).
Proof.
  unfold download_from_s3, aws_cp. destruct (aws (program_uri bucket s3_path)) as [|[|p]]; try done.
  destruct (aws (stdin_uri bucket s3_path param)) as [|[|b]]; try done. unfold read_file.
  rewrite lookup_insert_ne, !lookup_insert_eq by done. cbn [bind_result].
  destruct (decode_stdin b) as [|sd] eqn:Hd; [done|]. cbn [bind_result]. intros [= <- <- <-].
  split; [done|]. split; [by exists b|]. rewrite delete_insert_ne by done. rewrite delete_insert_eq, delete_insert_eq by done. done.
Qed.
End properties.
End Bench.
