(* ===== verification/FulfillRun.v ===== *)
(** * The fulfiller's process

    The settings of [crates/fulfillment/src/config.rs], the choice of the artifact store
    in [bin/fulfiller/src/main.rs], the supervision of [run.rs], and [run] of [lib.rs]:
    the loop around the four steps of Fulfillment.v, which also spawns the report of
    Manifest.v as a detached task. Those tasks end at any point between two turns. *)
From stdpp Require Import base gmap strings list.
From S2P Require Import Prelude Proto TaskChannel CoordState Coordinator Capacity Manifest ApiStore Redis ProgramStore GatewayIds Auth WorkerUtil Fulfillment.
Local Open Scope string_scope.
Local Open Scope list_scope.
Local Open Scope Z_scope.
Local Open Scope handler_scope.

Module FulRun.
Import Fulfill.

(** ** Settings *)

(** What the environment gave for each field, already parsed. [e_request_probability] is
    the pair of values [Fulfiller] derives from the probability. *)
Record Environment := mkEnvironment {
  e_rpc_grpc_addr : option string;
  e_metrics_addr : option string;
  e_sp1_private_key : option string;
  e_use_aws_kms : option bool;
  e_cluster_rpc : option string;
  e_version : option string;
  e_log_format : option string;
  e_domain : option bytes;
  e_addresses : option (list bytes);
  e_network_s3_region : option string;
  e_cluster_artifact_store : option string;
  e_cluster_s3_region : option string;
  e_cluster_s3_bucket : option string;
  e_cluster_s3_concurrency : option Z;
  e_cluster_redis_nodes : option (list string);
  e_cluster_redis_pool_max_size : option Z;
  e_disable_fulfillment : option bool;
  e_request_probability : option (bool * Z);
  e_name : option string;
  e_refresh_interval_sec : option Z;
}.

Record FulfillerSettings := mkSettings {
  rpc_grpc_addr : string;
  metrics_addr : string;
  sp1_private_key : string;
  use_aws_kms : bool;
  cluster_rpc : string;
  cluster_access_token : option string;
  version : string;
  log_format : string;
  domain : bytes;
  s_addresses : option (list bytes);
  network_s3_region : option string;
  cluster_artifact_store : string;
  cluster_s3_region : option string;
  cluster_s3_bucket : option string;
  cluster_s3_concurrency : option Z;
  cluster_redis_nodes : option (list string);
  cluster_redis_pool_max_size : option Z;
  s_disable_fulfillment : bool;
  request_probability : bool * Z;
  s_name : option string;
  refresh_interval_sec : Z;
}.

(** [FulfillerSettings::new]: a field without a default must be there. *)
Definition settings_new (prefix : string) (env : Auth.Environ) (e : Environment) : option FulfillerSettings :=
  rpc ← e_rpc_grpc_addr e; metrics ← e_metrics_addr e; key ← e_sp1_private_key e; kms ← e_use_aws_kms e;
  cluster ← e_cluster_rpc e; v ← e_version e; format ← e_log_format e; d ← e_domain e;
  store ← e_cluster_artifact_store e;
  Some (mkSettings rpc metrics key kms cluster (Auth.token_from_env env (Some prefix)) v format d (e_addresses e)
          (e_network_s3_region e) store (e_cluster_s3_region e) (e_cluster_s3_bucket e) (e_cluster_s3_concurrency e) (e_cluster_redis_nodes e)
          (e_cluster_redis_pool_max_size e) (default false (e_disable_fulfillment e))
          (default (true, 100) (e_request_probability e)) (e_name e) (default 3 (e_refresh_interval_sec e))).

(** The store [main] opens; [queries] is what the Redis nodes say of their memory when
    the configuration is validated. *)
Definition open_store (env : Auth.Environ) (s : FulfillerSettings) (queries : list (result (option Z * option Z)))
  : outcome (result Wu.ArtifactStoreConfig) :=
  let store := default "s3" (env "FULFILLER_CLUSTER_ARTIFACT_STORE") in
  if decide (store = "s3") then
    match cluster_s3_region s, env "FULFILLER_CLUSTER_S3_BUCKET" with
    | Some region, Some bucket => Ok (inr (Wu.S3Store region bucket (default 32 (cluster_s3_concurrency s))))
    | _, _ => Panic
    end
  else if decide (store = "redis") then
    match cluster_redis_nodes s with
    | Some nodes =>
        Ok (let^ _u := Redis.validate_config 0 queries in
            inr (Wu.RedisStore nodes (default 16 (cluster_redis_pool_max_size s))))
    | None => Panic
    end
  else Panic.

(** [Fulfiller::new] as [run_fulfiller] calls it, and its polling interval. *)
Definition new (s : FulfillerSettings) : Fulfiller :=
  mkFulfiller (s_addresses s) true (s_disable_fulfillment s) (request_probability s).1 (request_probability s).2 (s_name s).

(** [MainnetFulfiller::init]: [Address::from_slice] takes twenty bytes. *)
Definition init (owner : result bytes) : outcome (result bytes) :=
  match owner with
  | inl e => Ok (inl e)
  | inr b => if decide (length b = 20%nat) then Ok (inr b) else Panic
  end.

(** ** The loop *)
Definition REPORT_INTERVAL_SECS : Z := 15 * 60.

(** [BuildIdentity::resolve]. *)
Definition resolve (CARGO_PKG_VERSION VERGEN_GIT_SHA : string) (env : Auth.Environ) : BuildIdentity :=
  mkBuild CARGO_PKG_VERSION VERGEN_GIT_SHA (default "" (env "IMAGE_TAG")).

Section run.
Context {AE : ApiEnv} {F : FulfillEnv} {N : FulfillmentNetwork} {A : ArtifactClient}.

(** The process in its loop. [p_pending] counts the detached reports that have not
    ended, [p_reports] holds the bodies sent; [p_spawned] is ghost, the instants the
    reports were spawned at, newest first. *)
Record process := mkProcess {
  p_prover : bytes;
  p_identity : BuildIdentity;
  p_world : World;
  p_last_report : Z;
  p_pending : nat;
  p_reports : list (list ComponentInfo * option CapacitySnapshot);
  p_errors : Z;
  p_spawned : list Z;
}.

(** [spawn_report_prover_info] and the reading of the clock that follows it. *)
Definition spawn_report (fu : Fulfiller) (t : Z) (p : process) : process :=
  let d := disable_fulfillment fu in
  mkProcess (p_prover p) (p_identity p) (p_world p) t (if d then p_pending p else S (p_pending p))
    (p_reports p) (p_errors p) (if d then p_spawned p else t :: p_spawned p).

(** [run] up to the loop. *)
Definition run_start (fu : Fulfiller) (owner : result bytes) (identity : BuildIdentity) (t : Z) (w : World)
  : outcome (result process) :=
  match init owner with
  | Ok (inr prover) => Ok (inr (spawn_report fu t (mkProcess prover identity w t 0 [] 0 [])))
  | Ok (inl e) => Ok (inl e)
  | Err e => Err e
  | Panic => Panic
  | Fuel => Fuel
  end.

(** A step of the loop: its error is logged and counted. *)
Definition counted (m : M unit) (we : World * Z) : World * Z :=
  match m we.1 with
  | (inr _, w) => (w, we.2)
  | (inl _, w) => (w, Int.wadd u64 we.2 1)
  end.

Definition steps (fu : Fulfiller) (prover : bytes) (now : nat -> Z) (we : World * Z) : World * Z :=
  counted (schedule_requests fu prover (now 3%nat))
    (counted (cancel_requests fu prover (now 2%nat))
       (counted (fail_requests fu (now 1%nat)) (counted (submit_requests fu (now 0%nat)) we))).

(** A turn read the clock at [t], and at [t'] if it spawned a report; [Reported] is the end
    of a detached report, which fetched the manifest and read the wall clock. *)
Inductive event :=
  | Turn (t t' : Z) (now : nat -> Z)
  | Reported (fetched : outcome ClusterComponentManifest) (now : Z).

Definition step (fu : Fulfiller) (e : event) (p : process) : process :=
  match e with
  | Turn t t' now =>
      let p := if REPORT_INTERVAL_SECS <=? t - p_last_report p then spawn_report fu t' p else p in
      let '(w, errors) := steps fu (p_prover p) now (p_world p, p_errors p) in
      mkProcess (p_prover p) (p_identity p) w (p_last_report p) (p_pending p) (p_reports p) errors (p_spawned p)
  | Reported fetched now =>
      match p_pending p with
      | O => p
      | S k =>
          mkProcess (p_prover p) (p_identity p) (p_world p) (p_last_report p) k
            (p_reports p ++ option_list (report_prover_info (p_identity p) fetched now)) (p_errors p) (p_spawned p)
      end
  end.

Definition exec (fu : Fulfiller) (es : list event) (p : process) : process := foldl (fun p e => step fu e p) p es.

(** The clock readings of a run: from [t] on they do not decrease. *)
Fixpoint clock_from (t : Z) (es : list event) : Prop :=
  match es with
  | [] => True
  | Turn a b _ :: es => t <= a /\ a <= b /\ clock_from b es
  | Reported _ _ :: es => clock_from t es
  end.

(** ** Supervision *)

(** What ended the [select!] of [run_fulfiller]. [reawait] is what awaiting a task's handle
    does when the [select!] has already taken the task's result. *)
Inductive cause := MetricsExit | FulfillerExit | CtrlC.

Definition shut_down (reawait : outcome unit) (c : cause) : outcome unit :=
  match (match c with FulfillerExit => reawait | _ => Ok tt end) with
  | Ok _ => match c with MetricsExit => reawait | _ => Ok tt end
  | o => o
  end.
End run.

(** ** Lemmas *)
Section facts.
Context {AE : ApiEnv} {F : FulfillEnv} {FO : FulfillEnvOk F} {N : FulfillmentNetwork} {A : ArtifactClient}.

Lemma counted_world m we : (counted m we).1 = (m we.1).2.
Proof. unfold counted. by destruct (m we.1) as [[] ?]. Qed.

(** The loop's steps are the turn of Fulfillment.v, with the errors counted. *)
Lemma steps_turn fu prover now we : (steps fu prover now we).1 = turn fu prover now we.1.
Proof. unfold steps, turn. by rewrite !counted_world. Qed.

Definition clocks_of (es : list event) : list (nat -> Z) :=
  omap (fun e => match e with Turn _ _ now => Some now | _ => None end) es.

(** A run takes the world through its turns, whatever the reports do in between. *)
Lemma exec_world fu es p :
  p_prover (exec fu es p) = p_prover p /\
  p_world (exec fu es p) = foldl (fun w now => turn fu (p_prover p) now w) (p_world p) (clocks_of es).
Proof.
  revert p. induction es as [|[t t' now|fetched now] es IH]; intros p; [done| |].
  - change (exec fu (Turn t t' now :: es) p) with (exec fu es (step fu (Turn t t' now) p)).
    destruct (IH (step fu (Turn t t' now) p)) as [-> ->]. cbn [clocks_of omap list_omap foldl].
    assert (p_prover (step fu (Turn t t' now) p) = p_prover p /\
                 p_world (step fu (Turn t t' now) p) = turn fu (p_prover p) now (p_world p)) as [-> ->]; [|done].
    unfold step. set (q := if _ <=? _ then _ else p).
    assert (p_prover q = p_prover p /\ p_world q = p_world p) as [Hq Hw] by (unfold q; by case_match).
    pose proof (steps_turn fu (p_prover q) now (p_world q, p_errors q)) as Hs.
    destruct (steps _ _ _ _) as [w n]. cbn [fst] in Hs. cbn [p_prover p_world]. by rewrite <- Hq, <- Hw, <- Hs.
  - change (exec fu (Reported fetched now :: es) p) with (exec fu es (step fu (Reported fetched now) p)).
    destruct (IH (step fu (Reported fetched now) p)) as [-> ->].
    assert (p_prover (step fu (Reported fetched now) p) = p_prover p /\
                 p_world (step fu (Reported fetched now) p) = p_world p) as [-> ->]; [|done].
    cbn [step]. by destruct (p_pending p).
Qed.

(** ** Reports are paced *)
Definition spaced (l : list Z) : Prop :=
  forall i x y, l !! i = Some x -> l !! S i = Some y -> y + REPORT_INTERVAL_SECS <= x.

Lemma spaced_cons x l : spaced l -> (forall y, head l = Some y -> y + REPORT_INTERVAL_SECS <= x) -> spaced (x :: l).
Proof. intros Hl Hx [|i] a b Ha Hb; [|by apply (Hl i)]. injection Ha as <-. apply Hx. by destruct l. Qed.

(** What the loop keeps: the newest spawned report is the last one, and every report
    sent or pending was spawned. *)
Definition paced (fu : Fulfiller) (now : Z) (p : process) : Prop :=
  p_last_report p <= now /\ (length (p_reports p) + p_pending p <= length (p_spawned p))%nat /\
  spaced (p_spawned p) /\
  (if disable_fulfillment fu then p_spawned p = [] else head (p_spawned p) = Some (p_last_report p)).

Lemma spawn_report_paced fu now t p :
  paced fu now p -> now <= t -> p_last_report p + REPORT_INTERVAL_SECS <= t -> paced fu t (spawn_report fu t p).
Proof.
  intros (Hl & Hn & Hs & Hh) Ht Hgap. unfold paced, spawn_report.
  destruct (disable_fulfillment fu); cbn [p_last_report p_reports p_pending p_spawned]; [done|].
  split; [lia|]. split; [cbn; lia|]. split; [|done]. apply spaced_cons; [done|]. intros y. rewrite Hh. by intros [= <-].
Qed.

Lemma turn_paced fu now a b clock p :
  paced fu now p -> now <= a -> a <= b ->
  let q := step fu (Turn a b clock) p in paced fu b q /\ a - p_last_report q < REPORT_INTERVAL_SECS.
Proof.
  intros Hp Ha Hb. unfold step. set (r := if _ <=? _ then _ else p).
  assert (paced fu b r /\ a - p_last_report r < REPORT_INTERVAL_SECS) as [Hr Hlast].
  { subst r. destruct (Z.leb_spec REPORT_INTERVAL_SECS (a - p_last_report p)) as [H|H].
    - split; [eapply spawn_report_paced; [exact Hp|lia|lia]|]. cbn. unfold REPORT_INTERVAL_SECS. lia.
    - split; [|done]. destruct Hp as (? & ?). split; [lia|done]. }
  destruct (steps _ _ _ _) as [w n]. done.
Qed.

Lemma exec_paced fu now es p : paced fu now p -> clock_from now es -> exists now', now <= now' /\ paced fu now' (exec fu es p).
Proof.
  revert now p. induction es as [|[a b clock|fetched t] es IH]; intros now p Hp Hc; [by exists now| |].
  - destruct Hc as (Ha & Hb & Hc). destruct (turn_paced fu now a b clock p Hp Ha Hb) as [Hq _].
    destruct (IH b _ Hq Hc) as (now' & Hn & H). exists now'. split; [lia|exact H].
  - apply (IH now (step fu (Reported fetched t) p)); [|exact Hc]. cbn [step].
    destruct (p_pending p) as [|k] eqn:Hk; [done|]. destruct Hp as (Hl & Hn & Hs & Hh).
    split; [done|]. split; [|done]. cbn [p_reports p_pending p_spawned]. rewrite length_app.
    destruct (report_prover_info _ _ _); cbn; lia.
Qed.

(** The reports of a run: one is spawned at the start, two are never less than
    [REPORT_INTERVAL_SECS] apart, none is sent that was not spawned, and a turn never
    starts with the last one older than that; a dry run spawns none. *)
Theorem reports_are_paced (fu : Fulfiller) (owner : result bytes) (identity : BuildIdentity) (t : Z) (w : World)
    (p : process) (es : list event) :
  run_start fu owner identity t w = Ok (inr p) -> clock_from t es ->
  let q := exec fu es p in
  spaced (p_spawned q) /\ (length (p_reports q) + p_pending q <= length (p_spawned q))%nat /\
  (if disable_fulfillment fu then p_spawned q = [] /\ p_reports q = [] else last (p_spawned p) = Some t) /\
  (forall a b now, p_last_report q <= a -> a <= b ->
     a - p_last_report (step fu (Turn a b now) q) < REPORT_INTERVAL_SECS).
Proof.
  unfold run_start. destruct (init owner) as [[|prover]| | |]; try done. intros [= <-] Hc. cbv zeta.
  set (p0 := spawn_report fu t _).
  assert (Hp : paced fu t p0).
  { unfold p0, paced, spawn_report. destruct (disable_fulfillment fu); cbn; (split; [lia|]); (split; [lia|]);
      (split; [|done]); intros [|[|i]] x y Hx Hy; done. }
  destruct (exec_paced fu t es p0 Hp Hc) as (now & Hnow & Hq). pose proof Hq as (_ & Hn & Hs & Hh).
  split; [done|]. split; [done|]. split.
  - assert (Hlast : disable_fulfillment fu = false -> last (p_spawned p0) = Some t).
    { unfold p0, spawn_report. by intros ->. }
    clearbody p0. destruct (disable_fulfillment fu); [|by apply Hlast]. split; [done|].
    rewrite Hh in Hn. destruct (p_reports _); [done|cbn in Hn; lia].
  - intros a b clock Ha Hb. destruct Hq as (Hl & Hq).
    apply (turn_paced fu (p_last_report (exec fu es p0))); [by split|done|done].
Qed.

(** ** A dry run *)

(** What a run with fulfillment disabled may do to the network: fetch the location of an
    input, and fail a request whose error names a verification key. *)
Inductive dry_call : relation Net :=
  | dry_fetch r n : dry_call n (net_fetch_stdin_uri r n).2
  | dry_vk_mismatch id n : dry_call n (net_fail_request_with_error id (Some VK_MISMATCH_ERROR) None n).2.

Definition dry : relation World := fun w w' => rtc dry_call (w_net w) (w_net w').
#[local] Instance dry_preorder : PreOrder dry.
Proof. split; [intros w; apply rtc_refl|]. intros a b c. unfold dry. intros H1 H2. by etrans. Qed.

Lemma same_net_dry w w' : w_net w' = w_net w -> dry w w'.
Proof. intros H. unfold dry. by rewrite H. Qed.
Lemma on_store_dry {T} (f : Store -> result T * Store) w : dry w (on_store f w).2.
Proof. apply same_net_dry. unfold on_store. by destruct (f (w_store w)). Qed.
Lemma on_net_dry {T} (f : Net -> result T * Net) w : (forall n, dry_call n (f n).2) -> dry w (on_net f w).2.
Proof. intros Hf. specialize (Hf (w_net w)). unfold on_net. destruct (f (w_net w)). by apply rtc_once. Qed.
Lemma api_dry {T} msg (call : Fault -> Db -> outcome T * Db) w : dry w (context msg (api_call call) w).2.
Proof. rewrite context_world. apply same_net_dry, api_call_world. Qed.
Lemma listing_dry req w : dry w (context "failed to get requests" (list_proof_requests req) w).2.
Proof. rewrite context_world. apply same_net_dry, list_proof_requests_spec. Qed.
Lemma copy_artifact_dry id uri ty w : dry w (copy_artifact id uri ty w).2.
Proof.
  unfold copy_artifact. apply bindM_rel; [apply _|done|]. intros present w1. case_match; [|done].
  apply bindM_rel; [apply _|done|]. intros b w2. apply on_store_dry.
Qed.

Lemma submit_work_dry fu q w : disable_fulfillment fu = true -> dry w (submit_work fu q w).2.
Proof.
  intros Hd. assert (Hr : dry w (submit_request fu q w).2).
  { unfold submit_request. rewrite Hd. apply bindM_rel; [apply _| |].
    - repeat case_match; try done. apply bindM_rel; [apply _|done|done].
    - intros b w1. case_match; [apply api_dry|]. apply bindM_rel; [apply _|done|]. intros _ w2.
      apply bindM_rel; [apply _|apply api_dry|]. intros _ w3. case_match; [apply on_store_dry|done]. }
  unfold submit_work. destruct (submit_request fu q w) as [[e|[]] w1]; [|done]. case_match; [|done].
  etrans; [exact Hr|]. apply on_net_dry. intros n. apply dry_vk_mismatch.
Qed.

Lemma schedule_request_dry fu now r w : dry w (schedule_request fu now r w).2.
Proof.
  unfold schedule_request. apply bindM_rel; [apply _|done|]. intros pa w1. apply bindM_rel; [apply _|done|].
  intros sa w2. apply bindM_rel; [apply _|apply on_store_dry|]. intros out w3. apply bindM_rel; [apply _| |].
  - case_match; [|done]. apply bindM_rel; [apply _|apply copy_artifact_dry|]. intros _ w4.
    apply bindM_rel; [apply _| |intros u w5; apply copy_artifact_dry]. apply on_net_dry. intros n. apply dry_fetch.
  - intros _ w4. set (req := mkCreateRequest _ _ _ _ _ _ _ _ _ _ _).
    assert (Hc : dry w4 (create_proof_request now req w4).2) by (apply same_net_dry, api_call_world).
    destruct (create_proof_request now req w4) as [[[]|] w5]; [case_match| |]; exact Hc.
Qed.

Lemma schedule_batches_dry fu now seen l w : dry w (schedule_batches fu now seen l w).2.
Proof.
  revert w. induction l as [|address l IH]; intros w; cbn [schedule_batches]; [done|].
  apply bindM_rel; [apply _| |intros c w1; apply bindM_rel; [apply _|apply IH|done]].
  unfold schedule_given_requests. apply bindM_rel; [apply _|done|]. intros rs w1.
  apply bindM_rel; [apply _| |done]. apply for_each_rel; [apply _|]. intros r w2 _.
  apply bindM_rel; [apply _|apply schedule_request_dry|done].
Qed.

Lemma batch_dry req (f : ProofRequest -> M unit) w :
  (forall q w, dry w (f q w).2) ->
  dry w (bindM (context "failed to get requests" (list_proof_requests req)) (for_each f) w).2.
Proof.
  intros Hf. apply bindM_rel; [apply _|apply listing_dry|]. intros qs w1. apply for_each_rel; [apply _|]. auto.
Qed.

Lemma cancel_requests_dry fu prover now w :
  disable_fulfillment fu = true -> dry w (cancel_requests fu prover now w).2.
Proof.
  intros Hd. unfold cancel_requests. apply bindM_rel; [apply _|done|]. intros rs w1. apply bindM_rel; [apply _| |].
  - case_match; [|done]. apply bindM_rel; [apply _|apply listing_dry|done].
  - intros fl w2. apply for_each_rel; [apply _|]. intros rk w3 _. unfold cancel_work, cancel_on_network.
    rewrite Hd. apply bindM_rel; [apply _|by case_match|]. intros _ w4. apply api_dry.
Qed.

Lemma schedule_requests_dry fu prover now w : dry w (schedule_requests fu prover now w).2.
Proof.
  unfold schedule_requests. apply bindM_rel; [apply _|apply listing_dry|]. intros rows w1.
  apply bindM_rel; [apply _|apply schedule_batches_dry|done].
Qed.

(** With fulfillment disabled a turn submits, fails and cancels nothing on the network,
    but for the failure sent when an error names a verification key. *)
Theorem dry_run_calls (fu : Fulfiller) (prover : bytes) (now : nat -> Z) (w : World) :
  disable_fulfillment fu = true -> dry w (turn fu prover now w).
Proof.
  intros Hd. unfold turn. etrans; [|apply schedule_requests_dry].
  etrans; [|by apply cancel_requests_dry]. transitivity (submit_requests fu (now 0%nat) w).2.
  - apply batch_dry. intros q w1. by apply submit_work_dry.
  - apply batch_dry. intros q w1. unfold fail_request. rewrite Hd.
    apply bindM_rel; [apply _|done|]. intros _ w2. apply api_dry.
Qed.

(** The shutdown is graceful after an interrupt; otherwise it depends on what awaiting a
    finished task's handle a second time does. *)
Lemma shut_down_spec reawait c : shut_down reawait c = match c with CtrlC => Ok tt | _ => reawait end.
Proof. by destruct c, reawait as [[]| | |]. Qed.
End facts.
End FulRun.
