(* ===== verification/GatewayServe.v ===== *)
(** * The gateway's process

    [bin/network-gateway/src/config.rs], [main.rs] and [run] and [serve] of [lib.rs]: the
    configuration, the artifact backend and program store it selects, and the services
    behind the two servers of Servers.v; the handlers are those of Gateway.v. *)
From Stdlib Require Import Ascii String.
From stdpp Require Import base gmap strings list.
From S2P Require Import Prelude ApiStore ProgramStore GatewayIds GatewayFacts Gateway GatewayInv GatewayProps Auth WorkerUtil Servers.
Local Open Scope string_scope.
Local Open Scope list_scope.
Local Open Scope Z_scope.
Local Open Scope handler_scope.

Module GwRun.
Import Gw Reach.

(** ** Configuration *)

(** [Config], and its defaults where the command line and the environment say nothing. *)
Record Settings := mkSettings {
  grpc_addr : string;
  http_addr : string;
  s_public_http_url : string;
  cluster_rpc : string;
  cluster_access_token : option string;
  artifact_store : string;
  s3_bucket : option string;
  s3_region : option string;
  s3_concurrency : Z;
  redis_nodes : option (list string);
  redis_pool_max_size : Z;
  s_balance_amount : option string;
  auth_mode : AuthMode;
  auth_allowlist : option string;
  program_store : string;
  program_store_dir : option string;
}.

(** [Config::parse] from what was given for each field, and the token [main] reads. *)
Definition settings_parse (env : Auth.Environ) (cluster_rpc : string)
    (grpc_addr http_addr public_http_url artifact_store s3_bucket s3_region : option string) (s3_concurrency : option Z)
    (redis_nodes : option (list string)) (redis_pool_max_size : option Z) (balance_amount : option string)
    (auth_mode : option AuthMode) (auth_allowlist program_store program_store_dir : option string) : Settings :=
  mkSettings (default "0.0.0.0:50061" grpc_addr) (default "0.0.0.0:8081" http_addr)
    (default "http://localhost:8081" public_http_url) cluster_rpc (Auth.token_from_env env (Some "GATEWAY"))
    (default "s3" artifact_store) s3_bucket s3_region (default 32 s3_concurrency) redis_nodes
    (default 16 redis_pool_max_size) balance_amount (default AuthNone auth_mode) auth_allowlist
    (default "memory" program_store) program_store_dir.

(** The artifact client of [main]. *)
Definition open_store (s : Settings) : result Wu.ArtifactStoreConfig :=
  if decide (artifact_store s = "s3") then
    match s3_region s with
    | None => inl (Msg "GATEWAY_S3_REGION is required for s3 backend")
    | Some region =>
        match s3_bucket s with
        | None => inl (Msg "GATEWAY_S3_BUCKET is required for s3 backend")
        | Some bucket => inr (Wu.S3Store region bucket (s3_concurrency s))
        end
    end
  else if decide (artifact_store s = "redis") then
    match redis_nodes s with
    | None => inl (Msg "GATEWAY_REDIS_NODES is required for redis backend")
    | Some nodes => inr (Wu.RedisStore nodes (redis_pool_max_size s))
    end
  else inl (Msg ("unknown GATEWAY_ARTIFACT_STORE=" +:+ artifact_store s +:+ " (expected s3 or redis)")).

Section serve.
Context {E : ApiEnv} {G : GatewayEnv} {H : HexCodec} {P : ProgramStore} {A : ArtifactStore} {Io : GatewayIo}.

(** ** Requests *)
Inductive rpc :=
  | RequestProof (now : Z) (req : RequestProofRequest)
  | GetStatus (rid : bytes)
  | GetDetails (rid : bytes)
  | GetFiltered (req : FilteredRequest)
  | GetNonce (address : bytes)
  | GetProgram (vk_hash : bytes)
  | CreateProgram (req : CreateProgramRequest)
  | GetBalance
  | CreateArtifact (signature : bytes) (artifact_type : Z)
  | Other (name : string).

(** A reply, by the message it carries. *)
Inductive answer :=
  | AnswerId (rid : bytes)
  | AnswerStatus (s : ProofRequestStatusResponse)
  | AnswerDetails (q : SdkProofRequest)
  | AnswerList (qs : list SdkProofRequest)
  | AnswerNumber (n : Z)
  | AnswerProgram (p : SdkProgram)
  | AnswerText (t : string)
  | AnswerDone.

Definition reply {T} (f : T -> answer) (m : M T) : M answer := bindM m (fun x => ret (f x)).

(** The services [serve] adds to the gRPC server. *)
Definition dispatch (cfg : Config) (r : rpc) : M answer :=
  match r with
  | RequestProof now req => reply AnswerId (request_proof cfg now req)
  | GetStatus rid => reply AnswerStatus (get_proof_request_status cfg rid)
  | GetDetails rid => reply AnswerDetails (get_proof_request_details cfg rid)
  | GetFiltered req => reply AnswerList (get_filtered_proof_requests cfg req)
  | GetNonce address => reply AnswerNumber (get_nonce address)
  | GetProgram vk_hash => reply AnswerProgram (get_program cfg vk_hash)
  | CreateProgram req => reply (fun _ => AnswerDone) (create_program cfg req)
  | GetBalance => reply AnswerText (get_balance cfg)
  | CreateArtifact signature t => reply AnswerText (create_artifact cfg signature t)
  | Other name => unsupported name
  end.

Inductive http_request :=
  | HttpRoot
  | HttpHealth
  | HttpPut (type_seg id : string) (body : bytes)
  | HttpGet (type_seg id : string).

(** The routes of [app] and of [artifact_http::router]. *)
Definition route (r : http_request) (w : World) : HttpResult bytes * World :=
  match r with
  | HttpRoot | HttpHealth => (inr (as_bytes "OK"), w)
  | HttpPut type_seg id body =>
      let (o, w) := put_artifact type_seg id body w in
      (match o with inr _ => inr [] | inl e => inl e end, w)
  | HttpGet type_seg id => get_artifact type_seg id w
  end.

(** ** The process *)
Abbreviation process := (Servers.servers World).
Definition grpc (cfg : Config) (r : rpc) (w : World) : World := (dispatch cfg r w).2.
Definition http (r : http_request) (w : World) : World := (route r w).2.
Definition step (cfg : Config) : Servers.event rpc http_request -> process -> option process := Servers.step (grpc cfg) http.

(** [run] and the start of [serve], up to the spawned gRPC task. [connected] is the
    connection to the cluster API. *)
Definition run_start (connected : result unit) (parses_addr : string -> bool) (mkdir : string -> result unit)
    (s : Settings) (w : World) : result (Config * process * StoreChoice) :=
  match connected with
  | inl _ => inl (Msg ("failed to connect to cluster RPC " +:+ cluster_rpc s))
  | inr _ =>
      let^ a := build_auth (auth_mode s) (auth_allowlist s) in
      let^ programs := build_program_store (program_store s) (program_store_dir s) mkdir in
      if parses_addr (grpc_addr s)
      then inr (build_config (s_public_http_url s) (s_balance_amount s) a, Servers.spawned w, programs)
      else inl (Msg ("invalid GATEWAY_GRPC_ADDR: " +:+ grpc_addr s))
  end.
End serve.

(** ** Runs *)
Section runs.
Context {E : ApiEnv} {EO : ApiEnvOk E} {G : GatewayEnv} {GO : GatewayEnvOk G} {H : HexCodec} {HO : HexCodecOk H}.
Context {P : ProgramStore} {PO : ProgramStoreOk P} {A : ArtifactStore} {AO : ArtifactStoreOk A} {Io : GatewayIo}.
Abbreviation process := (Servers.servers World).

(** What changes the world besides the gateway: artifacts expire, and the cluster's other
    users call the API. *)
Inductive outside : World -> World -> Prop :=
  | expired s w :
      (forall id t, as_view s id t = as_view (w_store w) id t \/ as_view s id t = None) ->
      outside w (mkWorld s (w_programs w) (w_db w) (w_nonces w) (w_calls w) (w_minted w))
  | called o w :
      (forall n, match o with ApiCreate _ _ req => cr_proof_id req <> typeid n | _ => True end) ->
      outside w (mkWorld (w_store w) (w_programs w) (api_run o (w_db w)) (w_nonces w) (w_calls w) (w_minted w)).

(** The next minted id is unused, and clients put no bytes under a program's id. *)
Definition event_ok (e : Servers.event rpc http_request) (w : World) : Prop :=
  match e with
  | Servers.ServeRpc (RequestProof _ _) => next_unused (w_db w) (w_minted w)
  | Servers.ServeHttp (HttpPut _ id _) => forall h, id <> program_artifact_id h
  | _ => True
  end.

Definition reachable (cfg : Config) : process -> process -> Prop :=
  Servers.reachable (grpc cfg) http event_ok outside.

Lemma reply_world {T} (f : T -> answer) (m : M T) w : (reply f m w).2 = (m w).2.
Proof. unfold reply, bindM. by destruct (m w) as [[] ?]. Qed.

(** A served request is a step of the gateway, or leaves the world as it was. *)
Lemma dispatch_gstep cfg r hist w :
  event_ok (Servers.ServeRpc r) w -> (dispatch cfg r w).2 = w \/ exists hist', gstep cfg hist w hist' (dispatch cfg r w).2.
Proof.
  destruct r; intros Hok; cbn [dispatch]; rewrite ?reply_world; try (right; eexists; by constructor); by left.
Qed.

Lemma route_gstep cfg r hist w :
  event_ok (Servers.ServeHttp r) w -> (route r w).2 = w \/ exists hist', gstep cfg hist w hist' (route r w).2.
Proof.
  destruct r as [| |seg id body|seg id]; intros Hok; cbn [route]; [by left|by left| |].
  - assert (Hg : gstep cfg hist w hist (put_artifact seg id body w).2) by (by constructor).
    destruct (put_artifact seg id body w). right. by exists hist.
  - right. eexists. by constructor.
Qed.

Lemma reachable_gsteps cfg p0 p :
  (exists hist, gsteps cfg hist (Servers.v_world p0)) -> reachable cfg p0 p ->
  exists hist, gsteps cfg hist (Servers.v_world p).
Proof.
  intros H0 Hr. refine (Servers.reachable_world _ _ _ _ (fun w => exists hist, gsteps cfg hist w) p0 p _ _ _ H0 Hr).
  - intros r w Hok [hist Hw]. destruct (dispatch_gstep cfg r hist w Hok) as [He|[h Hh]]; unfold grpc;
      [rewrite He; eauto|eauto using GStep].
  - intros r w Hok [hist Hw]. destruct (route_gstep cfg r hist w Hok) as [He|[h Hh]]; unfold http;
      [rewrite He; eauto|eauto using GStep].
  - intros w w' Ho [hist Hw]. exists hist. eapply GStep; [exact Hw|]. destruct Ho; by constructor.
Qed.

(** From a start that succeeds on an empty registry, every row the running gateway has
    created carries a requester the configured authentication permits, which in
    allowlist mode is one of a list that is not empty. *)
Theorem gateway_serves_permitted (connected : result unit) (parses_addr : string -> bool) (mkdir : string -> result unit)
    (s : Settings) (w : World) (cfg : Config) (p0 p : process) (programs : StoreChoice) (n : nat) (r : DbProofRequest)
    (Hsane : forall n, attempt_sane (attempts n).1 /\ Forall attempt_sane (attempts n).2) :
  run_start connected parses_addr mkdir s w = inr (cfg, p0, programs) -> gsteps cfg [] w -> reachable cfg p0 p ->
  (n < w_minted (Servers.v_world p))%nat -> w_db (Servers.v_world p) !! typeid n = Some r ->
  exists a, r_requester r = to_vec a /\ build_auth (auth_mode s) (auth_allowlist s) = inr (auth cfg) /\
    match auth_mode s with
    | AuthNone => a = ZERO
    | Verify => True
    | Allowlist => a ∈ allowlist (auth cfg)
    end.
Proof.
  intros Hstart H0 Hr Hn Hrow. unfold run_start in Hstart. destruct connected as [|[]]; [done|].
  destruct (build_auth _ _) as [|a] eqn:Ha; [done|]. cbn in Hstart.
  destruct (build_program_store _ _ _) as [|c]; [done|]. cbn in Hstart. case_match; [|done]. simplify_eq.
  destruct (reachable_gsteps _ (Servers.spawned w) p (ex_intro _ [] H0) Hr) as [hist Hg]. cbn [build_config auth].
  destruct (inv_rows _ _ _ (gsteps_inv _ Hsane _ _ Hg) n r Hn Hrow) as [(x & Hx & Hreq) _].
  exists x. split; [done|]. split; [done|]. unfold permitted in Hx. cbn in Hx.
  assert (Hm : mode a = auth_mode s); [|by rewrite Hm in Hx].
  unfold build_auth in Ha. by repeat case_match; simplify_eq.
Qed.
End runs.
End GwRun.
