(* ===== verification/ApiServe.v ===== *)
(** * The API's process

    [bin/api/src/main.rs] and [run] of [lib.rs]: the configuration from the environment,
    the start, and the handlers of ApiStore.v and Manifest.v behind the authentication of
    Auth.v and the two servers of Servers.v. *)
From stdpp Require Import base gmap strings list.
From S2P Require Import Prelude Proto TaskChannel CoordState Coordinator Capacity Manifest ApiStore Auth Servers.
Local Open Scope string_scope.
Local Open Scope list_scope.
Local Open Scope Z_scope.
Local Open Scope handler_scope.

Module ApiRun.

(** ** Configuration *)
Record ApiConfig := mkApiConfig {
  http_addr : string;
  grpc_addr : string;
  postgres_uri : string;
  postgres_auto_migrate : bool;
  auth : Auth.AuthConfig;
}.

(** The configuration of [main]. *)
Definition config_from_env (env : Auth.Environ) : outcome (Auth.AuthConfigError + ApiConfig) :=
  match env "API_DATABASE_URL" with
  | None => Panic
  | Some uri =>
      Ok (let^ a := Auth.from_env env (Some "API") in
          inr (mkApiConfig (default "127.0.0.1:3000" (env "API_HTTP_ADDR")) (default "127.0.0.1:50051" (env "API_GRPC_ADDR"))
                 uri (bool_decide (default "false" (env "API_AUTO_MIGRATE") = "true")) a))
  end.

Section api.
Context {E : ApiEnv} {WL : WebLayer}.

(** ** The service *)
Record state := mkState { a_db : Db; a_manifest : ClusterComponentManifest }.

Inductive rpc :=
  | Create (f : Fault) (now : Z) (req : ProofRequestCreateRequest)
  | Cancel (f : Fault) (id : string)
  | Update (f : Fault) (req : ProofRequestUpdateRequest)
  | Get (f : Fault) (id : string)
  | List (f : Fault) (req : ProofRequestListRequest)
  | SetManifest (now : option Z) (components : list ComponentInfo) (capacity : option CapacitySnapshot)
  | GetManifest
  | Healthcheck.

Inductive response :=
  | RUnit
  | RRow (q : option ProofRequest)
  | RRows (qs : list ProofRequest)
  | RManifest (m : ClusterComponentManifest).

Definition reply {T} (f : T -> response) (o : outcome T) : outcome response :=
  match o with Ok x => Ok (f x) | Err e => Err e | Panic => Panic | Fuel => Fuel end.

(** [ClusterServiceImpl]. *)
Definition serve (r : rpc) (s : state) : outcome response * state :=
  let on_table (p : outcome unit * Db) := (reply (fun _ => RUnit) p.1, mkState p.2 (a_manifest s)) in
  match r with
  | Create f now req => on_table (proof_request_create f now req (a_db s))
  | Cancel f id => on_table (proof_request_cancel f id (a_db s))
  | Update f req => on_table (proof_request_update f req (a_db s))
  | Get f id => (reply RRow (proof_request_get f id (a_db s)), s)
  | List f req => (reply RRows (proof_request_list f req (a_db s)), s)
  | SetManifest now components capacity =>
      let (o, m) := set_cluster_component_info now components capacity (a_manifest s) in
      (reply (fun _ => RUnit) o, mkState (a_db s) m)
  | GetManifest => (reply RManifest (get_cluster_component_info (a_manifest s)), s)
  | Healthcheck => (Ok RUnit, s)
  end.

(** The gRPC server: the two layers around the service. *)
Definition answer (c : Auth.AuthConfig) (h : Auth.HeaderMap) (r : rpc) (s : state) : outcome response * state :=
  Auth.bearer_auth c (web_headers h) s (serve r).

(** ** The process *)
Definition grpc (c : Auth.AuthConfig) (hr : Auth.HeaderMap * rpc) (s : state) : state := (answer c hr.1 hr.2 s).2.

(** ["/"] and ["/healthz"]. *)
Definition http (_path : unit) (s : state) : state := s.

(** [run] up to the spawned gRPC task; the manifest is empty. *)
Definition run_start (cfg : ApiConfig) (connected migrated : bool) (parses_addr : string -> bool) (db : Db)
  : outcome (Servers.servers state) :=
  if negb connected then Panic
  else if postgres_auto_migrate cfg && negb migrated then Panic
  else if parses_addr (grpc_addr cfg) then Ok (Servers.spawned (mkState db empty_manifest)) else Panic.

Definition reachable (cfg : ApiConfig) : Servers.servers state -> Servers.servers state -> Prop :=
  Servers.reachable (grpc (auth cfg)) http (fun _ _ => True) (fun _ _ => False).
End api.

(** ** Lemmas *)
Section facts.
Context {E : ApiEnv} {EO : ApiEnvOk E} {WL : WebLayer} {WO : WebLayerOk WL}.

Definition table_op (r : rpc) : list api_op :=
  match r with
  | Create f now req => [ApiCreate f now req]
  | Cancel f id => [ApiCancel f id]
  | Update f req => [ApiUpdate f req]
  | _ => []
  end.

Lemma serve_table r s : a_db (serve r s).2 = api_runs (table_op r) (a_db s).
Proof. destruct r; try done. cbn. by destruct (set_cluster_component_info _ _ _ _). Qed.

(** What reaches the table of a running API is a sequence of its statements. *)
Lemma reachable_table cfg db p :
  reachable cfg (Servers.spawned (mkState db empty_manifest)) p ->
  exists os, a_db (Servers.v_world p) = api_runs os db.
Proof.
  intros Hr. refine (Servers.reachable_world _ _ _ _ (fun s => exists os, a_db s = api_runs os db) _ p _ _ _ _ Hr);
    [|done|done|by exists []].
  intros [h r] s _ [os Hs]. unfold grpc, answer, Auth.bearer_auth. cbn [fst snd].
  destruct (Auth.call _ _ _); cbn [snd]; eauto.
  exists (os ++ table_op r). rewrite serve_table, Hs. unfold api_runs. by rewrite foldl_app.
Qed.

(** A running API keeps a settled row's status, and with authentication on it neither
    answers nor runs a request that does not carry its token. *)
Theorem api_guards_its_rows (env : Auth.Environ) (cfg : ApiConfig) (connected migrated : bool)
    (parses_addr : string -> bool) (db : Db) (p0 p : Servers.servers state) :
  config_from_env env = Ok (inr cfg) -> run_start cfg connected migrated parses_addr db = Ok p0 -> reachable cfg p0 p ->
  (forall id row, db !! id = Some row -> r_proof_status row <> status_i32 PrPending ->
     exists row', a_db (Servers.v_world p) !! id = Some row' /\ r_proof_status row' = r_proof_status row) /\
  (Auth.required (auth cfg) = true ->
     exists tok, Auth.token_from_env env (Some "API") = Some tok /\
       forall h r, answer (auth cfg) h r (Servers.v_world p) =
         if decide (Auth.get "authorization" h = Some (Auth.BEARER_PREFIX +:+ tok)) then serve r (Servers.v_world p)
         else (Err (mkStatus Unauthenticated "missing or invalid bearer token"), Servers.v_world p)).
Proof.
  intros Hc Hs Hr. unfold config_from_env in Hc. destruct (env "API_DATABASE_URL") as [uri|]; [|done].
  destruct (Auth.from_env env (Some "API")) as [|a] eqn:Ha; [done|]. cbn in Hc. injection Hc as <-.
  unfold run_start in Hs. repeat case_match; simplify_eq. split.
  - intros id row Hrow Hp. destruct (reachable_table _ _ _ Hr) as [os ->].
    destruct (api_runs_step os db) as [Hkeep _]. destruct (Hkeep id row Hrow) as (row' & Hrow' & Hst).
    exists row'. split; [done|]. by apply Hst.
  - cbn [auth]. intros Hreq. destruct (Auth.auth_layer_is_exact env (Some "API") a [] (Ok tt) Ha) as [Hon _].
    destruct (Hon Hreq) as (tok & Htok & _). exists tok. split; [done|]. intros h r.
    destruct (Auth.auth_layer_is_exact env (Some "API") a (web_headers h) (Ok tt) Ha) as [Hon' _].
    destruct (Hon' Hreq) as (tok' & Htok' & Hcall). rewrite Htok in Htok'. injection Htok' as <-.
    unfold answer, Auth.bearer_auth. rewrite Hcall. rewrite web_keeps_authorization. by destruct (decide (Auth.get "authorization" h = Some _)).
Qed.
End facts.
End ApiRun.
