(* ===== verification/TestOracle.v ===== *)
(** * What the end-to-end tests check

    The judgements of the test cluster ([bin/test-cluster/src/assert.rs], [suite.rs] and
    the command line of [main.rs]): the bounded poll, waiting for a proof's status,
    holding it over a window, and the checks of the result. They observe the API of
    ApiStore.v through its retrying client while the cluster goes on; the theorems say
    what a verdict tells about the table. *)
From Stdlib Require Import Ascii String.
From stdpp Require Import base gmap strings list.
From S2P Require Import Prelude ApiStore ProgramStore GatewayIds GatewayFacts Gateway GatewayProps Fulfillment.
Local Open Scope string_scope.
Local Open Scope list_scope.
Local Open Scope Z_scope.

(** What a test observes in the [i]-th round of a loop: the clock in milliseconds, the
    table and the fate of the call; and the JSON parser of the extra data. *)
Class TestIo := {
  clock : nat -> Z;
  table : nat -> Db;
  fate : nat -> Attempt * list Attempt;
  parse_execution_result : string -> option ExecutionResult;
}.

(** Two rounds are [POLL_INTERVAL] apart, and between them the API ran statements. *)
Class TestIoOk {E : ApiEnv} {EO : ApiEnvOk E} (T : TestIo) : Prop := {
  clock_advances : forall i, clock i + 500 <= clock (S i);
  table_evolves : forall i, exists os, table (S i) = api_runs os (table i);
}.

#[export] Instance ExecutionStatus_eq_dec : EqDecision ExecutionStatus.
Proof. solve_decision. Defined.

Module Oracle.
Definition POLL_INTERVAL : Z := 500.

Section oracle.
Context {E : ApiEnv} {G : GatewayEnv} {A : ArtifactStore} {T : TestIo}.

(** ** Polling *)

(** [poll_until] from its [i]-th poll on; [f i] is what that poll answers. *)
Fixpoint poll_from {V} (fuel i : nat) (deadline : Z) (f : nat -> result (option V)) : outcome (result V) :=
  match fuel with
  | O => Fuel
  | S fuel =>
      match f i with
      | inl e => Ok (inl e)
      | inr (Some v) => Ok (inr v)
      | inr None => if deadline <=? clock i then Ok (inl (Msg "timed out")) else poll_from fuel (S i) deadline f
      end
  end.

(** As many polls as fit into the time, and the one that notices the deadline. *)
Definition polls (timeout : Z) : nat := S (S (Z.to_nat (timeout / POLL_INTERVAL))).
Definition poll_until {V} (start timeout : Z) (f : nat -> result (option V)) : outcome (result V) :=
  poll_from (polls timeout) 0 (start + timeout) f.

(** [get_proof_request]. *)
Definition get_proof_request (i : nat) (proof_id : string) : result ProofRequest :=
  match (retry_call (fate i).1 (fate i).2 (fun f db => (proof_request_get f proof_id db, db)) (table i)).1 with
  | Ok (Some q) => inr q
  | Ok None => inl (Msg ("proof request " +:+ proof_id +:+ " not found"))
  | Err e => inl (Rpc e)
  | _ => inl (Msg "get_proof_request")
  end.

Definition is_terminal (s : option ProofRequestStatus) : bool :=
  match s with Some PrCompleted | Some PrFailed | Some PrCancelled => true | _ => false end.

(** [wait_proof_status]. *)
Definition status_poll (proof_id : string) (expected : ProofRequestStatus) (i : nat) : result (option ProofRequest) :=
  match get_proof_request i proof_id with
  | inl e => inl e
  | inr pr =>
      let status := proof_status (q_proof_status pr) in
      if bool_decide (status = Some expected) then inr (Some pr)
      else if is_terminal status then inl (Msg ("proof " +:+ proof_id +:+ " reached another terminal status"))
      else inr None
  end.
Definition wait_proof_status (start timeout : Z) (proof_id : string) (expected : ProofRequestStatus)
  : outcome (result ProofRequest) := poll_until start timeout (status_poll proof_id expected).

(** [assert_status_holds], which reads the clock before each poll. *)
Fixpoint holds_from (fuel i : nat) (deadline : Z) (proof_id : string) (expected : ProofRequestStatus)
  : outcome (result unit) :=
  match fuel with
  | O => Fuel
  | S fuel =>
      if clock i <? deadline then
        match get_proof_request i proof_id with
        | inl e => Ok (inl e)
        | inr pr =>
            if bool_decide (proof_status (q_proof_status pr) = Some expected)
            then holds_from fuel (S i) deadline proof_id expected
            else Ok (inl (Msg ("proof " +:+ proof_id +:+ " status flipped away")))
        end
      else Ok (inr tt)
  end.
Definition assert_status_holds (start window : Z) (proof_id : string) (expected : ProofRequestStatus)
  : outcome (result unit) := holds_from (polls window) 0 (start + window) proof_id expected.

(** ** Checks of the result *)
Record ExpectedExecution := mkExpected {
  x_status : option ExecutionStatus;
  x_min_cycles : Z;
  x_gas : option Z;
  x_require_pv_hash : bool;
}.

(** [assert_execution_result]. *)
Definition assert_execution_result (pr : ProofRequest) (expected : ExpectedExecution) : result ExecutionResult :=
  match q_extra_data pr with
  | None => inl (Msg ("proof " +:+ q_id pr +:+ " has no extra_data (execution result missing)"))
  | Some extra_data =>
      match parse_execution_result extra_data with
      | None => inl (Msg ("proof " +:+ q_id pr +:+ ": extra_data is not an ExecutionResult"))
      | Some er =>
          if negb (bool_decide (execution_status (er_status er) = x_status expected)) then inl (Msg "execution status")
          else if er_cycles er <? x_min_cycles expected then inl (Msg "cycles")
          else if match x_gas expected with Some gas => negb (er_gas er =? gas) | None => false end then inl (Msg "gas")
          else if x_require_pv_hash expected && bool_decide (er_public_values_hash er = []) then inl (Msg "empty public_values_hash")
          else inr er
      end
  end.

(** [assert_proof_artifact_downloadable]. *)
Definition assert_proof_artifact_downloadable (n : nat) (pr : ProofRequest) (s : AS) : result unit :=
  match q_proof_artifact_id pr with
  | None => inl (Msg ("proof " +:+ q_id pr +:+ " has no proof_artifact_id"))
  | Some id =>
      match as_download_raw n id Proof s with
      | inl _ => inl (Msg ("download proof artifact " +:+ id))
      | inr [] => inl (Msg ("proof artifact " +:+ id +:+ " is empty"))
      | inr _ => inr tt
      end
  end.

(** [assert_proof_completed]. *)
Definition assert_proof_completed (start timeout : Z) (proof_id : string) (n : nat) (s : AS) : outcome (result ProofRequest) :=
  match wait_proof_status start timeout proof_id PrCompleted with
  | Ok (inr pr) => match assert_proof_artifact_downloadable n pr s with inr _ => Ok (inr pr) | inl e => Ok (inl e) end
  | o => o
  end.
End oracle.

(** ** The suite *)
Inductive Tier := Smoke | Full.
Inductive Cmd := Run (name : string) | Suite (tier : Tier) | CmdList | CoordinatorChild.

(** [parse_args]. *)
Definition parse_args (args : list string) : option Cmd :=
  match args with
  | [] => Some (Suite Smoke)
  | [cmd; arg] =>
      if decide (cmd = "run") then Some (Run arg)
      else if decide (cmd = "suite") then
        if decide (arg = "smoke") then Some (Suite Smoke)
        else if decide (arg = "full") then Some (Suite Full) else None
      else None
  | [cmd] =>
      if decide (cmd = "list") then Some CmdList
      else if decide (cmd = "__coordinator-child") then Some CoordinatorChild else None
  | _ => None
  end.

Inductive Outcome := Pass | Fail | Timeout.
#[export] Instance Outcome_eq_dec : EqDecision Outcome.
Proof. solve_decision. Defined.

(** The verdict on a scenario's process: [None] when it did not end in time, else
    whether it could be waited for and its exit was a success. *)
Definition scenario_outcome (waited : option (result bool)) : result Outcome :=
  match waited with
  | Some (inr true) => inr Pass
  | Some (inr false) => inr Fail
  | Some (inl e) => inl e
  | None => inr Timeout
  end.

(** The loop and the verdict of [run_suite]. *)
Fixpoint run_suite (children : list (option (result bool))) (results : list Outcome) : result (list Outcome * bool) :=
  match children with
  | [] => inr (results, forallb (fun o => bool_decide (o = Pass)) results)
  | c :: children =>
      match scenario_outcome c with
      | inl e => inl e
      | inr o => run_suite children (results ++ [o])
      end
  end.

(** The lines [print_log_tail] prints. *)
Definition log_tail (lines : list string) (max_lines : nat) : list string := drop (length lines - max_lines) lines.

(** ** Lemmas *)
Section facts.
Context {E : ApiEnv} {EO : ApiEnvOk E} {G : GatewayEnv} {GO : GatewayEnvOk G} {A : ArtifactStore} {AO : ArtifactStoreOk A}.
Context {T : TestIo} {TO : TestIoOk T}.

Lemma clock_grows i k : clock i + 500 * Z.of_nat k <= clock (i + k)%nat.
Proof.
  induction k as [|k IH]; [rewrite Nat.add_0_r; lia|]. replace (i + S k)%nat with (S (i + k)) by lia.
  pose proof (clock_advances (i + k)). lia.
Qed.

Lemma table_grows i k : exists os, table (i + k)%nat = api_runs os (table i).
Proof.
  induction k as [|k [os IH]]; [exists []; by rewrite Nat.add_0_r|].
  destruct (table_evolves (i + k)) as [os' H]. exists (os ++ os').
  replace (i + S k)%nat with (S (i + k)) by lia. rewrite H, IH. unfold api_runs. by rewrite foldl_app.
Qed.

Lemma poll_from_spec {V} fuel i deadline (f : nat -> result (option V)) :
  deadline <= clock i + 500 * Z.of_nat (pred fuel) -> fuel <> O ->
  exists r, poll_from fuel i deadline f = Ok r /\ forall v, r = inr v -> exists j, f j = inr (Some v).
Proof.
  revert i. induction fuel as [|fuel IH]; intros i Hd Hf; [done|]. cbn [poll_from].
  destruct (f i) as [e|[v|]] eqn:Hfi; [by eexists|by eexists; split; [done|]; intros ? [= <-]; exists i|].
  destruct (Z.leb_spec deadline (clock i)) as [|Hlt]; [by eexists|].
  destruct fuel as [|fuel]; [cbn in Hd; lia|]. apply IH; [|done].
  pose proof (clock_advances i). cbn [pred] in *. lia.
Qed.

(** A bounded poll always ends. *)
Lemma poll_until_ends {V} start timeout (f : nat -> result (option V)) :
  0 <= timeout -> start <= clock 0 ->
  exists r, poll_until start timeout f = Ok r /\ forall v, r = inr v -> exists j, f j = inr (Some v).
Proof.
  intros Ht Hs. apply poll_from_spec; [|done]. unfold polls, POLL_INTERVAL. cbn [pred].
  pose proof (Z.div_mod timeout 500 ltac:(lia)). pose proof (Z.mod_pos_bound timeout 500 ltac:(lia)).
  pose proof (Z.div_pos timeout 500 Ht ltac:(lia)). lia.
Qed.

(** A proof request read is the row of the table at that poll. *)
Lemma get_proof_request_row i id q :
  get_proof_request i id = inr q -> exists row, table i !! id = Some row /\ q_proof_status q = r_proof_status row.
Proof.
  unfold get_proof_request. destruct (retry_call _ _ _ _).1 as [[q'|]| | |] eqn:Hr; try done. intros [= <-].
  apply Fulfill.retry_read in Hr as [f Hr]. unfold proof_request_get in Hr. destruct f; cbn in Hr; try done.
  destruct (table i !! id) as [row|] eqn:Hrow; [|done]. destruct (into_proto row) as [q0| | |] eqn:Hq; simplify_eq.
  exists row. split; [done|]. by apply into_proto_fields in Hq as [-> _].
Qed.

(** Waiting for a status always ends; when it succeeds, the row of some poll had that
    status, and if the status is terminal, every later table has it. *)
Theorem wait_proof_status_sound (start timeout : Z) (id : string) (expected : ProofRequestStatus) :
  0 <= timeout -> start <= clock 0 ->
  exists r, wait_proof_status start timeout id expected = Ok r /\
    forall q, r = inr q -> exists i, forall k, (k = 0%nat \/ expected <> PrPending) ->
      exists row, table (i + k)%nat !! id = Some row /\ r_proof_status row = status_i32 expected.
Proof.
  intros Ht Hs. destruct (poll_until_ends start timeout (status_poll id expected) Ht Hs) as (r & Hr & Hv).
  exists r. split; [done|]. intros q Hq. destruct (Hv q Hq) as [i Hi]. exists i. intros k Hk.
  unfold status_poll in Hi. destruct (get_proof_request i id) as [|pr] eqn:Hg; [done|].
  destruct (bool_decide _) eqn:Hb; [|by destruct (is_terminal _)]. apply bool_decide_eq_true in Hb.
  apply get_proof_request_row in Hg as (row & Hrow & Hst). rewrite Hst in Hb. apply proof_status_sound in Hb. symmetry in Hb.
  destruct Hk as [->|Hne]; [rewrite Nat.add_0_r; eauto|].
  destruct (table_grows i k) as [os ->]. destruct (api_runs_step os (table i)) as [Hkeep _].
  destruct (Hkeep id row Hrow) as (row' & Hrow' & Hstep). exists row'. split; [done|]. rewrite <- Hb.
  apply Hstep. rewrite Hb. by intros Heq%(inj status_i32).
Qed.

(** A settled row passes the check that its status holds, whatever the cluster does
    meanwhile, as long as the API answers. *)
Theorem settled_status_holds (start window : Z) (id : string) (expected : ProofRequestStatus) (row : DbProofRequest) :
  0 <= window -> start <= clock 0 -> expected <> PrPending ->
  table 0 !! id = Some row -> r_proof_status row = status_i32 expected ->
  (forall i, exists q, get_proof_request i id = inr q) ->
  assert_status_holds start window id expected = Ok (inr tt).
Proof.
  intros Hw Hs Hne Hrow Hst Hread. unfold assert_status_holds.
  assert (Hpoll : forall i q, get_proof_request i id = inr q -> proof_status (q_proof_status q) = Some expected).
  { intros i q (row' & Hrow' & ->)%get_proof_request_row. destruct (table_grows 0 i) as [os Hos]. cbn in Hos.
    rewrite Hos in Hrow'. destruct (api_runs_step os (table 0)) as [Hkeep _].
    destruct (Hkeep id row Hrow) as (row'' & Hrow'' & Hstep). simplify_eq.
    rewrite (rs_final _ _ Hstep), Hst; [apply proof_status_code|]. rewrite Hst. by intros Heq%(inj status_i32). }
  assert (Hfuel : start + window <= clock 0 + 500 * Z.of_nat (pred (polls window))).
  { unfold polls, POLL_INTERVAL. cbn [pred].
    pose proof (Z.div_mod window 500 ltac:(lia)). pose proof (Z.mod_pos_bound window 500 ltac:(lia)).
    pose proof (Z.div_pos window 500 Hw ltac:(lia)). lia. }
  set (deadline := start + window) in *. clearbody deadline.
  assert (Hall : forall fuel i, deadline <= clock i + 500 * Z.of_nat (pred fuel) -> fuel <> O ->
    holds_from fuel i deadline id expected = Ok (inr tt)); [|by apply Hall].
  intros fuel. induction fuel as [|fuel IH]; intros i Hd Hf; [done|]. cbn [holds_from].
  destruct (Z.ltb_spec (clock i) deadline) as [Hlt|]; [|done].
  destruct (Hread i) as [q Hq]. rewrite Hq, bool_decide_eq_true_2 by eauto.
  destruct fuel as [|fuel]; [cbn in Hd; lia|]. apply IH; [|done].
  pose proof (clock_advances i). cbn [pred] in *. lia.
Qed.

End facts.

(** A suite that ran to its end has a verdict per scenario, and passes exactly when every
    scenario's process succeeded in time. *)
Theorem run_suite_exact (children : list (option (result bool))) (results : list Outcome) (ok : bool) :
  run_suite children [] = inr (results, ok) ->
  length results = length children /\ (ok = true <-> Forall (fun c => c = Some (inr true)) children).
Proof.
  assert (Hall : forall cs acc rs b, run_suite cs acc = inr (rs, b) ->
    length rs = (length acc + length cs)%nat /\
    (b = true <-> Forall (fun o => o = Pass) acc /\ Forall (fun c => c = Some (inr true)) cs)).
  { induction cs as [|c cs IH]; intros acc rs b; cbn [run_suite].
    - intros [= <- <-]. split; [cbn; lia|].
      rewrite forallb_forall, Forall_forall. setoid_rewrite bool_decide_eq_true. setoid_rewrite list_elem_of_In.
      split; [done|by intros [? _]].
    - destruct (scenario_outcome c) as [|o] eqn:Ho; [done|]. intros Hr. destruct (IH _ _ _ Hr) as [Hl Hb].
      rewrite length_app in Hl. cbn in Hl |- *. split; [lia|]. rewrite Hb, Forall_app, Forall_singleton, Forall_cons.
      assert (o = Pass <-> c = Some (inr true)) as ->; [|tauto].
      destruct c as [[|[]]|]; simplify_eq/=; naive_solver. }
  intros Hr. destruct (Hall _ _ _ _ Hr) as [Hl Hb]. split; [done|]. rewrite Hb. split; [by intros [_ ?]|done].
Qed.

(** A test of a cluster at rest: the laws of the observations can hold. *)
Definition resting_cluster (db : Db) : TestIo :=
  {| clock := fun i => 500 * Z.of_nat i; table := fun _ => db; fate := fun _ => (Served Healthy, []);
     parse_execution_result := fun _ => None |}.
#[local] Instance resting_cluster_ok {E : ApiEnv} {EO : ApiEnvOk E} db : TestIoOk (resting_cluster db).
Proof. split; [intros i; cbn; lia|]. intros i. by exists []. Qed.
End Oracle.
